(** * A shallow embedding of the structured logger

    The development follows the TypeScript sources:
    - [lib/types.ts]: the [LogLevel] enumeration and the formatter and
      transport interfaces;
    - [lib/utils.ts]: [isObject];
    - [lib/formatters/json-formatter.ts]: [JsonLogFormatter] and
      [errorToObject];
    - [lib/logger.ts]: the [Logger] class;
    - [lib/async-context.ts]: the ambient log context;
    - [lib/console-transport.ts]: [ConsoleTransport].

    JavaScript objects live in a heap and are referred to by address, so
    that aliasing, cyclic structures and in-place updates are those of the
    program.  Calls that may raise run in a state-and-exception monad over
    the heap, the console and the asynchronous-context store. *)

From Stdlib Require Import ZArith List String Ascii Bool Lia.
From Stdlib Require Import DecimalString.
From stdpp Require Import base list strings.
Import ListNotations.

Local Open Scope string_scope.
Local Open Scope Z_scope.
Local Open Scope list_scope.

(** ** Text helpers *)

Module Text.

(** The double quote character and the backslash. *)
Definition dquote : ascii := ascii_of_nat 34.
Definition backslash : ascii := ascii_of_nat 92.
Definition newline : ascii := ascii_of_nat 10.

Definition char (c : ascii) : string := String c EmptyString.

(** Decimal rendering of an integer, as [Number.prototype.toString] and
    [BigInt.prototype.toString] give it for integral values. *)
Definition decimal (n : Z) : string := NilZero.string_of_int (Z.to_int n).

Definition decimal_nat (n : nat) : string := decimal (Z.of_nat n).

Fixpoint concat_with (sep : string) (parts : list string) : string :=
  match parts with
  | [] => EmptyString
  | [p] => p
  | p :: rest => p +:+ sep +:+ concat_with sep rest
  end.

Fixpoint repeat_string (s : string) (n : nat) : string :=
  match n with
  | O => EmptyString
  | S m => s +:+ repeat_string s m
  end.

Definition hex_digit (n : nat) : ascii :=
  if Nat.ltb n 10 then ascii_of_nat (48 + n) else ascii_of_nat (87 + n).

(** [QuoteJSONString] of ECMAScript on a string of code units below 256:
    the two-character escapes, [\u00XX] for the other control characters. *)
Definition escape_char (c : ascii) : string :=
  let n := nat_of_ascii c in
  if Nat.eqb n 34 then String backslash (char dquote)
  else if Nat.eqb n 92 then String backslash (char backslash)
  else if Nat.eqb n 8 then String backslash "b"
  else if Nat.eqb n 9 then String backslash "t"
  else if Nat.eqb n 10 then String backslash "n"
  else if Nat.eqb n 12 then String backslash "f"
  else if Nat.eqb n 13 then String backslash "r"
  else if Nat.ltb n 32 then
    String backslash
      ("u00" +:+ String (hex_digit (Nat.div n 16)) (char (hex_digit (Nat.modulo n 16))))
  else char c.

Fixpoint escape (s : string) : string :=
  match s with
  | EmptyString => EmptyString
  | String c rest => escape_char c +:+ escape rest
  end.

Definition quote (s : string) : string :=
  String dquote (escape s +:+ char dquote).

Fixpoint has_char (c : ascii) (s : string) : bool :=
  match s with
  | EmptyString => false
  | String d rest => Ascii.eqb c d || has_char c rest
  end.

Fixpoint all_digits (s : string) : bool :=
  match s with
  | EmptyString => true
  | String c rest =>
      let n := nat_of_ascii c in
      Nat.leb 48 n && Nat.leb n 57 && all_digits rest
  end.

Fixpoint digits_value (acc : Z) (s : string) : Z :=
  match s with
  | EmptyString => acc
  | String c rest => digits_value (10 * acc + Z.of_nat (nat_of_ascii c - 48)) rest
  end.

Fixpoint chars (s : string) : list string :=
  match s with
  | EmptyString => []
  | String c rest => char c :: chars rest
  end.

End Text.

(** ** Numbers

    Integral Numbers and their texts.  [Number::toString] prints the
    digits of the shortest decimal that reads back as the double, in full
    up to 21 digits and with an exponent beyond. *)

Module Number.

(** The exponent of the unit in the last place of the double nearest to
    [x > 0]: the double is [m * 2^e] with [m < 2^53]. *)
Definition exponent (x : Z) : Z := Z.max 0 (Z.log2 x - 52).

(** The double nearest to the integer [x > 0], ties to the even
    significand. *)
Definition to_double (x : Z) : Z :=
  let p := 2 ^ exponent x in
  let m := x / p in
  let r := x mod p in
  (if (p <? 2 * r) || ((2 * r =? p) && Z.odd m) then m + 1 else m) * p.

(** [v] reads back as the double [x]: it lies in the rounding interval of
    [x], whose ends belong to it when the significand of [x] is even; below
    a power of two the doubles are twice as dense. *)
Definition reads_back (x v : Z) : bool :=
  let p := 2 ^ exponent x in
  let m := x / p in
  if x <=? v then (2 * (v - x) <? p) || ((2 * (v - x) =? p) && Z.even m)
  else if (m =? 2 ^ 52) && (0 <? exponent x)
       then (4 * (x - v) <? p) || (4 * (x - v) =? p)
       else (2 * (x - v) <? p) || ((2 * (x - v) =? p) && Z.even m).

(** The integer with the fewest significant digits that reads back as [x],
    the nearest to [x] among those: the multiples of [10^j] are tried for
    [j] from the number of digits of [x] downwards. *)
Fixpoint shortest (x : Z) (j : nat) : Z :=
  let q := 10 ^ Z.of_nat j in
  let a := (x / q) * q in
  let b := a + q in
  match (0 <? a) && reads_back x a, reads_back x b with
  | true, true =>
      if x - a <? b - x then a
      else if b - x <? x - a then b
      else if Z.even (a / q) then a else b
  | true, false => a
  | false, true => b
  | false, false =>
      match j with
      | O => x
      | S j' => shortest x j'
      end
  end.

(** [v] without its trailing zeros. *)
Fixpoint significand (fuel : nat) (v : Z) : Z :=
  match fuel with
  | O => v
  | S f => if (0 <? v) && (v mod 10 =? 0) then significand f (v / 10) else v
  end.

(** [Number::toString] for a positive double that is an integer: the
    digits, in full up to 21 of them, else the significant ones with an
    exponent. *)
Definition positive_text (x : Z) : string :=
  let v := shortest x (String.length (Text.decimal x)) in
  let digits := Text.decimal v in
  let n := String.length digits in
  if Nat.leb n 21 then digits
  else
    match Text.decimal (significand n v) with
    | String c EmptyString => String c "e+" +:+ Text.decimal (Z.of_nat (n - 1))
    | String c rest => String c ("." +:+ rest) +:+ "e+" +:+ Text.decimal (Z.of_nat (n - 1))
    | EmptyString => digits
    end.

(** Beyond the largest double a Number is infinite. *)
Definition finite (n : Z) : bool :=
  (Z.abs n <? 2 ^ 53) || (to_double (Z.abs n) <? 2 ^ 1024).

(** [Number::toString] of the Number [n]: an integer below [2^53] is a
    double and prints in full. *)
Definition text (n : Z) : string :=
  if Z.abs n <? 2 ^ 53 then Text.decimal n
  else if negb (finite n) then (if n <? 0 then "-Infinity" else "Infinity")
  else (if n <? 0 then "-" else "") +:+ positive_text (to_double (Z.abs n)).

(** The text of a Number in [JSON.stringify]: [null] unless it is finite. *)
Definition json (n : Z) : string := if finite n then text n else "null".

End Number.


(** ** JavaScript values, objects and the heap *)

Abbreviation addr := nat.

(** A function value is given by its source text, which is what
    [ToString] gives for it, and by what a call of it does: it returns a
    value or raises one.  This covers accessors and [toJSON] methods, whose
    result does not depend on arguments here.

    [VNum n] is the Number whose value is the integer [n]; a Number is a
    double, so that beyond [2^53] it stands for the double nearest to [n]
    (see [Number.text]). *)
Inductive value : Type :=
| VUndefined
| VNull
| VBool (b : bool)
| VNum (n : Z)
| VStr (s : string)
| VBigInt (n : Z)
| VSymbol (description : string)
| VFunc (source : string) (call : outcome)
| VRef (a : addr)
with outcome : Type :=
| Returns (v : value)
| Raises (v : value).

Inductive exn : Type :=
| TypeError (msg : string)
| Thrown (v : value).

Inductive slot : Type :=
| Data (v : value)
| Accessor (get : outcome).

Record property : Type := mkProperty { p_enumerable : bool; p_slot : slot }.

Definition props := list (string * property).

(** What [instanceof] and [Array.isArray] observe of an object. *)
Inductive kind : Type :=
| KObject
| KArray (elems : list value)
| KError
| KRegExp (source flags : string)
| KPromise.

(** [o_own] holds the own properties in property order; [o_proto] the
    properties reached through the prototype chain below [Object.prototype]
    (a class's methods, a subclass's [name]). *)
Record obj : Type := mkObj { o_kind : kind; o_own : props; o_proto : props }.

Definition data_prop (v : value) : property := mkProperty true (Data v).
Definition hidden_prop (v : value) : property := mkProperty false (Data v).

Definition plain (fields : list (string * value)) : obj :=
  mkObj KObject (map (fun kv => (fst kv, data_prop (snd kv))) fields) [].

Definition empty_obj : obj := plain [].

Fixpoint assoc {A : Type} (k : string) (l : list (string * A)) : option A :=
  match l with
  | [] => None
  | (k', x) :: rest => if String.eqb k k' then Some x else assoc k rest
  end.

Definition has_key {A : Type} (k : string) (l : list (string * A)) : bool :=
  match assoc k l with Some _ => true | None => false end.

(** The methods every object inherits from [Object.prototype].  Nothing in
    the program calls them, so only their presence and their being
    functions matter. *)
Definition object_prototype_names : list string :=
  [ "constructor"; "__defineGetter__"; "__defineSetter__"; "hasOwnProperty";
    "__lookupGetter__"; "__lookupSetter__"; "isPrototypeOf";
    "propertyIsEnumerable"; "toString"; "valueOf"; "toLocaleString" ].

(** The source text of a built-in function. *)
Definition native_source (name : string) : string :=
  "function " +:+ name +:+ "() { [native code] }".

Definition object_prototype : props :=
  map (fun n => (n, hidden_prop (VFunc (native_source n) (Returns VUndefined))))
    object_prototype_names.

(** The keys of [Object.prototype]: its methods and the accessor
    [__proto__].  The program never reads [__proto__] from an object that
    has no own property of that name, so the accessor is known to the [in]
    operator ([obj_has]) and to assignments ([put_prop]) only; its getter,
    which yields the prototype object, is not modelled. *)
Definition object_prototype_keys : list string := object_prototype_names ++ ["__proto__"].

Fixpoint array_props_from (i : nat) (elems : list value) : props :=
  match elems with
  | [] => []
  | v :: rest => (Text.decimal_nat i, data_prop v) :: array_props_from (S i) rest
  end.

Definition own_props (o : obj) : props :=
  match o_kind o with
  | KArray elems =>
      array_props_from 0 elems
        ++ [("length", hidden_prop (VNum (Z.of_nat (length elems))))] ++ o_own o
  | _ => o_own o
  end.

(** Properties a built-in class contributes through its prototype. *)
Definition kind_proto (k : kind) : props :=
  match k with
  | KError => [("name", hidden_prop (VStr "Error")); ("message", hidden_prop (VStr ""))]
  | KRegExp source flags =>
      [("source", hidden_prop (VStr source)); ("flags", hidden_prop (VStr flags))]
  | _ => []
  end.

Definition find_prop (k : string) (o : obj) : option property :=
  match assoc k (own_props o) with
  | Some p => Some p
  | None =>
      match assoc k (o_proto o) with
      | Some p => Some p
      | None =>
          match assoc k (kind_proto (o_kind o)) with
          | Some p => Some p
          | None => assoc k object_prototype
          end
      end
  end.

(** The [in] operator on an object. *)
Definition obj_has (k : string) (o : obj) : bool :=
  match find_prop k o with Some _ => true | None => String.eqb k "__proto__" end.

Definition own_enumerable_keys (o : obj) : list string :=
  map fst (filter (fun kp => p_enumerable (snd kp)) (own_props o)).

(** Keys visited by [for (key in o)]: the enumerable own keys, then the
    enumerable inherited ones that no own property shadows. *)
Definition for_in_keys (o : obj) : list string :=
  own_enumerable_keys o
    ++ map fst (filter (fun kp => p_enumerable (snd kp) && negb (has_key (fst kp) (own_props o)))
                  (o_proto o)).

(** An array index is a canonical decimal numeral below [2^32 - 1]; such
    keys come first, in ascending order, in an object's property order. *)
Definition array_index (k : string) : option Z :=
  match k with
  | EmptyString => None
  | String c rest =>
      if Text.all_digits k
           && (negb (Ascii.eqb c "0"%char) || String.eqb rest EmptyString)
      then let n := Text.digits_value 0 k in
           if n <? 4294967295 then Some n else None
      else None
  end.

Fixpoint props_insert_index (n : Z) (k : string) (p : property) (ps : props) : props :=
  match ps with
  | [] => [(k, p)]
  | (k', p') :: rest =>
      match array_index k' with
      | Some m => if m <? n then (k', p') :: props_insert_index n k p rest
                  else (k, p) :: ps
      | None => (k, p) :: ps
      end
  end.

Fixpoint props_update (k : string) (v : value) (ps : props) : props :=
  match ps with
  | [] => []
  | (k', p) :: rest =>
      if String.eqb k k' then (k', mkProperty (p_enumerable p) (Data v)) :: rest
      else (k', p) :: props_update k v rest
  end.

(** [o[k] = v] on an ordinary object whose own properties are data
    properties: an existing key keeps its place, a new key is created in
    property order. *)
Definition props_set (k : string) (v : value) (ps : props) : props :=
  if has_key k ps then props_update k v ps
  else match array_index k with
       | Some n => props_insert_index n k (data_prop v) ps
       | None => ps ++ [(k, data_prop v)]
       end.

Definition obj_set (k : string) (v : value) (o : obj) : obj :=
  mkObj (o_kind o) (props_set k v (o_own o)) (o_proto o).

Definition typeof (v : value) : string :=
  match v with
  | VUndefined => "undefined"
  | VNull => "object"
  | VBool _ => "boolean"
  | VNum _ => "number"
  | VStr _ => "string"
  | VBigInt _ => "bigint"
  | VSymbol _ => "symbol"
  | VFunc _ _ => "function"
  | VRef _ => "object"
  end.

(** [ToBoolean]. *)
Definition truthy (v : value) : bool :=
  match v with
  | VUndefined | VNull => false
  | VBool b => b
  | VNum n => negb (n =? 0)
  | VStr s => negb (String.eqb s EmptyString)
  | VBigInt n => negb (n =? 0)
  | VSymbol _ | VFunc _ _ | VRef _ => true
  end.

(** [StringToNumber] on the integral numerals; [None] is [NaN]. *)
Definition string_to_number (s : string) : option Z :=
  if Text.all_digits s then Some (Text.digits_value 0 s) else None.

(** [ToNumber] of the values a resolved threshold can hold; [None] is
    [NaN] (a function converts through its source text). *)
Definition to_number (v : value) : option Z :=
  match v with
  | VNum n => Some n
  | VStr s => string_to_number s
  | VBool b => Some (if b then 1 else 0)
  | VNull => Some 0
  | VBigInt n => Some n
  | VUndefined | VSymbol _ | VFunc _ _ | VRef _ => None
  end.

(** [x < v] for a number [x]: false when [v] converts to [NaN]. *)
Definition js_lt (x : Z) (v : value) : bool :=
  match to_number v with
  | Some y => x <? y
  | None => false
  end.

(** ** The world and the monad of effectful calls *)

(** [heap]: the objects, by address.  [console]: the arguments of the
    [console.log] calls so far, oldest first.  [storage]: the module
    variable [storage] of [async-context.ts]: [None] until the
    [AsyncLocalStorage] is created, then the store of the running
    asynchronous context ([undefined] outside every [run]). *)
Record world : Type := mkWorld {
  heap : list obj;
  console : list value;
  storage : option value
}.

Definition initial_world : world := mkWorld [] [] None.

(** A call returns, raises, or is not followed to its end by the model:
    the recursion budget is exhausted, or the call replaces the prototype
    of an object (see [put_prop]). *)
Inductive result (A : Type) : Type :=
| Ok (a : A)
| Throw (e : exn)
| OutOfFuel.

Arguments Ok {A} a.
Arguments Throw {A} e.
Arguments OutOfFuel {A}.

Definition M (A : Type) : Type := world -> result A * world.

Definition ret {A : Type} (a : A) : M A := fun w => (Ok a, w).

Definition bind {A B : Type} (m : M A) (f : A -> M B) : M B :=
  fun w =>
    match m w with
    | (Ok a, w') => f a w'
    | (Throw e, w') => (Throw e, w')
    | (OutOfFuel, w') => (OutOfFuel, w')
    end.

Definition throw {A : Type} (e : exn) : M A := fun w => (Throw e, w).

Definition out_of_fuel {A : Type} : M A := fun w => (OutOfFuel, w).

(** [try { m } catch { handler }]. *)
Definition try_catch {A : Type} (m : M A) (handler : exn -> M A) : M A :=
  fun w =>
    match m w with
    | (Throw e, w') => handler e w'
    | r => r
    end.

Declare Scope js_scope.
Delimit Scope js_scope with js.
Notation "x <- m ;; k" := (bind m (fun x => k))
  (at level 100, m at next level, right associativity) : js_scope.
Notation "m ;;; k" := (bind m (fun _ => k))
  (at level 100, right associativity) : js_scope.
Local Open Scope js_scope.

Definition when_ (b : bool) (m : M unit) : M unit := if b then m else ret tt.

Fixpoint for_each {A : Type} (f : A -> M unit) (l : list A) : M unit :=
  match l with
  | [] => ret tt
  | x :: rest => f x ;;; for_each f rest
  end.

Fixpoint collect {A B : Type} (f : A -> M (option B)) (l : list A) : M (list B) :=
  match l with
  | [] => ret []
  | x :: rest =>
      r <- f x ;;
      rs <- collect f rest ;;
      ret (match r with Some b => b :: rs | None => rs end)
  end.

(** *** Heap access *)

Definition heap_obj (h : list obj) (a : addr) : obj := default empty_obj (h !! a).

Definition read_obj (a : addr) : M obj := fun w => (Ok (heap_obj (heap w) a), w).

Definition write_obj (a : addr) (o : obj) : M unit :=
  fun w => (Ok tt, mkWorld (<[a := o]> (heap w)) (console w) (storage w)).

(** A new object gets the next free address. *)
Definition alloc (o : obj) : M addr :=
  fun w =>
    (Ok (length (heap w)),
     mkWorld (heap w ++ [o]) (console w) (storage w)).

Definition console_log (v : value) : M unit :=
  fun w => (Ok tt, mkWorld (heap w) (console w ++ [v]) (storage w)).

Definition slot_value (s : slot) : M value :=
  match s with
  | Data v => ret v
  | Accessor (Returns v) => ret v
  | Accessor (Raises e) => throw (Thrown e)
  end.

(** [v[k]] and [v.k]: an accessor is run; reading a property of
    [undefined] or [null] raises; the other primitives and functions carry
    none of the properties the program reads. *)
Definition get_prop (v : value) (k : string) : M value :=
  match v with
  | VRef a =>
      o <- read_obj a ;;
      match find_prop k o with
      | Some p => slot_value (p_slot p)
      | None => ret VUndefined
      end
  | VUndefined | VNull => throw (TypeError "Cannot read properties of undefined or null")
  | _ => ret VUndefined
  end.

(** [k in v]. *)
Definition has_property (k : string) (v : value) : M bool :=
  match v with
  | VRef a => o <- read_obj a ;; ret (obj_has k o)
  | VFunc _ _ => ret (existsb (String.eqb k) object_prototype_keys)
  | _ => throw (TypeError "Cannot use 'in' operator to search for a key in a primitive")
  end.

Definition set_prop (target : addr) (k : string) (v : value) : M unit :=
  o <- read_obj target ;; write_obj target (obj_set k v o).

Definition call_function (f : value) : M value :=
  match f with
  | VFunc _ (Returns v) => ret v
  | VFunc _ (Raises e) => throw (Thrown e)
  | _ => throw (TypeError "not a function")
  end.

Definition is_callable (v : value) : bool :=
  match v with VFunc _ _ => true | _ => false end.

Definition kind_of (v : value) : M (option kind) :=
  match v with
  | VRef a => o <- read_obj a ;; ret (Some (o_kind o))
  | _ => ret None
  end.

Definition is_error_kind (k : option kind) : bool :=
  match k with Some KError => true | _ => false end.
Definition is_regexp_kind (k : option kind) : bool :=
  match k with Some (KRegExp _ _) => true | _ => false end.
Definition is_promise_kind (k : option kind) : bool :=
  match k with Some KPromise => true | _ => false end.
Definition is_array_kind (k : option kind) : bool :=
  match k with Some (KArray _) => true | _ => false end.

(** [v instanceof Error]. *)
Definition instanceof_Error (v : value) : M bool :=
  k <- kind_of v ;; ret (is_error_kind k).

(** [Array.isArray(v)]. *)
Definition Array_isArray (v : value) : M bool :=
  k <- kind_of v ;; ret (is_array_kind k).

(** [target[k] = v] as an assignment writes it, by [[Set]].  It differs
    from the creation of an own property ([set_prop]) for the key
    [__proto__] on an object that has no property of that name of its own
    or from its class: the assignment then runs the setter inherited from
    [Object.prototype], which does nothing for a value that is neither an
    object nor [null], and replaces the prototype of the target
    otherwise.  Prototypes are fixed in this model, so that the call is
    then not followed further.  An accessor of the model has a getter
    only: an assignment that finds one, on the target or inherited,
    raises a [TypeError]. *)
Definition put_prop (target : addr) (k : string) (v : value) : M unit :=
  o <- read_obj target ;;
  match find_prop k o with
  | None =>
      if String.eqb k "__proto__" then
        match v with
        | VNull | VFunc _ _ | VRef _ => out_of_fuel
        | _ => ret tt
        end
      else write_obj target (obj_set k v o)
  | Some p =>
      match p_slot p with
      | Data _ => write_obj target (obj_set k v o)
      | Accessor _ => throw (TypeError "Cannot set a property which has only a getter")
      end
  end.

(** The keys and the reads of a spread [{...source}] into a fresh object:
    each enumerable own property of the source is read (running its
    accessor) and created on the target. *)
Definition spread_key (target : addr) (source : value) (k : string) : M unit :=
  v <- get_prop source k ;; set_prop target k v.

Fixpoint spread_chars (target : addr) (i : nat) (cs : list string) : M unit :=
  match cs with
  | [] => ret tt
  | c :: rest => set_prop target (Text.decimal_nat i) (VStr c) ;;; spread_chars target (S i) rest
  end.

Definition object_spread (target : addr) (source : value) : M unit :=
  match source with
  | VRef a =>
      o <- read_obj a ;;
      for_each (spread_key target source) (own_enumerable_keys o)
  | VStr s => spread_chars target 0 (Text.chars s)
  | _ => ret tt
  end.

(** [Object.assign(target, source)]: the same keys and reads, each value
    being assigned to the target. *)
Definition assign_key (target : addr) (source : value) (k : string) : M unit :=
  v <- get_prop source k ;; put_prop target k v.

Fixpoint put_chars (target : addr) (i : nat) (cs : list string) : M unit :=
  match cs with
  | [] => ret tt
  | c :: rest => put_prop target (Text.decimal_nat i) (VStr c) ;;; put_chars target (S i) rest
  end.

Definition object_assign (target : addr) (source : value) : M unit :=
  match source with
  | VRef a =>
      o <- read_obj a ;;
      for_each (assign_key target source) (own_enumerable_keys o)
  | VStr s => put_chars target 0 (Text.chars s)
  | _ => ret tt
  end.

(** [`${v}`] for a value that is not an object: [ToString].  A symbol
    raises; a function gives its source text. *)
Definition template_string (v : value) : M string :=
  match v with
  | VUndefined => ret "undefined"
  | VNull => ret "null"
  | VBool true => ret "true"
  | VBool false => ret "false"
  | VNum n => ret (Number.text n)
  | VStr s => ret s
  | VBigInt n => ret (Text.decimal n)
  | VSymbol _ => throw (TypeError "Cannot convert a Symbol value to a string")
  | VFunc source _ => ret source
  | VRef _ => ret "[object Object]"
  end.

(** ** [JSON.stringify] with a replacer function

    [SerializeJSONProperty] of ECMAScript, on the value already read from
    its holder.  [stack] holds the objects being serialized, for the cycle
    check; [fuel] bounds the nesting depth. *)

Definition member_text (gap key text : string) : string :=
  Text.quote key +:+ ":" +:+ (if String.eqb gap "" then "" else " ") +:+ text.

Definition assemble (opening closing gap stepback indent : string)
  (partial : list string) : string :=
  match partial with
  | [] => opening +:+ closing
  | _ =>
      if String.eqb gap "" then
        opening +:+ Text.concat_with "," partial +:+ closing
      else
        let nl := Text.char Text.newline in
        opening +:+ nl +:+ indent
          +:+ Text.concat_with ("," +:+ nl +:+ indent) partial
          +:+ nl +:+ stepback +:+ closing
  end.

Definition apply_toJSON (v : value) : M value :=
  match v with
  | VRef _ | VFunc _ _ | VBigInt _ =>
      toJSON <- get_prop v "toJSON" ;;
      if is_callable toJSON then call_function toJSON else ret v
  | _ => ret v
  end.

Fixpoint SerializeJSONProperty (fuel : nat) (replacer : string -> value -> M value)
  (gap : string) (stack : list addr) (indent : string) (key : string) (v0 : value)
  : M (option string) :=
  match fuel with
  | O => out_of_fuel
  | S n =>
      v1 <- apply_toJSON v0 ;;
      v2 <- replacer key v1 ;;
      match v2 with
      | VNull => ret (Some "null")
      | VBool true => ret (Some "true")
      | VBool false => ret (Some "false")
      | VStr s => ret (Some (Text.quote s))
      | VNum z => ret (Some (Number.json z))
      | VBigInt _ => throw (TypeError "Do not know how to serialize a BigInt")
      | VRef a =>
          if existsb (Nat.eqb a) stack then
            throw (TypeError "Converting circular structure to JSON")
          else
            o <- read_obj a ;;
            let stepback := indent in
            let indent' := indent +:+ gap in
            match o_kind o with
            | KArray elems =>
                partial <-
                  collect
                    (fun i =>
                       let k := Text.decimal_nat i in
                       v <- get_prop v2 k ;;
                       r <- SerializeJSONProperty n replacer gap (a :: stack) indent' k v ;;
                       ret (Some (match r with Some s => s | None => "null" end)))
                    (seq 0 (length elems)) ;;
                ret (Some (assemble "[" "]" gap stepback indent' partial))
            | _ =>
                partial <-
                  collect
                    (fun k =>
                       v <- get_prop v2 k ;;
                       r <- SerializeJSONProperty n replacer gap (a :: stack) indent' k v ;;
                       ret (option_map (member_text gap k) r))
                    (own_enumerable_keys o) ;;
                ret (Some (assemble "{" "}" gap stepback indent' partial))
            end
      | VUndefined | VSymbol _ | VFunc _ _ => ret None
      end
  end.

(** [space] is a number of blanks (at most ten) or absent. *)
Definition gap_of_space (space : option nat) : string :=
  match space with
  | Some n => Text.repeat_string " " (Nat.min 10 n)
  | None => ""
  end.

(** [JSON.stringify(v, replacer, space)]: a string, or [undefined] when the
    top value is left out. *)
Definition JSON_stringify (fuel : nat) (v : value)
  (replacer : string -> value -> M value) (space : option nat) : M value :=
  r <- SerializeJSONProperty fuel replacer (gap_of_space space) [] "" "" v ;;
  ret (match r with Some s => VStr s | None => VUndefined end).

(** ** [lib/types.ts] *)

Inductive LogLevel : Type := debug | info | warn | error | fatal | silent.

Definition level_value (l : LogLevel) : Z :=
  match l with
  | debug => 10
  | info => 20
  | warn => 30
  | error => 40
  | fatal => 50
  | silent => 100
  end.

Definition level_name (l : LogLevel) : string :=
  match l with
  | debug => "debug"
  | info => "info"
  | warn => "warn"
  | error => "error"
  | fatal => "fatal"
  | silent => "silent"
  end.

Definition all_levels : list LogLevel := [debug; info; warn; error; fatal; silent].

(** The object a numeric [enum] compiles to: each name maps to its number
    and each number back to its name.  The numeric keys come first in
    property order. *)
Definition LogLevel_object : obj :=
  mkObj KObject
    (map (fun l => (Text.decimal (level_value l), data_prop (VStr (level_name l))))
       all_levels
     ++ map (fun l => (level_name l, data_prop (VNum (level_value l)))) all_levels)
    [].

(** [o[k]] on an object whose properties are all data properties. *)
Definition data_get (k : string) (o : obj) : value :=
  match find_prop k o with
  | Some (mkProperty _ (Data v)) => v
  | _ => VUndefined
  end.

Record LogFormatter : Type := mkLogFormatter {
  formatLogData : value -> M value;
  formatError : string -> value -> M value
}.

Record LogTransport : Type := mkLogTransport {
  writeLog : value -> M unit
}.

Record LoggerConfig : Type := mkLoggerConfig {
  scope : value;
  logLevel : value;
  formatter : LogFormatter;
  transport : LogTransport;
  getLogContext : option (M value)
}.

(** ** [lib/utils.ts] *)

Definition isObject (item : value) : M bool :=
  if truthy item && String.eqb (typeof item) "object" then
    isArray <- Array_isArray item ;; ret (negb isArray)
  else ret false.

(** ** [lib/console-transport.ts] *)

Definition ConsoleTransport : LogTransport := mkLogTransport console_log.

(** ** [lib/formatters/json-formatter.ts] *)

(** The options of [util.inspect] the formatter sets: [depth: null] lifts
    the depth limit. *)
Inductive inspect_depth : Type := DepthDefault | DepthNull.

Record InspectOptions : Type := mkInspectOptions {
  io_depth : inspect_depth;
  io_compact : bool
}.

Record JsonLogFormatterOptions : Type := mkJsonLogFormatterOptions {
  opt_compact : option bool
}.

(** The private fields set by the constructor. *)
Record JsonLogFormatterFields : Type := mkJsonLogFormatterFields {
  compact : bool;
  jsonStringifySpace : option nat;
  inspectOptions : InspectOptions
}.

Definition JsonLogFormatter_constructor (options : JsonLogFormatterOptions)
  : JsonLogFormatterFields :=
  let compact := default false (opt_compact options) in
  mkJsonLogFormatterFields compact
    (if compact then None else Some 2%nat)
    (if compact then mkInspectOptions DepthDefault true
     else mkInspectOptions DepthNull false).

Definition formatPromise (key : string) : string :=
  "Promise { you tried to log a promise at " +:+ key +:+ ". try awaiting it pls }".

(** [errorToObject(error, formatter)].  [fuel] bounds the length of the
    cause chain that is followed. *)
Fixpoint errorToObject (fuel : nat) (error : value) (formatter : LogFormatter)
  : M value :=
  match fuel with
  | O => out_of_fuel
  | S n =>
      target <- alloc empty_obj ;;
      let errObject := VRef target in
      name <- get_prop error "name" ;;
      set_prop target "name" name ;;;
      message <- get_prop error "message" ;;
      set_prop target "message" message ;;;
      stack <- get_prop error "stack" ;;
      set_prop target "stack" stack ;;;
      hasToJSON <- has_property "toJSON" error ;;
      toJSON <- (if hasToJSON then get_prop error "toJSON" else ret VUndefined) ;;
      (if hasToJSON && String.eqb (typeof toJSON) "function" then
         method <- get_prop error "toJSON" ;;
         json <- call_function method ;;
         object_assign target json
       else
         e <- (match error with VRef a => read_obj a | _ => ret empty_obj end) ;;
         for_each
           (fun key =>
              present <- has_property key errObject ;;
              if present then ret tt
              else
                v <- get_prop error key ;;
                text <- formatLogData formatter v ;;
                set_prop target key text)
           (for_in_keys e)) ;;;
      cause <- get_prop error "cause" ;;
      (if truthy cause then
         causeIsError <- instanceof_Error cause ;;
         if causeIsError then
           converted <- errorToObject n cause formatter ;;
           set_prop target "cause" converted
         else
           text <- formatLogData formatter cause ;;
           set_prop target "cause" text
       else ret tt) ;;;
      ret errObject
  end.

Section Formatter.

(** [inspect] of [node:util], on a value in a heap.  It is a total
    function to text. *)
Variable inspect : InspectOptions -> list obj -> value -> string.

(** The methods take the formatter they run in ([this]) as [self]. *)
Definition jsonReplacer (self : LogFormatter) (key : string) (v : value) : M value :=
  k <- kind_of v ;;
  if String.eqb (typeof v) "bigint" then
    match v with VBigInt n => ret (VStr (Text.decimal n)) | _ => ret v end
  else if is_regexp_kind k then
    source <- get_prop v "source" ;;
    flags <- get_prop v "flags" ;;
    s <- template_string source ;;
    f <- template_string flags ;;
    ret (VStr ("Regexp { /" +:+ s +:+ "/" +:+ f +:+ " }"))
  else if is_promise_kind k then ret (VStr (formatPromise key))
  else if String.eqb (typeof v) "undefined" then ret (VStr "FakeValue { undefined }")
  else if is_error_kind k then formatError self key v
  else ret v.

Definition formatWithInspect (fields : JsonLogFormatterFields) (arg : value) : M value :=
  fun w => (Ok (VStr (inspect (inspectOptions fields) (heap w) arg)), w).

Definition JsonLogFormatter_formatLogData (fuel : nat) (fields : JsonLogFormatterFields)
  (self : LogFormatter) (arg : value) : M value :=
  if negb (String.eqb (typeof arg) "object") then
    s <- template_string arg ;; ret (VStr s)
  else
    try_catch
      (JSON_stringify fuel arg (jsonReplacer self) (jsonStringifySpace fields))
      (fun _ => formatWithInspect fields arg).

Definition JsonLogFormatter_formatError (fuel : nat) (self : LogFormatter)
  (_key : string) (err : value) : M value :=
  errorToObject fuel err self.

(** The formatter object: a method that re-enters the formatter does so
    with one unit of fuel less. *)
Fixpoint JsonLogFormatter (fields : JsonLogFormatterFields) (fuel : nat) : LogFormatter :=
  match fuel with
  | O => mkLogFormatter (fun _ => out_of_fuel) (fun _ _ => out_of_fuel)
  | S n =>
      mkLogFormatter
        (JsonLogFormatter_formatLogData n fields (JsonLogFormatter fields n))
        (JsonLogFormatter_formatError n (JsonLogFormatter fields n))
  end.

End Formatter.

(** ** [lib/logger.ts] *)

Record Logger : Type := mkLogger { config : LoggerConfig }.

(** The threshold the constructor stores: [LogLevel.debug] unless the
    configured value is truthy and is a number, or a string that is [in]
    the enum object, in which case it is what the enum object holds under
    that string.  For the string [__proto__], which is [in] every object,
    that is [Object.prototype] itself; the model has no value for that
    object and stores [undefined] in its place: either converts to [NaN]
    in the comparison of [log], and the constructor of a child resolves
    either to [debug]. *)
Definition resolve_logLevel (configured : value) : value :=
  if truthy configured then
    if String.eqb (typeof configured) "number" then configured
    else
      match configured with
      | VStr s =>
          if obj_has s LogLevel_object then data_get s LogLevel_object
          else VNum (level_value debug)
      | _ => VNum (level_value debug)
      end
  else VNum (level_value debug).

Definition Logger_constructor (c : LoggerConfig) : Logger :=
  mkLogger
    (mkLoggerConfig (scope c) (resolve_logLevel (logLevel c)) (formatter c)
       (transport c) (getLogContext c)).

Definition child (this : Logger) (additions : value) : M Logger :=
  newScope <- alloc empty_obj ;;
  object_spread newScope (scope (config this)) ;;;
  object_spread newScope additions ;;;
  ret (Logger_constructor
         (mkLoggerConfig (VRef newScope) (logLevel (config this))
            (formatter (config this)) (transport (config this))
            (getLogContext (config this)))).

Definition getLogData (this : Logger) (level : LogLevel) (message : string)
  (data : value) (scope : value) (formatter : LogFormatter) : M value :=
  logData <- alloc (plain [("level", VNum (level_value level)); ("message", VStr message)]) ;;
  logContext <- (match getLogContext (config this) with
                 | Some accessor => accessor
                 | None => ret VUndefined
                 end) ;;
  when_ (truthy logContext) (set_prop logData "context" logContext) ;;;
  when_ (truthy data || truthy scope)
    (dataToAdd <- alloc empty_obj ;;
     object_spread dataToAdd scope ;;;
     dataIsError <- instanceof_Error data ;;
     (if dataIsError then
        converted <- formatError formatter "" data ;;
        object_assign dataToAdd converted
      else
        dataIsObject <- isObject data ;;
        source <- (if dataIsObject then ret data
                   else wrapper <- alloc (plain [("data", data)]) ;; ret (VRef wrapper)) ;;
        object_assign dataToAdd source) ;;;
     set_prop logData "data" (VRef dataToAdd)) ;;;
  ret (VRef logData).

Definition log (this : Logger) (verbosity : LogLevel) (message : string)
  (data : value) : M unit :=
  if js_lt (level_value verbosity) (logLevel (config this)) then ret tt
  else
    logData <- getLogData this verbosity message data (scope (config this))
                 (formatter (config this)) ;;
    text <- formatLogData (formatter (config this)) logData ;;
    console_log text.

Definition Logger_debug (this : Logger) (message : string) (data : value) : M unit :=
  log this debug message data.
Definition Logger_info (this : Logger) (message : string) (data : value) : M unit :=
  log this info message data.
Definition Logger_warn (this : Logger) (message : string) (data : value) : M unit :=
  log this warn message data.
Definition Logger_error (this : Logger) (message : string) (data : value) : M unit :=
  log this error message data.
Definition Logger_fatal (this : Logger) (message : string) (data : value) : M unit :=
  log this fatal message data.
Definition Logger_silent (this : Logger) : M unit := ret tt.

(** ** [lib/async-context.ts] *)

Module AsyncContext.

(** [storage.getStore()] on the created storage. *)
Definition getStore (current : value) : M value := ret current.

(** [storage.run(st, fn)]: [fn] runs with [st] as the store; the store of
    the caller is back when [run] is left, be it by a return or by an
    exception. *)
Definition run {T : Type} (st : value) (fn : M T) : M T :=
  fun w =>
    let saved := default VUndefined (storage w) in
    let (r, w') := fn (mkWorld (heap w) (console w) (Some st)) in
    (r, mkWorld (heap w') (console w') (Some saved)).

Definition getLogContextStorage : M unit :=
  fun w =>
    match storage w with
    | Some _ => (Ok tt, w)
    | None => (Ok tt, mkWorld (heap w) (console w) (Some VUndefined))
    end.

Definition getLogContext : M value :=
  fun w =>
    match storage w with
    | Some current => getStore current w
    | None => (Ok VUndefined, w)
    end.

Definition runWithContext {T : Type} (logContext : value) (handlerFn : M T) : M T :=
  parentContext <- getLogContext ;;
  getLogContextStorage ;;;
  mergedContext <- alloc empty_obj ;;
  parent <- (match parentContext with
             | VUndefined | VNull => fresh <- alloc empty_obj ;; ret (VRef fresh)
             | _ => ret parentContext
             end) ;;
  object_spread mergedContext parent ;;;
  object_spread mergedContext logContext ;;;
  run (VRef mergedContext) handlerFn.

Definition mutateContextScope (additionalScope : value) : M unit :=
  currentContext <- getLogContext ;;
  if negb (truthy currentContext) then ret tt
  else
    match currentContext with
    | VRef a => object_assign a additionalScope
    | _ => ret tt
    end.

End AsyncContext.

(** * Specification-level notions *)

(** ** Frames

    [hframe b w w']: the heap only grew, and every object below address
    [b] is as it was.  [quiet w w']: no console write, and the
    asynchronous-context storage is as it was. *)
Definition hframe (b : nat) (w w' : world) : Prop :=
  (length (heap w) <= length (heap w'))%nat
  /\ forall a : addr, (a < b)%nat -> heap w' !! a = heap w !! a.

Definition quiet (w w' : world) : Prop :=
  console w' = console w /\ storage w' = storage w.

Definition frame (b : nat) (w w' : world) : Prop := hframe b w w' /\ quiet w w'.

(** [framed b m Q]: run where the heap holds at least [b] objects, [m]
    keeps the frame at [b], and what it returns satisfies [Q]. *)
Definition framed {A : Type} (b : nat) (m : M A) (Q : A -> Prop) : Prop :=
  forall w r w', (b <= length (heap w))%nat -> m w = (r, w') ->
    frame b w w' /\ forall a, r = Ok a -> Q a.

Definition any {A : Type} : A -> Prop := fun _ => True.

(** A formatter that only allocates. *)
Definition formatter_framed (f : LogFormatter) : Prop :=
  (forall b v, framed b (formatLogData f v) any)
  /\ (forall b k e, framed b (formatError f k e) any).

(** A context accessor that only reads the world. *)
Definition reads (m : M value) : Prop := forall w, exists v, m w = (Ok v, w).

Definition accessor_reads (accessor : option (M value)) : Prop :=
  match accessor with
  | Some m => reads m
  | None => True
  end.

(** ** Threshold resolution *)

Definition is_severity (v : value) : Prop := exists l, v = VNum (level_value l).

Definition enum_keys : list string := map fst (o_own LogLevel_object).

(** A call that leaves the world as it is. *)
Definition unchanged {A : Type} (m : M A) : Prop := forall w, snd (m w) = w.

(** ** What a spread and [Object.assign] read and write

    [prop_result k o]: the value [o[k]] yields, [None] when its accessor
    raises.  [entries o]: the enumerable own properties of [o] with the
    values read from them.  [assign_entries]: creating them, in order, on
    a target, as a spread does.  [put_entries]: assigning them, in order,
    to a target, as [Object.assign] does; [None] when an assignment raises
    or replaces the prototype of the target. *)
Definition slot_result (s : slot) : option value :=
  match s with
  | Data v => Some v
  | Accessor (Returns v) => Some v
  | Accessor (Raises _) => None
  end.

Definition prop_result (k : string) (o : obj) : option value :=
  match find_prop k o with
  | Some p => slot_result (p_slot p)
  | None => Some VUndefined
  end.

Fixpoint read_keys (o : obj) (keys : list string) : option (list (string * value)) :=
  match keys with
  | [] => Some []
  | k :: rest =>
      match prop_result k o, read_keys o rest with
      | Some v, Some kvs => Some ((k, v) :: kvs)
      | _, _ => None
      end
  end.

Definition entries (o : obj) : option (list (string * value)) :=
  read_keys o (own_enumerable_keys o).

Fixpoint char_entries (i : nat) (cs : list string) : list (string * value) :=
  match cs with
  | [] => []
  | c :: rest => (Text.decimal_nat i, VStr c) :: char_entries (S i) rest
  end.

Definition source_entries (h : list obj) (source : value) : option (list (string * value)) :=
  match source with
  | VRef a => entries (heap_obj h a)
  | VStr s => Some (char_entries 0 (Text.chars s))
  | _ => Some []
  end.

Definition assign_entries (kvs : list (string * value)) (o : obj) : obj :=
  fold_left (fun acc kv => obj_set (fst kv) (snd kv) acc) kvs o.

Definition put_entry (k : string) (v : value) (o : obj) : option obj :=
  match find_prop k o with
  | None =>
      if String.eqb k "__proto__" then
        match v with
        | VNull | VFunc _ _ | VRef _ => None
        | _ => Some o
        end
      else Some (obj_set k v o)
  | Some p =>
      match p_slot p with
      | Data _ => Some (obj_set k v o)
      | Accessor _ => None
      end
  end.

Fixpoint put_entries (kvs : list (string * value)) (o : obj) : option obj :=
  match kvs with
  | [] => Some o
  | kv :: rest =>
      match put_entry (fst kv) (snd kv) o with
      | Some o' => put_entries rest o'
      | None => None
      end
  end.

(** An ordinary object whose properties, its own and those of its class,
    are data properties: no assignment to it finds an accessor.  Every
    object the program builds by a spread is such an object. *)
Definition is_data (p : property) : bool :=
  match p_slot p with Data _ => true | Accessor _ => false end.

Definition data_properties (o : obj) : bool :=
  match o_kind o with KObject => true | _ => false end
  && forallb (fun kp => is_data (snd kp)) (o_own o ++ o_proto o).

(** The keys of a list of entries. *)
Definition keys_of (kvs : list (string * value)) : list string := map fst kvs.

(** The value of an own data property. *)
Definition own_field (k : string) (o : obj) : option value :=
  match assoc k (o_own o) with
  | Some (mkProperty _ (Data v)) => Some v
  | _ => None
  end.

(** The last value written under [k], if any. *)
Definition last_value (k : string) (kvs : list (string * value)) : option value :=
  assoc k (rev kvs).

Definition update_obj (w : world) (target : addr) (o : obj) : world :=
  mkWorld (<[target := o]> (heap w)) (console w) (storage w).

Definition push_obj (w : world) (o : obj) : world :=
  mkWorld (heap w ++ [o]) (console w) (storage w).

(** A value that refers to an object refers to one in the heap. *)
Definition valid_value (h : list obj) (v : value) : Prop :=
  match v with
  | VRef a => (a < length h)%nat
  | _ => True
  end.

(** A reference to an object allocated at [b] or later. *)
Definition fresh_ref (b : nat) (v : value) : Prop :=
  exists t : addr, v = VRef t /\ (b <= t)%nat.

(** The kind tests, on a given heap. *)
Definition value_kind (h : list obj) (v : value) : option kind :=
  match v with
  | VRef a => Some (o_kind (heap_obj h a))
  | _ => None
  end.

Definition is_error (h : list obj) (v : value) : bool := is_error_kind (value_kind h v).

Definition is_plain_composite (h : list obj) (v : value) : bool :=
  truthy v && String.eqb (typeof v) "object" && negb (is_array_kind (value_kind h v)).

(** ** The assembled record *)

Definition record_base (level : LogLevel) (message : string) : obj :=
  plain [("level", VNum (level_value level)); ("message", VStr message)].

Definition record_with_context (level : LogLevel) (message : string) (ctx : value) : obj :=
  if truthy ctx then obj_set "context" ctx (record_base level message)
  else record_base level message.

Definition record_of (level : LogLevel) (message : string) (ctx : value)
  (with_data : bool) (d : addr) : obj :=
  if with_data then obj_set "data" (VRef d) (record_with_context level message ctx)
  else record_with_context level message ctx.

(** The value the context accessor of a logger yields in a world. *)
Definition context_of (accessor : option (M value)) (w : world) : result value :=
  match accessor with
  | Some m => fst (m w)
  | None => Ok VUndefined
  end.

(** Where the call-site entries come from: the conversion of an error,
    the own properties of a composite that is not an array, or the value
    itself under the key [data].  [h0] is the heap at the call; the
    conversion runs in a world that agrees with it below address [b]. *)
Definition data_source (fmt : LogFormatter) (h0 : list obj) (b : nat) (data : value)
  (src_kvs : list (string * value)) : Prop :=
  if is_error h0 data then
    exists w1 w2 converted,
      (forall a : addr, (a < b)%nat -> heap w1 !! a = h0 !! a)
      /\ formatError fmt "" data w1 = (Ok converted, w2)
      /\ source_entries (heap w2) converted = Some src_kvs
  else if is_plain_composite h0 data then source_entries h0 data = Some src_kvs
  else src_kvs = [("data", data)].

(** ** Instances for the examples *)

(** An [inspect] that renders everything as the same text.  It serves
    where an example needs some instance of [node:util]; no statement
    depends on what it returns. *)
Definition inspect_blank (_ : InspectOptions) (_ : list obj) (_ : value) : string :=
  "[inspected]".

Definition compact_fields : JsonLogFormatterFields :=
  JsonLogFormatter_constructor (mkJsonLogFormatterOptions (Some true)).

Definition default_fields : JsonLogFormatterFields :=
  JsonLogFormatter_constructor (mkJsonLogFormatterOptions None).

(** The compact JSON formatter, with room for eight levels of nesting. *)
Definition compact_formatter : LogFormatter :=
  JsonLogFormatter inspect_blank compact_fields 8.

Definition default_formatter : LogFormatter :=
  JsonLogFormatter inspect_blank default_fields 8.

(** A logger over the JSON formatter. *)
Definition json_logger (inspect : InspectOptions -> list obj -> value -> string)
  (fields : JsonLogFormatterFields) (fuel : nat) (sc threshold : value)
  (accessor : option (M value)) (tr : LogTransport) : Logger :=
  mkLogger (mkLoggerConfig sc threshold (JsonLogFormatter inspect fields fuel) tr accessor).

(** An injected transport that records what it is given in the array at
    address [a], as a test double would. *)
Definition array_push (a : addr) (v : value) : M unit :=
  o <- read_obj a ;;
  match o_kind o with
  | KArray elems => write_obj a (mkObj (KArray (elems ++ [v])) (o_own o) (o_proto o))
  | _ => throw (TypeError "push is not a function")
  end.

Definition recording_transport (a : addr) : LogTransport :=
  mkLogTransport (array_push a).

(** A world whose only object is the empty array of a recording transport. *)
Definition sink_world : world := mkWorld [mkObj (KArray []) [] []] [] None.

Definition sink_logger : Logger :=
  json_logger inspect_blank compact_fields 8 VUndefined (VNum (level_value debug)) None
    (recording_transport 0).

(** The same world with, at address 1, an error whose enumerable property
    [tag] holds a symbol. *)
Definition tagged_error : obj :=
  mkObj KError
    [("stack", hidden_prop (VStr "Error: failed")); ("message", hidden_prop (VStr "failed"));
     ("tag", data_prop (VSymbol "t"))]
    [].

Definition tagged_error_world : world :=
  mkWorld [mkObj (KArray []) [] []; tagged_error] [] None.

(** JSON text of the examples, written with [Text.quote]. *)
Definition q (s : string) : string := Text.quote s.

Definition hello_line : string :=
  "{" +:+ q "level" +:+ ":20," +:+ q "message" +:+ ":" +:+ q "hello" +:+ "}".

Definition warn_logger : Logger :=
  json_logger inspect_blank compact_fields 8 VUndefined (VNum (level_value warn)) None
    ConsoleTransport.

(** ** The merged data field

    [merged_data fmt w sc data v w']: [v] is a record whose [data] field
    is an object created by the call, and each of its own properties holds
    the call-site value written last under that key, or else the one of
    the scope; for a composite, that is the value the composite yields
    for each of its enumerable own keys.  The call-site entries are
    assigned, so that the key [__proto__], which an assignment hands to
    the setter inherited from [Object.prototype], is left aside. *)
Definition merged_data (fmt : LogFormatter) (w : world) (sc data : value)
  (v : value) (w' : world) : Prop :=
  exists (r d : addr) (scope_kvs src_kvs : list (string * value)),
    v = VRef r
    /\ own_field "data" (heap_obj (heap w') r) = Some (VRef d)
    /\ (length (heap w) <= d)%nat
    /\ source_entries (heap w) sc = Some scope_kvs
    /\ data_source fmt (heap w) (length (heap w)) data src_kvs
    /\ (forall k, k <> "__proto__" ->
          own_field k (heap_obj (heap w') d)
          = match last_value k src_kvs with
            | Some x => Some x
            | None => last_value k scope_kvs
            end)
    /\ (forall (a : addr) k,
          data = VRef a -> is_error (heap w) data = false ->
          is_plain_composite (heap w) data = true ->
          In k (own_enumerable_keys (heap_obj (heap w) a)) -> k <> "__proto__" ->
          own_field k (heap_obj (heap w') d) = prop_result k (heap_obj (heap w) a)).

(** The example of the specification: scope [{a:1}], a child adding
    [{b:2}], call-site data [{b:3, c:4}]. *)
Definition merge_world : world :=
  mkWorld
    [plain [("a", VNum 1)]; plain [("b", VNum 2)]; plain [("b", VNum 3); ("c", VNum 4)]]
    [] None.

Definition merge_root : Logger :=
  Logger_constructor (mkLoggerConfig (VRef 0) VUndefined compact_formatter ConsoleTransport None).

Definition merge_example : M value :=
  c <- child merge_root (VRef 1) ;;
  getLogData c info "hello" (VRef 2) (scope (config c)) (formatter (config c)).

(** A logger without scope. *)
Definition plain_logger : Logger :=
  json_logger inspect_blank compact_fields 8 VUndefined (VNum (level_value debug)) None
    ConsoleTransport.

(** A logger whose scope is the object [{b:2}] of [merge_world]. *)
Definition scoped_logger : Logger :=
  json_logger inspect_blank compact_fields 8 (VRef 1) (VNum (level_value debug)) None
    ConsoleTransport.

(** The text that stands for [undefined] in JSON output. *)
Definition sentinel : string := "FakeValue { undefined }".

(** The example of the specification: [{defined: "value", notDefined: undefined}]. *)
Definition undefined_world : world :=
  mkWorld [plain [("defined", VStr "value"); ("notDefined", VUndefined)]] [] None.

Definition undefined_line : string :=
  "{" +:+ q "defined" +:+ ":" +:+ q "value" +:+ ","
    +:+ q "notDefined" +:+ ":" +:+ q sentinel +:+ "}".

(** [Object.assign(new Error("failed"), {detail: undefined})]: an error
    with an enumerable property that holds [undefined]. *)
Definition undefined_detail_world : world :=
  mkWorld
    [mkObj KError
       [("stack", hidden_prop (VStr "Error: failed")); ("message", hidden_prop (VStr "failed"));
        ("detail", data_prop VUndefined)]
       []]
    [] None.

Definition undefined_detail_line : string :=
  "{" +:+ q "name" +:+ ":" +:+ q "Error" +:+ ","
    +:+ q "message" +:+ ":" +:+ q "failed" +:+ ","
    +:+ q "stack" +:+ ":" +:+ q "Error: failed" +:+ ","
    +:+ q "detail" +:+ ":" +:+ q "undefined" +:+ "}".

(** ** The text of a record *)

(** A text without line break. *)
Definition single_line (s : string) : Prop := Text.has_char Text.newline s = false.

(** [left_out h v]: the walk leaves a member that holds [v] out of the
    text of its object, because [v] is a symbol or a function, or an
    object whose [toJSON] returns one.  (A member that holds [undefined]
    is kept: the replacer turns it into the sentinel.) *)
Definition left_out (h : list obj) (v : value) : bool :=
  match v with
  | VSymbol _ | VFunc _ _ => true
  | VRef a =>
      match prop_result "toJSON" (heap_obj h a) with
      | Some (VFunc _ (Returns (VSymbol _))) | Some (VFunc _ (Returns (VFunc _ _))) => true
      | _ => false
      end
  | _ => false
  end.

(** One member of an object in [SerializeJSONProperty]: present with its
    text, or left out. *)
Definition member_step (n : nat) (replacer : string -> value -> M value) (gap : string)
  (stack : list addr) (indent : string) (holder : value) (k : string) : M (option string) :=
  v <- get_prop holder k ;;
  r <- SerializeJSONProperty n replacer gap stack indent k v ;;
  ret (option_map (member_text gap k) r).

(** A request context [{requestId: "X"}] and call-site data [{a: 1}]. *)
Definition context_world : world :=
  mkWorld [plain [("requestId", VStr "X")]; plain [("a", VNum 1)]] [] None.

(** A world in which that context is the store of the running
    asynchronous context. *)
Definition context_running : world :=
  mkWorld (heap context_world) [] (Some (VRef 0)).

Definition context_logger : Logger :=
  json_logger inspect_blank default_fields 8 VUndefined (VNum (level_value debug))
    (Some AsyncContext.getLogContext) ConsoleTransport.

Definition two_blanks : string := "  ".

Definition nested_object (members : list string) : string :=
  assemble "{" "}" two_blanks two_blanks (two_blanks +:+ two_blanks) members.

Definition context_member : string :=
  member_text two_blanks "context"
    (nested_object [member_text two_blanks "requestId" (q "X")]).

Definition data_member : string :=
  member_text two_blanks "data" (nested_object [member_text two_blanks "a" "1"]).

Definition record_text_with (tail : list string) : string :=
  assemble "{" "}" two_blanks "" two_blanks
    ([member_text two_blanks "level" "20"; member_text two_blanks "message" (q "hello")]
       ++ tail).

(** The text of the record with [context] before [data], and the other
    way round. *)
Definition context_first_text : string := record_text_with [context_member; data_member].
Definition data_first_text : string := record_text_with [data_member; context_member].

(** The value a result holds, [undefined] when there is none. *)
Definition result_value (r : result value) : value :=
  match r with
  | Ok v => v
  | _ => VUndefined
  end.

(** ** The ambient context *)

(** What [getLogContext] returns in a world. *)
Definition current_context (w : world) : value :=
  match storage w with
  | Some current => current
  | None => VUndefined
  end.

(** The entries of [parentContext ?? {}]. *)
Definition parent_entries (h : list obj) (parent : value) : option (list (string * value)) :=
  match parent with
  | VUndefined | VNull => Some []
  | _ => source_entries h parent
  end.

(** [runs_in_overlay logContext handlerFn w parent_kvs partial_kvs]: the
    call [runWithContext(logContext, handlerFn)] in [w] runs [handlerFn]
    in a world whose ambient context is a new object holding the parent's
    entries overlaid with the given ones, and hands back the result with
    the ambient context of [w]. *)
Definition runs_in_overlay {T : Type} (logContext : value) (handlerFn : M T) (w : world)
  (parent_kvs partial_kvs : list (string * value)) : Prop :=
  exists (m : addr) (w_in : world),
    (length (heap w) <= m)%nat
    /\ current_context w_in = VRef m
    /\ console w_in = console w
    /\ hframe (length (heap w)) w w_in
    /\ (forall k, own_field k (heap_obj (heap w_in) m)
                  = match last_value k partial_kvs with
                    | Some x => Some x
                    | None => last_value k parent_kvs
                    end)
    /\ AsyncContext.runWithContext logContext handlerFn w
       = (let (r, w') := handlerFn w_in in
          (r, mkWorld (heap w') (console w') (Some (current_context w)))).

(** The example of the specification: [{requestId: "X"}], then
    [{jobId: "Y"}] inside it. *)
Definition nested_world : world :=
  mkWorld [plain [("requestId", VStr "X")]; plain [("jobId", VStr "Y")]] [] None.

Definition nested_example : M value :=
  AsyncContext.runWithContext (VRef 0)
    (AsyncContext.runWithContext (VRef 1) AsyncContext.getLogContext).

(** ** The conversion of an error, by phases

    [errorToObject] first writes [name], [message] and [stack], then the
    properties of the error, then its cause.  The phases are named here;
    [errorToObject_run] relates them to the function. *)

Definition base_keys : list string := ["name"; "message"; "stack"].

Definition error_base (name message stack : value) : obj :=
  obj_set "stack" stack (obj_set "message" message (obj_set "name" name empty_obj)).

(** The body of the [for (const key in error)] loop. *)
Definition copy_error_property (formatter : LogFormatter) (error : value) (target : addr)
  (key : string) : M unit :=
  present <- has_property key (VRef target) ;;
  if present then ret tt
  else
    v <- get_prop error key ;;
    text <- formatLogData formatter v ;;
    set_prop target key text.

Definition error_properties_step (formatter : LogFormatter) (error : value) (target : addr)
  : M unit :=
  hasToJSON <- has_property "toJSON" error ;;
  toJSON <- (if hasToJSON then get_prop error "toJSON" else ret VUndefined) ;;
  (if hasToJSON && String.eqb (typeof toJSON) "function" then
     method <- get_prop error "toJSON" ;;
     json <- call_function method ;;
     object_assign target json
   else
     e <- (match error with VRef a => read_obj a | _ => ret empty_obj end) ;;
     for_each (copy_error_property formatter error target) (for_in_keys e)).

Definition error_cause_step (convert : value -> M value) (formatter : LogFormatter)
  (error : value) (target : addr) : M unit :=
  cause <- get_prop error "cause" ;;
  (if truthy cause then
     causeIsError <- instanceof_Error cause ;;
     if causeIsError then
       converted <- convert cause ;;
       set_prop target "cause" converted
     else
       text <- formatLogData formatter cause ;;
       set_prop target "cause" text
   else ret tt).

(** ["toJSON" in error && typeof error.toJSON === "function"], for an error
    whose [toJSON] can be read. *)
Definition exposes_toJSON (o : obj) : bool :=
  obj_has "toJSON" o
  && match prop_result "toJSON" o with
     | Some v => String.eqb (typeof v) "function"
     | None => false
     end.

(** What holds of the conversion target [t] and of the error [e], whose
    object is [E], while the properties are copied. *)
Definition copying (e t : addr) (E : obj) (w0 : world) : Prop :=
  (t < length (heap w0))%nat
  /\ heap_obj (heap w0) e = E
  /\ o_kind (heap_obj (heap w0) t) = KObject
  /\ o_proto (heap_obj (heap w0) t) = [].

Definition valid_ref (h : list obj) (v : value) : bool :=
  match v with
  | VRef a => (a <? length h)%nat
  | _ => true
  end.

(** The cause of the error and the result of its [toJSON] refer to
    objects of the heap. *)
Definition well_formed_error (h : list obj) (E : obj) : bool :=
  match prop_result "cause" E with
  | Some c => valid_ref h c
  | None => true
  end
  && match prop_result "toJSON" E with
     | Some (VFunc _ (Returns json)) => valid_ref h json
     | _ => true
     end.

(** The mapping [v] that the conversion of the error [E] returned, at
    depth [S n], from the world [w] to the world [w'].  The worlds in
    which a property is rendered and the cause is converted extend [w]:
    they hold the objects of [w] as they are.  When the cause is attached,
    [w'] is the world its conversion left, with the [cause] written to the
    mapping and nothing else changed.  [Object.assign] assigns the entries
    of [toJSON], so that the key [__proto__] is left aside there. *)
Definition converted (fmt : LogFormatter) (n : nat) (E : obj) (w : world) (v : value)
  (w' : world) : Prop :=
  let t := length (heap w) in
  let R := heap_obj (heap w') t in
  v = VRef t
  /\ hframe t w w'
  /\ (forall k, In k base_keys -> has_key k (o_own R) = true)
  /\ (exposes_toJSON E = true ->
      forall nm json, prop_result "toJSON" E = Some (VFunc nm (Returns json)) ->
        exists json_kvs,
          source_entries (heap w) json = Some json_kvs
          /\ forall k, k <> "cause" -> k <> "__proto__" ->
               own_field k R
               = match last_value k json_kvs with
                 | Some x => Some x
                 | None => if existsb (String.eqb k) base_keys then prop_result k E else None
                 end)
  /\ (exposes_toJSON E = false ->
      (forall k, In k base_keys -> own_field k R = prop_result k E)
      /\ (forall k, In k (for_in_keys E) -> ~ In k base_keys ->
                    ~ In k object_prototype_keys -> k <> "cause" ->
            exists vk wa wb text,
              prop_result k E = Some vk
              /\ hframe t w wa
              /\ formatLogData fmt vk wa = (Ok text, wb)
              /\ own_field k R = Some text))
  /\ (exists c,
        prop_result "cause" E = Some c
        /\ (truthy c = true -> is_error (heap w) c = true ->
            exists wB w2 cv,
              hframe t w wB
              /\ errorToObject n c fmt wB = (Ok cv, w2)
              /\ w' = update_obj w2 t (obj_set "cause" cv (heap_obj (heap w2) t))
              /\ own_field "cause" R = Some cv)
        /\ (truthy c = true -> is_error (heap w) c = false ->
            exists wB w2 text,
              hframe t w wB
              /\ formatLogData fmt c wB = (Ok text, w2)
              /\ w' = update_obj w2 t (obj_set "cause" text (heap_obj (heap w2) t))
              /\ own_field "cause" R = Some text)
        /\ (truthy c = false -> exposes_toJSON E = false -> ~ In "cause" (for_in_keys E) ->
            own_field "cause" R = None)).

(** Errors on which the conversion is sure to return: the three fields
    and [toJSON] can be read, [toJSON] is no function, the enumerable
    properties hold primitives other than symbols, and the cause is falsy
    or such an error again, down to [depth] causes. *)
Definition primitive (v : value) : bool :=
  match v with
  | VUndefined | VBool _ | VNum _ | VStr _ | VBigInt _ => true
  | _ => false
  end.

Definition readable (k : string) (o : obj) : bool :=
  match prop_result k o with Some _ => true | None => false end.

Definition reads_primitive (k : string) (o : obj) : bool :=
  match prop_result k o with Some v => primitive v | None => false end.

Definition toJSON_is_no_function (o : obj) : bool :=
  match prop_result "toJSON" o with
  | Some v => negb (String.eqb (typeof v) "function")
  | None => false
  end.

Definition simple_fields (o : obj) : bool :=
  forallb (fun k => readable k o) base_keys
  && toJSON_is_no_function o
  && forallb (fun k => reads_primitive k o) (for_in_keys o).

Fixpoint simple_error (h : list obj) (depth : nat) (v : value) : bool :=
  match v with
  | VRef a =>
      (a <? length h)%nat
      && simple_fields (heap_obj h a)
      && match prop_result "cause" (heap_obj h a) with
         | Some c =>
             negb (truthy c)
             || (is_error h c
                 && match depth with
                    | O => false
                    | S d => simple_error h d c
                    end)
         | None => false
         end
  | _ => false
  end.

(** [new Error(message, { cause })]: [message], [stack] and [cause] are
    own properties that are not enumerable. *)
Definition new_Error (message : string) (cause : option value) : obj :=
  mkObj KError
    ([("stack", hidden_prop (VStr ("Error: " +:+ message)));
      ("message", hidden_prop (VStr message))]
       ++ match cause with
          | Some c => [("cause", hidden_prop c)]
          | None => []
          end)
    [].

(** [root], [middle] and [top] of [createErrorWithCauses]. *)
Definition cause_chain_world : world :=
  mkWorld
    [new_Error "Root cause" None;
     new_Error "Middle error" (Some (VRef 0));
     new_Error "Top level error" (Some (VRef 1))]
    [] None.

(** [new Error("failed", { cause: 0 })]. *)
Definition zero_cause_world : world :=
  mkWorld [new_Error "failed" (Some (VNum 0))] [] None.

(** ** Examples for the ambient context and the child loggers *)

(** A request context [{requestId: "req-123"}] that is the store of the
    running asynchronous context, and the additions [{userId: "user456"}]. *)
Definition request_world : world :=
  mkWorld [plain [("requestId", VStr "req-123")]; plain [("userId", VStr "user456")]]
    [] (Some (VRef 0)).

(** A logger with the scope [{userId: "123"}] and the additions
    [{requestId: "456"}] of a child. *)
Definition user_scope_world : world :=
  mkWorld [plain [("userId", VStr "123")]; plain [("requestId", VStr "456")]] [] None.

Definition user_logger : Logger :=
  json_logger inspect_blank compact_fields 8 (VRef 0) (VNum (level_value debug))
    None ConsoleTransport.

(** A new object that receives the entries [base_kvs], then the entries
    [top_kvs]: the scope of a child logger, and the [data] of a record. *)
Definition overlay_object (base_kvs top_kvs : list (string * value)) : obj :=
  assign_entries top_kvs (assign_entries base_kvs empty_obj).

(** [isObject], as a test on a value in a heap. *)
Definition is_object_item (h : list obj) (item : value) : bool :=
  match item with
  | VRef a => negb (is_array_kind (Some (o_kind (heap_obj h a))))
  | _ => false
  end.

(** ** Values the replacer renders, and walks that fail *)

(** The text the replacer gives for a regular expression. *)
Definition regexp_text (source flags : string) : string :=
  "Regexp { /" +:+ source +:+ "/" +:+ flags +:+ " }".

(** [{bigNumber: 123456789n, pattern: /test/gi, pending: new Promise(...)}]. *)
Definition special_world : world :=
  mkWorld
    [plain [("bigNumber", VBigInt 123456789); ("pattern", VRef 1); ("pending", VRef 2)];
     mkObj (KRegExp "test" "gi") [] [];
     mkObj KPromise [] []]
    [] None.

Definition special_line : string :=
  "{" +:+ q "bigNumber" +:+ ":" +:+ q "123456789" +:+ ","
    +:+ q "pattern" +:+ ":" +:+ q (regexp_text "test" "gi") +:+ ","
    +:+ q "pending" +:+ ":" +:+ q (formatPromise "pending") +:+ "}".

(** [obj.self = obj] on [{name: "circular"}]. *)
Definition circular_world : world :=
  mkWorld [plain [("name", VStr "circular"); ("self", VRef 0)]] [] None.

(** [{normal: "value", get problematic() { throw new Error("getter error") }}],
    with the error at address 1, and an object whose [toJSON] raises it. *)
Definition getter_world : world :=
  mkWorld
    [mkObj KObject
       [("normal", data_prop (VStr "value"));
        ("problematic", mkProperty true (Accessor (Raises (VRef 1))))] [];
     mkObj KError
       [("stack", hidden_prop (VStr "Error: getter error"));
        ("message", hidden_prop (VStr "getter error"))] [];
     mkObj KObject
       [("toJSON", data_prop (VFunc "toJSON() { throw error; }" (Raises (VRef 1))))] []]
    [] None.


(** An ordinary object of the heap [h] without [toJSON]. *)
Definition ordinary (h : list obj) (a : addr) : Prop :=
  (a < length h)%nat
  /\ o_kind (heap_obj h a) = KObject
  /\ find_prop "toJSON" (heap_obj h a) = None.

(** [renders_as h k v text]: the member [k] holding [v] is a value the
    replacer turns into the string [text]: a big integer, a regular
    expression or a promise. *)
Inductive renders_as (h : list obj) (k : string) : value -> string -> Prop :=
| render_bigint n : renders_as h k (VBigInt n) (Text.decimal n)
| render_regexp (b : addr) source flags s f :
    (b < length h)%nat ->
    o_kind (heap_obj h b) = KRegExp s f ->
    find_prop "toJSON" (heap_obj h b) = None ->
    prop_result "source" (heap_obj h b) = Some (VStr source) ->
    prop_result "flags" (heap_obj h b) = Some (VStr flags) ->
    renders_as h k (VRef b) (regexp_text source flags)
| render_promise (b : addr) :
    (b < length h)%nat ->
    o_kind (heap_obj h b) = KPromise ->
    find_prop "toJSON" (heap_obj h b) = None ->
    renders_as h k (VRef b) (formatPromise k).

(** [unserializable h stack v]: the walk of [v] below the objects of
    [stack] cannot succeed: it comes back to an object it is in, reads an
    accessor that raises, or calls a [toJSON] that raises. *)
Inductive unserializable (h : list obj) : list addr -> value -> Prop :=
| unserializable_cycle (a : addr) stack :
    ordinary h a -> In a stack -> unserializable h stack (VRef a)
| unserializable_getter (a : addr) stack k :
    ordinary h a -> In k (own_enumerable_keys (heap_obj h a)) ->
    prop_result k (heap_obj h a) = None ->
    unserializable h stack (VRef a)
| unserializable_toJSON (a : addr) stack name x :
    (a < length h)%nat ->
    prop_result "toJSON" (heap_obj h a) = Some (VFunc name (Raises x)) ->
    unserializable h stack (VRef a)
| unserializable_member (a : addr) stack k v :
    ordinary h a -> In k (own_enumerable_keys (heap_obj h a)) ->
    prop_result k (heap_obj h a) = Some v ->
    unserializable h (a :: stack) v ->
    unserializable h stack (VRef a).

(** An error as [new Error(message)] makes it, possibly with another
    name: its three fields are strings, it has no [toJSON] method, no
    enumerable property and no truthy cause. *)
Definition standard_error (h : list obj) (e : addr) (name message stack : string) : Prop :=
  (e < length h)%nat
  /\ o_kind (heap_obj h e) = KError
  /\ prop_result "name" (heap_obj h e) = Some (VStr name)
  /\ prop_result "message" (heap_obj h e) = Some (VStr message)
  /\ prop_result "stack" (heap_obj h e) = Some (VStr stack)
  /\ toJSON_is_no_function (heap_obj h e) = true
  /\ for_in_keys (heap_obj h e) = []
  /\ exists c, prop_result "cause" (heap_obj h e) = Some c /\ truthy c = false.

(** The text of the conversion of such an error. *)
Definition error_text (gap stepback : string) (name message stack : string) : string :=
  assemble "{" "}" gap stepback (stepback +:+ gap)
    [member_text gap "name" (Text.quote name);
     member_text gap "message" (Text.quote message);
     member_text gap "stack" (Text.quote stack)].

(** [{error: new Error("test error")}]. *)
Definition error_member_world : world :=
  mkWorld [plain [("error", VRef 1)]; new_Error "test error" None] [] None.

(** ** Records of scalar values

    [scalar_text v]: the text of a value that is neither an object, a
    symbol nor a function, as the replacer and the walk render it. *)
Definition scalar_text (v : value) : option string :=
  match v with
  | VUndefined => Some (Text.quote sentinel)
  | VNull => Some "null"
  | VBool true => Some "true"
  | VBool false => Some "false"
  | VNum z => Some (Number.json z)
  | VStr s => Some (Text.quote s)
  | VBigInt n => Some (Text.quote (Text.decimal n))
  | VSymbol _ | VFunc _ _ | VRef _ => None
  end.

Definition is_scalar (v : value) : bool :=
  match scalar_text v with Some _ => true | None => false end.

(** An ordinary object all of whose properties are enumerable data
    properties that hold scalars. *)
Definition scalar_props (ps : props) : Prop :=
  Forall (fun kp : string * property => exists v, snd kp = data_prop v /\ is_scalar v = true) ps.

Definition scalar_object (o : obj) : Prop :=
  o_kind o = KObject /\ o_proto o = [] /\ scalar_props (o_own o).

Definition scalar_member (o : obj) (k : string) : string :=
  match prop_result k o with
  | Some v => default "" (scalar_text v)
  | None => ""
  end.

(** The text of such an object at the indent [stepback]. *)
Definition object_text (gap stepback : string) (o : obj) : string :=
  assemble "{" "}" gap stepback (stepback +:+ gap)
    (map (fun k => member_text gap k (scalar_member o k)) (own_enumerable_keys o)).

(** The entries the call-site data contributes when it is no error: its
    own ones when it is a composite that is no array, else itself under
    the key [data]. *)
Definition data_entries (h : list obj) (data : value) : option (list (string * value)) :=
  if is_plain_composite h data then source_entries h data else Some [("data", data)].

(** The line of a record: [level], [message], then the members [parts]. *)
Definition record_line (gap : string) (level : LogLevel) (message : string)
  (parts : list string) : string :=
  assemble "{" "}" gap "" gap
    ([member_text gap "level" (Text.decimal (level_value level));
      member_text gap "message" (Text.quote message)] ++ parts).

(** [context_value accessor w c]: the context accessor, when there is
    one, returns [c] in [w] and leaves [w] as it is; without an accessor
    the context is [undefined]. *)
Definition context_value (accessor : option (M value)) (w : world) (c : value) : Prop :=
  match accessor with
  | Some m => m w = (Ok c, w)
  | None => c = VUndefined
  end.

(** The object a context value refers to. *)
Definition context_object (h : list obj) (c : value) : obj :=
  match c with
  | VRef m => heap_obj h m
  | _ => empty_obj
  end.

(** A context that is falsy, or an object of scalars. *)
Definition scalar_context (h : list obj) (c : value) : Prop :=
  truthy c = true ->
  (exists m : addr, c = VRef m /\ (m < length h)%nat) /\ scalar_object (context_object h c).

(** The members [context] and [data] of a record. *)
Definition record_parts (gap : string) (h : list obj) (c : value) (with_data : bool)
  (data_object : obj) : list string :=
  (if truthy c then [member_text gap "context" (object_text gap gap (context_object h c))]
   else [])
  ++ (if with_data then [member_text gap "data" (object_text gap gap data_object)] else []).

(** Call-site data [{data: "value"}]. *)
Definition value_world : world :=
  mkWorld [plain [("data", VStr "value")]] [] None.

(** A request: the context [{requestId: "X"}] and call-site data
    [{userId: 7}]. *)
Definition request_record_world : world :=
  mkWorld [plain [("requestId", VStr "X")]; plain [("userId", VNum 7)]] [] None.

(** ** [lib/formatters/pretty-formatter.ts] *)

(** [text.split("\n")] and [lines.join("\n")], for any separator that is
    one character. *)
Fixpoint split_on (c : ascii) (s : string) : list string :=
  match s with
  | EmptyString => [EmptyString]
  | String d rest =>
      if Ascii.eqb d c then EmptyString :: split_on c rest
      else match split_on c rest with
           | [] => [String d EmptyString]
           | line :: lines => String d line :: lines
           end
  end.

Definition split_lines (s : string) : list string := split_on Text.newline s.

Definition join_lines (lines : list string) : string :=
  Text.concat_with (Text.char Text.newline) lines.

Module ANSI.
Definition esc : string := Text.char (ascii_of_nat 27).
Definition reset : string := esc +:+ "[0m".
Definition dim : string := esc +:+ "[2m".
Definition blue : string := esc +:+ "[34m".
Definition gray : string := esc +:+ "[90m".
Definition bgBlue : string := esc +:+ "[44m".
Definition bgGreen : string := esc +:+ "[42m".
Definition bgYellow : string := esc +:+ "[43m".
Definition bgRed : string := esc +:+ "[41m".
Definition black : string := esc +:+ "[30m".
End ANSI.

Record PrettyLogFormatterOptions : Type := mkPrettyLogFormatterOptions {
  opt_colors : option bool
}.

(** The constructor: [super()] sets the fields of a [JsonLogFormatter]
    without options, then [useColors] is set. *)
Record PrettyLogFormatterFields : Type := mkPrettyLogFormatterFields {
  json_fields : JsonLogFormatterFields;
  useColors : bool
}.

Definition PrettyLogFormatter_constructor (options : PrettyLogFormatterOptions)
  : PrettyLogFormatterFields :=
  mkPrettyLogFormatterFields
    (JsonLogFormatter_constructor (mkJsonLogFormatterOptions None))
    (default true (opt_colors options)).

Definition TAB : string := Text.repeat_string " " 4.

(** [LOG_LEVEL_FORMATTING], by severity, and the severity a property key
    of that table stands for. *)
Definition LOG_LEVEL_FORMATTING (level : LogLevel) : list string * string :=
  match level with
  | debug => ([ANSI.bgBlue; ANSI.black], "DEBUG?")
  | info => ([ANSI.bgGreen; ANSI.black], " INFO ")
  | warn => ([ANSI.bgYellow; ANSI.black], " WARN ")
  | error => ([ANSI.bgRed; ANSI.black], "ERROR!")
  | fatal => ([ANSI.bgRed; ANSI.black], "FATAL!")
  | silent => ([], "")
  end.

Definition level_of_key (k : string) : option LogLevel :=
  List.find (fun l => String.eqb k (Text.decimal (level_value l))) all_levels.

(** [colorize(text, ...codes)]. *)
Definition colorize (colors : bool) (text : string) (codes : list string) : string :=
  if negb colors then text
  else Text.concat_with "" codes +:+ text +:+ ANSI.reset.

(** [indent(text, times)]. *)
Definition indent (text : string) (times : nat) : string :=
  let indentation := Text.repeat_string TAB times in
  join_lines (map (fun line => indentation +:+ line) (split_lines text)).

(** [Object.entries(v)]: the enumerable own properties, each read in
    turn. *)
Fixpoint read_entries (v : value) (keys : list string) : M (list (string * value)) :=
  match keys with
  | [] => ret []
  | k :: rest =>
      x <- get_prop v k ;;
      xs <- read_entries v rest ;;
      ret ((k, x) :: xs)
  end.

Definition Object_entries (v : value) : M (list (string * value)) :=
  match v with
  | VRef a => o <- read_obj a ;; read_entries v (own_enumerable_keys o)
  | VStr s => ret (char_entries 0 (Text.chars s))
  | VUndefined | VNull => throw (TypeError "Cannot convert undefined or null to object")
  | _ => ret []
  end.

Fixpoint map_m {A B : Type} (f : A -> M B) (l : list A) : M (list B) :=
  match l with
  | [] => ret []
  | x :: rest => y <- f x ;; ys <- map_m f rest ;; ret (y :: ys)
  end.

Section Pretty.

(** The text of [new Date().toISOString()] at the call. *)
Variable timestamp : string.

(** [inspect(value, { depth: null, colors, breakLength: 80, compact:
    false })] of [node:util], by [colors], on a value in a heap. *)
Variable inspect_pretty : bool -> list obj -> value -> string.

(** [ToString] of an object, which runs the conversion methods of the
    object: a string, or what they raise. *)
Variable object_to_string : list obj -> addr -> string + exn.

Variable fields : PrettyLogFormatterFields.

Definition to_string (v : value) : M string :=
  match v with
  | VRef a =>
      fun w => match object_to_string (heap w) a with
               | inl s => (Ok s, w)
               | inr e => (Throw e, w)
               end
  | _ => template_string v
  end.

(** [LOG_LEVEL_FORMATTING[level]], destructured: the entry of the
    severity whose number is the key.  Under another key the table has
    nothing, or a member inherited from [Object.prototype], which has no
    [codes] to spread; a symbol is no key of the table. *)
Definition formatLevel (level : value) : M string :=
  match level with
  | VSymbol _ =>
      throw (TypeError "Cannot destructure property 'codes' of 'LOG_LEVEL_FORMATTING[level]' as it is undefined.")
  | _ =>
      key <- to_string level ;;
      match level_of_key key with
      | Some l =>
          let (codes, label) := LOG_LEVEL_FORMATTING l in
          ret (colorize (useColors fields) (" " +:+ label +:+ " ") codes)
      | None =>
          if has_key key object_prototype || String.eqb key "__proto__" then
            throw (TypeError "Spread syntax requires ...iterable[Symbol.iterator] to be a function")
          else
            throw (TypeError "Cannot destructure property 'codes' of 'LOG_LEVEL_FORMATTING[level]' as it is undefined.")
      end
  end.

Definition formatInspect (v : value) : M string :=
  fun w => (Ok (inspect_pretty (useColors fields) (heap w) v), w).

Definition formatEntries (prefix : string) (v : value) : M string :=
  kvs <- Object_entries v ;;
  lines <-
    map_m (fun kv =>
             s <- formatInspect (snd kv) ;;
             ret (colorize (useColors fields) prefix [ANSI.dim] +:+ fst kv +:+ ": " +:+ s))
      kvs ;;
  ret (indent (join_lines lines) 1).

Definition formatContext (context : value) : M string := formatEntries "context." context.

Definition formatData (data : value) : M string :=
  isArray <- Array_isArray data ;;
  if isArray || negb (truthy data) || negb (String.eqb (typeof data) "object") then
    s <- formatInspect data ;; ret (indent s 1)
  else formatEntries "data." data.

(** A part that is pushed when its text is not empty. *)
Definition part (text : string) : list string :=
  if String.eqb text "" then [] else [text].

Definition PrettyLogFormatter_formatLogData (logData : value) : M value :=
  let stamp := colorize (useColors fields) timestamp [ANSI.gray] in
  level <- get_prop logData "level" ;;
  levelText <- formatLevel level ;;
  message <- get_prop logData "message" ;;
  messageText <- to_string message ;;
  let first :=
    stamp +:+ " " +:+ levelText +:+ " "
      +:+ colorize (useColors fields) messageText [ANSI.blue] in
  context <- get_prop logData "context" ;;
  contextPart <- (if truthy context then
                    contextStr <- formatContext context ;; ret (part contextStr)
                  else ret []) ;;
  data <- get_prop logData "data" ;;
  dataPart <- (if truthy data then
                 dataStr <- formatData data ;; ret (part dataStr)
               else ret []) ;;
  ret (VStr (join_lines ([first] ++ contextPart ++ dataPart))).

(** The override of [formatWithInspect]. *)
Definition PrettyLogFormatter_formatWithInspect (arg : value) : M value :=
  inspected <- formatInspect arg ;;
  ret (VStr (Text.char Text.newline
               +:+ join_lines (map (fun line => "    " +:+ line) (split_lines inspected)))).

(** The formatter object: [formatLogData] is the override, [formatError]
    is inherited and passes the formatter itself on to [errorToObject]. *)
Fixpoint PrettyLogFormatter (fuel : nat) : LogFormatter :=
  match fuel with
  | O => mkLogFormatter (fun _ => out_of_fuel) (fun _ _ => out_of_fuel)
  | S n =>
      mkLogFormatter PrettyLogFormatter_formatLogData
        (JsonLogFormatter_formatError n (PrettyLogFormatter n))
  end.

End Pretty.

(** ** The text of the pretty formatter *)

(** The lines of [formatContext] and [formatData] for entries, and their
    indented text. *)
Definition entry_lines (colors : bool) (inspect_pretty : bool -> list obj -> value -> string)
  (prefix : string) (h : list obj) (kvs : list (string * value)) : list string :=
  map (fun kv => colorize colors prefix [ANSI.dim] +:+ fst kv +:+ ": "
                   +:+ inspect_pretty colors h (snd kv)) kvs.

Definition entries_text (colors : bool) (inspect_pretty : bool -> list obj -> value -> string)
  (prefix : string) (h : list obj) (kvs : list (string * value)) : string :=
  indent (join_lines (entry_lines colors inspect_pretty prefix h kvs)) 1.

(** The text of [formatData]: the inspection of an array or of a value
    that is no object, else the entries. *)
Definition data_text (colors : bool) (inspect_pretty : bool -> list obj -> value -> string)
  (h : list obj) (data : value) : option string :=
  if is_array_kind (value_kind h data) || negb (truthy data)
     || negb (String.eqb (typeof data) "object")
  then Some (indent (inspect_pretty colors h data) 1)
  else option_map (entries_text colors inspect_pretty "data." h) (source_entries h data).

(** The first line: the time, the label of the severity, the message. *)
Definition first_line (colors : bool) (timestamp : string) (level : LogLevel) (message : string)
  : string :=
  colorize colors timestamp [ANSI.gray] +:+ " "
    +:+ colorize colors (" " +:+ snd (LOG_LEVEL_FORMATTING level) +:+ " ")
          (fst (LOG_LEVEL_FORMATTING level))
    +:+ " " +:+ colorize colors message [ANSI.blue].

(** A record [{level: 20, message: "hello", context: {}}] with an empty
    context. *)
Definition empty_context_world : world :=
  mkWorld [plain [("level", VNum 20); ("message", VStr "hello"); ("context", VRef 1)];
           plain []] [] None.

(** An [inspect] and a conversion of objects to strings for the
    examples. *)
Definition inspect_pretty_blank (_ : bool) (_ : list obj) (_ : value) : string :=
  "[inspected]".

Definition object_to_string_default (_ : list obj) (_ : addr) : string + exn :=
  inl "[object Object]".

Definition plain_pretty_fields : PrettyLogFormatterFields :=
  PrettyLogFormatter_constructor (mkPrettyLogFormatterOptions (Some false)).

Definition pretty_formatter : LogFormatter :=
  PrettyLogFormatter "2026-01-01T00:00:00.000Z" inspect_pretty_blank object_to_string_default
    plain_pretty_fields 8.

(** [class CustomError extends Error { code = "E_CUSTOM" }]: an error
    with an enumerable own property. *)
Definition custom_error_world : world :=
  mkWorld
    [mkObj KError
       [("stack", hidden_prop (VStr "Error: failed")); ("message", hidden_prop (VStr "failed"));
        ("code", data_prop (VStr "E_CUSTOM"))] []]
    [] None.

(** A logger over the pretty formatter. *)
Definition pretty_logger (fmt : LogFormatter) (sc threshold : value)
  (accessor : option (M value)) (tr : LogTransport) : Logger :=
  mkLogger (mkLoggerConfig sc threshold fmt tr accessor).

(** * Proofs *)

(** ** The monad *)

Lemma bind_ok {A B : Type} (m : M A) (f : A -> M B) w a w1 :
  m w = (Ok a, w1) -> bind m f w = f a w1.
Proof. intros H. unfold bind. now rewrite H. Qed.

Lemma bind_throw {A B : Type} (m : M A) (f : A -> M B) w e w1 :
  m w = (Throw e, w1) -> bind m f w = (Throw e, w1).
Proof. intros H. unfold bind. now rewrite H. Qed.

Lemma bind_out_of_fuel {A B : Type} (m : M A) (f : A -> M B) w w1 :
  m w = (OutOfFuel, w1) -> bind m f w = (OutOfFuel, w1).
Proof. intros H. unfold bind. now rewrite H. Qed.

Lemma bind_inv {A B : Type} (m : M A) (f : A -> M B) w r w' :
  bind m f w = (r, w') ->
  (exists a w1, m w = (Ok a, w1) /\ f a w1 = (r, w'))
  \/ (exists e, m w = (Throw e, w') /\ r = Throw e)
  \/ (m w = (OutOfFuel, w') /\ r = OutOfFuel).
Proof.
  unfold bind. destruct (m w) as [[a | e | ] w1] eqn:E; intros H.
  - left. eauto.
  - right. left. inversion H; subst. eauto.
  - right. right. inversion H; subst. eauto.
Qed.

Lemma bind_inv_ok {A B : Type} (m : M A) (f : A -> M B) w b w' :
  bind m f w = (Ok b, w') ->
  exists a w1, m w = (Ok a, w1) /\ f a w1 = (Ok b, w').
Proof.
  intros H. apply bind_inv in H as [H | [(e & _ & H) | (_ & H)]];
    [assumption | discriminate | discriminate].
Qed.

(** ** C4: threshold resolution *)

Lemma assoc_not_in {A : Type} (k : string) (l : list (string * A)) :
  ~ In k (map fst l) -> assoc k l = None.
Proof.
  induction l as [| [k' x] l IH]; simpl; intros H; [reflexivity |].
  destruct (String.eqb_spec k k') as [-> | Hne].
  - exfalso. apply H. now left.
  - apply IH. intros Hin. apply H. now right.
Qed.

Lemma resolve_unlisted s :
  ~ In s enum_keys -> ~ In s object_prototype_keys ->
  resolve_logLevel (VStr s) = VNum (level_value debug).
Proof.
  intros Henum Hproto. unfold resolve_logLevel.
  destruct (truthy (VStr s)); [| reflexivity].
  simpl typeof. cbn [String.eqb Ascii.eqb Bool.eqb].
  replace (obj_has s LogLevel_object) with false; [reflexivity |].
  unfold obj_has, find_prop.
  rewrite (assoc_not_in s (own_props LogLevel_object)) by exact Henum.
  cbn [o_proto LogLevel_object assoc o_kind kind_proto].
  assert (Hnames : ~ In s object_prototype_names)
    by (intros Hin; apply Hproto; unfold object_prototype_keys; apply in_or_app; now left).
  rewrite (assoc_not_in s object_prototype).
  2: { replace (map fst object_prototype) with object_prototype_names by reflexivity.
       exact Hnames. }
  symmetry. apply String.eqb_neq. intros ->. apply Hproto.
  unfold object_prototype_keys. apply in_or_app. right. now left.
Qed.

(** ** Frames *)

Lemma hframe_refl b w : hframe b w w.
Proof. split; [lia | reflexivity]. Qed.

Lemma hframe_trans b w1 w2 w3 : hframe b w1 w2 -> hframe b w2 w3 -> hframe b w1 w3.
Proof.
  intros [L1 H1] [L2 H2]. split; [lia |].
  intros a Ha. rewrite H2 by exact Ha. now apply H1.
Qed.

Lemma hframe_weaken b b' w w' : (b' <= b)%nat -> hframe b w w' -> hframe b' w w'.
Proof. intros Hle [L H]. split; [exact L |]. intros a Ha. apply H. lia. Qed.

Lemma frame_refl b w : frame b w w.
Proof. split; [apply hframe_refl | split; reflexivity]. Qed.

Lemma frame_trans b w1 w2 w3 : frame b w1 w2 -> frame b w2 w3 -> frame b w1 w3.
Proof.
  intros [H1 [C1 S1]] [H2 [C2 S2]]. split; [eapply hframe_trans; eauto |].
  split; congruence.
Qed.

Lemma frame_length b w w' : frame b w w' -> (length (heap w) <= length (heap w'))%nat.
Proof. intros [[L _] _]. exact L. Qed.

Lemma framed_weaken {A : Type} b (m : M A) (Q Q' : A -> Prop) :
  (forall a, Q a -> Q' a) -> framed b m Q -> framed b m Q'.
Proof.
  intros HQ Hm w r w' Hb E. destruct (Hm w r w' Hb E) as [F P].
  split; [exact F | intros a Ha; apply HQ, P, Ha].
Qed.

Lemma framed_ret {A : Type} b (a : A) (Q : A -> Prop) : Q a -> framed b (ret a) Q.
Proof.
  intros HQ w r w' _ E. inversion E; subst. split; [apply frame_refl |].
  intros a' Ha. inversion Ha; subst. exact HQ.
Qed.

Lemma framed_throw {A : Type} b e (Q : A -> Prop) : framed b (throw e) Q.
Proof.
  intros w r w' _ E. inversion E; subst. split; [apply frame_refl | discriminate].
Qed.

Lemma framed_out_of_fuel {A : Type} b (Q : A -> Prop) : framed b out_of_fuel Q.
Proof.
  intros w r w' _ E. inversion E; subst. split; [apply frame_refl | discriminate].
Qed.

Lemma framed_bind {A B : Type} b (m : M A) (f : A -> M B) (Q : A -> Prop) (Q' : B -> Prop) :
  framed b m Q -> (forall a, Q a -> framed b (f a) Q') -> framed b (bind m f) Q'.
Proof.
  intros Hm Hf w r w' Hb E.
  apply bind_inv in E as [(a & w1 & E1 & E2) | [(e & E1 & ->) | (E1 & ->)]].
  - destruct (Hm w _ _ Hb E1) as [F1 P1].
    assert (Hb1 : (b <= length (heap w1))%nat) by (apply frame_length in F1; lia).
    destruct (Hf a (P1 a eq_refl) w1 _ _ Hb1 E2) as [F2 P2].
    split; [eapply frame_trans; eauto | exact P2].
  - destruct (Hm w _ _ Hb E1) as [F1 _]. split; [exact F1 | discriminate].
  - destruct (Hm w _ _ Hb E1) as [F1 _]. split; [exact F1 | discriminate].
Qed.

Lemma framed_try_catch {A : Type} b (m : M A) (h : exn -> M A) (Q : A -> Prop) :
  framed b m Q -> (forall e, framed b (h e) Q) -> framed b (try_catch m h) Q.
Proof.
  intros Hm Hh w r w' Hb E. unfold try_catch in E.
  destruct (m w) as [[a | e | ] w1] eqn:E1.
  - inversion E; subst. exact (Hm w _ _ Hb E1).
  - destruct (Hm w _ _ Hb E1) as [F1 _].
    assert (Hb1 : (b <= length (heap w1))%nat) by (apply frame_length in F1; lia).
    destruct (Hh e w1 _ _ Hb1 E) as [F2 P2].
    split; [eapply frame_trans; eauto | exact P2].
  - inversion E; subst. exact (Hm w _ _ Hb E1).
Qed.

Lemma framed_when b (c : bool) (m : M unit) : framed b m any -> framed b (when_ c m) any.
Proof. intros Hm. destruct c; [exact Hm | now apply framed_ret]. Qed.

Lemma framed_for_each {A : Type} b (f : A -> M unit) (l : list A) :
  (forall x, framed b (f x) any) -> framed b (for_each f l) any.
Proof.
  intros Hf. induction l as [| x l IH]; simpl.
  - now apply framed_ret.
  - eapply framed_bind; [apply Hf | intros _ _; exact IH].
Qed.

Lemma framed_collect {A B : Type} b (f : A -> M (option B)) (l : list A) :
  (forall x, framed b (f x) any) -> framed b (collect f l) any.
Proof.
  intros Hf. induction l as [| x l IH]; simpl.
  - now apply framed_ret.
  - eapply framed_bind; [apply Hf |]. intros r _.
    eapply framed_bind; [exact IH |]. intros rs _. now apply framed_ret.
Qed.

Lemma unchanged_framed {A : Type} b (m : M A) : unchanged m -> framed b m any.
Proof.
  intros Hm w r w' _ E. specialize (Hm w). rewrite E in Hm. simpl in Hm. subst w'.
  split; [apply frame_refl | intros; exact I].
Qed.

Lemma unchanged_bind {A B : Type} (m : M A) (f : A -> M B) :
  unchanged m -> (forall a, unchanged (f a)) -> unchanged (bind m f).
Proof.
  intros Hm Hf w. unfold bind. specialize (Hm w).
  destruct (m w) as [[a | e | ] w1]; simpl in Hm; subst w1; [apply Hf | reflexivity ..].
Qed.

Lemma unchanged_ret {A : Type} (a : A) : unchanged (ret a).
Proof. intros w. reflexivity. Qed.

Lemma unchanged_throw {A : Type} e : unchanged (@throw A e).
Proof. intros w. reflexivity. Qed.

Lemma unchanged_read_obj a : unchanged (read_obj a).
Proof. intros w. reflexivity. Qed.

Lemma unchanged_slot_value s : unchanged (slot_value s).
Proof. destruct s as [v | [v | v]]; intros w; reflexivity. Qed.

Lemma unchanged_get_prop v k : unchanged (get_prop v k).
Proof.
  destruct v; simpl; try apply unchanged_ret; try apply unchanged_throw.
  apply unchanged_bind; [apply unchanged_read_obj |].
  intros o. destruct (find_prop k o); [apply unchanged_slot_value | apply unchanged_ret].
Qed.

Lemma unchanged_has_property k v : unchanged (has_property k v).
Proof.
  destruct v; simpl; try apply unchanged_ret; try apply unchanged_throw.
  apply unchanged_bind; [apply unchanged_read_obj | intros; apply unchanged_ret].
Qed.

Lemma unchanged_call_function f : unchanged (call_function f).
Proof.
  destruct f; simpl; try apply unchanged_throw.
  destruct call; [apply unchanged_ret | apply unchanged_throw].
Qed.

Lemma unchanged_kind_of v : unchanged (kind_of v).
Proof.
  destruct v; simpl; try apply unchanged_ret.
  apply unchanged_bind; [apply unchanged_read_obj | intros; apply unchanged_ret].
Qed.

Lemma unchanged_instanceof_Error v : unchanged (instanceof_Error v).
Proof.
  apply unchanged_bind; [apply unchanged_kind_of | intros; apply unchanged_ret].
Qed.

Lemma unchanged_Array_isArray v : unchanged (Array_isArray v).
Proof.
  apply unchanged_bind; [apply unchanged_kind_of | intros; apply unchanged_ret].
Qed.

Lemma unchanged_isObject v : unchanged (isObject v).
Proof.
  unfold isObject. destruct (truthy v && String.eqb (typeof v) "object").
  - apply unchanged_bind; [apply unchanged_Array_isArray | intros; apply unchanged_ret].
  - apply unchanged_ret.
Qed.

Lemma unchanged_template_string v : unchanged (template_string v).
Proof.
  destruct v as [| | [|] | | | | | |]; simpl;
    try apply unchanged_ret; apply unchanged_throw.
Qed.

Lemma unchanged_apply_toJSON v : unchanged (apply_toJSON v).
Proof.
  destruct v; cbn [apply_toJSON]; try apply unchanged_ret;
    (apply unchanged_bind; [apply unchanged_get_prop |]);
    intros t; (destruct (is_callable t); [apply unchanged_call_function | apply unchanged_ret]).
Qed.

Create HintDb frames.
#[local] Hint Resolve unchanged_ret unchanged_throw unchanged_read_obj unchanged_slot_value
  unchanged_get_prop unchanged_has_property unchanged_call_function unchanged_kind_of
  unchanged_instanceof_Error unchanged_Array_isArray unchanged_isObject
  unchanged_template_string unchanged_apply_toJSON : frames.
#[local] Hint Resolve unchanged_framed framed_throw framed_out_of_fuel : frames.

Lemma framed_alloc b o : framed b (alloc o) (fun a => (b <= a)%nat).
Proof.
  intros w r w' Hb E. inversion E; subst; clear E. split.
  - split; [split |]; simpl.
    + rewrite length_app. lia.
    + intros a Ha. apply lookup_app_l. lia.
    + split; reflexivity.
  - intros a Ha. inversion Ha; subst. exact Hb.
Qed.

Lemma framed_write_obj b target o : (b <= target)%nat -> framed b (write_obj target o) any.
Proof.
  intros Ht w r w' Hb E. inversion E; subst; clear E. split; [| intros; exact I].
  split; [split |]; simpl.
  - rewrite length_insert. lia.
  - intros a Ha. apply list_lookup_insert_ne. lia.
  - split; reflexivity.
Qed.

Lemma framed_set_prop b target k v : (b <= target)%nat -> framed b (set_prop target k v) any.
Proof.
  intros Ht. eapply framed_bind; [apply unchanged_framed, unchanged_read_obj |].
  intros o _. now apply framed_write_obj.
Qed.

Lemma framed_put_prop b target k v : (b <= target)%nat -> framed b (put_prop target k v) any.
Proof.
  intros Ht. eapply framed_bind; [apply unchanged_framed, unchanged_read_obj |].
  intros o _. destruct (find_prop k o) as [[en [x | g]] |];
    [now apply framed_write_obj | apply framed_throw |].
  destruct (String.eqb k "__proto__"); [| now apply framed_write_obj].
  destruct v; first [now apply framed_ret | apply framed_out_of_fuel].
Qed.

Lemma framed_put_chars b target cs : forall i,
  (b <= target)%nat -> framed b (put_chars target i cs) any.
Proof.
  induction cs as [| c cs IH]; intros i Ht; simpl.
  - now apply framed_ret.
  - eapply framed_bind; [now apply framed_put_prop | intros _ _; now apply IH].
Qed.

Lemma framed_object_assign b target source :
  (b <= target)%nat -> framed b (object_assign target source) any.
Proof.
  intros Ht. destruct source; simpl; try (now apply framed_ret).
  - now apply framed_put_chars.
  - eapply framed_bind; [apply unchanged_framed, unchanged_read_obj |].
    intros o _. apply framed_for_each. intros k.
    eapply framed_bind; [apply unchanged_framed, unchanged_get_prop |].
    intros v _. now apply framed_put_prop.
Qed.

Lemma framed_spread_chars b target cs : forall i,
  (b <= target)%nat -> framed b (spread_chars target i cs) any.
Proof.
  induction cs as [| c cs IH]; intros i Ht; simpl.
  - now apply framed_ret.
  - eapply framed_bind; [now apply framed_set_prop | intros _ _; now apply IH].
Qed.

Lemma framed_object_spread b target source :
  (b <= target)%nat -> framed b (object_spread target source) any.
Proof.
  intros Ht. destruct source; simpl; try (now apply framed_ret).
  - now apply framed_spread_chars.
  - eapply framed_bind; [apply unchanged_framed, unchanged_read_obj |].
    intros o _. apply framed_for_each. intros k.
    eapply framed_bind; [apply unchanged_framed, unchanged_get_prop |].
    intros v _. now apply framed_set_prop.
Qed.

(** The frame rules above, applied along the structure of a call. *)
Ltac frame_side := cbv beta in *; first [assumption | lia | exact I].

Ltac frame_auto :=
  lazymatch goal with
  | |- framed _ (bind _ _) _ =>
      eapply framed_bind; [frame_auto | intros; frame_auto]
  | |- framed _ (ret _) ?Q =>
      first [is_evar Q; apply (framed_ret _ _ any); exact I
            | apply framed_ret; frame_side]
  | |- framed _ (throw _) _ => apply framed_throw
  | |- framed _ out_of_fuel _ => apply framed_out_of_fuel
  | |- framed _ (when_ _ _) _ => apply framed_when; frame_auto
  | |- framed _ (for_each _ _) _ => apply framed_for_each; intros; frame_auto
  | |- framed _ (collect _ _) _ => apply framed_collect; intros; frame_auto
  | |- framed _ (try_catch _ _) _ => apply framed_try_catch; [frame_auto | intros; frame_auto]
  | |- framed _ (alloc _) _ => apply framed_alloc
  | |- framed _ (set_prop _ _ _) _ => apply framed_set_prop; frame_side
  | |- framed _ (object_spread _ _) _ => apply framed_object_spread; frame_side
  | |- framed _ (object_assign _ _) _ => apply framed_object_assign; frame_side
  | |- framed _ (if ?c then _ else _) _ => destruct c; frame_auto
  | |- framed _ (match ?x with _ => _ end) _ => destruct x; frame_auto
  | |- framed _ _ _ =>
      first [ solve [apply unchanged_framed; auto with frames]
            | solve [eauto with frames] ]
  end.

Lemma framed_errorToObject formatter :
  (forall b v, framed b (formatLogData formatter v) any) ->
  forall fuel b err, framed b (errorToObject fuel err formatter) (fresh_ref b).
Proof.
  intros Hf. induction fuel as [| n IH]; intros b err.
  - apply framed_out_of_fuel.
  - cbn [errorToObject].
    eapply framed_bind; [apply framed_alloc |]. intros target Ht.
    assert (Hfresh : fresh_ref b (VRef target)) by (exists target; now split).
    assert (IH' : forall e, framed b (errorToObject n e formatter) any)
      by (intros e; eapply framed_weaken; [| apply IH]; intros; exact I).
    clear IH. frame_auto.
Qed.

Lemma framed_jsonReplacer self b key v :
  (forall b k e, framed b (formatError self k e) any) ->
  framed b (jsonReplacer self key v) any.
Proof. intros Hself. unfold jsonReplacer. frame_auto. Qed.

Lemma framed_SerializeJSONProperty replacer :
  (forall b k v, framed b (replacer k v) any) ->
  forall fuel b gap stack indent key v,
    framed b (SerializeJSONProperty fuel replacer gap stack indent key v) any.
Proof.
  intros Hr. induction fuel as [| n IH]; intros b gap stack indent key v.
  - apply framed_out_of_fuel.
  - cbn [SerializeJSONProperty]. frame_auto.
Qed.

Lemma framed_JSON_stringify replacer fuel b v space :
  (forall b k v, framed b (replacer k v) any) ->
  framed b (JSON_stringify fuel v replacer space) any.
Proof.
  intros Hr. unfold JSON_stringify.
  eapply framed_bind; [now apply framed_SerializeJSONProperty | intros; frame_auto].
Qed.

Section FormatterFrames.

Variable inspect : InspectOptions -> list obj -> value -> string.

Lemma unchanged_formatWithInspect fields arg : unchanged (formatWithInspect inspect fields arg).
Proof. intros w. reflexivity. Qed.

Lemma framed_formatLogData fuel fields self b arg :
  (forall b k e, framed b (formatError self k e) any) ->
  framed b (JsonLogFormatter_formatLogData inspect fuel fields self arg) any.
Proof.
  intros Hself. unfold JsonLogFormatter_formatLogData.
  destruct (negb (String.eqb (typeof arg) "object")).
  - frame_auto.
  - apply framed_try_catch.
    + apply framed_JSON_stringify. intros. now apply framed_jsonReplacer.
    + intros e. apply unchanged_framed, unchanged_formatWithInspect.
Qed.

(** The JSON formatter only allocates: it writes nothing to the console
    and changes no object that existed before the call. *)
Lemma JsonLogFormatter_framed fields fuel :
  formatter_framed (JsonLogFormatter inspect fields fuel).
Proof.
  induction fuel as [| n [IHd IHe]]; split; intros; cbn [JsonLogFormatter formatLogData formatError].
  - apply framed_out_of_fuel.
  - apply framed_out_of_fuel.
  - now apply framed_formatLogData.
  - unfold JsonLogFormatter_formatError.
    eapply framed_weaken; [| now apply framed_errorToObject]. intros; exact I.
Qed.

(** What [formatError] returns is an object it has just created. *)
Lemma JsonLogFormatter_formatError_fresh fields fuel b k e :
  framed b (formatError (JsonLogFormatter inspect fields fuel) k e) (fresh_ref b).
Proof.
  destruct fuel as [| n]; cbn [JsonLogFormatter formatError].
  - apply framed_out_of_fuel.
  - unfold JsonLogFormatter_formatError. apply framed_errorToObject.
    intros. apply JsonLogFormatter_framed.
Qed.

End FormatterFrames.

Lemma reads_framed b m : reads m -> framed b m any.
Proof.
  intros Hm w r w' _ E. destruct (Hm w) as [v Hv]. rewrite Hv in E.
  inversion E; subst. split; [apply frame_refl | intros; exact I].
Qed.

Lemma framed_getLogData this level message data sc fmt b :
  formatter_framed fmt -> accessor_reads (getLogContext (config this)) ->
  framed b (getLogData this level message data sc fmt) any.
Proof.
  intros [Hd He] Hacc. unfold getLogData.
  eapply framed_bind; [apply framed_alloc |]. intros logData HlogData.
  eapply framed_bind.
  { destruct (getLogContext (config this)) as [accessor |].
    - apply reads_framed, Hacc.
    - apply (framed_ret _ _ any). exact I. }
  intros logContext _. frame_auto.
Qed.

(** ** Property lists *)

Lemma assoc_app {A : Type} k (l1 l2 : list (string * A)) :
  assoc k (l1 ++ l2) = match assoc k l1 with Some x => Some x | None => assoc k l2 end.
Proof.
  induction l1 as [| [k' x] l1 IH]; simpl; [reflexivity |].
  destruct (String.eqb k k'); [reflexivity | exact IH].
Qed.

Lemma assoc_props_update k k' v ps :
  assoc k (props_update k' v ps) =
  if String.eqb k k' then
    match assoc k ps with
    | Some p => Some (mkProperty (p_enumerable p) (Data v))
    | None => None
    end
  else assoc k ps.
Proof.
  induction ps as [| [k0 p0] ps IH]; simpl.
  - now destruct (String.eqb k k').
  - destruct (String.eqb_spec k' k0) as [-> | Hne]; simpl.
    + destruct (String.eqb_spec k k0) as [-> | Hne']; reflexivity.
    + destruct (String.eqb_spec k k0) as [-> | Hne'].
      * destruct (String.eqb_spec k0 k') as [E | _]; [congruence | reflexivity].
      * exact IH.
Qed.

Lemma assoc_props_insert_index k n k' p ps :
  assoc k' ps = None ->
  assoc k (props_insert_index n k' p ps) = if String.eqb k k' then Some p else assoc k ps.
Proof.
  induction ps as [| [k0 p0] ps IH]; intros Hnone.
  - reflexivity.
  - simpl in Hnone. destruct (String.eqb_spec k' k0) as [-> | Hne]; [discriminate |].
    assert (Hcons : assoc k ((k', p) :: (k0, p0) :: ps)
                    = if String.eqb k k' then Some p else assoc k ((k0, p0) :: ps))
      by reflexivity.
    cbn [props_insert_index].
    destruct (array_index k0) as [m |]; [destruct (m <? n) |]; try exact Hcons.
    simpl. destruct (String.eqb_spec k k0) as [-> | Hne'].
    + destruct (String.eqb_spec k0 k'); [congruence | reflexivity].
    + apply IH, Hnone.
Qed.

Lemma has_key_assoc {A : Type} k (l : list (string * A)) :
  has_key k l = false -> assoc k l = None.
Proof. unfold has_key. now destruct (assoc k l). Qed.

Lemma assoc_props_set k k' v ps :
  assoc k (props_set k' v ps) =
  if String.eqb k k' then
    Some (mkProperty (match assoc k ps with Some p => p_enumerable p | None => true end)
            (Data v))
  else assoc k ps.
Proof.
  unfold props_set, has_key. destruct (assoc k' ps) as [p' |] eqn:E.
  - rewrite assoc_props_update.
    destruct (String.eqb_spec k k') as [-> | Hne]; [now rewrite E | reflexivity].
  - destruct (array_index k') as [n |].
    + rewrite assoc_props_insert_index by exact E.
      destruct (String.eqb_spec k k') as [-> | Hne]; [now rewrite E | reflexivity].
    + rewrite assoc_app. simpl.
      destruct (String.eqb_spec k k') as [-> | Hne]; [now rewrite E |].
      now destruct (assoc k ps).
Qed.

Lemma own_field_obj_set k k' v o :
  own_field k (obj_set k' v o) = if String.eqb k k' then Some v else own_field k o.
Proof.
  unfold own_field, obj_set. cbn [o_own]. rewrite assoc_props_set.
  now destruct (String.eqb k k').
Qed.

Lemma own_field_assign_entries k kvs : forall o,
  own_field k (assign_entries kvs o) =
  match last_value k kvs with Some v => Some v | None => own_field k o end.
Proof.
  unfold assign_entries, last_value.
  induction kvs as [| [k' v] kvs IH]; intros o; simpl.
  - reflexivity.
  - rewrite IH, assoc_app, own_field_obj_set. simpl.
    destruct (assoc k (rev kvs)); [reflexivity |].
    now destruct (String.eqb k k').
Qed.

Lemma assign_entries_kind kvs : forall o, o_kind (assign_entries kvs o) = o_kind o.
Proof.
  unfold assign_entries. induction kvs as [| kv kvs IH]; intros o; simpl;
    [reflexivity | now rewrite IH].
Qed.

Lemma assign_entries_proto kvs : forall o, o_proto (assign_entries kvs o) = o_proto o.
Proof.
  unfold assign_entries. induction kvs as [| kv kvs IH]; intros o; simpl;
    [reflexivity | now rewrite IH].
Qed.

Lemma assign_entries_app kvs1 kvs2 o :
  assign_entries (kvs1 ++ kvs2) o = assign_entries kvs2 (assign_entries kvs1 o).
Proof. unfold assign_entries. apply fold_left_app. Qed.

(** Reading the keys of one object: the value under a key is the one the
    object yields for it. *)
Lemma read_keys_last_value o k : forall keys kvs,
  read_keys o keys = Some kvs ->
  last_value k kvs = if existsb (String.eqb k) keys then prop_result k o else None.
Proof.
  unfold last_value.
  induction keys as [| k0 keys IH]; intros kvs H; simpl in H.
  - inversion H; subst. reflexivity.
  - destruct (prop_result k0 o) as [v |] eqn:Ev; [| discriminate].
    destruct (read_keys o keys) as [rest |] eqn:Er; [| discriminate].
    inversion H; subst; clear H. simpl. rewrite assoc_app, (IH rest eq_refl). simpl.
    destruct (existsb (String.eqb k) keys) eqn:Ex.
    + rewrite orb_true_r.
      destruct (prop_result k o) eqn:Ek; [reflexivity |].
      destruct (String.eqb_spec k k0) as [-> | Hne]; [congruence | reflexivity].
    + rewrite orb_false_r.
      destruct (String.eqb_spec k k0) as [-> | Hne]; [now rewrite Ev | reflexivity].
Qed.

(** ** Reading and writing the heap *)

Lemma heap_obj_insert_eq h t o : (t < length h)%nat -> heap_obj (<[t := o]> h) t = o.
Proof. intros Ht. unfold heap_obj. now rewrite list_lookup_insert_eq. Qed.

Lemma heap_obj_insert_ne h t a o : t <> a -> heap_obj (<[t := o]> h) a = heap_obj h a.
Proof. intros Hne. unfold heap_obj. now rewrite list_lookup_insert_ne. Qed.

Lemma heap_obj_app_new h o : heap_obj (h ++ [o]) (length h) = o.
Proof.
  unfold heap_obj. rewrite lookup_app_r by lia.
  now replace (length h - length h)%nat with 0%nat by lia.
Qed.

Lemma heap_obj_app_old h o a : (a < length h)%nat -> heap_obj (h ++ [o]) a = heap_obj h a.
Proof. intros Ha. unfold heap_obj. now rewrite lookup_app_l. Qed.

Lemma heap_obj_lookup h a : (a < length h)%nat -> h !! a = Some (heap_obj h a).
Proof.
  intros Ha. unfold heap_obj.
  destruct (lookup_lt_is_Some_2 h a Ha) as [o Ho]. now rewrite Ho.
Qed.

Lemma update_obj_same w t : (t < length (heap w))%nat -> update_obj w t (heap_obj (heap w) t) = w.
Proof.
  intros Ht. destruct w as [h c s]. unfold update_obj. simpl in *.
  now rewrite list_insert_id by now apply heap_obj_lookup.
Qed.

Lemma update_obj_twice w t o1 o2 : update_obj (update_obj w t o1) t o2 = update_obj w t o2.
Proof. unfold update_obj. simpl. now rewrite list_insert_insert_eq. Qed.

Lemma hframe_heap_obj b w w' a : hframe b w w' -> (a < b)%nat -> heap_obj (heap w') a = heap_obj (heap w) a.
Proof. intros [_ H] Ha. unfold heap_obj. now rewrite H. Qed.

Lemma get_prop_ref_some a k w v :
  prop_result k (heap_obj (heap w) a) = Some v -> get_prop (VRef a) k w = (Ok v, w).
Proof.
  unfold prop_result, get_prop, bind, read_obj. 
  destruct (find_prop k (heap_obj (heap w) a)) as [[en [x | [x | x]]] |]; simpl;
    intros H; inversion H; subst; reflexivity.
Qed.

Lemma get_prop_ref_none a k w :
  prop_result k (heap_obj (heap w) a) = None -> exists e, get_prop (VRef a) k w = (Throw e, w).
Proof.
  unfold prop_result, get_prop, bind, read_obj.
  destruct (find_prop k (heap_obj (heap w) a)) as [[en [x | [x | x]]] |]; simpl;
    intros H; inversion H; subst. eexists. reflexivity.
Qed.

Lemma get_prop_ref_inv a k w r w' :
  get_prop (VRef a) k w = (r, w') ->
  w' = w /\ match prop_result k (heap_obj (heap w) a) with
            | Some v => r = Ok v
            | None => exists e, r = Throw e
            end.
Proof.
  intros H. destruct (prop_result k (heap_obj (heap w) a)) as [v |] eqn:E.
  - rewrite (get_prop_ref_some _ _ _ _ E) in H. inversion H; subst. now split.
  - destruct (get_prop_ref_none _ _ _ E) as [e He]. rewrite He in H.
    inversion H; subst. split; [reflexivity | eauto].
Qed.

Lemma set_prop_eq target k v w :
  set_prop target k v w = (Ok tt, update_obj w target (obj_set k v (heap_obj (heap w) target))).
Proof. reflexivity. Qed.

(** A spread of an object into another one: the entries of the source
    are created on the target, unless an accessor raises. *)
Lemma for_each_spread_spec target a o keys : forall w,
  target <> a -> (target < length (heap w))%nat -> heap_obj (heap w) a = o ->
  match read_keys o keys with
  | Some kvs =>
      for_each (spread_key target (VRef a)) keys w
      = (Ok tt, update_obj w target (assign_entries kvs (heap_obj (heap w) target)))
  | None => exists e w', for_each (spread_key target (VRef a)) keys w = (Throw e, w')
  end.
Proof.
  induction keys as [| k keys IH]; intros w Hne Ht Ho; simpl.
  - unfold ret. now rewrite update_obj_same.
  - destruct (prop_result k o) as [v |] eqn:Ev.
    + assert (Hstep : spread_key target (VRef a) k w
                      = (Ok tt, update_obj w target (obj_set k v (heap_obj (heap w) target)))).
      { unfold spread_key. erewrite bind_ok by (apply get_prop_ref_some; rewrite Ho; exact Ev).
        apply set_prop_eq. }
      set (w1 := update_obj w target (obj_set k v (heap_obj (heap w) target))) in *.
      assert (Ht1 : (target < length (heap w1))%nat)
        by (unfold w1, update_obj; simpl; now rewrite length_insert).
      assert (Ho1 : heap_obj (heap w1) a = o)
        by (unfold w1, update_obj; simpl; now rewrite heap_obj_insert_ne).
      specialize (IH w1 Hne Ht1 Ho1).
      destruct (read_keys o keys) as [kvs |].
      * erewrite bind_ok by exact Hstep. rewrite IH. f_equal.
        unfold w1 at 1. rewrite update_obj_twice. f_equal.
        unfold w1, update_obj. simpl. now rewrite heap_obj_insert_eq.
      * destruct IH as (e & w' & IH). exists e, w'.
        erewrite bind_ok by exact Hstep. exact IH.
    + destruct (get_prop_ref_none a k w) as [e He]; [now rewrite Ho |].
      exists e, w. unfold spread_key. erewrite bind_throw; [reflexivity |].
      erewrite bind_throw; [reflexivity | exact He].
Qed.

Lemma spread_chars_spec target cs : forall i w,
  (target < length (heap w))%nat ->
  spread_chars target i cs w
  = (Ok tt, update_obj w target (assign_entries (char_entries i cs) (heap_obj (heap w) target))).
Proof.
  induction cs as [| c cs IH]; intros i w Ht; simpl.
  - unfold ret. now rewrite update_obj_same.
  - erewrite bind_ok by apply set_prop_eq.
    rewrite IH by (unfold update_obj; simpl; now rewrite length_insert).
    rewrite update_obj_twice. unfold update_obj at 2. simpl.
    now rewrite heap_obj_insert_eq.
Qed.

Lemma object_spread_spec target source w :
  source <> VRef target -> (target < length (heap w))%nat ->
  match source_entries (heap w) source with
  | Some kvs =>
      object_spread target source w
      = (Ok tt, update_obj w target (assign_entries kvs (heap_obj (heap w) target)))
  | None => exists e w', object_spread target source w = (Throw e, w')
  end.
Proof.
  intros Hne Ht.
  destruct source as [| | b | n | s | n | d | name call | a]; simpl;
    try (unfold ret; now rewrite update_obj_same).
  - now apply spread_chars_spec.
  - assert (Hta : target <> a) by congruence.
    pose proof (for_each_spread_spec target a (heap_obj (heap w) a)
                  (own_enumerable_keys (heap_obj (heap w) a)) w Hta Ht eq_refl) as H.
    unfold entries. exact H.
Qed.

Lemma object_spread_ok target source w w' :
  source <> VRef target -> (target < length (heap w))%nat ->
  object_spread target source w = (Ok tt, w') ->
  exists kvs,
    source_entries (heap w) source = Some kvs
    /\ w' = update_obj w target (assign_entries kvs (heap_obj (heap w) target)).
Proof.
  intros Hne Ht H. pose proof (object_spread_spec target source w Hne Ht) as S.
  destruct (source_entries (heap w) source) as [kvs |].
  - exists kvs. split; [reflexivity | congruence].
  - destruct S as (e & w1 & S). congruence.
Qed.

(** *** Objects of data properties *)

Lemma forallb_assoc {A : Type} (f : A -> bool) k (l : list (string * A)) x :
  forallb (fun kp => f (snd kp)) l = true -> assoc k l = Some x -> f x = true.
Proof.
  induction l as [| [k' y] l IH]; simpl; [discriminate |].
  intros H E. apply andb_true_iff in H as [Hy Hl].
  destruct (String.eqb k k'); [now inversion E; subst | now apply IH].
Qed.

Lemma data_properties_spec o :
  data_properties o = true
  <-> o_kind o = KObject
      /\ forallb (fun kp => is_data (snd kp)) (o_own o) = true
      /\ forallb (fun kp => is_data (snd kp)) (o_proto o) = true.
Proof.
  unfold data_properties. rewrite andb_true_iff, forallb_app, andb_true_iff.
  split.
  - intros [Hk H]. split; [now destruct (o_kind o) | exact H].
  - intros (Hk & H). rewrite Hk. now split.
Qed.

Lemma data_properties_find k o p :
  data_properties o = true -> find_prop k o = Some p -> is_data p = true.
Proof.
  intros H. apply data_properties_spec in H as (Hk & Hown & Hproto).
  unfold find_prop, own_props. rewrite Hk. cbn [kind_proto assoc].
  destruct (assoc k (o_own o)) as [p1 |] eqn:E1.
  { intros E. inversion E; subst. exact (forallb_assoc is_data k _ _ Hown E1). }
  destruct (assoc k (o_proto o)) as [p2 |] eqn:E2.
  { intros E. inversion E; subst. exact (forallb_assoc is_data k _ _ Hproto E2). }
  intros E. apply (forallb_assoc is_data k object_prototype); [reflexivity | exact E].
Qed.

Lemma is_data_props_update k v ps :
  forallb (fun kp => is_data (snd kp)) ps = true ->
  forallb (fun kp => is_data (snd kp)) (props_update k v ps) = true.
Proof.
  induction ps as [| [k' p] ps IH]; simpl; [reflexivity |].
  intros H. apply andb_true_iff in H as [Hp Hps].
  destruct (String.eqb k k'); simpl; [exact Hps | now rewrite Hp, IH].
Qed.

Lemma is_data_props_insert_index n k v ps :
  forallb (fun kp => is_data (snd kp)) ps = true ->
  forallb (fun kp => is_data (snd kp)) (props_insert_index n k (data_prop v) ps) = true.
Proof.
  induction ps as [| [k' p] ps IH]; simpl; [reflexivity |].
  intros H. pose proof H as H0. apply andb_true_iff in H as [Hp Hps].
  destruct (array_index k') as [m |]; [destruct (m <? n) |]; simpl;
    rewrite ?Hp, ?Hps, ?IH; auto.
Qed.

Lemma is_data_props_set k v ps :
  forallb (fun kp => is_data (snd kp)) ps = true ->
  forallb (fun kp => is_data (snd kp)) (props_set k v ps) = true.
Proof.
  intros H. unfold props_set. destruct (has_key k ps); [now apply is_data_props_update |].
  destruct (array_index k); [now apply is_data_props_insert_index |].
  rewrite forallb_app, H. reflexivity.
Qed.

Lemma data_properties_set k v o :
  data_properties o = true -> data_properties (obj_set k v o) = true.
Proof.
  intros H. apply data_properties_spec in H as (Hk & Hown & Hproto).
  apply data_properties_spec. unfold obj_set. cbn [o_kind o_own o_proto].
  split; [exact Hk |]. split; [now apply is_data_props_set | exact Hproto].
Qed.

Lemma data_properties_assign kvs : forall o,
  data_properties o = true -> data_properties (assign_entries kvs o) = true.
Proof.
  unfold assign_entries. induction kvs as [| [k v] kvs IH]; intros o H; simpl; [exact H |].
  apply IH. now apply data_properties_set.
Qed.

(** [Object.assign] from an object into another one: the entries of the
    source are assigned to the target, unless an accessor or an assignment
    raises, or an assignment replaces the prototype of the target. *)
Lemma put_prop_spec target k v w :
  (target < length (heap w))%nat ->
  match put_entry k v (heap_obj (heap w) target) with
  | Some o' => put_prop target k v w = (Ok tt, update_obj w target o')
  | None => exists r, put_prop target k v w = (r, w) /\ r <> Ok tt
  end.
Proof.
  intros Ht. unfold put_prop, put_entry, bind, read_obj.
  destruct (find_prop k (heap_obj (heap w) target)) as [[en [x | g]] |]; cbn [p_slot];
    [reflexivity | eexists; split; [reflexivity | discriminate] |].
  destruct (String.eqb k "__proto__"); [| reflexivity].
  destruct v; try (unfold ret; now rewrite update_obj_same);
    eexists; split; try reflexivity; discriminate.
Qed.

Lemma put_entry_set k v o :
  data_properties o = true -> k <> "__proto__" -> put_entry k v o = Some (obj_set k v o).
Proof.
  intros Hd Hk. unfold put_entry.
  destruct (find_prop k o) as [p |] eqn:E.
  - pose proof (data_properties_find k o p Hd E) as Hp. unfold is_data in Hp.
    now destruct (p_slot p).
  - now destruct (String.eqb_spec k "__proto__").
Qed.

(** Without the key [__proto__], assigning to an object of data
    properties is creating. *)
Lemma put_entries_assign kvs : forall o,
  data_properties o = true ->
  ~ In "__proto__" (keys_of kvs) -> put_entries kvs o = Some (assign_entries kvs o).
Proof.
  induction kvs as [| [k v] kvs IH]; intros o Hd Hk; [reflexivity |].
  cbn [put_entries fst snd].
  rewrite put_entry_set by (try exact Hd; intros ->; apply Hk; now left).
  rewrite IH; [reflexivity | now apply data_properties_set | intros Hin; apply Hk; now right].
Qed.

Lemma put_entry_shape k v o o' :
  put_entry k v o = Some o' ->
  o_kind o' = o_kind o /\ o_proto o' = o_proto o
  /\ (forall k0, has_key k0 (o_own o) = true -> has_key k0 (o_own o') = true)
  /\ (forall k0, k0 <> "__proto__" ->
        own_field k0 o' = if String.eqb k0 k then Some v else own_field k0 o).
Proof.
  unfold put_entry. intros H.
  assert (Hset : o' = obj_set k v o ->
                 o_kind o' = o_kind o /\ o_proto o' = o_proto o
                 /\ (forall k0, has_key k0 (o_own o) = true -> has_key k0 (o_own o') = true)
                 /\ (forall k0, k0 <> "__proto__" ->
                       own_field k0 o' = if String.eqb k0 k then Some v else own_field k0 o)).
  { intros ->. split; [reflexivity |]. split; [reflexivity |]. split.
    - intros k0 Hk0. unfold obj_set. cbn [o_own]. unfold has_key. rewrite assoc_props_set.
      unfold has_key in Hk0. destruct (String.eqb k0 k); [reflexivity | exact Hk0].
    - intros k0 _. apply own_field_obj_set. }
  destruct (find_prop k o) as [[en [x | g]] |]; cbn [p_slot] in H;
    [apply Hset; congruence | discriminate |].
  destruct (String.eqb_spec k "__proto__") as [-> | Hne]; [| apply Hset; congruence].
  assert (Hsame : o' = o) by (destruct v; inversion H; reflexivity).
  subst o'. split; [reflexivity |]. split; [reflexivity |]. split; [auto |].
  intros k0 Hk0. now destruct (String.eqb_spec k0 "__proto__").
Qed.

Lemma put_entries_shape kvs : forall o o',
  put_entries kvs o = Some o' ->
  o_kind o' = o_kind o /\ o_proto o' = o_proto o
  /\ (forall k0, has_key k0 (o_own o) = true -> has_key k0 (o_own o') = true)
  /\ (forall k0, k0 <> "__proto__" ->
        own_field k0 o' = match last_value k0 kvs with
                          | Some v => Some v
                          | None => own_field k0 o
                          end).
Proof.
  induction kvs as [| [k v] kvs IH]; intros o o' H.
  - inversion H; subst. repeat split; auto.
  - cbn [put_entries fst snd] in H.
    destruct (put_entry k v o) as [o1 |] eqn:E1; [| discriminate].
    destruct (put_entry_shape _ _ _ _ E1) as (K1 & P1 & M1 & F1).
    destruct (IH _ _ H) as (K & P & Mo & F).
    split; [congruence |]. split; [congruence |]. split; [auto |].
    intros k0 Hk0. rewrite (F k0 Hk0), (F1 k0 Hk0).
    unfold last_value. cbn [rev]. rewrite assoc_app. cbn [assoc].
    destruct (assoc k0 (rev kvs)); [reflexivity |].
    now destruct (String.eqb k0 k).
Qed.

Lemma bind_not_ok {B : Type} (m : M unit) (f : unit -> M B) w r w1 :
  m w = (r, w1) -> r <> Ok tt -> exists r', bind m f w = (r', w1) /\ forall x, r' <> Ok x.
Proof.
  intros H Hr. unfold bind. rewrite H. destruct r as [[] | e |].
  - now contradiction Hr.
  - eexists. split; [reflexivity | discriminate].
  - eexists. split; [reflexivity | discriminate].
Qed.

Lemma for_each_assign_spec target a o keys : forall w,
  target <> a -> (target < length (heap w))%nat -> heap_obj (heap w) a = o ->
  match read_keys o keys with
  | Some kvs =>
      match put_entries kvs (heap_obj (heap w) target) with
      | Some o' =>
          for_each (assign_key target (VRef a)) keys w = (Ok tt, update_obj w target o')
      | None =>
          exists r w', for_each (assign_key target (VRef a)) keys w = (r, w') /\ r <> Ok tt
      end
  | None =>
      exists r w', for_each (assign_key target (VRef a)) keys w = (r, w') /\ r <> Ok tt
  end.
Proof.
  induction keys as [| k keys IH]; intros w Hne Ht Ho; simpl.
  - unfold ret. now rewrite update_obj_same.
  - destruct (prop_result k o) as [v |] eqn:Ev.
    + assert (Hstep : assign_key target (VRef a) k w = put_prop target k v w).
      { unfold assign_key. erewrite bind_ok by (apply get_prop_ref_some; rewrite Ho; exact Ev).
        reflexivity. }
      pose proof (put_prop_spec target k v w Ht) as Hput. rewrite <- Hstep in Hput.
      destruct (put_entry k v (heap_obj (heap w) target)) as [o1 |] eqn:E1.
      * set (w1 := update_obj w target o1) in *.
        assert (Ht1 : (target < length (heap w1))%nat)
          by (unfold w1, update_obj; simpl; now rewrite length_insert).
        assert (Ho1 : heap_obj (heap w1) a = o)
          by (unfold w1, update_obj; simpl; now rewrite heap_obj_insert_ne).
        assert (T1 : heap_obj (heap w1) target = o1)
          by (unfold w1, update_obj; simpl; now apply heap_obj_insert_eq).
        specialize (IH w1 Hne Ht1 Ho1). rewrite T1 in IH.
        destruct (read_keys o keys) as [kvs |]; cbn [put_entries fst snd]; rewrite ?E1.
        -- destruct (put_entries kvs o1) as [o' |].
           ++ erewrite bind_ok by exact Hput. rewrite IH. unfold w1.
              now rewrite update_obj_twice.
           ++ destruct IH as (r & w' & IH & Hr). exists r, w'.
              erewrite bind_ok by exact Hput. now split.
        -- destruct IH as (r & w' & IH & Hr). exists r, w'.
           erewrite bind_ok by exact Hput. now split.
      * destruct Hput as (r & Hput & Hr).
        destruct (bind_not_ok _ (fun _ => for_each (assign_key target (VRef a)) keys) _ _ _
                    Hput Hr) as (r' & Hb & Hr').
        assert (Hgoal : exists r0 w',
                   bind (assign_key target (VRef a) k)
                     (fun _ => for_each (assign_key target (VRef a)) keys) w = (r0, w')
                   /\ r0 <> Ok tt) by (exists r', w; split; [exact Hb | apply Hr']).
        destruct (read_keys o keys) as [kvs |]; cbn [put_entries fst snd]; rewrite ?E1;
          exact Hgoal.
    + destruct (get_prop_ref_none a k w) as [e He]; [now rewrite Ho |].
      exists (Throw e), w. split; [| discriminate].
      unfold assign_key. erewrite bind_throw; [reflexivity |].
      erewrite bind_throw; [reflexivity | exact He].
Qed.

Lemma put_chars_spec target cs : forall i w,
  (target < length (heap w))%nat ->
  match put_entries (char_entries i cs) (heap_obj (heap w) target) with
  | Some o' => put_chars target i cs w = (Ok tt, update_obj w target o')
  | None => exists r w', put_chars target i cs w = (r, w') /\ r <> Ok tt
  end.
Proof.
  induction cs as [| c cs IH]; intros i w Ht; simpl.
  - unfold ret. now rewrite update_obj_same.
  - pose proof (put_prop_spec target (Text.decimal_nat i) (VStr c) w Ht) as Hstep.
    destruct (put_entry (Text.decimal_nat i) (VStr c) (heap_obj (heap w) target)) as [o1 |].
    + set (w1 := update_obj w target o1) in *.
      assert (Ht1 : (target < length (heap w1))%nat)
        by (unfold w1, update_obj; simpl; now rewrite length_insert).
      assert (T1 : heap_obj (heap w1) target = o1)
        by (unfold w1, update_obj; simpl; now apply heap_obj_insert_eq).
      specialize (IH (S i) w1 Ht1). rewrite T1 in IH.
      destruct (put_entries (char_entries (S i) cs) o1) as [o' |].
      * erewrite bind_ok by exact Hstep. rewrite IH. unfold w1. now rewrite update_obj_twice.
      * destruct IH as (r & w' & IH & Hr). exists r, w'.
        erewrite bind_ok by exact Hstep. now split.
    + destruct Hstep as (r & Hstep & Hr).
      destruct (bind_not_ok _ (fun _ => put_chars target (S i) cs) _ _ _ Hstep Hr)
        as (r' & Hb & Hr').
      exists r', w. split; [exact Hb | apply Hr'].
Qed.

Lemma object_assign_spec target source w :
  source <> VRef target -> (target < length (heap w))%nat ->
  match source_entries (heap w) source with
  | Some kvs =>
      match put_entries kvs (heap_obj (heap w) target) with
      | Some o' => object_assign target source w = (Ok tt, update_obj w target o')
      | None => exists r w', object_assign target source w = (r, w') /\ r <> Ok tt
      end
  | None => exists r w', object_assign target source w = (r, w') /\ r <> Ok tt
  end.
Proof.
  intros Hne Ht.
  destruct source as [| | b | n | s | n | d | name call | a]; simpl;
    try (unfold ret; now rewrite update_obj_same).
  - now apply put_chars_spec.
  - assert (Hta : target <> a) by congruence.
    pose proof (for_each_assign_spec target a (heap_obj (heap w) a)
                  (own_enumerable_keys (heap_obj (heap w) a)) w Hta Ht eq_refl) as H.
    unfold entries. exact H.
Qed.

Lemma object_assign_ok target source w w' :
  source <> VRef target -> (target < length (heap w))%nat ->
  object_assign target source w = (Ok tt, w') ->
  exists kvs o',
    source_entries (heap w) source = Some kvs
    /\ put_entries kvs (heap_obj (heap w) target) = Some o'
    /\ w' = update_obj w target o'.
Proof.
  intros Hne Ht H. pose proof (object_assign_spec target source w Hne Ht) as S.
  destruct (source_entries (heap w) source) as [kvs |].
  - destruct (put_entries kvs (heap_obj (heap w) target)) as [o' |] eqn:Ep.
    + exists kvs, o'. split; [reflexivity |]. split; [exact Ep | congruence].
    + destruct S as (r & w1 & S & Hr). rewrite S in H. inversion H; subst.
      now contradiction Hr.
  - destruct S as (r & w1 & S & Hr). rewrite S in H. inversion H; subst. now contradiction Hr.
Qed.

(** A source without the key [__proto__] is assigned to an object of data
    properties as it is spread. *)
Lemma object_assign_some target source w kvs :
  source <> VRef target -> (target < length (heap w))%nat ->
  data_properties (heap_obj (heap w) target) = true ->
  source_entries (heap w) source = Some kvs ->
  ~ In "__proto__" (keys_of kvs) ->
  object_assign target source w
  = (Ok tt, update_obj w target (assign_entries kvs (heap_obj (heap w) target))).
Proof.
  intros Hne Ht Hd Hs Hk. pose proof (object_assign_spec target source w Hne Ht) as S.
  rewrite Hs in S. now rewrite (put_entries_assign kvs _ Hd Hk) in S.
Qed.

Lemma alloc_eq o w : alloc o w = (Ok (length (heap w)), push_obj w o).
Proof. reflexivity. Qed.

Lemma kind_of_eq v w : kind_of v w = (Ok (value_kind (heap w) v), w).
Proof. destruct v; reflexivity. Qed.

Lemma instanceof_Error_eq v w : instanceof_Error v w = (Ok (is_error (heap w) v), w).
Proof. unfold instanceof_Error. erewrite bind_ok by apply kind_of_eq. reflexivity. Qed.

Lemma isObject_eq v w : isObject v w = (Ok (is_plain_composite (heap w) v), w).
Proof.
  unfold isObject, is_plain_composite.
  destruct (truthy v && String.eqb (typeof v) "object"); [| reflexivity].
  unfold Array_isArray. erewrite bind_ok.
  2: { erewrite bind_ok by apply kind_of_eq. reflexivity. }
  reflexivity.
Qed.

Lemma value_kind_hframe b w w' v :
  hframe b w w' -> (forall a, v = VRef a -> (a < b)%nat) ->
  value_kind (heap w') v = value_kind (heap w) v.
Proof.
  intros F Hlt. destruct v as [| | | | | | | | a]; try reflexivity.
  cbn [value_kind]. now rewrite (hframe_heap_obj b w w' a F (Hlt a eq_refl)).
Qed.

Lemma source_entries_hframe b w w' v :
  hframe b w w' -> (forall a, v = VRef a -> (a < b)%nat) ->
  source_entries (heap w') v = source_entries (heap w) v.
Proof.
  intros F Hlt. destruct v as [| | | | | | | | a]; try reflexivity.
  cbn [source_entries]. now rewrite (hframe_heap_obj b w w' a F (Hlt a eq_refl)).
Qed.

(** ** Record assembly *)

Section LoggerRecord.

Variable inspect : InspectOptions -> list obj -> value -> string.
Variable fields : JsonLogFormatterFields.
Variable fuel : nat.

Local Abbreviation fmt := (JsonLogFormatter inspect fields fuel).

(** The merge of [getLogData]: the scope, then the call-site data, into
    the fresh object at [d]. *)
Lemma merge_into d sc data w3 w6 :
  (d < length (heap w3))%nat -> heap_obj (heap w3) d = empty_obj ->
  (forall a, sc = VRef a -> (a < d)%nat) -> (forall a, data = VRef a -> (a < d)%nat) ->
  (object_spread d sc ;;;
   dataIsError <- instanceof_Error data ;;
   (if dataIsError then
      converted <- formatError fmt "" data ;;
      object_assign d converted
    else
      dataIsObject <- isObject data ;;
      source <- (if dataIsObject then ret data
                 else wrapper <- alloc (plain [("data", data)]) ;; ret (VRef wrapper)) ;;
      object_assign d source)) w3 = (Ok tt, w6) ->
  exists scope_kvs src_kvs,
    source_entries (heap w3) sc = Some scope_kvs
    /\ data_source fmt (heap w3) d data src_kvs
    /\ put_entries src_kvs (assign_entries scope_kvs empty_obj) = Some (heap_obj (heap w6) d)
    /\ hframe d w3 w6 /\ quiet w3 w6.
Proof.
  intros Hd Hempty Hsc Hdata H.
  apply bind_inv_ok in H as (u & w4 & H1 & H).
  destruct u.
  apply object_spread_ok in H1 as (scope_kvs & Es & ->); [| | exact Hd].
  2: { intros ->. specialize (Hsc d eq_refl). lia. }
  rewrite Hempty in *.
  set (w4 := update_obj w3 d (assign_entries scope_kvs empty_obj)) in *.
  assert (F34 : hframe d w3 w4).
  { split; [unfold w4, update_obj; simpl; rewrite length_insert; lia |].
    intros a Ha. unfold w4, update_obj. simpl. apply list_lookup_insert_ne. lia. }
  assert (Hd4 : (d < length (heap w4))%nat) by (destruct F34; lia).
  assert (Hobj4 : heap_obj (heap w4) d = assign_entries scope_kvs empty_obj)
    by (unfold w4, update_obj; simpl; now apply heap_obj_insert_eq).
  assert (Q34 : quiet w3 w4) by (split; reflexivity).
  clearbody w4. exists scope_kvs.
  erewrite bind_ok in H by apply instanceof_Error_eq.
  pose proof (value_kind_hframe d w3 w4 data F34 Hdata) as Ek.
  unfold data_source, is_error, is_plain_composite in *. rewrite Ek in H.
  destruct (is_error_kind (value_kind (heap w3) data)) eqn:Eerr.
  - (* an error: converted by the formatter *)
    apply bind_inv_ok in H as (converted & w5 & Hc & H).
    destruct (JsonLogFormatter_formatError_fresh inspect fields fuel (length (heap w4)) "" data
                w4 _ _ (le_n _) Hc) as [[F45 Q45] Hfresh].
    destruct (Hfresh converted eq_refl) as (t & -> & Ht).
    assert (Hd5 : (d < length (heap w5))%nat) by (destruct F45; lia).
    apply object_assign_ok in H as (src_kvs & o' & Esrc & Ep & ->); [| | exact Hd5].
    2: { intros E. inversion E. lia. }
    exists src_kvs. split; [exact Es |]. split.
    { exists w4, w5, (VRef t). split; [| split; [exact Hc | exact Esrc]].
      intros a Ha. apply F34, Ha. }
    rewrite (hframe_heap_obj _ _ _ d F45 Hd4), Hobj4 in Ep.
    split; [| split].
    + unfold update_obj. simpl. rewrite heap_obj_insert_eq by exact Hd5. exact Ep.
    + eapply hframe_trans; [exact F34 |].
      eapply hframe_trans;
        [eapply hframe_weaken; [| exact F45]; apply Nat.lt_le_incl, Hd4 |].
      split. { unfold update_obj; simpl; rewrite length_insert. lia. }
      intros a Ha. unfold update_obj. simpl. apply list_lookup_insert_ne. lia.
    + destruct Q34 as [C34 S34], Q45 as [C45 S45]. split; simpl; congruence.
  - (* not an error *)
    erewrite bind_ok in H by apply isObject_eq.
    unfold is_plain_composite in H. rewrite Ek in H.
    destruct (truthy data && String.eqb (typeof data) "object"
              && negb (is_array_kind (value_kind (heap w3) data))) eqn:Eobj.
    + erewrite bind_ok in H by reflexivity.
      apply object_assign_ok in H as (src_kvs & o' & Esrc & Ep & ->); [| | exact Hd4].
      2: { intros ->. specialize (Hdata d eq_refl). lia. }
      exists src_kvs. split; [exact Es |]. split.
      { rewrite <- Esrc. symmetry. now apply (source_entries_hframe d). }
      rewrite Hobj4 in Ep. split; [| split].
      * unfold update_obj. simpl. rewrite heap_obj_insert_eq by exact Hd4. exact Ep.
      * eapply hframe_trans; [exact F34 |].
        split; [unfold update_obj; simpl; rewrite length_insert; lia |].
        intros a Ha. unfold update_obj. simpl. apply list_lookup_insert_ne. lia.
      * destruct Q34. split; simpl; congruence.
    + erewrite bind_ok in H.
      2: { erewrite bind_ok by apply alloc_eq. reflexivity. }
      set (w5 := push_obj w4 (plain [("data", data)])) in *.
      assert (Hd5 : (d < length (heap w5))%nat)
        by (unfold w5, push_obj; simpl; rewrite length_app; lia).
      apply object_assign_ok in H as (src_kvs & o' & Esrc & Ep & ->); [| | exact Hd5].
      2: { intros E. inversion E. lia. }
      unfold w5, push_obj in Esrc. cbn [source_entries heap] in Esrc.
      rewrite heap_obj_app_new in Esrc. cbv in Esrc. inversion Esrc; subst src_kvs.
      eexists. split; [exact Es |]. split; [reflexivity |].
      unfold w5, push_obj in Ep. cbn [heap] in Ep.
      rewrite heap_obj_app_old in Ep by exact Hd4. rewrite Hobj4 in Ep.
      split; [| split].
      * unfold update_obj. simpl. rewrite heap_obj_insert_eq by exact Hd5. exact Ep.
      * eapply hframe_trans; [exact F34 |].
        split.
        { unfold update_obj, w5, push_obj. simpl. rewrite length_insert, length_app. lia. }
        intros a Ha. unfold update_obj, w5, push_obj. simpl.
        rewrite list_lookup_insert_ne by lia. apply lookup_app_l. lia.
      * destruct Q34. split; simpl; congruence.
Qed.

Lemma data_source_rebase h0 h3 b d data kvs :
  (b <= d)%nat -> (forall a, (a < b)%nat -> h3 !! a = h0 !! a) ->
  (forall a, data = VRef a -> (a < b)%nat) ->
  data_source fmt h3 d data kvs -> data_source fmt h0 b data kvs.
Proof.
  intros Hbd Hagree Hdata. unfold data_source, is_error, is_plain_composite.
  assert (Ek : value_kind h3 data = value_kind h0 data).
  { destruct data as [| | | | | | | | a]; try reflexivity. cbn [value_kind]. unfold heap_obj.
    now rewrite (Hagree a (Hdata a eq_refl)). }
  assert (Es : source_entries h3 data = source_entries h0 data).
  { destruct data as [| | | | | | | | a]; try reflexivity. cbn [source_entries]. unfold heap_obj.
    now rewrite (Hagree a (Hdata a eq_refl)). }
  rewrite Ek, Es.
  destruct (is_error_kind (value_kind h0 data)); [| exact (fun H => H)].
  intros (w1 & w2 & converted & H1 & H2 & H3). exists w1, w2, converted.
  split; [| split; assumption].
  intros a Ha. rewrite H1 by lia. now apply Hagree.
Qed.

Lemma getLogData_ok this level message data sc w v w' :
  accessor_reads (getLogContext (config this)) ->
  valid_value (heap w) sc -> valid_value (heap w) data ->
  getLogData this level message data sc fmt w = (Ok v, w') ->
  exists ctx,
    context_of (getLogContext (config this)) (push_obj w (record_base level message)) = Ok ctx
    /\ v = VRef (length (heap w))
    /\ hframe (length (heap w)) w w' /\ quiet w w'
    /\ heap_obj (heap w') (length (heap w))
       = record_of level message ctx (truthy data || truthy sc) (S (length (heap w)))
    /\ (truthy data || truthy sc = true ->
        exists scope_kvs src_kvs,
          source_entries (heap w) sc = Some scope_kvs
          /\ data_source fmt (heap w) (length (heap w)) data src_kvs
          /\ put_entries src_kvs (assign_entries scope_kvs empty_obj)
             = Some (heap_obj (heap w') (S (length (heap w)))))
    /\ (length (heap w) < length (heap w'))%nat
    /\ (truthy data || truthy sc = true -> (S (length (heap w)) < length (heap w'))%nat).
Proof.
  intros Hacc Hsc Hdata H. unfold getLogData in H.
  erewrite bind_ok in H by apply alloc_eq.
  fold (record_base level message) in H.
  set (r := length (heap w)) in *.
  set (w1 := push_obj w (record_base level message)) in *.
  assert (L1 : length (heap w1) = S r) by (unfold w1, push_obj; simpl; rewrite length_app; simpl; lia).
  assert (F01 : hframe r w w1).
  { split; [lia |]. intros a Ha. unfold w1, push_obj. simpl. now apply lookup_app_l. }
  assert (R1 : heap_obj (heap w1) r = record_base level message)
    by (unfold w1, push_obj; simpl; apply heap_obj_app_new).
  assert (Q01 : quiet w w1) by (split; reflexivity).
  assert (Hctx : exists ctx,
             context_of (getLogContext (config this)) w1 = Ok ctx
             /\ (match getLogContext (config this) with
                 | Some accessor => accessor
                 | None => ret VUndefined
                 end) w1 = (Ok ctx, w1)).
  { unfold context_of. destruct (getLogContext (config this)) as [m |].
    - destruct (Hacc w1) as [c Hc]. exists c. now rewrite Hc.
    - exists VUndefined. now split. }
  destruct Hctx as (ctx & Hctx & Erun). exists ctx. split; [exact Hctx |].
  clearbody w1.
  erewrite bind_ok in H by exact Erun. clear Erun.
  (* the context field *)
  apply bind_inv_ok in H as ([] & w2 & H2 & H).
  assert (S2 : hframe r w1 w2 /\ quiet w1 w2 /\ length (heap w2) = S r
               /\ heap_obj (heap w2) r = record_with_context level message ctx).
  { unfold when_, record_with_context in *. destruct (truthy ctx).
    - rewrite set_prop_eq in H2. inversion H2; subst w2; clear H2.
      repeat split; unfold update_obj; simpl.
      + rewrite length_insert. lia.
      + intros a Ha. apply list_lookup_insert_ne. lia.
      + rewrite length_insert. exact L1.
      + rewrite heap_obj_insert_eq by lia. now rewrite R1.
    - inversion H2; subst w2. repeat split; [lia | exact L1 | exact R1]. }
  destruct S2 as (F12 & Q12 & L2 & R2). clear H2.
  assert (F02 : hframe r w w2) by (eapply hframe_trans; eauto).
  assert (Q02 : quiet w w2) by (destruct Q01, Q12; split; congruence).
  (* the data field *)
  apply bind_inv_ok in H as ([] & w7 & H7 & H).
  inversion H; subst v w7; clear H. split; [reflexivity |].
  unfold when_, record_of in *.
  destruct (truthy data || truthy sc) eqn:Etruthy.
  - erewrite bind_ok in H7 by apply alloc_eq. rewrite L2 in H7.
    set (w3 := push_obj w2 empty_obj) in *.
    assert (L3 : length (heap w3) = S (S r))
      by (unfold w3, push_obj; simpl; rewrite length_app; simpl; lia).
    assert (F23 : hframe (S r) w2 w3).
    { split; [lia |]. intros a Ha. unfold w3, push_obj. simpl. apply lookup_app_l. lia. }
    assert (E3 : heap_obj (heap w3) (S r) = empty_obj).
    { unfold w3, push_obj. simpl. rewrite <- L2. apply heap_obj_app_new. }
    assert (Q23 : quiet w2 w3) by (split; reflexivity).
    clearbody w3.
    apply bind_inv_ok in H7 as ([] & w4 & H4 & H7).
    apply bind_inv_ok in H7 as (dataIsError & w5 & H5 & H7).
    apply bind_inv_ok in H7 as ([] & w6 & H6 & H7).
    assert (Hblock :
      (object_spread (S r) sc ;;;
       dataIsError <- instanceof_Error data ;;
       (if dataIsError then
          converted <- formatError fmt "" data ;;
          object_assign (S r) converted
        else
          dataIsObject <- isObject data ;;
          source <- (if dataIsObject then ret data
                     else wrapper <- alloc (plain [("data", data)]) ;; ret (VRef wrapper)) ;;
          object_assign (S r) source)) w3 = (Ok tt, w6)).
    { erewrite bind_ok by exact H4. erewrite bind_ok by exact H5. exact H6. }
    clear H4 H5 H6.
    apply merge_into in Hblock as (scope_kvs & src_kvs & Es & Hsrc & Hd & F36 & Q36).
    2: lia. 2: exact E3.
    2: { intros a ->. simpl in Hsc. fold r in Hsc. lia. }
    2: { intros a ->. simpl in Hdata. fold r in Hdata. lia. }
    rewrite set_prop_eq in H7. inversion H7; subst w'; clear H7.
    assert (F03 : hframe r w w3)
      by (eapply hframe_trans; [exact F02 | eapply hframe_weaken; [| exact F23]; lia]).
    assert (L6' : (S (S r) <= length (heap w6))%nat) by (destruct F36; lia).
    split; [| split; [| split; [| split; [| split]]]].
    5: { unfold update_obj. simpl. rewrite length_insert. lia. }
    5: { intros _. unfold update_obj. simpl. rewrite length_insert. lia. }
    + eapply hframe_trans; [exact F03 |].
      eapply hframe_trans; [eapply hframe_weaken; [| exact F36]; lia |].
      split; [unfold update_obj; simpl; rewrite length_insert; lia |].
      intros a Ha. unfold update_obj. simpl. apply list_lookup_insert_ne. lia.
    + destruct Q02, Q23, Q36. split; simpl; congruence.
    + unfold update_obj. simpl.
      assert (L6 : (S (S r) <= length (heap w6))%nat) by (destruct F36; lia).
      rewrite heap_obj_insert_eq by lia. f_equal.
      rewrite (hframe_heap_obj (S r) w3 w6 r F36) by lia.
      rewrite (hframe_heap_obj (S r) w2 w3 r F23) by lia. exact R2.
    + intros _. exists scope_kvs, src_kvs. split; [| split].
      * rewrite <- Es. symmetry. apply (source_entries_hframe r); [exact F03 |].
        intros a ->. exact Hsc.
      * apply (data_source_rebase (heap w) (heap w3) r (S r)); [lia | | | exact Hsrc].
        -- intros a Ha. now apply F03.
        -- intros a ->. exact Hdata.
      * unfold update_obj. simpl. rewrite heap_obj_insert_ne by lia. exact Hd.
  - inversion H7; subst w'. split; [exact F02 |]. split; [exact Q02 |].
    split; [exact R2 |]. split; [discriminate |]. split; [lia | discriminate].
Qed.
End LoggerRecord.

(** ** C1: [formatLogData] on a symbol *)

(** C1 (fails on the code): [formatLogData] is to return a string and
    never throw, whatever the value, symbols included.  A symbol is not an
    object, so it goes through the template literal, whose [ToString]
    raises a [TypeError]: the call throws, outside the [try] block. *)
Theorem formatLogData_symbol_throws
  (inspect : InspectOptions -> list obj -> value -> string)
  (fields : JsonLogFormatterFields) (fuel : nat) (description : string) (w : world) :
  formatLogData (JsonLogFormatter inspect fields (S fuel)) (VSymbol description) w
  = (Throw (TypeError "Cannot convert a Symbol value to a string"), w).
Proof. reflexivity. Qed.

(** For an object, on the other hand, nothing the walk raises leaves
    [formatLogData]: it returns, or the recursion budget of the model is
    exhausted. *)
Lemma formatLogData_object_no_throw
  (inspect : InspectOptions -> list obj -> value -> string)
  (fields : JsonLogFormatterFields) (fuel : nat) (self : LogFormatter)
  (arg : value) (w : world) :
  typeof arg = "object" ->
  forall e w', JsonLogFormatter_formatLogData inspect fuel fields self arg w <> (Throw e, w').
Proof.
  intros Ht e w' H. unfold JsonLogFormatter_formatLogData in H. rewrite Ht in H.
  cbn [String.eqb Ascii.eqb Bool.eqb negb] in H. unfold try_catch in H.
  destruct (JSON_stringify fuel arg (jsonReplacer self) (jsonStringifySpace fields) w)
    as [[v | e1 | ] w1]; discriminate.
Qed.

(** ** C4: threshold resolution *)

(** C4 (fails on the code): a configured string that is no severity name
    is to resolve to [debug], as the documentation of [logLevel] says ("if
    not provided, or not a valid LogLevel, LogLevel.debug is used").  The
    test [config.logLevel in LogLevel] also holds for the numeric keys of
    the enum object and for the members inherited from [Object.prototype]:
    ["toString"] resolves to a function and ["10"] to the string
    ["debug"], neither of which is a severity, and the constructor stores
    them as the threshold; with ["toString"] no call is then below the
    threshold. *)
Theorem resolve_logLevel_not_a_severity :
  (forall l, "toString" <> level_name l)
  /\ (forall l, "10" <> level_name l)
  /\ resolve_logLevel (VStr "toString")
     = VFunc (native_source "toString") (Returns VUndefined)
  /\ resolve_logLevel (VStr "10") = VStr "debug"
  /\ ~ is_severity (resolve_logLevel (VStr "toString"))
  /\ ~ is_severity (resolve_logLevel (VStr "10"))
  /\ (forall sc fmt tr accessor,
         logLevel (config (Logger_constructor (mkLoggerConfig sc (VStr "10") fmt tr accessor)))
         = VStr "debug")
  /\ (forall sc fmt tr accessor (v : LogLevel),
         js_lt (level_value v)
           (logLevel (config (Logger_constructor
                                (mkLoggerConfig sc (VStr "toString") fmt tr accessor))))
         = false).
Proof.
  split; [intros []; discriminate |]. split; [intros []; discriminate |].
  split; [reflexivity |]. split; [reflexivity |].
  split; [intros [l Hl]; vm_compute in Hl; discriminate |].
  split; [intros [l Hl]; vm_compute in Hl; discriminate |].
  split; [reflexivity |]. intros sc fmt tr accessor v. reflexivity.
Qed.

(** What the constructor stores otherwise: an enum value is kept, a
    severity name maps to its value, and an absent value or a string that
    is no key of the enum object and no key of [Object.prototype] gives
    [debug]. *)
Lemma resolve_logLevel_cases :
  (forall l, resolve_logLevel (VNum (level_value l)) = VNum (level_value l))
  /\ (forall l, resolve_logLevel (VStr (level_name l)) = VNum (level_value l))
  /\ resolve_logLevel VUndefined = VNum (level_value debug)
  /\ (forall s, ~ In s enum_keys -> ~ In s object_prototype_keys ->
                resolve_logLevel (VStr s) = VNum (level_value debug))
  /\ (forall c, logLevel (config (Logger_constructor c)) = resolve_logLevel (logLevel c)).
Proof.
  split; [intros []; reflexivity |].
  split; [intros []; reflexivity |].
  split; [reflexivity |].
  split; [exact resolve_unlisted | reflexivity].
Qed.

(** ** C3: the transport *)

(** C3 (fails on the code): an emitted record is to reach the injected
    transport, and no rendering failure is to reach the caller.  [log]
    writes with [console.log] and never calls [transport.writeLog]: the
    array of a recording transport stays empty while the console receives
    the line.  And an error whose enumerable property holds a symbol makes
    [formatError] raise, which [log] does not catch. *)
Theorem transport_is_never_called :
  (forall inspect fields fuel sc th accessor tr tr' v message data,
      log (json_logger inspect fields fuel sc th accessor tr) v message data
      = log (json_logger inspect fields fuel sc th accessor tr') v message data)
  /\ (let (r, w') := Logger_info sink_logger "hello" VUndefined sink_world in
      r = Ok tt
      /\ heap_obj (heap w') 0 = mkObj (KArray []) [] []
      /\ console w' = [VStr hello_line])
  /\ (let (r, w') := Logger_error sink_logger "failed" (VRef 1) tagged_error_world in
      r = Throw (TypeError "Cannot convert a Symbol value to a string")
      /\ console w' = []).
Proof.
  split; [reflexivity |]. split; vm_compute; repeat split; reflexivity.
Qed.

(** ** Calls that pass the threshold *)

(** A call at or above the threshold, under a formatter that only
    allocates: the heap only grows, and the console receives one text
    exactly when the call returns. *)
Lemma log_passing_framed this (v : LogLevel) message data w r w' :
  formatter_framed (formatter (config this)) ->
  accessor_reads (getLogContext (config this)) ->
  js_lt (level_value v) (logLevel (config this)) = false ->
  log this v message data w = (r, w') ->
  hframe (length (heap w)) w w'
  /\ storage w' = storage w
  /\ (r = Ok tt -> exists text, console w' = console w ++ [text])
  /\ (r <> Ok tt -> console w' = console w).
Proof.
  intros [Hd He] Hacc Hle H. unfold log in H. rewrite Hle in H.
  match type of H with
  | bind ?m _ _ = _ =>
      assert (FG : framed (length (heap w)) m any)
        by (apply framed_getLogData; [split; assumption | exact Hacc])
  end.
  assert (Hstop : forall (r0 : result value) w0,
             frame (length (heap w)) w w0 -> r = match r0 with
                                                | Ok _ => r
                                                | Throw e => Throw e
                                                | OutOfFuel => OutOfFuel
                                                end ->
             (forall x, r0 <> Ok x) -> w' = w0 ->
             hframe (length (heap w)) w w'
             /\ storage w' = storage w
             /\ (r = Ok tt -> exists text, console w' = console w ++ [text])
             /\ (r <> Ok tt -> console w' = console w)).
  { intros r0 w0 [F [C S]] Hr Hno ->. split; [exact F |]. split; [exact S |]. split.
    - intros E. rewrite E in Hr.
      destruct r0 as [x | e |]; [now contradiction (Hno x) | discriminate Hr ..].
    - intros _. exact C. }
  apply bind_inv in H as [(logData & w1 & H1 & H) | [(e & H1 & ->) | (H1 & ->)]].
  - destruct (FG w _ _ (le_n _) H1) as [F1 _].
    assert (L1 : (length (heap w) <= length (heap w1))%nat) by (apply frame_length in F1; lia).
    apply bind_inv in H as [(text & w2 & H2 & H) | [(e & H2 & ->) | (H2 & ->)]].
    + destruct (Hd (length (heap w)) logData w1 _ _ L1 H2) as [F2 _].
      pose proof (frame_trans _ _ _ _ F1 F2) as [[L F] [C S]].
      inversion H; subst r w'; clear H.
      repeat split; simpl; try assumption.
      * intros _. exists text. congruence.
      * intros Hne. now contradiction Hne.
    + destruct (Hd (length (heap w)) logData w1 _ _ L1 H2) as [F2 _].
      apply (Hstop (Throw e) w'); [eapply frame_trans; eauto | reflexivity | discriminate | reflexivity].
    + destruct (Hd (length (heap w)) logData w1 _ _ L1 H2) as [F2 _].
      apply (Hstop OutOfFuel w'); [eapply frame_trans; eauto | reflexivity | discriminate | reflexivity].
  - destruct (FG w _ _ (le_n _) H1) as [F1 _].
    apply (Hstop (Throw e) w'); [exact F1 | reflexivity | discriminate | reflexivity].
  - destruct (FG w _ _ (le_n _) H1) as [F1 _].
    apply (Hstop OutOfFuel w'); [exact F1 | reflexivity | discriminate | reflexivity].
Qed.

Lemma log_passing inspect fields fuel sc th accessor tr (v : LogLevel) message data w r w' :
  accessor_reads accessor ->
  js_lt (level_value v) th = false ->
  log (json_logger inspect fields fuel sc th accessor tr) v message data w = (r, w') ->
  hframe (length (heap w)) w w'
  /\ storage w' = storage w
  /\ (r = Ok tt -> exists text, console w' = console w ++ [text])
  /\ (r <> Ok tt -> console w' = console w).
Proof.
  intros Hacc Hle H.
  apply (log_passing_framed (json_logger inspect fields fuel sc th accessor tr) v message data);
    [apply JsonLogFormatter_framed | exact Hacc | exact Hle | exact H].
Qed.

Lemma existsb_eqb_In k keys : In k keys -> existsb (String.eqb k) keys = true.
Proof.
  intros H. apply existsb_exists. exists k. split; [exact H | apply String.eqb_refl].
Qed.

Lemma read_keys_readable o k : forall keys kvs,
  read_keys o keys = Some kvs -> In k keys -> exists v, prop_result k o = Some v.
Proof.
  induction keys as [| k0 keys IH]; intros kvs H Hin; [contradiction |].
  simpl in H. destruct (prop_result k0 o) as [v |] eqn:Ev; [| discriminate].
  destruct (read_keys o keys) as [rest |] eqn:Er; [| discriminate].
  destruct Hin as [-> | Hin]; [eauto | eapply IH; eauto].
Qed.

(** ** C10: emitting changes no object *)

Lemma log_hframe inspect fields fuel sc th accessor tr (v : LogLevel) message data w r w' :
  accessor_reads accessor ->
  log (json_logger inspect fields fuel sc th accessor tr) v message data w = (r, w') ->
  hframe (length (heap w)) w w' /\ storage w' = storage w.
Proof.
  intros Hacc H. destruct (js_lt (level_value v) th) eqn:E.
  - unfold log, json_logger in H. cbn [config logLevel] in H. rewrite E in H.
    inversion H; subst. split; [apply hframe_refl | reflexivity].
  - destruct (log_passing _ _ _ _ _ _ _ _ _ _ _ _ _ Hacc E H) as (F & S & _). now split.
Qed.

Lemma data_source_plain fmt h0 h1 b data kvs kvs' :
  (forall a : addr, (a < b)%nat -> h1 !! a = h0 !! a) ->
  (forall a, data = VRef a -> (a < b)%nat) ->
  is_error h0 data = false ->
  data_source fmt h0 b data kvs -> data_source fmt h1 b data kvs' -> kvs' = kvs.
Proof.
  intros Hagree Hdata Herr H0 H1. unfold data_source, is_error, is_plain_composite in *.
  assert (Ek : value_kind h1 data = value_kind h0 data).
  { destruct data as [| | | | | | | | a]; try reflexivity. cbn [value_kind]. unfold heap_obj.
    now rewrite (Hagree a (Hdata a eq_refl)). }
  assert (Es : source_entries h1 data = source_entries h0 data).
  { destruct data as [| | | | | | | | a]; try reflexivity. cbn [source_entries]. unfold heap_obj.
    now rewrite (Hagree a (Hdata a eq_refl)). }
  rewrite Ek, Es in H1. rewrite Herr in *.
  destruct (truthy data && String.eqb (typeof data) "object"
            && negb (is_array_kind (value_kind h0 data))); congruence.
Qed.

(** C10: a log call changes no object that existed before it, so the
    scope of the logger is the same mapping before and after, whatever the
    call-site data; the assembled [data] field is an object created by the
    call.  Hence a second identical call, in any later world that kept the
    earlier objects, assembles a [data] field equal to the first (stated
    for call-site data that is not an error, whose conversion is created
    anew by each call). *)
Theorem emitting_leaves_objects_unchanged :
  (forall inspect fields fuel sc th accessor tr (v : LogLevel) message data w r w',
      accessor_reads accessor ->
      log (json_logger inspect fields fuel sc th accessor tr) v message data w = (r, w') ->
      hframe (length (heap w)) w w'
      /\ (forall a : addr, sc = VRef a -> (a < length (heap w))%nat ->
                           heap_obj (heap w') a = heap_obj (heap w) a))
  /\ (forall inspect fields fuel this level message data sc w w1 v wa v' wb,
      accessor_reads (getLogContext (config this)) ->
      valid_value (heap w) sc -> valid_value (heap w) data ->
      is_error (heap w) data = false ->
      hframe (length (heap w)) w w1 ->
      getLogData this level message data sc (JsonLogFormatter inspect fields fuel) w
      = (Ok v, wa) ->
      getLogData this level message data sc (JsonLogFormatter inspect fields fuel) w1
      = (Ok v', wb) ->
      exists r r' : addr,
        v = VRef r /\ v' = VRef r'
        /\ match own_field "data" (heap_obj (heap wa) r),
                 own_field "data" (heap_obj (heap wb) r') with
           | Some (VRef d), Some (VRef d') =>
               (length (heap w) <= d)%nat /\ (length (heap w1) <= d')%nat
               /\ heap_obj (heap wb) d' = heap_obj (heap wa) d
           | None, None => truthy data || truthy sc = false
           | _, _ => False
           end).
Proof.
  split.
  - intros inspect fields fuel sc th accessor tr v message data w r w' Hacc H.
    destruct (log_hframe _ _ _ _ _ _ _ _ _ _ _ _ _ Hacc H) as [F _].
    split; [exact F |]. intros a _ Ha. now apply (hframe_heap_obj _ _ _ _ F).
  - intros inspect fields fuel this level message data sc w w1 v wa v' wb
      Hacc Hsc Hdata Herr F Ha Hb.
    assert (L : (length (heap w) <= length (heap w1))%nat) by apply F.
    assert (Hsc1 : valid_value (heap w1) sc) by (destruct sc; simpl in *; try exact I; lia).
    assert (Hdata1 : valid_value (heap w1) data) by (destruct data; simpl in *; try exact I; lia).
    destruct (getLogData_ok _ _ _ _ _ _ _ _ _ _ _ Hacc Hsc Hdata Ha)
      as (ctx & _ & -> & _ & _ & Hrec & Hdat & _).
    destruct (getLogData_ok _ _ _ _ _ _ _ _ _ _ _ Hacc Hsc1 Hdata1 Hb)
      as (ctx' & _ & -> & _ & _ & Hrec' & Hdat' & _).
    exists (length (heap w)), (length (heap w1)). split; [reflexivity |]. split; [reflexivity |].
    rewrite Hrec, Hrec'. unfold record_of.
    destruct (truthy data || truthy sc) eqn:Et.
    + rewrite !own_field_obj_set. cbn [String.eqb Ascii.eqb Bool.eqb].
      destruct (Hdat eq_refl) as (scope_kvs & src_kvs & Es & Hsrc & Hd).
      destruct (Hdat' eq_refl) as (scope_kvs' & src_kvs' & Es' & Hsrc' & Hd').
      split; [lia |]. split; [lia |].
      assert (Hagree : forall a : addr, (a < length (heap w))%nat -> heap w1 !! a = heap w !! a)
        by apply F.
      assert (Escope : scope_kvs' = scope_kvs).
      { rewrite (source_entries_hframe (length (heap w)) w w1 sc F) in Es'; [congruence |].
        intros a ->. exact Hsc. }
      assert (Esrc : src_kvs' = src_kvs).
      { apply (data_source_plain (JsonLogFormatter inspect fields fuel) (heap w) (heap w1)
                 (length (heap w)) data); try assumption.
        - intros a ->. exact Hdata.
        - unfold data_source in *.
          assert (Ek : is_error (heap w1) data = is_error (heap w) data).
          { unfold is_error. f_equal. apply (value_kind_hframe (length (heap w))); [exact F |].
            intros a ->. exact Hdata. }
          rewrite Ek, Herr in *.
          exact Hsrc'. }
      rewrite Escope, Esrc in Hd'. congruence.
    + unfold record_with_context.
      destruct (truthy ctx), (truthy ctx'); reflexivity.
Qed.

Lemma emitting_leaves_objects_unchanged_witness :
  heap_obj (heap (snd (log scoped_logger info "hello" (VRef 2) merge_world))) 1
  = heap_obj (heap merge_world) 1.
Proof.
  destruct (proj1 emitting_leaves_objects_unchanged inspect_blank compact_fields 8%nat
              (VRef 1) (VNum (level_value debug)) None ConsoleTransport info "hello" (VRef 2)
              merge_world
              (fst (log scoped_logger info "hello" (VRef 2) merge_world))
              (snd (log scoped_logger info "hello" (VRef 2) merge_world))
              I (surjective_pairing _)) as [_ H].
  apply H; [reflexivity | simpl; lia].
Defined.

(** ** The walk of [JSON.stringify] *)

Lemma SerializeJSONProperty_step n replacer gap stack indent key v0 :
  SerializeJSONProperty (S n) replacer gap stack indent key v0 =
  (v1 <- apply_toJSON v0 ;;
   v2 <- replacer key v1 ;;
   match v2 with
   | VNull => ret (Some "null")
   | VBool true => ret (Some "true")
   | VBool false => ret (Some "false")
   | VStr s => ret (Some (Text.quote s))
   | VNum z => ret (Some (Number.json z))
   | VBigInt _ => throw (TypeError "Do not know how to serialize a BigInt")
   | VRef a =>
       if existsb (Nat.eqb a) stack then
         throw (TypeError "Converting circular structure to JSON")
       else
         o <- read_obj a ;;
         let stepback := indent in
         let indent' := indent +:+ gap in
         match o_kind o with
         | KArray elems =>
             partial <-
               collect
                 (fun i =>
                    let k := Text.decimal_nat i in
                    v <- get_prop v2 k ;;
                    r <- SerializeJSONProperty n replacer gap (a :: stack) indent' k v ;;
                    ret (Some (match r with Some s => s | None => "null" end)))
                 (seq 0 (length elems)) ;;
             ret (Some (assemble "[" "]" gap stepback indent' partial))
         | _ =>
             partial <-
               collect
                 (fun k =>
                    v <- get_prop v2 k ;;
                    r <- SerializeJSONProperty n replacer gap (a :: stack) indent' k v ;;
                    ret (option_map (member_text gap k) r))
                 (own_enumerable_keys o) ;;
             ret (Some (assemble "{" "}" gap stepback indent' partial))
         end
   | VUndefined | VSymbol _ | VFunc _ _ => ret None
   end).
Proof. reflexivity. Qed.

Lemma jsonReplacer_undefined self key w :
  jsonReplacer self key VUndefined w = (Ok (VStr sentinel), w).
Proof. reflexivity. Qed.

Lemma serialize_undefined self fuel gap stack indent key w :
  SerializeJSONProperty (S fuel) (jsonReplacer self) gap stack indent key VUndefined w
  = (Ok (Some (Text.quote sentinel)), w).
Proof. reflexivity. Qed.

Lemma jsonReplacer_plain self key a w :
  o_kind (heap_obj (heap w) a) = KObject ->
  jsonReplacer self key (VRef a) w = (Ok (VRef a), w).
Proof.
  intros Hk. unfold jsonReplacer. erewrite bind_ok by apply kind_of_eq.
  cbn [value_kind]. rewrite Hk. reflexivity.
Qed.

Lemma apply_toJSON_none a w :
  find_prop "toJSON" (heap_obj (heap w) a) = None ->
  apply_toJSON (VRef a) w = (Ok (VRef a), w).
Proof.
  intros H. unfold apply_toJSON.
  erewrite bind_ok by (apply get_prop_ref_some; unfold prop_result; rewrite H; reflexivity).
  reflexivity.
Qed.

Lemma collect_member {A B : Type} (f : A -> M (option B)) (Inv : world -> Prop) (x : A) (b : B) :
  (forall y w r w', Inv w -> f y w = (r, w') -> Inv w') ->
  (forall w, Inv w -> exists w', f x w = (Ok (Some b), w')) ->
  forall l w bs w', Inv w -> In x l -> collect f l w = (Ok bs, w') -> In b bs.
Proof.
  intros Hinv Hx. induction l as [| y l IH]; intros w bs w' Hw Hin H; [contradiction |].
  simpl in H. apply bind_inv_ok in H as (r & w1 & H1 & H).
  apply bind_inv_ok in H as (rs & w2 & H2 & H). inversion H; subst bs w2; clear H.
  destruct Hin as [-> | Hin].
  - destruct (Hx w Hw) as [w0 E]. rewrite E in H1. inversion H1; subst. now left.
  - assert (Hrs : In b rs).
    { apply (IH w1 rs w'); [exact (Hinv y w _ w1 Hw H1) | exact Hin | exact H2]. }
    destruct r; [now right | assumption].
Qed.

Section UndefinedMember.

Variable inspect : InspectOptions -> list obj -> value -> string.
Variable fields : JsonLogFormatterFields.
Variable ffuel : nat.

Local Abbreviation self := (JsonLogFormatter inspect fields ffuel).

Lemma framed_replacer b k v : framed b (jsonReplacer self k v) any.
Proof. apply framed_jsonReplacer. intros. apply JsonLogFormatter_framed. Qed.

Lemma undefined_member fuel gap stack indent key (a : addr) k w s w' :
  (a < length (heap w))%nat ->
  o_kind (heap_obj (heap w) a) = KObject ->
  find_prop "toJSON" (heap_obj (heap w) a) = None ->
  In k (own_enumerable_keys (heap_obj (heap w) a)) ->
  prop_result k (heap_obj (heap w) a) = Some VUndefined ->
  SerializeJSONProperty (S (S fuel)) (jsonReplacer self) gap stack indent key (VRef a) w
  = (Ok (Some s), w') ->
  exists partial,
    s = assemble "{" "}" gap indent (indent +:+ gap) partial
    /\ In (member_text gap k (Text.quote sentinel)) partial.
Proof.
  intros Ha Hkind HtoJSON Hin Hundef H.
  rewrite SerializeJSONProperty_step in H.
  erewrite bind_ok in H by now apply apply_toJSON_none.
  erewrite bind_ok in H by now apply jsonReplacer_plain.
  cbv beta iota in H.
  destruct (existsb (Nat.eqb a) stack); [unfold throw in H; discriminate H |].
  erewrite bind_ok in H by reflexivity. cbv zeta in H. rewrite Hkind in H.
  apply bind_inv_ok in H as (partial & w2 & Hc & H). inversion H; subst s w2; clear H.
  exists partial. split; [reflexivity |].
  eapply (collect_member _ (fun w0 => hframe (length (heap w)) w w0)); [| | | exact Hin | exact Hc].
  - intros y w0 r w0' F0 E.
    assert (Fy : framed (length (heap w))
                   (v <- get_prop (VRef a) y ;;
                    r <- SerializeJSONProperty (S fuel) (jsonReplacer self) gap (a :: stack)
                           (indent +:+ gap) y v ;;
                    ret (option_map (member_text gap y) r)) any).
    { eapply framed_bind; [apply unchanged_framed, unchanged_get_prop |]. intros v _.
      eapply framed_bind; [apply framed_SerializeJSONProperty; intros; apply framed_replacer |].
      intros r0 _. apply framed_ret. exact I. }
    destruct (Fy w0 r w0' (proj1 F0) E) as [[F1 _] _]. eapply hframe_trans; eauto.
  - intros w0 F0. exists w0.
    erewrite bind_ok.
    2: { apply get_prop_ref_some. rewrite (hframe_heap_obj _ _ _ a F0 Ha). exact Hundef. }
    erewrite bind_ok by apply serialize_undefined. reflexivity.
  - apply hframe_refl.
Qed.
End UndefinedMember.

(** ** The members of a record *)

Lemma has_char_app c s1 s2 :
  Text.has_char c (s1 +:+ s2) = Text.has_char c s1 || Text.has_char c s2.
Proof.
  induction s1 as [| d s1 IH]; simpl; [reflexivity |].
  rewrite IH. now rewrite orb_assoc.
Qed.

Lemma single_line_app s1 s2 : single_line s1 -> single_line s2 -> single_line (s1 +:+ s2).
Proof. unfold single_line. intros H1 H2. now rewrite has_char_app, H1, H2. Qed.

Lemma single_line_escape_char c : single_line (Text.escape_char c).
Proof.
  destruct c as [[] [] [] [] [] [] [] []]; reflexivity.
Qed.

Lemma single_line_escape s : single_line (Text.escape s).
Proof.
  induction s as [| c s IH]; simpl; [reflexivity |].
  apply single_line_app; [apply single_line_escape_char | exact IH].
Qed.

Lemma single_line_quote s : single_line (Text.quote s).
Proof.
  unfold Text.quote. change (single_line (Text.char Text.dquote +:+ (Text.escape s +:+ Text.char Text.dquote))).
  apply single_line_app; [reflexivity |].
  apply single_line_app; [apply single_line_escape | reflexivity].
Qed.

Lemma single_line_uint d : single_line (NilEmpty.string_of_uint d).
Proof.
  induction d; simpl; try reflexivity; exact IHd.
Qed.

Lemma single_line_decimal n : single_line (Text.decimal n).
Proof.
  unfold Text.decimal, NilZero.string_of_int.
  destruct (Z.to_int n) as [d | d]; unfold NilZero.string_of_uint.
  - destruct d; try reflexivity; apply single_line_uint.
  - change (single_line ("-" +:+ match d with Decimal.Nil => "0" | _ => NilEmpty.string_of_uint d end)).
    apply single_line_app; [reflexivity |].
    destruct d; try reflexivity; apply single_line_uint.
Qed.

Lemma single_line_cons c s : single_line (String c s) -> single_line (String c "") /\ single_line s.
Proof.
  unfold single_line. simpl. intros H. apply orb_false_iff in H as [H1 H2].
  now rewrite H1, H2.
Qed.

Lemma single_line_positive_text x : single_line (Number.positive_text x).
Proof.
  unfold Number.positive_text.
  set (v := Number.shortest x _). set (n := String.length (Text.decimal v)).
  destruct (Nat.leb n 21); [apply single_line_decimal |].
  pose proof (single_line_decimal (Number.significand n v)) as Hs.
  destruct (Text.decimal (Number.significand n v)) as [| c rest]; [apply single_line_decimal |].
  apply single_line_cons in Hs as [Hc Hrest].
  destruct rest as [| c' rest'].
  - change (single_line ((String c "" +:+ "e+") +:+ Text.decimal (Z.of_nat (n - 1)))).
    apply single_line_app; [| apply single_line_decimal].
    apply single_line_app; [exact Hc | reflexivity].
  - change (single_line ((String c "" +:+ ("." +:+ String c' rest')) +:+ "e+"
                           +:+ Text.decimal (Z.of_nat (n - 1)))).
    apply single_line_app.
    + apply single_line_app; [exact Hc |]. apply single_line_app; [reflexivity | exact Hrest].
    + apply single_line_app; [reflexivity | apply single_line_decimal].
Qed.

Lemma single_line_number_text n : single_line (Number.text n).
Proof.
  unfold Number.text. destruct (Z.abs n <? 2 ^ 53); [apply single_line_decimal |].
  destruct (negb (Number.finite n)); [now destruct (n <? 0) |].
  apply single_line_app; [now destruct (n <? 0) | apply single_line_positive_text].
Qed.

Lemma single_line_number_json n : single_line (Number.json n).
Proof.
  unfold Number.json. destruct (Number.finite n); [apply single_line_number_text | reflexivity].
Qed.

Lemma number_text_safe n : Z.abs n < 2 ^ 53 -> Number.text n = Text.decimal n.
Proof. intros H. unfold Number.text. apply Z.ltb_lt in H. now rewrite H. Qed.

Lemma number_json_safe n : Z.abs n < 2 ^ 53 -> Number.json n = Text.decimal n.
Proof.
  intros H. unfold Number.json, Number.finite, Number.text. apply Z.ltb_lt in H. now rewrite H.
Qed.

Lemma number_json_level l : Number.json (level_value l) = Text.decimal (level_value l).
Proof. now destruct l. Qed.

Lemma single_line_concat sep parts :
  single_line sep -> Forall single_line parts -> single_line (Text.concat_with sep parts).
Proof.
  intros Hsep H. induction H as [| p parts Hp Hparts IH]; [reflexivity |].
  destruct parts as [| p' parts']; [exact Hp |].
  change (single_line (p +:+ sep +:+ Text.concat_with sep (p' :: parts'))).
  apply single_line_app; [exact Hp | apply single_line_app; [exact Hsep | exact IH]].
Qed.

Lemma single_line_assemble opening closing parts :
  single_line opening -> single_line closing -> Forall single_line parts ->
  single_line (assemble opening closing "" "" "" parts).
Proof.
  intros Ho Hc Hp. unfold assemble. destruct parts as [| p parts].
  - now apply single_line_app.
  - cbn [String.eqb]. apply single_line_app; [exact Ho |].
    apply single_line_app; [| exact Hc]. apply single_line_concat; [reflexivity | exact Hp].
Qed.

Lemma single_line_member k t : single_line t -> single_line (member_text "" k t).
Proof.
  intros Ht. unfold member_text. cbn [String.eqb].
  apply single_line_app; [apply single_line_quote |].
  apply single_line_app; [reflexivity |]. apply single_line_app; [reflexivity | exact Ht].
Qed.

Lemma collect_Forall {A B : Type} (f : A -> M (option B)) (P : B -> Prop) :
  (forall x w b w', f x w = (Ok (Some b), w') -> P b) ->
  forall l w bs w', collect f l w = (Ok bs, w') -> Forall P bs.
Proof.
  intros Hf. induction l as [| x l IH]; intros w bs w' H; simpl in H.
  - inversion H; subst. constructor.
  - apply bind_inv_ok in H as (r & w1 & H1 & H).
    apply bind_inv_ok in H as (rs & w2 & H2 & H). inversion H; subst bs w2; clear H.
    specialize (IH _ _ _ H2). destruct r as [b |]; [| exact IH].
    constructor; [eapply Hf; eauto | exact IH].
Qed.

(** With an empty gap the text of a value holds no line break. *)
Lemma serialize_single_line replacer : forall fuel stack key v w s w',
  SerializeJSONProperty fuel replacer "" stack "" key v w = (Ok (Some s), w') ->
  single_line s.
Proof.
  induction fuel as [| n IH]; intros stack key v w s w' H; [discriminate |].
  rewrite SerializeJSONProperty_step in H.
  apply bind_inv_ok in H as (v1 & w1 & _ & H).
  apply bind_inv_ok in H as (v2 & w2 & _ & H).
  destruct v2 as [| | [|] | z | t | z | d | name call | a]; try discriminate;
    try (inversion H; subst; reflexivity).
  - inversion H; subst. apply single_line_number_json.
  - inversion H; subst. apply single_line_quote.
  - destruct (existsb (Nat.eqb a) stack); [discriminate |].
    apply bind_inv_ok in H as (o & w3 & _ & H). cbv zeta in H.
    change ("" +:+ "") with "" in H.
    destruct (o_kind o);
      apply bind_inv_ok in H as (partial & w4 & Hc & H); inversion H; subst s w4; clear H;
      apply single_line_assemble; try reflexivity;
      (eapply collect_Forall; [| exact Hc]); intros x w5 b w6 Hx;
      apply bind_inv_ok in Hx as (vx & w7 & _ & Hx);
      apply bind_inv_ok in Hx as (rx & w8 & Hrx & Hx); inversion Hx; subst.
    all: try (destruct rx as [t |]; [| discriminate]; cbn [option_map] in *;
              match goal with H0 : Some _ = Some _ |- _ => inversion H0; subst end;
              apply single_line_member; eapply IH; exact Hrx).
    destruct rx as [t |]; [eapply IH; exact Hrx | reflexivity].
Qed.

Lemma record_keys level message ctx b d :
  own_enumerable_keys (record_of level message ctx b d)
  = ["level"; "message"] ++ (if truthy ctx then ["context"] else [])
      ++ (if b then ["data"] else []).
Proof. unfold record_of, record_with_context. destruct (truthy ctx), b; reflexivity. Qed.

Lemma record_kind level message ctx b d : o_kind (record_of level message ctx b d) = KObject.
Proof. unfold record_of, record_with_context. destruct (truthy ctx), b; reflexivity. Qed.

Lemma record_no_toJSON level message ctx b d :
  find_prop "toJSON" (record_of level message ctx b d) = None.
Proof. unfold record_of, record_with_context. destruct (truthy ctx), b; reflexivity. Qed.

Lemma record_level level message ctx b d :
  prop_result "level" (record_of level message ctx b d) = Some (VNum (level_value level)).
Proof. unfold record_of, record_with_context. destruct (truthy ctx), b; reflexivity. Qed.

Lemma record_message level message ctx b d :
  prop_result "message" (record_of level message ctx b d) = Some (VStr message).
Proof. unfold record_of, record_with_context. destruct (truthy ctx), b; reflexivity. Qed.

Lemma jsonReplacer_number self key z w :
  jsonReplacer self key (VNum z) w = (Ok (VNum z), w).
Proof. reflexivity. Qed.

Lemma jsonReplacer_string self key t w :
  jsonReplacer self key (VStr t) w = (Ok (VStr t), w).
Proof. reflexivity. Qed.

Lemma member_step_shape n replacer gap stack indent holder k w x w' :
  member_step n replacer gap stack indent holder k w = (Ok x, w') ->
  x = None \/ exists t, x = Some (member_text gap k t).
Proof.
  intros H. unfold member_step in H.
  apply bind_inv_ok in H as (v & w1 & _ & H).
  apply bind_inv_ok in H as (r & w2 & _ & H). inversion H; subst.
  destruct r as [t |]; [right; now exists t | now left].
Qed.

Lemma collect_optional {A B : Type} (f : A -> M (option B)) (P : A -> B -> Prop) :
  (forall x w r w', f x w = (Ok (Some r), w') -> P x r) ->
  forall (present : bool) (k : A) w bs w',
    collect f (if present then [k] else []) w = (Ok bs, w') ->
    (bs = [] \/ exists b, bs = [b] /\ P k b) /\ (present = false -> bs = []).
Proof.
  intros Hf present k w bs w' H. destruct present; simpl in H.
  - apply bind_inv_ok in H as (r & w1 & H1 & H). inversion H; subst bs w'; clear H.
    split; [| discriminate]. destruct r as [b |]; [right | now left].
    exists b. split; [reflexivity | eapply Hf; eauto].
  - inversion H; subst. split; [now left | reflexivity].
Qed.

Lemma collect_app {A B : Type} (f : A -> M (option B)) : forall l1 l2 w bs w',
  collect f (l1 ++ l2) w = (Ok bs, w') ->
  exists bs1 w1 bs2,
    collect f l1 w = (Ok bs1, w1) /\ collect f l2 w1 = (Ok bs2, w') /\ bs = bs1 ++ bs2.
Proof.
  induction l1 as [| x l1 IH]; intros l2 w bs w' H; simpl in H.
  - exists [], w, bs. now repeat split.
  - apply bind_inv_ok in H as (r & w1 & H1 & H).
    apply bind_inv_ok in H as (rs & w2 & H2 & H). inversion H; subst bs w2; clear H.
    destruct (IH _ _ _ _ H2) as (bs1 & w3 & bs2 & E1 & E2 & ->).
    exists (match r with Some b => b :: bs1 | None => bs1 end), w3, bs2.
    split; [| split; [exact E2 |]].
    + simpl. erewrite bind_ok by exact H1. erewrite bind_ok by exact E1. reflexivity.
    + now destruct r.
Qed.

Lemma collect_single {A B : Type} (f : A -> M (option B)) x w :
  collect f [x] w =
  match f x w with
  | (Ok r, w') => (Ok (match r with Some b => [b] | None => [] end), w')
  | (Throw e, w') => (Throw e, w')
  | (OutOfFuel, w') => (OutOfFuel, w')
  end.
Proof. simpl. unfold bind, ret. destruct (f x w) as [[r | e |] w']; reflexivity. Qed.

Lemma member_step_number n self gap stack indent (a : addr) k z w :
  prop_result k (heap_obj (heap w) a) = Some (VNum z) ->
  member_step n (jsonReplacer self) gap stack indent (VRef a) k w
  = (match n with
     | O => OutOfFuel
     | S _ => Ok (Some (member_text gap k (Number.json z)))
     end, w).
Proof.
  intros H. unfold member_step. erewrite bind_ok by (apply get_prop_ref_some; exact H).
  destruct n; reflexivity.
Qed.

Lemma member_step_string n self gap stack indent (a : addr) k t w :
  prop_result k (heap_obj (heap w) a) = Some (VStr t) ->
  member_step n (jsonReplacer self) gap stack indent (VRef a) k w
  = (match n with
     | O => OutOfFuel
     | S _ => Ok (Some (member_text gap k (Text.quote t)))
     end, w).
Proof.
  intros H. unfold member_step. erewrite bind_ok by (apply get_prop_ref_some; exact H).
  destruct n; reflexivity.
Qed.

Lemma record_context level message ctx b d :
  truthy ctx = true ->
  prop_result "context" (record_of level message ctx b d) = Some ctx.
Proof. intros H. unfold record_of, record_with_context. rewrite H. now destruct b. Qed.

Lemma record_data level message ctx d :
  prop_result "data" (record_of level message ctx true d) = Some (VRef d).
Proof. unfold record_of, record_with_context. now destruct (truthy ctx). Qed.

Section MemberPresence.

Variable inspect : InspectOptions -> list obj -> value -> string.
Variable fields : JsonLogFormatterFields.
Variable ffuel : nat.

Local Abbreviation self := (JsonLogFormatter inspect fields ffuel).

(** The replacer hands a symbol or a function on as it is, and gives
    nothing of the kind for any other value. *)
Lemma jsonReplacer_keeps key v w v2 w2 :
  jsonReplacer self key v w = (Ok v2, w2) ->
  match v with
  | VSymbol _ | VFunc _ _ => v2 = v
  | _ => match v2 with VUndefined | VSymbol _ | VFunc _ _ => False | _ => True end
  end.
Proof.
  intros H. unfold jsonReplacer in H. erewrite bind_ok in H by apply kind_of_eq.
  destruct v as [| | b | z | t | z | d | name call | a];
    try (inversion H; subst; exact I); try (inversion H; subst; reflexivity).
  cbn [value_kind typeof String.eqb Ascii.eqb Bool.eqb] in H.
  destruct (o_kind (heap_obj (heap w) a)) eqn:Ek;
    cbn [is_regexp_kind is_promise_kind is_error_kind] in H.
  - inversion H; subst. exact I.
  - inversion H; subst. exact I.
  - destruct (JsonLogFormatter_formatError_fresh inspect fields ffuel (length (heap w)) key
                (VRef a) w _ _ (le_n _) H) as [_ Hfresh].
    destruct (Hfresh v2 eq_refl) as (t & -> & _). exact I.
  - apply bind_inv_ok in H as (x1 & w3 & _ & H). apply bind_inv_ok in H as (x2 & w4 & _ & H).
    apply bind_inv_ok in H as (x3 & w5 & _ & H). apply bind_inv_ok in H as (x4 & w6 & _ & H).
    inversion H; subst. exact I.
  - inversion H; subst. exact I.
Qed.

Lemma apply_toJSON_result v w v1 w1 :
  apply_toJSON v w = (Ok v1, w1) ->
  w1 = w
  /\ (left_out (heap w) v = true
      <-> match v1 with VSymbol _ | VFunc _ _ => True | _ => False end).
Proof.
  intros H. unfold apply_toJSON in H.
  destruct v as [| | b | z | t | z | d | name call | a];
    try (inversion H; subst; split; [reflexivity |]; cbn [left_out]; split;
         [discriminate | contradiction]);
    try (inversion H; subst; split; [reflexivity |]; cbn [left_out]; split; auto).
  apply bind_inv_ok in H as (tj & w0 & Hget & H).
  apply get_prop_ref_inv in Hget as [-> Hget]. cbn [left_out].
  destruct (prop_result "toJSON" (heap_obj (heap w) a)) as [tj' |];
    [inversion Hget; subst tj' | destruct Hget as [e He]; discriminate].
  destruct tj as [| | b | z | t | z | d | name [x | x] | a'];
    cbn [is_callable call_function] in H;
    try (inversion H; subst; split; [reflexivity |]; split; [discriminate | contradiction]).
  all: try (unfold throw in H; discriminate H).
  inversion H; subst. split; [reflexivity |].
  destruct v1; split; try discriminate; try contradiction; auto.
Qed.

(** A walk that returns leaves the value out exactly when it is such a
    value. *)
Lemma serialize_left_out n gap stack indent key v w r w' :
  SerializeJSONProperty (S n) (jsonReplacer self) gap stack indent key v w = (Ok r, w') ->
  (r = None <-> left_out (heap w) v = true).
Proof.
  intros H. rewrite SerializeJSONProperty_step in H.
  apply bind_inv_ok in H as (v1 & w1 & H1 & H).
  apply bind_inv_ok in H as (v2 & w2 & H2 & H).
  apply apply_toJSON_result in H1 as [-> H1]. rewrite H1. clear H1.
  apply jsonReplacer_keeps in H2.
  assert (Hsome : match v2 with VUndefined | VSymbol _ | VFunc _ _ => False | _ => True end ->
                  r <> None).
  { intros Hv2 ->.
    destruct v2 as [| | [|] | z | t | z | d | name call | a]; try contradiction;
      try discriminate H.
    destruct (existsb (Nat.eqb a) stack); [discriminate H |].
    apply bind_inv_ok in H as (o & w3 & _ & H). cbv zeta in H.
    destruct (o_kind o); apply bind_inv_ok in H as (partial & w4 & _ & H); discriminate H. }
  destruct v1 as [| | b | z | t | z | d | name call | a];
    try (split; [intros E; now apply Hsome in E | contradiction]).
  - subst v2. inversion H; subst. now split.
  - subst v2. inversion H; subst. now split.
Qed.

(** An optional member of a record: it is in the text unless the walk
    leaves its value out. *)
Lemma optional_member n gap (r : addr) (present : bool) k x w bs w' :
  (present = true -> prop_result k (heap_obj (heap w) r) = Some x) ->
  collect (member_step (S n) (jsonReplacer self) gap [r] gap (VRef r))
    (if present then [k] else []) w = (Ok bs, w') ->
  hframe (length (heap w)) w w'
  /\ (bs = [] \/ exists t, bs = [member_text gap k t])
  /\ (bs = [] <-> present = false \/ left_out (heap w) x = true).
Proof.
  intros Hx H. destruct present.
  - cbn [collect] in H. apply bind_inv_ok in H as (m & w1 & Hm & H).
    inversion H; subst bs w1; clear H.
    unfold member_step in Hm.
    erewrite bind_ok in Hm by (apply get_prop_ref_some; now apply Hx).
    apply bind_inv_ok in Hm as (t & w1 & Hs & Hm). inversion Hm; subst m w1; clear Hm.
    assert (F : framed (length (heap w))
                  (SerializeJSONProperty (S n) (jsonReplacer self) gap [r] gap k x) any).
    { apply framed_SerializeJSONProperty. intros. apply framed_jsonReplacer.
      intros. apply JsonLogFormatter_framed. }
    destruct (F w _ _ (le_n _) Hs) as [[Fh _] _].
    pose proof (serialize_left_out _ _ _ _ _ _ _ _ _ Hs) as Hl.
    split; [exact Fh |].
    destruct t as [t |]; cbn [option_map].
    + split; [right; now exists t |]. split; [discriminate |].
      intros [E | E]; [discriminate |]. apply Hl in E. discriminate.
    + split; [now left |]. split; [| reflexivity]. intros _. right. now apply Hl.
  - inversion H; subst. split; [apply hframe_refl |]. split; [now left |].
    split; [now left | reflexivity].
Qed.
End MemberPresence.

Section RecordText.

Variable inspect : InspectOptions -> list obj -> value -> string.

(** The members of the text of an assembled record. *)
Lemma record_text options fuel this level message data sc w v w1 text w2 :
  let fields := JsonLogFormatter_constructor options in
  let gap := gap_of_space (jsonStringifySpace fields) in
  accessor_reads (getLogContext (config this)) ->
  valid_value (heap w) sc -> valid_value (heap w) data ->
  getLogData this level message data sc (JsonLogFormatter inspect fields (S fuel)) w
  = (Ok v, w1) ->
  JSON_stringify fuel v (jsonReplacer (JsonLogFormatter inspect fields fuel))
    (jsonStringifySpace fields) w1 = (Ok text, w2) ->
  formatLogData (JsonLogFormatter inspect fields (S fuel)) v w1 = (Ok text, w2)
  /\ gap = (if compact fields then "" else "  ")
  /\ exists ctx context_part data_part,
       context_of (getLogContext (config this)) (push_obj w (record_base level message)) = Ok ctx
       /\ text = VStr (assemble "{" "}" gap "" gap
                         ([member_text gap "level" (Text.decimal (level_value level));
                           member_text gap "message" (Text.quote message)]
                            ++ context_part ++ data_part))
       /\ (context_part = [] \/ exists t, context_part = [member_text gap "context" t])
       /\ (data_part = [] \/ exists t, data_part = [member_text gap "data" t])
       /\ (context_part = [] <-> truthy ctx = false \/ left_out (heap w1) ctx = true)
       /\ (data_part = []
           <-> truthy data || truthy sc = false
               \/ left_out (heap w1) (VRef (S (length (heap w)))) = true).
Proof.
  intros fields gap Hacc Hsc Hdata Hget Hjson.
  destruct (getLogData_ok inspect fields (S fuel) this level message data sc w v w1
              Hacc Hsc Hdata Hget) as (ctx & Hctx & -> & _ & _ & Hrec & _ & Hlen & Hlen').
  set (r := length (heap w)) in *.
  split.
  { cbn [JsonLogFormatter formatLogData]. unfold JsonLogFormatter_formatLogData.
    cbn [typeof String.eqb Ascii.eqb Bool.eqb negb]. unfold try_catch.
    fold fields. now rewrite Hjson. }
  split.
  { unfold gap, fields, JsonLogFormatter_constructor. cbn [jsonStringifySpace compact].
    now destruct (default false (opt_compact options)). }
  exists ctx.
  unfold JSON_stringify in Hjson. fold gap in Hjson.
  apply bind_inv_ok in Hjson as (r0 & w3 & Hwalk & Hjson).
  destruct fuel as [| n]; [discriminate |].
  rewrite SerializeJSONProperty_step in Hwalk.
  erewrite bind_ok in Hwalk by (apply apply_toJSON_none; rewrite Hrec; apply record_no_toJSON).
  erewrite bind_ok in Hwalk by (apply jsonReplacer_plain; rewrite Hrec; apply record_kind).
  cbv beta iota in Hwalk. cbn [existsb] in Hwalk.
  erewrite bind_ok in Hwalk by reflexivity. cbv zeta in Hwalk.
  rewrite Hrec, record_kind, record_keys in Hwalk.
  change ("" +:+ gap) with gap in Hwalk.
  apply bind_inv_ok in Hwalk as (partial & w4 & Hc & Hwalk).
  inversion Hwalk; subst r0 w4; clear Hwalk. inversion Hjson; subst text w3; clear Hjson.
  fold (member_step n (jsonReplacer (JsonLogFormatter inspect fields (S n))) gap [r] gap (VRef r)) in Hc.
  change (["level"; "message"] ++ (if truthy ctx then ["context"] else [])
            ++ (if truthy data || truthy sc then ["data"] else []))
    with (["level"] ++ ["message"] ++ (if truthy ctx then ["context"] else [])
            ++ (if truthy data || truthy sc then ["data"] else [])) in Hc.
  apply collect_app in Hc as (b1 & wa & rest1 & H1 & Hc & ->).
  apply collect_app in Hc as (b2 & wb & rest2 & H2 & Hc & ->).
  apply collect_app in Hc as (b3 & wc & b4 & H3 & H4 & ->).
  (* level and message *)
  rewrite collect_single, (member_step_number _ _ _ _ _ _ _ (level_value level))
    in H1 by (rewrite Hrec; apply record_level).
  rewrite number_json_level in H1.
  destruct n as [| m]; [discriminate H1 |]. inversion H1; subst b1 wa; clear H1.
  rewrite collect_single, (member_step_string _ _ _ _ _ _ _ message)
    in H2 by (rewrite Hrec; apply record_message).
  inversion H2; subst b2 wb; clear H2.
  (* context and data *)
  assert (Hc : truthy ctx = true -> prop_result "context" (heap_obj (heap w1) r) = Some ctx)
    by (intros Ht; rewrite Hrec; now apply record_context).
  destruct (optional_member inspect fields _ _ _ _ _ _ _ _ _ _ Hc H3) as (F3 & S3 & P3).
  assert (Hd : truthy data || truthy sc = true ->
               prop_result "data" (heap_obj (heap wc) r) = Some (VRef (S r))).
  { intros Ht. rewrite (hframe_heap_obj _ _ _ r F3 Hlen), Hrec, Ht. apply record_data. }
  destruct (optional_member inspect fields _ _ _ _ _ _ _ _ _ _ Hd H4) as (_ & S4 & P4).
  exists b3, b4. split; [exact Hctx |]. split; [reflexivity |].
  split; [exact S3 |]. split; [exact S4 |]. split; [exact P3 |].
  destruct (truthy data || truthy sc) eqn:Eb.
  - cbn [left_out] in *.
    now rewrite (hframe_heap_obj _ _ _ (S r) F3 (Hlen' eq_refl)) in P4.
  - split; [intros _; now left | intros _; apply P4; now left].
Qed.
End RecordText.

(** ** C7: the ambient context *)

Lemma getLogContext_eq w : AsyncContext.getLogContext w = (Ok (current_context w), w).
Proof. unfold AsyncContext.getLogContext, current_context, AsyncContext.getStore. now destruct (storage w). Qed.

Lemma current_context_storage w w' :
  storage w' = storage w -> current_context w' = current_context w.
Proof. unfold current_context. now intros ->. Qed.

Lemma runWithContext_reverts {T : Type} logContext (handlerFn : M T) w r w' :
  AsyncContext.runWithContext logContext handlerFn w = (r, w') ->
  current_context w' = current_context w.
Proof.
  intros H. unfold AsyncContext.runWithContext in H.
  erewrite bind_ok in H by apply getLogContext_eq.
  assert (E0 : exists w0, AsyncContext.getLogContextStorage w = (Ok tt, w0)
                          /\ storage w0 = Some (current_context w)).
  { unfold AsyncContext.getLogContextStorage, current_context. destruct (storage w) as [c |] eqn:E.
    - exists w. now split.
    - eexists. split; reflexivity. }
  destruct E0 as (w0 & E0 & S0).
  erewrite bind_ok in H by exact E0. clear E0.
  match type of H with
  | bind ?m ?f w0 = _ =>
      assert (Fm : framed 0 m (fun _ => True)) by (apply framed_weaken with (Q := fun a => (0 <= a)%nat);
        [intros; exact I | apply framed_alloc])
  end.
  apply bind_inv in H as [(m & w1 & H1 & H) | [(e & H1 & ->) | (H1 & ->)]].
  2,3: destruct (Fm _ _ _ (Nat.le_0_l _) H1) as [[_ [_ S1]] _];
       unfold current_context at 1; now rewrite S1, S0.
  destruct (Fm _ _ _ (Nat.le_0_l _) H1) as [[_ [_ S1]] _]. clear Fm.
  match type of H with
  | bind ?m ?f w1 = _ =>
      assert (Fm : framed 0 m (fun _ => True))
  end.
  { destruct (current_context w); try (apply (framed_ret _ _ (fun _ => True)); exact I).
    all: eapply framed_bind; [apply framed_alloc | intros; apply framed_ret; exact I]. }
  apply bind_inv in H as [(p & w2 & H2 & H) | [(e & H2 & ->) | (H2 & ->)]].
  2,3: destruct (Fm _ _ _ (Nat.le_0_l _) H2) as [[_ [_ S2]] _];
       unfold current_context at 1; now rewrite S2, S1, S0.
  destruct (Fm _ _ _ (Nat.le_0_l _) H2) as [[_ [_ S2]] _]. clear Fm.
  apply bind_inv in H as [([] & w3 & H3 & H) | [(e & H3 & ->) | (H3 & ->)]].
  2,3: destruct (framed_object_spread 0 m p (Nat.le_0_l _) _ _ _ (Nat.le_0_l _) H3) as [[_ [_ S3]] _];
       unfold current_context at 1; now rewrite S3, S2, S1, S0.
  destruct (framed_object_spread 0 m p (Nat.le_0_l _) _ _ _ (Nat.le_0_l _) H3) as [[_ [_ S3]] _].
  apply bind_inv in H as [([] & w4 & H4 & H) | [(e & H4 & ->) | (H4 & ->)]].
  2,3: destruct (framed_object_spread 0 m logContext (Nat.le_0_l _) _ _ _ (Nat.le_0_l _) H4) as [[_ [_ S4]] _];
       unfold current_context at 1; now rewrite S4, S3, S2, S1, S0.
  destruct (framed_object_spread 0 m logContext (Nat.le_0_l _) _ _ _ (Nat.le_0_l _) H4) as [[_ [_ S4]] _].
  unfold AsyncContext.run in H. rewrite S4, S3, S2, S1, S0 in H.
  destruct (handlerFn _) as [r5 w5]. inversion H; subst. reflexivity.
Qed.

Lemma object_spread_some target source w kvs :
  source <> VRef target -> (target < length (heap w))%nat ->
  source_entries (heap w) source = Some kvs ->
  object_spread target source w
  = (Ok tt, update_obj w target (assign_entries kvs (heap_obj (heap w) target))).
Proof.
  intros Hne Ht Hs. pose proof (object_spread_spec target source w Hne Ht) as S.
  now rewrite Hs in S.
Qed.

Lemma runWithContext_enters {T : Type} logContext (handlerFn : M T) w parent_kvs partial_kvs :
  valid_value (heap w) (current_context w) -> valid_value (heap w) logContext ->
  parent_entries (heap w) (current_context w) = Some parent_kvs ->
  source_entries (heap w) logContext = Some partial_kvs ->
  runs_in_overlay logContext handlerFn w parent_kvs partial_kvs.
Proof.
  intros Hvp Hvl Hparent Hpartial. unfold runs_in_overlay.
  set (m := length (heap w)).
  set (w0 := mkWorld (heap w) (console w) (Some (current_context w))).
  assert (E0 : AsyncContext.getLogContextStorage w = (Ok tt, w0)).
  { unfold AsyncContext.getLogContextStorage, w0, current_context. destruct w as [h c [s |]]; reflexivity. }
  set (w1 := push_obj w0 empty_obj).
  assert (F01 : hframe m w w1).
  { split; [unfold w1, w0, push_obj; simpl; rewrite length_app; lia |].
    intros a Ha. unfold w1, w0, push_obj. simpl. now apply lookup_app_l. }
  assert (L1 : length (heap w1) = S m)
    by (unfold w1, w0, push_obj; simpl; rewrite length_app; simpl; lia).
  assert (O1 : heap_obj (heap w1) m = empty_obj)
    by (unfold w1, w0, push_obj; simpl; apply heap_obj_app_new).
  assert (Q1 : console w1 = console w /\ storage w1 = Some (current_context w)) by now split.
  assert (Ew1 : push_obj w0 empty_obj = w1) by reflexivity.
  assert (Lw0 : length (heap w0) = m) by reflexivity.
  clearbody w1 w0.
  (* the parent mapping, or a fresh empty one *)
  assert (Hp : exists parent w2,
             (match current_context w with
              | VUndefined | VNull => fresh <- alloc empty_obj ;; ret (VRef fresh)
              | _ => ret (current_context w)
              end) w1 = (Ok parent, w2)
             /\ parent <> VRef m /\ hframe (S m) w1 w2
             /\ console w2 = console w /\ storage w2 = Some (current_context w)
             /\ source_entries (heap w2) parent = Some parent_kvs).
  { assert (Hold : forall c, c = current_context w -> c <> VUndefined -> c <> VNull ->
                     c <> VRef m /\ source_entries (heap w1) c = Some parent_kvs).
    { intros c -> Hu Hn. split.
      - intros E. rewrite E in Hvp. simpl in Hvp. unfold m in Hvp. lia.
      - rewrite (source_entries_hframe m w w1 _ F01).
        + unfold parent_entries in Hparent.
          destruct (current_context w); try exact Hparent; congruence.
        + intros a E. rewrite E in Hvp. exact Hvp. }
    assert (Hnew : current_context w = VUndefined \/ current_context w = VNull ->
              exists w2, (fresh <- alloc empty_obj ;; ret (VRef fresh)) w1 = (Ok (VRef (S m)), w2)
                /\ VRef (S m) <> VRef m /\ hframe (S m) w1 w2
                /\ console w2 = console w /\ storage w2 = Some (current_context w)
                /\ source_entries (heap w2) (VRef (S m)) = Some parent_kvs).
    { intros Hnull. exists (push_obj w1 empty_obj). split; [| split; [| split; [| split; [| split]]]].
      - erewrite bind_ok by apply alloc_eq. now rewrite L1.
      - intros E. inversion E. lia.
      - split; [unfold push_obj; simpl; rewrite length_app; lia |].
        intros a Ha. unfold push_obj. simpl. apply lookup_app_l. lia.
      - apply Q1.
      - apply Q1.
      - cbn [source_entries]. unfold push_obj. cbn [heap]. rewrite <- L1, heap_obj_app_new.
        unfold parent_entries in Hparent.
        destruct Hnull as [E | E]; rewrite E in Hparent; inversion Hparent; reflexivity. }
    destruct (current_context w) eqn:Ec.
    1: destruct (Hnew (or_introl eq_refl)) as (w2 & Hrun & Hrest);
       exists (VRef (S m)), w2; split; [exact Hrun | exact Hrest].
    1: destruct (Hnew (or_intror eq_refl)) as (w2 & Hrun & Hrest);
       exists (VRef (S m)), w2; split; [exact Hrun | exact Hrest].
    all: destruct (Hold _ eq_refl ltac:(discriminate) ltac:(discriminate)) as [A B];
      eexists _, w1; split; [reflexivity |]; split; [exact A |];
      split; [apply hframe_refl |]; split; [apply Q1 |]; split; [apply Q1 | exact B]. }
  destruct Hp as (parent & w2 & E2 & Hne2 & F12 & C2 & S2 & Es2).
  assert (L2 : (m < length (heap w2))%nat) by (destruct F12; lia).
  assert (O2 : heap_obj (heap w2) m = empty_obj)
    by (rewrite (hframe_heap_obj (S m) w1 w2 m F12); [exact O1 | lia]).
  set (w3 := update_obj w2 m (assign_entries parent_kvs empty_obj)).
  assert (E3 : object_spread m parent w2 = (Ok tt, w3)).
  { unfold w3. rewrite <- O2. now apply object_spread_some. }
  assert (Q3 : console w3 = console w /\ storage w3 = Some (current_context w)) by now split.
  assert (F23 : hframe m w2 w3).
  { split; [unfold w3, update_obj; simpl; rewrite length_insert; lia |].
    intros a Ha. unfold w3, update_obj. simpl. apply list_lookup_insert_ne. lia. }
  assert (F03 : hframe m w w3).
  { eapply hframe_trans; [exact F01 |]. eapply hframe_trans; [| exact F23].
    eapply hframe_weaken; [| exact F12]. lia. }
  assert (L3 : (m < length (heap w3))%nat) by (destruct F23; lia).
  assert (O3 : heap_obj (heap w3) m = assign_entries parent_kvs empty_obj)
    by (unfold w3, update_obj; simpl; now apply heap_obj_insert_eq).
  clearbody w3.
  set (w4 := update_obj w3 m (assign_entries partial_kvs (assign_entries parent_kvs empty_obj))).
  assert (E4 : object_spread m logContext w3 = (Ok tt, w4)).
  { unfold w4. rewrite <- O3. apply object_spread_some; [| exact L3 |].
    - intros E. rewrite E in Hvl. simpl in Hvl. unfold m in Hvl. lia.
    - rewrite (source_entries_hframe m w w3 _ F03); [exact Hpartial |].
      intros a E. rewrite E in Hvl. exact Hvl. }
  exists m, (mkWorld (heap w4) (console w4) (Some (VRef m))).
  split; [unfold m; lia |]. split; [reflexivity |]. split; [apply Q3 |]. split.
  { eapply hframe_trans; [exact F03 |].
    split; [unfold w4, update_obj; simpl; rewrite length_insert; lia |].
    intros a Ha. unfold w4, update_obj. simpl. apply list_lookup_insert_ne. unfold m. lia. }
  split.
  { intros k. cbn [heap]. unfold w4 at 1, update_obj. cbn [heap].
    rewrite heap_obj_insert_eq by exact L3. rewrite !own_field_assign_entries.
    destruct (last_value k partial_kvs); [reflexivity |].
    now destruct (last_value k parent_kvs). }
  unfold AsyncContext.runWithContext.
  erewrite bind_ok by apply getLogContext_eq.
  erewrite bind_ok by exact E0.
  erewrite bind_ok by apply alloc_eq.
  rewrite Ew1, Lw0.
  erewrite bind_ok by exact E2.
  erewrite bind_ok by exact E3.
  erewrite bind_ok by exact E4.
  unfold AsyncContext.run. replace (storage w4) with (Some (current_context w)) by (symmetry; apply Q3).
  reflexivity.
Qed.

(** C7: [runWithContext] runs the body with, as ambient context, a new
    mapping that holds the caller's context (or nothing) overlaid with the
    given entries, new keys winning; when the call is left, by a return or
    by an exception, [getLogContext] gives what it gave before the call.
    In the example of the specification the inner body sees
    [{requestId: "X", jobId: "Y"}], and afterwards there is no context. *)
Theorem runWithContext_overlays_and_reverts :
  (forall w, AsyncContext.getLogContext w = (Ok (current_context w), w))
  /\ (forall (T : Type) logContext (handlerFn : M T) w,
         current_context (snd (AsyncContext.runWithContext logContext handlerFn w))
         = current_context w)
  /\ (forall (T : Type) logContext (handlerFn : M T) w parent_kvs partial_kvs,
         valid_value (heap w) (current_context w) -> valid_value (heap w) logContext ->
         parent_entries (heap w) (current_context w) = Some parent_kvs ->
         source_entries (heap w) logContext = Some partial_kvs ->
         runs_in_overlay logContext handlerFn w parent_kvs partial_kvs)
  /\ (let (r, w') := nested_example nested_world in
      exists m : addr,
        r = Ok (VRef m)
        /\ o_own (heap_obj (heap w') m)
           = o_own (plain [("requestId", VStr "X"); ("jobId", VStr "Y")])
        /\ AsyncContext.getLogContext w' = (Ok VUndefined, w')).
Proof.
  split; [exact getLogContext_eq |].
  split.
  { intros T logContext handlerFn w.
    destruct (AsyncContext.runWithContext logContext handlerFn w) as [r w'] eqn:E.
    exact (runWithContext_reverts logContext handlerFn w r w' E). }
  split; [intros T; apply runWithContext_enters |].
  vm_compute. exists 4%nat. repeat split; reflexivity.
Qed.

Lemma runWithContext_overlays_and_reverts_witness :
  runs_in_overlay (VRef 0) AsyncContext.getLogContext nested_world
    [] [("requestId", VStr "X")].
Proof.
  destruct runWithContext_overlays_and_reverts as (_ & _ & H & _).
  apply H.
  - exact I.
  - simpl. lia.
  - reflexivity.
  - reflexivity.
Defined.

(** ** C6: the conversion of an error *)

Lemma bind_assoc {A B C : Type} (m : M A) (f : A -> M B) (g : B -> M C) w :
  bind (bind m f) g w = bind m (fun x => bind (f x) g) w.
Proof. unfold bind. destruct (m w) as [[a | x |] w1]; reflexivity. Qed.

Lemma bind_ext {A B : Type} (m : M A) (f g : A -> M B) w :
  (forall a w1, f a w1 = g a w1) -> bind m f w = bind m g w.
Proof. intros H. unfold bind. destruct (m w) as [[a | x |] w1]; auto. Qed.

Lemma error_base_world w vn vm vs :
  update_obj
    (update_obj
       (update_obj (push_obj w empty_obj) (length (heap w)) (obj_set "name" vn empty_obj))
       (length (heap w)) (obj_set "message" vm (obj_set "name" vn empty_obj)))
    (length (heap w)) (error_base vn vm vs)
  = push_obj w (error_base vn vm vs).
Proof.
  unfold update_obj, push_obj. cbn [heap console storage].
  rewrite !list_insert_insert_eq. f_equal.
  induction (heap w) as [| o h IH]; simpl; [reflexivity | now rewrite IH].
Qed.

Lemma errorToObject_run n (e : addr) formatter w vn vm vs :
  (e < length (heap w))%nat ->
  prop_result "name" (heap_obj (heap w) e) = Some vn ->
  prop_result "message" (heap_obj (heap w) e) = Some vm ->
  prop_result "stack" (heap_obj (heap w) e) = Some vs ->
  errorToObject (S n) (VRef e) formatter w
  = (error_properties_step formatter (VRef e) (length (heap w)) ;;;
     error_cause_step (fun cause => errorToObject n cause formatter) formatter (VRef e)
       (length (heap w)) ;;;
     ret (VRef (length (heap w)))) (push_obj w (error_base vn vm vs)).
Proof.
  intros He En Em Es. cbn [errorToObject].
  erewrite bind_ok by apply alloc_eq.
  set (t := length (heap w)).
  assert (Hne : t <> e) by (unfold t; lia).
  assert (E0 : heap_obj (heap (push_obj w empty_obj)) e = heap_obj (heap w) e)
    by (unfold push_obj; simpl; now apply heap_obj_app_old).
  assert (T0 : heap_obj (heap (push_obj w empty_obj)) t = empty_obj)
    by (unfold push_obj; simpl; apply heap_obj_app_new).
  assert (L0 : (t < length (heap (push_obj w empty_obj)))%nat)
    by (unfold push_obj; simpl; rewrite length_app; simpl; unfold t; lia).
  erewrite bind_ok by (apply get_prop_ref_some; rewrite E0; exact En).
  erewrite bind_ok by apply set_prop_eq. rewrite T0.
  set (w1 := update_obj (push_obj w empty_obj) t (obj_set "name" vn empty_obj)).
  assert (E1 : heap_obj (heap w1) e = heap_obj (heap w) e)
    by (unfold w1, update_obj; simpl; rewrite heap_obj_insert_ne by exact Hne; exact E0).
  assert (T1 : heap_obj (heap w1) t = obj_set "name" vn empty_obj)
    by (unfold w1, update_obj; simpl; now apply heap_obj_insert_eq).
  assert (L1 : (t < length (heap w1))%nat)
    by (unfold w1, update_obj; simpl; now rewrite length_insert).
  erewrite bind_ok by (apply get_prop_ref_some; rewrite E1; exact Em).
  erewrite bind_ok by apply set_prop_eq. rewrite T1.
  set (w2 := update_obj w1 t (obj_set "message" vm (obj_set "name" vn empty_obj))).
  assert (E2 : heap_obj (heap w2) e = heap_obj (heap w) e)
    by (unfold w2, update_obj; simpl; rewrite heap_obj_insert_ne by exact Hne; exact E1).
  assert (T2 : heap_obj (heap w2) t = obj_set "message" vm (obj_set "name" vn empty_obj))
    by (unfold w2, update_obj; simpl; now apply heap_obj_insert_eq).
  erewrite bind_ok by (apply get_prop_ref_some; rewrite E2; exact Es).
  erewrite bind_ok by apply set_prop_eq. rewrite T2.
  fold (error_base vn vm vs). unfold w2, w1, t. rewrite error_base_world.
  unfold error_properties_step, error_cause_step.
  symmetry. rewrite bind_assoc. apply bind_ext. intros h wa.
  rewrite bind_assoc. apply bind_ext. intros toJSON wb.
  apply bind_ext. intros [] wc. now rewrite bind_assoc.
Qed.


(** The first phase: the three fields every conversion has. *)
Lemma errorToObject_base n (e : addr) formatter w v w' :
  (e < length (heap w))%nat ->
  errorToObject (S n) (VRef e) formatter w = (Ok v, w') ->
  exists vn vm vs wA wB,
    prop_result "name" (heap_obj (heap w) e) = Some vn
    /\ prop_result "message" (heap_obj (heap w) e) = Some vm
    /\ prop_result "stack" (heap_obj (heap w) e) = Some vs
    /\ wA = mkWorld (heap w ++ [error_base vn vm vs]) (console w) (storage w)
    /\ error_properties_step formatter (VRef e) (length (heap w)) wA = (Ok tt, wB)
    /\ error_cause_step (fun cause => errorToObject n cause formatter) formatter (VRef e)
         (length (heap w)) wB = (Ok tt, w')
    /\ v = VRef (length (heap w)).
Proof.
  intros He H. cbn [errorToObject] in H.
  erewrite bind_ok in H by apply alloc_eq.
  set (t := length (heap w)) in *.
  set (w0 := push_obj w empty_obj) in *.
  assert (L0 : (t < length (heap w0))%nat)
    by (unfold w0, push_obj; simpl; rewrite length_app; simpl; lia).
  assert (E0 : heap_obj (heap w0) e = heap_obj (heap w) e)
    by (unfold w0, push_obj; simpl; now apply heap_obj_app_old).
  assert (T0 : heap_obj (heap w0) t = empty_obj)
    by (unfold w0, push_obj; simpl; apply heap_obj_app_new).
  assert (Hne : t <> e) by lia.
  (* name *)
  apply bind_inv_ok in H as (vn & w1 & H1 & H).
  apply get_prop_ref_inv in H1 as [-> H1]. rewrite E0 in H1.
  destruct (prop_result "name" (heap_obj (heap w) e)) as [vn' |] eqn:En;
    [inversion H1; subst vn' | destruct H1 as [x Hx]; discriminate].
  erewrite bind_ok in H by apply set_prop_eq. rewrite T0 in H.
  set (w1 := update_obj w0 t (obj_set "name" vn empty_obj)) in *.
  assert (E1 : heap_obj (heap w1) e = heap_obj (heap w) e)
    by (unfold w1, update_obj; simpl; rewrite heap_obj_insert_ne by exact Hne; exact E0).
  assert (T1 : heap_obj (heap w1) t = obj_set "name" vn empty_obj)
    by (unfold w1, update_obj; simpl; now apply heap_obj_insert_eq).
  (* message *)
  apply bind_inv_ok in H as (vm & w2 & H2 & H).
  apply get_prop_ref_inv in H2 as [-> H2]. rewrite E1 in H2.
  destruct (prop_result "message" (heap_obj (heap w) e)) as [vm' |] eqn:Em;
    [inversion H2; subst vm' | destruct H2 as [x Hx]; discriminate].
  erewrite bind_ok in H by apply set_prop_eq. rewrite T1 in H.
  set (w2 := update_obj w1 t (obj_set "message" vm (obj_set "name" vn empty_obj))) in *.
  assert (E2 : heap_obj (heap w2) e = heap_obj (heap w) e)
    by (unfold w2, update_obj; simpl; rewrite heap_obj_insert_ne by exact Hne; exact E1).
  assert (T2 : heap_obj (heap w2) t = obj_set "message" vm (obj_set "name" vn empty_obj)).
  { unfold w2, update_obj; simpl. apply heap_obj_insert_eq.
    unfold w1, update_obj. simpl. now rewrite length_insert. }
  (* stack *)
  apply bind_inv_ok in H as (vs & w3 & H3 & H).
  apply get_prop_ref_inv in H3 as [-> H3]. rewrite E2 in H3.
  destruct (prop_result "stack" (heap_obj (heap w) e)) as [vs' |] eqn:Est;
    [inversion H3; subst vs' | destruct H3 as [x Hx]; discriminate].
  erewrite bind_ok in H by apply set_prop_eq. rewrite T2 in H.
  fold (error_base vn vm vs) in H.
  set (wA := update_obj w2 t (error_base vn vm vs)) in *.
  apply bind_inv_ok in H as (hasToJSON & wa & Ha & H).
  apply bind_inv_ok in H as (toJSON & wb & Hb & H).
  apply bind_inv_ok in H as ([] & wB & Hc & H).
  apply bind_inv_ok in H as (cause & wd & Hd & H).
  apply bind_inv_ok in H as ([] & wC & He' & H).
  inversion H; subst v wC; clear H.
  exists vn, vm, vs, wA, wB.
  split; [reflexivity |]. split; [reflexivity |]. split; [reflexivity |].
  split; [| split; [| split; [| reflexivity]]].
  2: { unfold error_properties_step. erewrite bind_ok by exact Ha.
       erewrite bind_ok by exact Hb. exact Hc. }
  2: { unfold error_cause_step. erewrite bind_ok by exact Hd. exact He'. }
  unfold wA, update_obj, w2, w1, w0, push_obj, update_obj. cbn [heap console storage].
  rewrite !list_insert_insert_eq. f_equal.
  unfold t. clear. induction (heap w) as [| o h IH]; simpl; [reflexivity | now rewrite IH].
Qed.


Lemma has_property_ref k (a : addr) w :
  has_property k (VRef a) w = (Ok (obj_has k (heap_obj (heap w) a)), w).
Proof. reflexivity. Qed.

Lemma has_key_props_set k k' v ps :
  has_key k (props_set k' v ps) = String.eqb k k' || has_key k ps.
Proof.
  unfold has_key at 1. rewrite assoc_props_set. unfold has_key.
  destruct (String.eqb k k'); [reflexivity |]. now destruct (assoc k ps).
Qed.

Lemma has_key_obj_set k k' v o :
  has_key k (o_own (obj_set k' v o)) = String.eqb k k' || has_key k (o_own o).
Proof. apply has_key_props_set. Qed.

Lemma has_key_assign_entries k kvs : forall o,
  has_key k (o_own o) = true -> has_key k (o_own (assign_entries kvs o)) = true.
Proof.
  unfold assign_entries. induction kvs as [| [k' v] kvs IH]; intros o H; simpl; [exact H |].
  apply IH. rewrite has_key_obj_set, H. apply orb_true_r.
Qed.

Lemma has_key_prototype k : has_key k object_prototype = existsb (String.eqb k) object_prototype_names.
Proof.
  unfold has_key, object_prototype. induction object_prototype_names as [| n ns IH]; simpl;
    [reflexivity |].
  destruct (String.eqb k n); [reflexivity | exact IH].
Qed.

Lemma prototype_keys k :
  existsb (String.eqb k) object_prototype_keys
  = has_key k object_prototype || String.eqb k "__proto__".
Proof.
  unfold object_prototype_keys. rewrite existsb_app, has_key_prototype. cbn [existsb].
  now rewrite orb_false_r.
Qed.

(** [k in o] for an ordinary object without own prototype entries. *)
Lemma obj_has_ordinary k o :
  o_kind o = KObject -> o_proto o = [] ->
  obj_has k o = has_key k (o_own o) || existsb (String.eqb k) object_prototype_keys.
Proof.
  intros Hk Hp. rewrite prototype_keys.
  unfold obj_has, find_prop, own_props, has_key. rewrite Hk, Hp. cbn [kind_proto assoc].
  destruct (assoc k (o_own o)); [reflexivity |]. now destruct (assoc k object_prototype).
Qed.

Lemma error_properties_toJSON formatter (e t : addr) wA wB nm json :
  (t < length (heap wA))%nat -> t <> e -> json <> VRef t ->
  obj_has "toJSON" (heap_obj (heap wA) e) = true ->
  prop_result "toJSON" (heap_obj (heap wA) e) = Some (VFunc nm (Returns json)) ->
  error_properties_step formatter (VRef e) t wA = (Ok tt, wB) ->
  exists json_kvs o',
    source_entries (heap wA) json = Some json_kvs
    /\ put_entries json_kvs (heap_obj (heap wA) t) = Some o'
    /\ wB = update_obj wA t o'.
Proof.
  intros Ht Hne Hjson Hhas Hget H. unfold error_properties_step in H.
  rewrite (bind_ok _ _ _ _ _ (has_property_ref _ _ _)) in H. rewrite Hhas in H.
  erewrite bind_ok in H by (apply get_prop_ref_some; exact Hget).
  cbn [typeof String.eqb Ascii.eqb Bool.eqb andb] in H.
  erewrite bind_ok in H by (apply get_prop_ref_some; exact Hget).
  erewrite bind_ok in H by reflexivity.
  now apply object_assign_ok in H.
Qed.

Lemma error_properties_loop formatter (e t : addr) wA wB :
  exposes_toJSON (heap_obj (heap wA) e) = false ->
  error_properties_step formatter (VRef e) t wA = (Ok tt, wB) ->
  for_each (copy_error_property formatter (VRef e) t) (for_in_keys (heap_obj (heap wA) e)) wA
  = (Ok tt, wB).
Proof.
  intros Hno H. unfold error_properties_step in H.
  rewrite (bind_ok _ _ _ _ _ (has_property_ref _ _ _)) in H.
  unfold exposes_toJSON in Hno.
  destruct (obj_has "toJSON" (heap_obj (heap wA) e)) eqn:Ehas.
  - apply bind_inv_ok in H as (toJSON & w1 & H1 & H).
    apply get_prop_ref_inv in H1 as [-> H1].
    destruct (prop_result "toJSON" (heap_obj (heap wA) e)) as [f |];
      [inversion H1; subst toJSON | destruct H1 as [x Hx]; discriminate].
    cbn [andb] in *. rewrite Hno in H.
    erewrite bind_ok in H by reflexivity. exact H.
  - erewrite bind_ok in H by reflexivity. cbn [andb] in H.
    erewrite bind_ok in H by reflexivity. exact H.
Qed.


Section Loop.
Variable inspect : InspectOptions -> list obj -> value -> string.
Variable fields : JsonLogFormatterFields.
Variable ffuel : nat.
Local Abbreviation fmt := (JsonLogFormatter inspect fields ffuel).

Variables (e t : addr) (E : obj).
Hypothesis Hlt : (e < t)%nat.

Lemma copy_loop keys : forall w0 w1,
  copying e t E w0 ->
  for_each (copy_error_property fmt (VRef e) t) keys w0 = (Ok tt, w1) ->
  copying e t E w1 /\ hframe t w0 w1
  /\ (forall k, has_key k (o_own (heap_obj (heap w0) t)) = true ->
                own_field k (heap_obj (heap w1) t) = own_field k (heap_obj (heap w0) t))
  /\ (forall k, ~ In k keys ->
                own_field k (heap_obj (heap w1) t) = own_field k (heap_obj (heap w0) t))
  /\ (forall k, In k keys -> obj_has k (heap_obj (heap w0) t) = false ->
        exists vk wa wb text,
          prop_result k E = Some vk
          /\ hframe t w0 wa
          /\ formatLogData fmt vk wa = (Ok text, wb)
          /\ own_field k (heap_obj (heap w1) t) = Some text).
Proof.
  induction keys as [| k0 keys IH]; intros w0 w1 Hc H.
  - inversion H; subst w1. split; [exact Hc |]. split; [apply hframe_refl |].
    repeat split; try reflexivity. intros k [].
  - cbn [for_each] in H. apply bind_inv_ok in H as ([] & w0' & Hstep & H).
    destruct Hc as (Ht & He & Hk & Hp).
    unfold copy_error_property in Hstep.
    rewrite (bind_ok _ _ _ _ _ (has_property_ref _ _ _)) in Hstep.
    destruct (obj_has k0 (heap_obj (heap w0) t)) eqn:Epresent.
    + (* already there: nothing is written *)
      inversion Hstep; subst w0'; clear Hstep.
      destruct (IH w0 w1 (conj Ht (conj He (conj Hk Hp))) H) as (Hc1 & F & Hkeep & Hout & Hnew).
      split; [exact Hc1 |]. split; [exact F |]. split; [exact Hkeep |].
      split; [intros k Hk'; apply Hout; intros Hin; apply Hk'; now right |].
      intros k [-> | Hin] Habs; [congruence | now apply Hnew].
    + (* copied through the render path *)
      apply bind_inv_ok in Hstep as (vk & wx & Hget & Hstep).
      apply get_prop_ref_inv in Hget as [-> Hget]. rewrite He in Hget.
      destruct (prop_result k0 E) as [vk' |] eqn:Evk;
        [inversion Hget; subst vk' | destruct Hget as [x Hx]; discriminate].
      apply bind_inv_ok in Hstep as (text & wa & Hfmt & Hstep).
      rewrite set_prop_eq in Hstep. inversion Hstep; subst w0'; clear Hstep.
      destruct (proj1 (JsonLogFormatter_framed inspect fields ffuel) (length (heap w0)) vk
                  w0 _ _ (le_n _) Hfmt) as [[Fa _] _].
      assert (Ta : heap_obj (heap wa) t = heap_obj (heap w0) t)
        by (apply (hframe_heap_obj _ _ _ _ Fa); exact Ht).
      assert (Ea : heap_obj (heap wa) e = E)
        by (rewrite (hframe_heap_obj _ _ _ e Fa) by lia; exact He).
      assert (La : (t < length (heap wa))%nat) by (destruct Fa; lia).
      rewrite Ta in H.
      set (w0' := update_obj wa t (obj_set k0 text (heap_obj (heap w0) t))) in *.
      assert (T' : heap_obj (heap w0') t = obj_set k0 text (heap_obj (heap w0) t))
        by (unfold w0', update_obj; simpl; now apply heap_obj_insert_eq).
      assert (Hc' : copying e t E w0').
      { split; [unfold w0', update_obj; simpl; now rewrite length_insert |].
        split; [unfold w0', update_obj; simpl; rewrite heap_obj_insert_ne by lia; exact Ea |].
        rewrite T'. split; [exact Hk | exact Hp]. }
      assert (F' : hframe t w0 w0').
      { eapply hframe_trans; [eapply hframe_weaken; [| exact Fa]; lia |].
        split; [unfold w0', update_obj; simpl; rewrite length_insert; lia |].
        intros a Ha. unfold w0', update_obj. simpl. apply list_lookup_insert_ne. lia. }
      clearbody w0'.
      destruct (IH w0' w1 Hc' H) as (Hc1 & F & Hkeep & Hout & Hnew).
      rewrite T' in Hkeep, Hout, Hnew.
      assert (Habsent : has_key k0 (o_own (heap_obj (heap w0) t)) = false).
      { rewrite (obj_has_ordinary _ _ Hk Hp) in Epresent.
        now apply orb_false_iff in Epresent. }
      split; [exact Hc1 |]. split; [eapply hframe_trans; eauto |].
      split; [| split].
      * intros k Hk'. rewrite Hkeep by (rewrite has_key_obj_set, Hk'; apply orb_true_r).
        rewrite own_field_obj_set.
        destruct (String.eqb_spec k k0) as [-> | Hne]; [congruence | reflexivity].
      * intros k Hk'. rewrite Hout by (intros Hin; apply Hk'; now right).
        rewrite own_field_obj_set.
        destruct (String.eqb_spec k k0) as [-> | Hne]; [| reflexivity].
        exfalso. apply Hk'. now left.
      * intros k Hin Habs. destruct (String.eqb_spec k k0) as [-> | Hne].
        -- exists vk, w0, wa, text. split; [exact Evk |]. split; [apply hframe_refl |].
           split; [exact Hfmt |].
           rewrite Hkeep by (rewrite has_key_obj_set, String.eqb_refl; reflexivity).
           now rewrite own_field_obj_set, String.eqb_refl.
        -- destruct Hin as [-> | Hin]; [congruence |].
           assert (Hlater : exists vk' wa' wb' text',
                     prop_result k E = Some vk'
                     /\ hframe t w0' wa'
                     /\ formatLogData fmt vk' wa' = (Ok text', wb')
                     /\ own_field k (heap_obj (heap w1) t) = Some text');
             [| destruct Hlater as (vk' & wa' & wb' & text' & A1 & A2 & A3 & A4);
                exists vk', wa', wb', text'; split; [exact A1 |];
                split; [eapply hframe_trans; [exact F' | exact A2] |]; now split].
           apply Hnew; [exact Hin |].
           rewrite (obj_has_ordinary _ _ Hk Hp) in Habs.
           assert (Hk2 : o_kind (obj_set k0 text (heap_obj (heap w0) t)) = KObject) by exact Hk.
           assert (Hp2 : o_proto (obj_set k0 text (heap_obj (heap w0) t)) = []) by exact Hp.
           rewrite (obj_has_ordinary _ _ Hk2 Hp2), has_key_obj_set.
           destruct (String.eqb_spec k k0) as [-> | _]; [congruence | exact Habs].
Qed.
End Loop.


Lemma error_cause_step_inv convert formatter (e t : addr) wB w' :
  error_cause_step convert formatter (VRef e) t wB = (Ok tt, w') ->
  exists c,
    prop_result "cause" (heap_obj (heap wB) e) = Some c
    /\ (if truthy c then
          if is_error (heap wB) c then
            exists w2 cv,
              convert c wB = (Ok cv, w2)
              /\ w' = update_obj w2 t (obj_set "cause" cv (heap_obj (heap w2) t))
          else
            exists w2 text,
              formatLogData formatter c wB = (Ok text, w2)
              /\ w' = update_obj w2 t (obj_set "cause" text (heap_obj (heap w2) t))
        else w' = wB).
Proof.
  intros H. unfold error_cause_step in H.
  apply bind_inv_ok in H as (c & w1 & H1 & H).
  apply get_prop_ref_inv in H1 as [-> H1].
  destruct (prop_result "cause" (heap_obj (heap wB) e)) as [c' |];
    [inversion H1; subst c' | destruct H1 as [x Hx]; discriminate].
  exists c. split; [reflexivity |].
  destruct (truthy c); [| now inversion H].
  erewrite bind_ok in H by apply instanceof_Error_eq.
  destruct (is_error (heap wB) c).
  - apply bind_inv_ok in H as (cv & w2 & H2 & H). rewrite set_prop_eq in H.
    inversion H; subst. eauto.
  - apply bind_inv_ok in H as (text & w2 & H2 & H). rewrite set_prop_eq in H.
    inversion H; subst. eauto.
Qed.

Lemma error_base_fields vn vm vs :
  o_kind (error_base vn vm vs) = KObject /\ o_proto (error_base vn vm vs) = []
  /\ own_field "name" (error_base vn vm vs) = Some vn
  /\ own_field "message" (error_base vn vm vs) = Some vm
  /\ own_field "stack" (error_base vn vm vs) = Some vs
  /\ (forall k, has_key k (o_own (error_base vn vm vs))
                = existsb (String.eqb k) ["name"; "message"; "stack"]).
Proof.
  repeat split. intros k. unfold error_base. rewrite !has_key_obj_set. cbn [existsb].
  cbn [empty_obj plain o_own map has_key assoc].
  destruct (String.eqb k "name"), (String.eqb k "message"), (String.eqb k "stack"); reflexivity.
Qed.



Lemma existsb_eqb_not_In k keys : ~ In k keys -> existsb (String.eqb k) keys = false.
Proof.
  intros H. destruct (existsb (String.eqb k) keys) eqn:E; [| reflexivity].
  apply existsb_exists in E as (x & Hin & Heq). apply String.eqb_eq in Heq. subst x.
  contradiction.
Qed.


Lemma valid_ref_valid h v : valid_ref h v = true -> valid_value h v.
Proof. destruct v; simpl; try easy. apply Nat.ltb_lt. Qed.

Section Conversion.
Variable inspect : InspectOptions -> list obj -> value -> string.
Variable fields : JsonLogFormatterFields.
Variable ffuel : nat.
Local Abbreviation fmt := (JsonLogFormatter inspect fields ffuel).

Lemma errorToObject_converted n (e : addr) w v w' :
  (e < length (heap w))%nat ->
  well_formed_error (heap w) (heap_obj (heap w) e) = true ->
  errorToObject (S n) (VRef e) fmt w = (Ok v, w') ->
  converted fmt n (heap_obj (heap w) e) w v w'.
Proof.
  intros He Hwf Hrun. unfold well_formed_error in Hwf.
  apply andb_true_iff in Hwf as [Hwc Hwj].
  assert (Hwc' : forall c, prop_result "cause" (heap_obj (heap w) e) = Some c ->
                           valid_value (heap w) c)
    by (intros c Hc; rewrite Hc in Hwc; now apply valid_ref_valid).
  assert (Hwj' : forall nm json,
             prop_result "toJSON" (heap_obj (heap w) e) = Some (VFunc nm (Returns json)) ->
             valid_value (heap w) json)
    by (intros nm json Hj; rewrite Hj in Hwj; now apply valid_ref_valid).
  clear Hwc Hwj. rename Hwc' into Hwc. rename Hwj' into Hwj.
  destruct (errorToObject_base n e fmt w v w' He Hrun)
    as (vn & vm & vs & wA & wB & En & Em & Es & EwA & HB & HC & ->).
  set (E := heap_obj (heap w) e) in *. set (t := length (heap w)) in *.
  destruct (error_base_fields vn vm vs) as (Bk & Bp & Bn & Bm & Bs & Bkeys).
  assert (LA : length (heap wA) = S t) by (subst wA; simpl; rewrite length_app; simpl; lia).
  assert (TA : heap_obj (heap wA) t = error_base vn vm vs)
    by (subst wA; simpl; apply heap_obj_app_new).
  assert (EA : heap_obj (heap wA) e = E) by (subst wA; simpl; now apply heap_obj_app_old).
  assert (F0A : hframe t w wA).
  { subst wA. split; simpl; [rewrite length_app; lia |].
    intros a Ha. now apply lookup_app_l. }
  clear EwA.
  (* the properties *)
  assert (HBfacts :
    copying e t E wB /\ hframe t wA wB
    /\ (forall k, In k base_keys -> has_key k (o_own (heap_obj (heap wB) t)) = true)
    /\ (exposes_toJSON E = true ->
        forall nm json, prop_result "toJSON" E = Some (VFunc nm (Returns json)) ->
          exists json_kvs,
            source_entries (heap w) json = Some json_kvs
            /\ forall k, k <> "__proto__" ->
                 own_field k (heap_obj (heap wB) t)
                 = match last_value k json_kvs with
                   | Some x => Some x
                   | None => if existsb (String.eqb k) base_keys then prop_result k E else None
                   end)
    /\ (exposes_toJSON E = false ->
        (forall k, In k base_keys -> own_field k (heap_obj (heap wB) t) = prop_result k E)
        /\ (forall k, ~ In k (for_in_keys E) -> ~ In k base_keys ->
                      own_field k (heap_obj (heap wB) t) = None)
        /\ (forall k, In k (for_in_keys E) -> ~ In k base_keys ->
                      ~ In k object_prototype_keys ->
              exists vk wa wb text,
                prop_result k E = Some vk
                /\ hframe t w wa
                /\ formatLogData fmt vk wa = (Ok text, wb)
                /\ own_field k (heap_obj (heap wB) t) = Some text))).
  { assert (Hbase : forall k, own_field k (error_base vn vm vs)
                              = if existsb (String.eqb k) base_keys then prop_result k E else None).
    { intros k. unfold error_base. rewrite !own_field_obj_set. cbn [existsb base_keys].
      destruct (String.eqb_spec k "stack") as [-> | _]; [now rewrite Es |].
      destruct (String.eqb_spec k "message") as [-> | _]; [now rewrite Em |].
      destruct (String.eqb_spec k "name") as [-> | _]; [now rewrite En | reflexivity]. }
    assert (HcA : copying e t E wA)
      by (split; [lia |]; split; [exact EA |]; rewrite TA; now split).
    destruct (exposes_toJSON E) eqn:Eexp.
    - (* toJSON *)
      unfold exposes_toJSON in Eexp. apply andb_true_iff in Eexp as [Ehas Efun].
      destruct (prop_result "toJSON" E) as [f |] eqn:Ef; [| discriminate].
      destruct f as [| | | | | | | nm out |]; try discriminate.
      assert (Hout : exists json, out = Returns json).
      { destruct out as [json | x]; [eauto |]. exfalso.
        unfold error_properties_step in HB.
        rewrite (bind_ok _ _ _ _ _ (has_property_ref _ _ _)), EA, Ehas in HB.
        erewrite bind_ok in HB by (apply get_prop_ref_some; rewrite EA; exact Ef).
        cbn [typeof String.eqb Ascii.eqb Bool.eqb andb] in HB.
        erewrite bind_ok in HB by (apply get_prop_ref_some; rewrite EA; exact Ef).
        discriminate HB. }
      destruct Hout as [json ->].
      assert (Hvj : valid_value (heap w) json) by (eapply Hwj; eauto).
      assert (P1 : (t < length (heap wA))%nat) by (rewrite LA; lia).
      assert (P2 : t <> e) by lia.
      assert (P3 : json <> VRef t) by (intros ->; simpl in Hvj; fold t in Hvj; lia).
      assert (P4 : obj_has "toJSON" (heap_obj (heap wA) e) = true) by now rewrite EA.
      assert (P5 : prop_result "toJSON" (heap_obj (heap wA) e) = Some (VFunc nm (Returns json)))
        by now rewrite EA.
      destruct (error_properties_toJSON fmt e t wA wB nm json P1 P2 P3 P4 P5 HB)
        as (json_kvs & o' & Ej & Ep & ->).
      clear P1 P2 P3 P4 P5.
      rewrite TA in *.
      destruct (put_entries_shape _ _ _ Ep) as (Ko & Po & Mo & Fo).
      assert (TB : heap_obj (heap (update_obj wA t o')) t = o')
        by (unfold update_obj; simpl; apply heap_obj_insert_eq; lia).
      rewrite TB. split; [| split; [| split; [| split]]].
      + split; [unfold update_obj; simpl; rewrite length_insert; lia |].
        split; [unfold update_obj; simpl; rewrite heap_obj_insert_ne by lia; exact EA |].
        rewrite TB, Ko, Po. now split.
      + split; [unfold update_obj; simpl; rewrite length_insert; lia |].
        intros a Ha. unfold update_obj. simpl. apply list_lookup_insert_ne. lia.
      + intros k Hin. apply Mo. rewrite Bkeys.
        now apply existsb_eqb_In.
      + intros _ nm' json' Eq. inversion Eq; subst nm' json'. exists json_kvs. split.
        * rewrite <- Ej. symmetry. apply (source_entries_hframe t); [exact F0A |].
          intros a ->. exact Hvj.
        * intros k Hk. rewrite (Fo k Hk), Hbase. reflexivity.
      + discriminate.
    - (* the enumerable properties *)
      pose proof (error_properties_loop fmt e t wA wB) as Hloop.
      rewrite EA in Hloop. specialize (Hloop Eexp HB).
      destruct (copy_loop inspect fields ffuel e t E He _ _ _ HcA Hloop)
        as (HcB & FAB & Hkeep & Hout & Hnew).
      rewrite TA in Hkeep, Hout, Hnew.
      split; [exact HcB |]. split; [exact FAB |]. split; [| split; [discriminate |]].
      + intros k Hin.
        assert (Hk : has_key k (o_own (error_base vn vm vs)) = true)
          by (rewrite Bkeys; now apply existsb_eqb_In).
        specialize (Hkeep k Hk). rewrite Hbase, (existsb_eqb_In _ _ Hin) in Hkeep.
        unfold own_field in Hkeep. unfold has_key.
        destruct (assoc k (o_own (heap_obj (heap wB) t))); [reflexivity |].
        destruct (read_keys_readable E k base_keys
                    [("name", vn); ("message", vm); ("stack", vs)]) as [x Hx];
          [cbn [read_keys base_keys]; now rewrite En, Em, Es | exact Hin | congruence].
      + intros _. split; [| split].
        * intros k Hin. rewrite Hkeep by (rewrite Bkeys; now apply existsb_eqb_In).
          now rewrite Hbase, (existsb_eqb_In _ _ Hin).
        * intros k Hnot Hnb. rewrite Hout by exact Hnot.
          now rewrite Hbase, (existsb_eqb_not_In _ _ Hnb).
        * intros k Hin Hnb Hnp.
          assert (Hk : obj_has k (error_base vn vm vs) = false).
          { rewrite (obj_has_ordinary _ _ Bk Bp), Bkeys. fold base_keys.
            now rewrite (existsb_eqb_not_In _ _ Hnb), (existsb_eqb_not_In _ _ Hnp). }
          destruct (Hnew k Hin Hk) as (vk & wa & wb & text & A1 & A2 & A3 & A4).
          exists vk, wa, wb, text. split; [exact A1 |].
          split; [eapply hframe_trans; [exact F0A | exact A2] |]. now split. }
  destruct HBfacts as ((LB & EB & KB & PB) & FAB & HkeysB & HjsonB & HloopB).
  assert (F0B : hframe t w wB) by (eapply hframe_trans; eauto).
  (* the cause *)
  destruct (error_cause_step_inv _ _ _ _ _ _ HC) as (c & Ec & Hc). rewrite EB in Ec.
  assert (Hvc : valid_value (heap w) c) by (apply Hwc; exact Ec).
  assert (Eerr : is_error (heap wB) c = is_error (heap w) c).
  { unfold is_error. f_equal. apply (value_kind_hframe t); [exact F0B |].
    intros a ->. exact Hvc. }
  assert (Hset : forall (w2 : world) x,
             hframe (length (heap wB)) wB w2 ->
             w' = update_obj w2 t (obj_set "cause" x (heap_obj (heap w2) t)) ->
             hframe t w w'
             /\ heap_obj (heap w') t = obj_set "cause" x (heap_obj (heap wB) t)).
  { intros w2 x F2 ->.
    assert (L2 : (t < length (heap w2))%nat) by (destruct F2; lia).
    rewrite (hframe_heap_obj _ _ _ t F2 LB). split.
    - eapply hframe_trans; [exact F0B |].
      eapply hframe_trans; [eapply hframe_weaken; [| exact F2]; lia |].
      split; [unfold update_obj; simpl; rewrite length_insert; lia |].
      intros a Ha. unfold update_obj. simpl. apply list_lookup_insert_ne. lia.
    - unfold update_obj. simpl. now apply heap_obj_insert_eq. }
  assert (HR : hframe t w w'
               /\ (forall k, k <> "cause" ->
                     own_field k (heap_obj (heap w') t) = own_field k (heap_obj (heap wB) t))
               /\ (forall k, has_key k (o_own (heap_obj (heap wB) t)) = true ->
                     has_key k (o_own (heap_obj (heap w') t)) = true)
               /\ (truthy c = true -> is_error (heap w) c = true ->
                   exists w1 w2 cv,
                     hframe t w w1
                     /\ errorToObject n c fmt w1 = (Ok cv, w2)
                     /\ w' = update_obj w2 t (obj_set "cause" cv (heap_obj (heap w2) t))
                     /\ own_field "cause" (heap_obj (heap w') t) = Some cv)
               /\ (truthy c = true -> is_error (heap w) c = false ->
                   exists w1 w2 text,
                     hframe t w w1
                     /\ formatLogData fmt c w1 = (Ok text, w2)
                     /\ w' = update_obj w2 t (obj_set "cause" text (heap_obj (heap w2) t))
                     /\ own_field "cause" (heap_obj (heap w') t) = Some text)
               /\ (truthy c = false -> w' = wB)).
  { assert (Hafter : forall x, heap_obj (heap w') t = obj_set "cause" x (heap_obj (heap wB) t) ->
               (forall k, k <> "cause" ->
                  own_field k (heap_obj (heap w') t) = own_field k (heap_obj (heap wB) t))
               /\ (forall k, has_key k (o_own (heap_obj (heap wB) t)) = true ->
                     has_key k (o_own (heap_obj (heap w') t)) = true)
               /\ own_field "cause" (heap_obj (heap w') t) = Some x).
    { intros x ->. split; [| split].
      - intros k Hk. rewrite own_field_obj_set.
        destruct (String.eqb_spec k "cause"); [contradiction | reflexivity].
      - intros k Hk. rewrite has_key_obj_set, Hk. apply orb_true_r.
      - now rewrite own_field_obj_set. }
    destruct (truthy c) eqn:Etr.
    - rewrite Eerr in Hc. destruct (is_error (heap w) c) eqn:Eis.
      + destruct Hc as (w2 & cv & Hconv & Hw').
        destruct (framed_errorToObject fmt (fun b v0 => proj1 (JsonLogFormatter_framed inspect fields ffuel) b v0)
                    n (length (heap wB)) c wB _ _ (le_n _) Hconv) as [[F2 _] _].
        destruct (Hset w2 cv F2 Hw') as [F HT]. destruct (Hafter cv HT) as (A1 & A2 & A3).
        split; [exact F |]. split; [exact A1 |]. split; [exact A2 |].
        split; [intros _ _; exists wB, w2, cv; split; [exact F0B |]; split; [exact Hconv |]; split; [exact Hw' | exact A3] |].
        split; [discriminate | discriminate].
      + destruct Hc as (w2 & text & Hfmt & Hw').
        destruct (proj1 (JsonLogFormatter_framed inspect fields ffuel) (length (heap wB)) c
                    wB _ _ (le_n _) Hfmt) as [[F2 _] _].
        destruct (Hset w2 text F2 Hw') as [F HT]. destruct (Hafter text HT) as (A1 & A2 & A3).
        split; [exact F |]. split; [exact A1 |]. split; [exact A2 |].
        split; [discriminate |].
        split; [intros _ _; exists wB, w2, text; split; [exact F0B |]; split; [exact Hfmt |]; split; [exact Hw' | exact A3] | discriminate].
    - subst w'. split; [exact F0B |]. split; [reflexivity |]. split; [auto |].
      split; [discriminate |]. split; [discriminate | reflexivity]. }
  destruct HR as (F & Hother & Hmono & Hce & Hct & Hcf).
  unfold converted. fold t. fold E.
  split; [reflexivity |]. split; [exact F |].
  split; [intros k Hin; apply Hmono, HkeysB, Hin |].
  split.
  { intros Hexp nm json Ej. destruct (HjsonB Hexp nm json Ej) as (json_kvs & Es' & Hk).
    exists json_kvs. split; [exact Es' |].
    intros k Hk' Hp. rewrite Hother by exact Hk'. now apply Hk. }
  split.
  { intros Hexp. destruct (HloopB Hexp) as (H1 & H2 & H3). split.
    - intros k Hin. rewrite Hother; [now apply H1 |].
      intros ->. cbn in Hin. intuition discriminate.
    - intros k Hin Hnb Hnp Hk'.
      destruct (H3 k Hin Hnb Hnp) as (vk & wa & wb & text & A & Fa & B0 & C).
      exists vk, wa, wb, text. split; [exact A |]. split; [exact Fa |]. split; [exact B0 |].
      now rewrite Hother. }
  exists c. split; [exact Ec |]. split; [exact Hce |]. split; [exact Hct |].
  intros Hfalsy Hexp Hnot. rewrite (Hcf Hfalsy).
  destruct (HloopB Hexp) as (_ & H2 & _). apply H2; [exact Hnot |].
  cbn. intuition discriminate.
Qed.
End Conversion.

Lemma simple_error_inv h depth v :
  simple_error h depth v = true ->
  exists a : addr,
    v = VRef a /\ (a < length h)%nat /\ simple_fields (heap_obj h a) = true
    /\ exists c,
         prop_result "cause" (heap_obj h a) = Some c
         /\ (truthy c = false
             \/ (truthy c = true /\ is_error h c = true
                 /\ exists d, depth = S d /\ simple_error h d c = true)).
Proof.
  intros H. destruct v as [| | | | | | | | a]; try (destruct depth; discriminate).
  exists a. split; [reflexivity |].
  assert (H' : (a <? length h)%nat && simple_fields (heap_obj h a)
               && match prop_result "cause" (heap_obj h a) with
                  | Some c =>
                      negb (truthy c)
                      || (is_error h c
                          && match depth with O => false | S d => simple_error h d c end)
                  | None => false
                  end = true) by (destruct depth; exact H).
  clear H. apply andb_true_iff in H' as [H Hc]. apply andb_true_iff in H as [Ha Hf].
  apply Nat.ltb_lt in Ha. split; [exact Ha |]. split; [exact Hf |].
  destruct (prop_result "cause" (heap_obj h a)) as [c |]; [| discriminate].
  exists c. split; [reflexivity |].
  destruct (truthy c); [right | now left]. simpl in Hc.
  apply andb_true_iff in Hc as [He Hs]. split; [reflexivity |]. split; [exact He |].
  destruct depth as [| d]; [discriminate |]. now exists d.
Qed.

Lemma simple_error_intro h d (a : addr) c :
  (a < length h)%nat -> simple_fields (heap_obj h a) = true ->
  prop_result "cause" (heap_obj h a) = Some c ->
  is_error h c = true -> simple_error h d c = true ->
  simple_error h (S d) (VRef a) = true.
Proof.
  intros Ha Hf Hc He Hs. cbn [simple_error]. rewrite Hf, Hc, He, Hs.
  apply Nat.ltb_lt in Ha. rewrite Ha. simpl. apply orb_true_r.
Qed.

Lemma simple_error_leaf h depth (a : addr) c :
  (a < length h)%nat -> simple_fields (heap_obj h a) = true ->
  prop_result "cause" (heap_obj h a) = Some c -> truthy c = false ->
  simple_error h depth (VRef a) = true.
Proof.
  intros Ha Hf Hc Ht. apply Nat.ltb_lt in Ha.
  destruct depth; cbn [simple_error]; now rewrite Hf, Hc, Ht, Ha.
Qed.

Lemma simple_error_hframe h h' :
  (forall a : addr, (a < length h)%nat -> h' !! a = h !! a) ->
  (length h <= length h')%nat ->
  forall depth v, simple_error h depth v = true -> simple_error h' depth v = true.
Proof.
  intros Hsame Hlen.
  assert (Hobj : forall a : addr, (a < length h)%nat -> heap_obj h' a = heap_obj h a)
    by (intros a Ha; unfold heap_obj; now rewrite Hsame).
  induction depth as [depth IH] using lt_wf_ind. intros v H.
  apply simple_error_inv in H as (a & -> & Ha & Hf & c & Hc & Hcase).
  rewrite <- (Hobj a Ha) in Hf, Hc.
  destruct Hcase as [Hfalsy | (_ & He & d & -> & Hs)].
  - apply (simple_error_leaf h' depth a c); [lia | assumption..].
  - apply (simple_error_intro h' d a c); [lia | assumption.. | | apply IH; [lia | exact Hs]].
    destruct (simple_error_inv _ _ _ Hs) as (a' & -> & Ha' & _).
    unfold is_error, value_kind in *. now rewrite (Hobj a' Ha').
Qed.


Section Returns.
Variable inspect : InspectOptions -> list obj -> value -> string.
Variable fields : JsonLogFormatterFields.
Variable ffuel : nat.
Local Abbreviation fmt := (JsonLogFormatter inspect fields (S ffuel)).

Lemma formatLogData_primitive x w :
  primitive x = true -> exists s, formatLogData fmt x w = (Ok (VStr s), w).
Proof. destruct x as [| | [|] | | | | | |]; try discriminate; intros _; eexists; reflexivity. Qed.

Lemma copy_loop_returns (e t : addr) (E : obj) : (e < t)%nat -> forall keys w0,
  copying e t E w0 ->
  forallb (fun k => reads_primitive k E) keys = true ->
  exists w1,
    for_each (copy_error_property fmt (VRef e) t) keys w0 = (Ok tt, w1).
Proof.
  intros Hlt. induction keys as [| k keys IH]; intros w0 Hc Hall.
  - eexists. reflexivity.
  - cbn [forallb] in Hall. apply andb_true_iff in Hall as [Hk Hall].
    assert (Hstep : exists w0', copy_error_property fmt (VRef e) t k w0 = (Ok tt, w0')
                                /\ copying e t E w0').
    { destruct Hc as (Ht & He & Hkind & Hproto).
      unfold copy_error_property. rewrite (bind_ok _ _ _ _ _ (has_property_ref _ _ _)).
      destruct (obj_has k (heap_obj (heap w0) t));
        [exists w0; split; [reflexivity | now repeat split] |].
      unfold reads_primitive in Hk. destruct (prop_result k E) as [x |] eqn:Ex; [| discriminate].
      erewrite bind_ok by (apply get_prop_ref_some; rewrite He; exact Ex).
      destruct (formatLogData_primitive x w0 Hk) as [s Hs].
      erewrite bind_ok by exact Hs. rewrite set_prop_eq. eexists. split; [reflexivity |].
      split; [unfold update_obj; simpl; now rewrite length_insert |].
      split; [unfold update_obj; simpl; rewrite heap_obj_insert_ne by lia; exact He |].
      unfold update_obj; simpl. rewrite heap_obj_insert_eq by exact Ht. now split. }
    destruct Hstep as (w0' & Hstep & Hc'). destruct (IH w0' Hc' Hall) as [w1 H1].
    exists w1. cbn [for_each]. erewrite bind_ok by exact Hstep. exact H1.
Qed.

Lemma error_properties_returns (e t : addr) (E : obj) wA :
  (e < t)%nat -> copying e t E wA -> simple_fields E = true ->
  exists wB,
    error_properties_step fmt (VRef e) t wA = (Ok tt, wB)
    /\ copying e t E wB /\ hframe t wA wB.
Proof.
  intros Hlt HcA Hf. unfold simple_fields in Hf.
  apply andb_true_iff in Hf as [Hf Hloop]. apply andb_true_iff in Hf as [_ HtoJSON].
  assert (EA : heap_obj (heap wA) e = E) by (destruct HcA as (_ & EA & _); exact EA).
  unfold error_properties_step.
  rewrite (bind_ok _ _ _ _ _ (has_property_ref _ _ _)), EA.
  unfold toJSON_is_no_function in HtoJSON.
  destruct (prop_result "toJSON" E) as [f |] eqn:Ef; [| discriminate].
  assert (Hget : (if obj_has "toJSON" E then get_prop (VRef e) "toJSON" else ret VUndefined) wA
                 = (Ok (if obj_has "toJSON" E then f else VUndefined), wA)).
  { destruct (obj_has "toJSON" E); [| reflexivity].
    apply get_prop_ref_some. rewrite EA. exact Ef. }
  erewrite bind_ok by exact Hget.
  assert (Hno : obj_has "toJSON" E
                && String.eqb (typeof (if obj_has "toJSON" E then f else VUndefined)) "function"
                = false).
  { destruct (obj_has "toJSON" E); [| reflexivity]. now apply negb_true_iff in HtoJSON. }
  rewrite Hno. erewrite bind_ok by reflexivity. fold (heap_obj (heap wA) e). rewrite EA.
  destruct (copy_loop_returns e t E Hlt _ wA HcA Hloop) as [wB HwB].
  exists wB. split; [exact HwB |].
  destruct (copy_loop inspect fields (S ffuel) e t E Hlt _ _ _ HcA HwB) as (HcB & FAB & _).
  now split.
Qed.

Lemma errorToObject_returns : forall depth fuel v w,
  (depth < fuel)%nat -> simple_error (heap w) depth v = true ->
  exists r w', errorToObject fuel v fmt w = (Ok r, w').
Proof.
  induction depth as [depth IH] using lt_wf_ind. intros [| n] v w Hfuel Hs; [lia |].
  destruct (simple_error_inv _ _ _ Hs) as (e & -> & He & Hf & c & Hc & Hcase).
  set (E := heap_obj (heap w) e) in *. set (t := length (heap w)).
  assert (Hbase := Hf). unfold simple_fields in Hbase.
  apply andb_true_iff in Hbase as [Hbase _]. apply andb_true_iff in Hbase as [Hbase _].
  cbn [forallb base_keys] in Hbase. unfold readable in Hbase.
  destruct (prop_result "name" E) as [vn |] eqn:En; [| discriminate].
  destruct (prop_result "message" E) as [vm |] eqn:Em; [| discriminate].
  destruct (prop_result "stack" E) as [vs |] eqn:Es; [| discriminate].
  rewrite (errorToObject_run n e fmt w vn vm vs He En Em Es). fold t.
  set (wA := push_obj w (error_base vn vm vs)).
  destruct (error_base_fields vn vm vs) as (Bk & Bp & _).
  assert (F0A : hframe t w wA).
  { split; [unfold wA, push_obj; simpl; rewrite length_app; lia |].
    intros a Ha. unfold wA, push_obj. simpl. now apply lookup_app_l. }
  assert (HcA : copying e t E wA).
  { unfold copying, wA, push_obj. cbn [heap].
    split; [rewrite length_app; simpl; unfold t; lia |].
    split; [now apply heap_obj_app_old |]. unfold t. rewrite heap_obj_app_new. now split. }
  destruct (error_properties_returns e t E wA He HcA Hf) as (wB & HB & HcB & FAB).
  erewrite bind_ok by exact HB.
  assert (F0B : hframe t w wB) by (eapply hframe_trans; eauto).
  destruct HcB as (LB & EB & _).
  unfold error_cause_step. rewrite bind_assoc.
  erewrite bind_ok by (apply get_prop_ref_some; rewrite EB; exact Hc).
  destruct Hcase as [Hfalsy | (Htruthy & Herr & d & -> & Hd)].
  - rewrite Hfalsy. erewrite bind_ok by reflexivity. eexists _, _. reflexivity.
  - rewrite Htruthy, bind_assoc. erewrite bind_ok by apply instanceof_Error_eq.
    assert (HdB : simple_error (heap wB) d c = true).
    { apply (simple_error_hframe (heap w)); [apply F0B | apply F0B | exact Hd]. }
    destruct (simple_error_inv _ _ _ HdB) as (a' & -> & _ & _ & c' & _ & Hcase').
    assert (HerrB : is_error (heap wB) (VRef a') = true).
    { destruct (simple_error_inv _ _ _ Hd) as (a'' & Eq & Ha'' & _). inversion Eq; subst a''.
      unfold is_error, value_kind in *.
      now rewrite (hframe_heap_obj _ _ _ a' F0B Ha''). }
    rewrite HerrB.
    destruct (IH d ltac:(lia) n (VRef a') wB ltac:(lia) HdB) as (r & w2 & Hrec).
    rewrite bind_assoc. erewrite bind_ok by exact Hrec.
    erewrite bind_ok by apply set_prop_eq. eexists _, _. reflexivity.
Qed.
End Returns.




(** ** The ambient context: [mutateContextScope] *)

Lemma mutateContextScope_none additionalScope w :
  truthy (current_context w) = false ->
  AsyncContext.mutateContextScope additionalScope w = (Ok tt, w).
Proof.
  intros H. unfold AsyncContext.mutateContextScope.
  erewrite bind_ok by apply getLogContext_eq. now rewrite H.
Qed.

Lemma mutateContextScope_ref additionalScope (m : addr) w :
  current_context w = VRef m ->
  AsyncContext.mutateContextScope additionalScope w = object_assign m additionalScope w.
Proof.
  intros H. unfold AsyncContext.mutateContextScope.
  erewrite bind_ok by apply getLogContext_eq. now rewrite H.
Qed.

(** X1: [mutateContextScope] does nothing when there is no ambient
    context.  Otherwise, when the ambient context is an ordinary object
    whose properties are data properties (as every context that
    [runWithContext] creates is) and [additionalScope] has no own
    enumerable key [__proto__], it assigns the entries of
    [additionalScope] to the ambient context object itself, which
    [getLogContext] keeps returning: its fields are the additions overlaid
    on what it held. *)
Theorem mutateContextScope_updates_in_place :
  (forall additionalScope w,
      truthy (current_context w) = false ->
      AsyncContext.mutateContextScope additionalScope w = (Ok tt, w))
  /\ (forall additionalScope (m : addr) w kvs,
         current_context w = VRef m ->
         (m < length (heap w))%nat ->
         data_properties (heap_obj (heap w) m) = true ->
         additionalScope <> VRef m ->
         source_entries (heap w) additionalScope = Some kvs ->
         ~ In "__proto__" (keys_of kvs) ->
         let w' := update_obj w m (assign_entries kvs (heap_obj (heap w) m)) in
         AsyncContext.mutateContextScope additionalScope w = (Ok tt, w')
         /\ AsyncContext.getLogContext w' = (Ok (VRef m), w')
         /\ forall k, own_field k (heap_obj (heap w') m)
                      = match last_value k kvs with
                        | Some x => Some x
                        | None => own_field k (heap_obj (heap w) m)
                        end).
Proof.
  split; [exact mutateContextScope_none |].
  intros additionalScope m w kvs Hc Hm Hd Hne Hs Hk w'.
  split; [| split].
  - rewrite (mutateContextScope_ref _ m) by exact Hc.
    now apply object_assign_some.
  - rewrite getLogContext_eq. f_equal. f_equal.
    rewrite <- Hc. now apply current_context_storage.
  - intros k. unfold w', update_obj. cbn [heap].
    rewrite heap_obj_insert_eq by exact Hm. apply own_field_assign_entries.
Qed.

Lemma mutateContextScope_updates_in_place_witness :
  let w' := update_obj request_world 0
              (assign_entries [("userId", VStr "user456")]
                 (heap_obj (heap request_world) 0)) in
  AsyncContext.mutateContextScope (VRef 1) request_world = (Ok tt, w')
  /\ AsyncContext.getLogContext w' = (Ok (VRef 0), w')
  /\ forall k, own_field k (heap_obj (heap w') 0)
               = match last_value k [("userId", VStr "user456")] with
                 | Some x => Some x
                 | None => own_field k (heap_obj (heap request_world) 0)
                 end.
Proof.
  destruct mutateContextScope_updates_in_place as [_ H].
  apply (H (VRef 1) 0%nat request_world [("userId", VStr "user456")]).
  - reflexivity.
  - simpl. lia.
  - reflexivity.
  - discriminate.
  - reflexivity.
  - cbn. intuition discriminate.
Defined.

(** What [runWithContext] does before the body runs: it fails, or the
    body runs with a fresh object as store. *)
Lemma runWithContext_inv {T : Type} logContext (handlerFn : M T) w r w' :
  AsyncContext.runWithContext logContext handlerFn w = (r, w') ->
  (exists (m : addr) w4,
      (length (heap w) <= m < length (heap w4))%nat
      /\ hframe (length (heap w)) w w4 /\ console w4 = console w
      /\ AsyncContext.run (VRef m) handlerFn w4 = (r, w'))
  \/ ((forall x, r <> Ok x) /\ hframe (length (heap w)) w w' /\ console w' = console w).
Proof.
  intros H. unfold AsyncContext.runWithContext in H.
  erewrite bind_ok in H by apply getLogContext_eq.
  set (b := length (heap w)).
  assert (E0 : exists w0, AsyncContext.getLogContextStorage w = (Ok tt, w0)
                          /\ heap w0 = heap w /\ console w0 = console w).
  { unfold AsyncContext.getLogContextStorage. destruct (storage w).
    - exists w. now repeat split.
    - eexists. repeat split; reflexivity. }
  destruct E0 as (w0 & E0 & Hh0 & Hc0). erewrite bind_ok in H by exact E0. clear E0.
  erewrite bind_ok in H by apply alloc_eq.
  assert (L0 : length (heap w0) = b) by now rewrite Hh0.
  rewrite L0 in H.
  set (w1 := push_obj w0 empty_obj) in *.
  assert (F1 : hframe b w w1).
  { split; [unfold w1, push_obj; simpl; rewrite length_app, Hh0; unfold b; lia |].
    intros a Ha. unfold w1, push_obj. simpl. rewrite Hh0. now apply lookup_app_l. }
  assert (L1 : (b < length (heap w1))%nat)
    by (unfold w1, push_obj; simpl; rewrite length_app; simpl; lia).
  assert (C1 : console w1 = console w) by (unfold w1, push_obj; simpl; exact Hc0).
  clearbody w1.
  assert (Hstep : forall {A B : Type} (m : M A) (k : A -> M B) wa r0 wb,
             framed b m any -> (b < length (heap wa))%nat ->
             hframe b w wa -> console wa = console w ->
             bind m k wa = (r0, wb) ->
             (exists x wc, (b < length (heap wc))%nat /\ hframe b w wc /\ console wc = console w
                           /\ k x wc = (r0, wb))
             \/ ((forall x, r0 <> Ok x) /\ hframe b w wb /\ console wb = console w)).
  { intros A B m k wa r0 wb Fm La Fa Ca Hb.
    apply bind_inv in Hb as [(x & wc & Hm & Hk) | [(e & Hm & ->) | (Hm & ->)]].
    - destruct (Fm wa _ _ (Nat.lt_le_incl _ _ La) Hm) as [[Fc [Cc _]] _].
      left. exists x, wc. split; [destruct Fc; lia |].
      split; [eapply hframe_trans; eauto |]. split; [congruence | exact Hk].
    - destruct (Fm wa _ _ (Nat.lt_le_incl _ _ La) Hm) as [[Fc [Cc _]] _].
      right. split; [discriminate |]. split; [eapply hframe_trans; eauto | congruence].
    - destruct (Fm wa _ _ (Nat.lt_le_incl _ _ La) Hm) as [[Fc [Cc _]] _].
      right. split; [discriminate |]. split; [eapply hframe_trans; eauto | congruence]. }
  apply Hstep in H; [| | exact L1 | exact F1 | exact C1].
  2: { destruct (current_context w); try (apply framed_ret; exact I).
       all: eapply framed_bind; [apply framed_alloc | intros; apply framed_ret; exact I]. }
  destruct H as [(p & w2 & L2 & F2 & C2 & H) | H]; [| now right].
  apply Hstep in H; [| apply framed_object_spread; lia | exact L2 | exact F2 | exact C2].
  destruct H as [([] & w3 & L3 & F3 & C3 & H) | H]; [| now right].
  apply Hstep in H; [| apply framed_object_spread; lia | exact L3 | exact F3 | exact C3].
  destruct H as [([] & w4 & L4 & F4 & C4 & H) | H]; [| now right].
  left. exists b, w4. split; [lia |]. split; [exact F4 |]. split; [exact C4 | exact H].
Qed.

Lemma mutateContextScope_in_run additionalScope (m b : addr) w4 r w' :
  (b <= m)%nat -> (b <= length (heap w4))%nat ->
  AsyncContext.run (VRef m) (AsyncContext.mutateContextScope additionalScope) w4 = (r, w') ->
  hframe b w4 w' /\ console w' = console w4.
Proof.
  intros Hm Hb H. unfold AsyncContext.run in H.
  destruct (AsyncContext.mutateContextScope additionalScope _) as [r5 w5] eqn:E5.
  inversion H; subst r w'; clear H.
  rewrite (mutateContextScope_ref _ m) in E5 by reflexivity.
  destruct (framed_object_assign b m additionalScope Hm (mkWorld (heap w4) (console w4) (Some (VRef m)))
              _ _ Hb E5) as [[F5 [C5 _]] _].
  split; [| exact C5]. destruct F5 as [L5 S5]. split; [exact L5 | exact S5].
Qed.

(** X2: a [mutateContextScope] in the body of [runWithContext] writes to
    the merged context of that call only: no object that existed before
    the call is changed (the caller's context, [logContext] and
    [additionalScope] among them), nothing is written to the console, and
    the caller's context is ambient again afterwards. *)
Theorem mutateContextScope_stays_inside_runWithContext logContext additionalScope w :
  let (r, w') :=
    AsyncContext.runWithContext logContext
      (AsyncContext.mutateContextScope additionalScope) w in
  hframe (length (heap w)) w w'
  /\ console w' = console w
  /\ AsyncContext.getLogContext w' = (Ok (current_context w), w').
Proof.
  destruct (AsyncContext.runWithContext logContext
              (AsyncContext.mutateContextScope additionalScope) w) as [r w'] eqn:H.
  assert (Hlast : AsyncContext.getLogContext w' = (Ok (current_context w), w')).
  { rewrite getLogContext_eq. f_equal. f_equal. eapply runWithContext_reverts. exact H. }
  apply runWithContext_inv in H as [(m & w4 & Lm & F4 & C4 & H) | (_ & F & C)];
    [| split; [exact F |]; split; [exact C | exact Hlast]].
  apply (mutateContextScope_in_run _ m (length (heap w))) in H as [F5 C5];
    [| lia | destruct F4; lia].
  split; [eapply hframe_trans; eauto |]. split; [congruence | exact Hlast].
Qed.

(** ** [Logger.child] *)

Lemma resolve_logLevel_severity v : is_severity v -> resolve_logLevel v = v.
Proof. intros [l ->]. now destruct l. Qed.

(** X3: [child] leaves the world as it is but for one new object, the
    scope of the child, which holds the parent's scope overlaid with the
    additions (the additions win); the child keeps the formatter, the
    transport and the context accessor, and resolves the parent's
    threshold again, which keeps a severity as it is. *)
Theorem child_overlays_scope :
  (forall this additions w parent_kvs add_kvs,
      valid_value (heap w) (scope (config this)) ->
      valid_value (heap w) additions ->
      source_entries (heap w) (scope (config this)) = Some parent_kvs ->
      source_entries (heap w) additions = Some add_kvs ->
      exists c,
        child this additions w = (Ok c, push_obj w (overlay_object parent_kvs add_kvs))
        /\ scope (config c) = VRef (length (heap w))
        /\ (forall k, own_field k (overlay_object parent_kvs add_kvs)
                      = match last_value k add_kvs with
                        | Some x => Some x
                        | None => last_value k parent_kvs
                        end)
        /\ formatter (config c) = formatter (config this)
        /\ transport (config c) = transport (config this)
        /\ getLogContext (config c) = getLogContext (config this)
        /\ logLevel (config c) = resolve_logLevel (logLevel (config this))
        /\ (is_severity (logLevel (config this)) ->
            logLevel (config c) = logLevel (config this)))
  /\ (forall this additions w r w',
         child this additions w = (r, w') ->
         hframe (length (heap w)) w w' /\ console w' = console w /\ storage w' = storage w).
Proof.
  split.
  - intros this additions w parent_kvs add_kvs Hvs Hva Hp Ha.
    eexists. split; [| split; [| split; [| split; [| split; [| split; [| split]]]]]].
    + unfold child. erewrite bind_ok by apply alloc_eq.
      set (t := length (heap w)). set (w1 := push_obj w empty_obj).
      assert (F1 : hframe t w w1).
      { split; [unfold w1, push_obj; simpl; rewrite length_app; lia |].
        intros a Ha'. unfold w1, push_obj. simpl. now apply lookup_app_l. }
      assert (L1 : (t < length (heap w1))%nat)
        by (unfold w1, push_obj; simpl; rewrite length_app; simpl; unfold t; lia).
      assert (T1 : heap_obj (heap w1) t = empty_obj)
        by (unfold w1, push_obj; simpl; apply heap_obj_app_new).
      assert (Hne : forall v, valid_value (heap w) v -> v <> VRef t)
        by (intros v Hv ->; simpl in Hv; unfold t in Hv; lia).
      assert (S1 : source_entries (heap w1) (scope (config this)) = Some parent_kvs).
      { rewrite <- Hp. apply (source_entries_hframe t); [exact F1 |]. intros a E. rewrite E in Hvs. exact Hvs. }
      erewrite bind_ok by (apply object_spread_some; [now apply Hne | exact L1 | exact S1]).
      rewrite T1.
      set (w2 := update_obj w1 t (assign_entries parent_kvs empty_obj)).
      assert (F2 : hframe t w w2).
      { eapply hframe_trans; [exact F1 |].
        split; [unfold w2, update_obj; simpl; rewrite length_insert; lia |].
        intros a Ha'. unfold w2, update_obj. simpl. apply list_lookup_insert_ne. lia. }
      assert (L2 : (t < length (heap w2))%nat)
        by (unfold w2, update_obj; simpl; now rewrite length_insert).
      assert (T2 : heap_obj (heap w2) t = assign_entries parent_kvs empty_obj)
        by (unfold w2, update_obj; simpl; now apply heap_obj_insert_eq).
      assert (S2 : source_entries (heap w2) additions = Some add_kvs).
      { rewrite <- Ha. apply (source_entries_hframe t); [exact F2 |]. intros a E. rewrite E in Hva. exact Hva. }
      erewrite bind_ok by (apply object_spread_some; [now apply Hne | exact L2 | exact S2]).
      rewrite T2. unfold ret. f_equal.
      unfold w2, w1, update_obj, push_obj, overlay_object. cbn [heap console storage].
      rewrite list_insert_insert_eq. f_equal. unfold t. clear.
      induction (heap w) as [| o h IH]; simpl; [reflexivity | now rewrite IH].
    + reflexivity.
    + intros k. unfold overlay_object. rewrite !own_field_assign_entries.
      destruct (last_value k add_kvs); [reflexivity |].
      now destruct (last_value k parent_kvs).
    + reflexivity.
    + reflexivity.
    + reflexivity.
    + reflexivity.
    + intros Hs. cbn [Logger_constructor config logLevel]. now apply resolve_logLevel_severity.
  - intros this additions w r w' H.
    assert (F : framed (length (heap w)) (child this additions) any).
    { unfold child. eapply framed_bind; [apply framed_alloc |]. intros t Ht.
      eapply framed_bind; [now apply framed_object_spread |]. intros _ _.
      eapply framed_bind; [now apply framed_object_spread |]. intros _ _.
      apply framed_ret. exact I. }
    destruct (F w r w' (le_n _) H) as [[Fh [C S]] _]. split; [exact Fh |]. now split.
Qed.

Lemma child_overlays_scope_witness :
  exists c,
    child user_logger (VRef 1) user_scope_world
    = (Ok c, push_obj user_scope_world
               (overlay_object [("userId", VStr "123")] [("requestId", VStr "456")]))
    /\ scope (config c) = VRef 2
    /\ logLevel (config c) = logLevel (config user_logger).
Proof.
  destruct child_overlays_scope as [H _].
  destruct (H user_logger (VRef 1) user_scope_world
              [("userId", VStr "123")] [("requestId", VStr "456")])
    as (c & E & Hs & _ & _ & _ & _ & _ & Hl).
  - simpl. lia.
  - simpl. lia.
  - reflexivity.
  - reflexivity.
  - exists c. split; [exact E |]. split; [exact Hs |]. apply Hl. exists debug. reflexivity.
Defined.

(** ** [isObject] *)

(** X4: [isObject] holds of the objects that are no arrays (errors,
    regular expressions and promises included) and of nothing else: not
    of [null], [undefined], a primitive or a function.  It never raises
    and leaves the world as it is. *)
Theorem isObject_is_object_item item w :
  isObject item w = (Ok (is_object_item (heap w) item), w).
Proof.
  rewrite isObject_eq. f_equal. f_equal. unfold is_plain_composite, is_object_item.
  destruct item as [| | [|] | n | s | n | d | name call | a]; try reflexivity.
  - cbn [truthy typeof]. now destruct (negb (n =? 0)).
  - cbn [truthy typeof]. now destruct (negb (String.eqb s EmptyString)).
  - cbn [truthy typeof]. now destruct (negb (n =? 0)).
Qed.

(** ** The walk of an ordinary object *)

Lemma collect_reaches {A B : Type} (f : A -> M (option B)) (Inv : world -> Prop) (x : A) :
  (forall y w r w', Inv w -> f y w = (Ok r, w') -> Inv w') ->
  forall l w bs w', Inv w -> In x l -> collect f l w = (Ok bs, w') ->
    exists w0 r w0', Inv w0 /\ f x w0 = (Ok r, w0').
Proof.
  intros Hinv. induction l as [| y l IH]; intros w bs w' Hw Hin H; [contradiction |].
  simpl in H. apply bind_inv_ok in H as (r & w1 & H1 & H).
  apply bind_inv_ok in H as (rs & w2 & H2 & H).
  destruct Hin as [-> | Hin].
  - exists w, r, w1. now split.
  - apply (IH w1 rs w2); [exact (Hinv y w r w1 Hw H1) | exact Hin | exact H2].
Qed.

Section ObjectWalk.

Variable inspect : InspectOptions -> list obj -> value -> string.
Variable fields : JsonLogFormatterFields.
Variable ffuel : nat.

Local Abbreviation self := (JsonLogFormatter inspect fields ffuel).

Lemma framed_member_step b n gap stack indent holder k :
  framed b (member_step n (jsonReplacer self) gap stack indent holder k) any.
Proof.
  unfold member_step.
  eapply framed_bind; [apply unchanged_framed, unchanged_get_prop |]. intros v _.
  eapply framed_bind.
  - apply framed_SerializeJSONProperty. intros. apply framed_jsonReplacer.
    intros. apply JsonLogFormatter_framed.
  - intros r0 _. apply framed_ret. exact I.
Qed.

(** The walk of an ordinary object without [toJSON] is the walk of its
    enumerable keys, in order. *)
Lemma object_walk fuel gap stack indent key (a : addr) w r w' :
  o_kind (heap_obj (heap w) a) = KObject ->
  find_prop "toJSON" (heap_obj (heap w) a) = None ->
  SerializeJSONProperty (S fuel) (jsonReplacer self) gap stack indent key (VRef a) w
  = (Ok r, w') ->
  existsb (Nat.eqb a) stack = false
  /\ exists partial,
       collect (member_step fuel (jsonReplacer self) gap (a :: stack) (indent +:+ gap) (VRef a))
         (own_enumerable_keys (heap_obj (heap w) a)) w = (Ok partial, w')
       /\ r = Some (assemble "{" "}" gap indent (indent +:+ gap) partial).
Proof.
  intros Hkind HtoJSON H.
  rewrite SerializeJSONProperty_step in H.
  erewrite bind_ok in H by now apply apply_toJSON_none.
  erewrite bind_ok in H by now apply jsonReplacer_plain.
  cbv beta iota in H.
  destruct (existsb (Nat.eqb a) stack); [unfold throw in H; discriminate H |].
  split; [reflexivity |].
  erewrite bind_ok in H by reflexivity. cbv zeta in H. rewrite Hkind in H.
  apply bind_inv_ok in H as (partial & w2 & Hc & H). inversion H; subst r w2; clear H.
  exists partial. split; [exact Hc | reflexivity].
Qed.

(** A member whose walk gives the text [text] in every later world is in
    the text of the object. *)
Lemma member_rendered fuel gap stack indent key (a : addr) k v text w r w' :
  (a < length (heap w))%nat ->
  o_kind (heap_obj (heap w) a) = KObject ->
  find_prop "toJSON" (heap_obj (heap w) a) = None ->
  In k (own_enumerable_keys (heap_obj (heap w) a)) ->
  prop_result k (heap_obj (heap w) a) = Some v ->
  (forall w0, hframe (length (heap w)) w w0 ->
     exists w0',
       SerializeJSONProperty fuel (jsonReplacer self) gap (a :: stack) (indent +:+ gap) k v w0
       = (Ok (Some text), w0')) ->
  SerializeJSONProperty (S fuel) (jsonReplacer self) gap stack indent key (VRef a) w
  = (Ok r, w') ->
  exists partial,
    r = Some (assemble "{" "}" gap indent (indent +:+ gap) partial)
    /\ In (member_text gap k text) partial.
Proof.
  intros Ha Hkind HtoJSON Hin Hv Htext H.
  destruct (object_walk _ _ _ _ _ _ _ _ _ Hkind HtoJSON H) as (_ & partial & Hc & ->).
  exists partial. split; [reflexivity |].
  eapply (collect_member _ (fun w0 => hframe (length (heap w)) w w0));
    [| | | exact Hin | exact Hc].
  - intros y w0 r0 w0' F0 E.
    destruct (framed_member_step (length (heap w)) _ _ _ _ _ _ w0 r0 w0' (proj1 F0) E)
      as [[F1 _] _].
    eapply hframe_trans; eauto.
  - intros w0 F0. destruct (Htext w0 F0) as [w0' E]. exists w0'.
    unfold member_step. erewrite bind_ok.
    2: { apply get_prop_ref_some. rewrite (hframe_heap_obj _ _ _ a F0 Ha). exact Hv. }
    erewrite bind_ok by exact E. reflexivity.
  - apply hframe_refl.
Qed.

(** A member whose walk returns in no later world makes the walk of the
    object fail. *)
Lemma member_fails fuel gap stack indent key (a : addr) k w r w' :
  (a < length (heap w))%nat ->
  o_kind (heap_obj (heap w) a) = KObject ->
  find_prop "toJSON" (heap_obj (heap w) a) = None ->
  In k (own_enumerable_keys (heap_obj (heap w) a)) ->
  (forall w0 x w0', hframe (length (heap w)) w w0 ->
     member_step fuel (jsonReplacer self) gap (a :: stack) (indent +:+ gap) (VRef a) k w0
     <> (Ok x, w0')) ->
  SerializeJSONProperty (S fuel) (jsonReplacer self) gap stack indent key (VRef a) w
  <> (Ok r, w').
Proof.
  intros Ha Hkind HtoJSON Hin Hfail H.
  destruct (object_walk _ _ _ _ _ _ _ _ _ Hkind HtoJSON H) as (_ & partial & Hc & _).
  assert (Hinv : forall y w0 r0 w0', hframe (length (heap w)) w w0 ->
             member_step fuel (jsonReplacer self) gap (a :: stack) (indent +:+ gap) (VRef a) y w0
             = (Ok r0, w0') -> hframe (length (heap w)) w w0').
  { intros y w0 r0 w0' F0 E.
    destruct (framed_member_step (length (heap w)) _ _ _ _ _ _ w0 (Ok r0) w0' (proj1 F0) E)
      as [[F1 _] _].
    eapply hframe_trans; eauto. }
  destruct (collect_reaches _ (fun w0 => hframe (length (heap w)) w w0) k Hinv
              _ w partial w' (hframe_refl _ _) Hin Hc) as (w0 & x & w0' & F0 & E).
  exact (Hfail w0 x w0' F0 E).
Qed.

Lemma ordinary_later w w0 (a : addr) :
  hframe (length (heap w)) w w0 -> ordinary (heap w) a ->
  ordinary (heap w0) a /\ heap_obj (heap w0) a = heap_obj (heap w) a.
Proof.
  intros F (Ha & Hk & Ht).
  assert (E : heap_obj (heap w0) a = heap_obj (heap w) a) by exact (hframe_heap_obj _ _ _ a F Ha).
  split; [| exact E]. unfold ordinary. rewrite E.
  split; [destruct F; lia | now split].
Qed.

Lemma later_later w w0 w1 :
  hframe (length (heap w)) w w0 -> hframe (length (heap w0)) w0 w1 ->
  hframe (length (heap w)) w w1.
Proof.
  intros F0 F1. eapply hframe_trans; [exact F0 |].
  eapply hframe_weaken; [| exact F1]. destruct F0; lia.
Qed.

Lemma jsonReplacer_regexp key (b : addr) source flags s f w :
  o_kind (heap_obj (heap w) b) = KRegExp s f ->
  prop_result "source" (heap_obj (heap w) b) = Some (VStr source) ->
  prop_result "flags" (heap_obj (heap w) b) = Some (VStr flags) ->
  jsonReplacer self key (VRef b) w = (Ok (VStr (regexp_text source flags)), w).
Proof.
  intros Hk Hs Hf. unfold jsonReplacer.
  erewrite bind_ok by apply kind_of_eq. cbn [value_kind typeof]. rewrite Hk.
  cbn [String.eqb Ascii.eqb Bool.eqb is_regexp_kind].
  erewrite bind_ok by (apply get_prop_ref_some; exact Hs).
  erewrite bind_ok by (apply get_prop_ref_some; exact Hf).
  reflexivity.
Qed.

Lemma jsonReplacer_promise key (b : addr) w :
  o_kind (heap_obj (heap w) b) = KPromise ->
  jsonReplacer self key (VRef b) w = (Ok (VStr (formatPromise key)), w).
Proof.
  intros Hk. unfold jsonReplacer.
  erewrite bind_ok by apply kind_of_eq. cbn [value_kind typeof]. rewrite Hk.
  reflexivity.
Qed.

(** What the replacer renders as a string is that string, quoted. *)
Lemma renders_as_text fuel gap stack indent k v text w w0 :
  renders_as (heap w) k v text ->
  hframe (length (heap w)) w w0 ->
  SerializeJSONProperty (S fuel) (jsonReplacer self) gap stack indent k v w0
  = (Ok (Some (Text.quote text)), w0).
Proof.
  intros Hr F. destruct Hr as [n | b source flags s f Hb Hk Ht Hs Hf | b Hb Hk Ht].
  - reflexivity.
  - assert (E : heap_obj (heap w0) b = heap_obj (heap w) b) by exact (hframe_heap_obj _ _ _ b F Hb).
    rewrite SerializeJSONProperty_step.
    erewrite bind_ok by (apply apply_toJSON_none; rewrite E; exact Ht).
    erewrite bind_ok by (apply (jsonReplacer_regexp _ _ source flags s f); rewrite E; assumption).
    reflexivity.
  - assert (E : heap_obj (heap w0) b = heap_obj (heap w) b) by exact (hframe_heap_obj _ _ _ b F Hb).
    rewrite SerializeJSONProperty_step.
    erewrite bind_ok by (apply apply_toJSON_none; rewrite E; exact Ht).
    erewrite bind_ok by (apply jsonReplacer_promise; rewrite E; exact Hk).
    reflexivity.
Qed.

(** The walk of an unserializable value does not return. *)
Lemma unserializable_walk w stack v :
  unserializable (heap w) stack v ->
  forall fuel gap indent key w0 r w0',
    hframe (length (heap w)) w w0 ->
    SerializeJSONProperty fuel (jsonReplacer self) gap stack indent key v w0 <> (Ok r, w0').
Proof.
  induction 1 as [a stack Ho Hin | a stack k Ho Hin Hk | a stack name x Ha Ht
                 | a stack k v Ho Hin Hk Hv IH];
    intros [| fuel] gap indent key w0 r w0' F; try discriminate.
  - destruct (ordinary_later _ _ _ F Ho) as [(_ & Hk0 & Ht0) _].
    intros H. destruct (object_walk _ _ _ _ _ _ _ _ _ Hk0 Ht0 H) as [Hs _].
    assert (Hs' : existsb (Nat.eqb a) stack = true)
      by (apply existsb_exists; exists a; split; [exact Hin | apply Nat.eqb_refl]).
    congruence.
  - destruct (ordinary_later _ _ _ F Ho) as [(Ha0 & Hk0 & Ht0) E].
    apply (member_fails _ _ _ _ _ _ k); [exact Ha0 | exact Hk0 | exact Ht0 | now rewrite E |].
    intros w1 y w1' F1 H. unfold member_step in H.
    assert (E1 : heap_obj (heap w1) a = heap_obj (heap w) a).
    { apply (hframe_heap_obj (length (heap w))); [eapply later_later; eauto | apply Ho]. }
    destruct (get_prop_ref_none a k w1) as [e He]; [now rewrite E1 |].
    erewrite bind_throw in H by exact He. discriminate.
  - assert (E : heap_obj (heap w0) a = heap_obj (heap w) a) by exact (hframe_heap_obj _ _ _ a F Ha).
    rewrite SerializeJSONProperty_step.
    assert (Hthrow : apply_toJSON (VRef a) w0 = (Throw (Thrown x), w0)).
    { unfold apply_toJSON.
      erewrite bind_ok by (apply get_prop_ref_some; rewrite E; exact Ht). reflexivity. }
    erewrite bind_throw by exact Hthrow. discriminate.
  - destruct (ordinary_later _ _ _ F Ho) as [(Ha0 & Hk0 & Ht0) E].
    apply (member_fails _ _ _ _ _ _ k); [exact Ha0 | exact Hk0 | exact Ht0 | now rewrite E |].
    intros w1 y w1' F1 H. unfold member_step in H.
    assert (Fw1 : hframe (length (heap w)) w w1) by (eapply later_later; eauto).
    assert (E1 : heap_obj (heap w1) a = heap_obj (heap w) a)
      by (apply (hframe_heap_obj (length (heap w))); [exact Fw1 | apply Ho]).
    erewrite bind_ok in H by (apply get_prop_ref_some; rewrite E1; exact Hk).
    apply bind_inv_ok in H as (r1 & w2 & H1 & _).
    exact (IH _ _ _ _ _ _ _ Fw1 H1).
Qed.

(** When the walk of an object does not return, [formatLogData] gives the
    text of [inspect], unless the walk ran out of fuel. *)
Lemma formatLogData_fallback fuel arg w r w' :
  typeof arg = "object" ->
  (forall x w1, SerializeJSONProperty fuel (jsonReplacer (JsonLogFormatter inspect fields fuel))
                  (gap_of_space (jsonStringifySpace fields)) [] "" "" arg w <> (Ok x, w1)) ->
  formatLogData (JsonLogFormatter inspect fields (S fuel)) arg w = (r, w') ->
  r = OutOfFuel \/ r = Ok (VStr (inspect (inspectOptions fields) (heap w') arg)).
Proof.
  intros Ht Hno H. cbn [JsonLogFormatter formatLogData] in H.
  unfold JsonLogFormatter_formatLogData in H. rewrite Ht in H.
  cbn [String.eqb Ascii.eqb Bool.eqb negb] in H. unfold try_catch, JSON_stringify in H.
  unfold bind at 1 in H.
  destruct (SerializeJSONProperty fuel _ _ [] "" "" arg w) as [[x | e |] w1] eqn:E.
  - exfalso. exact (Hno x w1 eq_refl).
  - unfold formatWithInspect in H. inversion H; subst. now right.
  - inversion H; subst. now left.
Qed.
End ObjectWalk.

(** X5: a member that holds a big integer, a regular expression or a
    promise is rendered, in the text of an ordinary object, as a string:
    the decimal digits, [Regexp { /source/flags }], and a notice that
    names the key of the promise. *)
Theorem replacer_renders_special_members :
  (forall inspect fields ffuel fuel gap stack indent key (a : addr) k v text w r w',
      ordinary (heap w) a ->
      In k (own_enumerable_keys (heap_obj (heap w) a)) ->
      prop_result k (heap_obj (heap w) a) = Some v ->
      renders_as (heap w) k v text ->
      SerializeJSONProperty (S (S fuel)) (jsonReplacer (JsonLogFormatter inspect fields ffuel))
        gap stack indent key (VRef a) w = (Ok r, w') ->
      exists partial,
        r = Some (assemble "{" "}" gap indent (indent +:+ gap) partial)
        /\ In (member_text gap k (Text.quote text)) partial)
  /\ formatLogData compact_formatter (VRef 0) special_world
     = (Ok (VStr special_line), special_world).
Proof.
  split; [| vm_compute; reflexivity].
  intros inspect fields ffuel fuel gap stack indent key a k v text w r w'
    (Ha & Hk & Ht) Hin Hv Hr H.
  apply (member_rendered inspect fields ffuel (S fuel) gap stack indent key a k v
           (Text.quote text) w r w' Ha Hk Ht Hin Hv); [| exact H].
  intros w0 F. exists w0. now apply (renders_as_text inspect fields ffuel) with (w := w).
Qed.

Lemma replacer_renders_special_members_witness :
  exists partial,
    Some special_line = Some (assemble "{" "}" "" "" ("" +:+ "") partial)
    /\ In (member_text "" "pattern" (Text.quote (regexp_text "test" "gi"))) partial.
Proof.
  destruct replacer_renders_special_members as [H _].
  apply (H inspect_blank compact_fields 7%nat 5%nat "" [] "" "" 0%nat "pattern" (VRef 1)
           (regexp_text "test" "gi") special_world (Some special_line) special_world).
  - split; [simpl; lia | split; reflexivity].
  - vm_compute. right. left. reflexivity.
  - reflexivity.
  - apply (render_regexp _ _ 1%nat "test" "gi" "test" "gi"); try reflexivity. simpl. lia.
  - vm_compute. reflexivity.
Defined.

(** X6: when the walk of an object cannot succeed, because the object is
    reached again from itself or holds, at any depth, an accessor or a
    [toJSON] that raises, [formatLogData] does not raise: it returns the
    text that [inspect] gives for the object with the formatter's options,
    unless the recursion budget of the model is exhausted first. *)
Theorem formatLogData_falls_back_to_inspect :
  (forall inspect fields fuel arg w r w',
      unserializable (heap w) [] arg ->
      formatLogData (JsonLogFormatter inspect fields (S fuel)) arg w = (r, w') ->
      r = OutOfFuel \/ r = Ok (VStr (inspect (inspectOptions fields) (heap w') arg)))
  /\ (forall inspect fields,
         formatLogData (JsonLogFormatter inspect fields 8) (VRef 0) circular_world
         = (Ok (VStr (inspect (inspectOptions fields) (heap circular_world) (VRef 0))),
            circular_world))
  /\ (forall inspect fields,
         formatLogData (JsonLogFormatter inspect fields 8) (VRef 0) getter_world
         = (Ok (VStr (inspect (inspectOptions fields) (heap getter_world) (VRef 0))),
            getter_world))
  /\ (forall inspect fields,
         formatLogData (JsonLogFormatter inspect fields 8) (VRef 2) getter_world
         = (Ok (VStr (inspect (inspectOptions fields) (heap getter_world) (VRef 2))),
            getter_world)).
Proof.
  split; [| split; [| split]]; try reflexivity.
  intros inspect fields fuel arg w r w' Hu H.
  apply (formatLogData_fallback inspect fields fuel arg w r w'); [| | exact H].
  - now destruct Hu.
  - intros x w1. apply (unserializable_walk inspect fields fuel w [] arg Hu).
    apply hframe_refl.
Qed.

Lemma formatLogData_falls_back_to_inspect_witness :
  fst (formatLogData compact_formatter (VRef 0) circular_world) = OutOfFuel
  \/ fst (formatLogData compact_formatter (VRef 0) circular_world)
     = Ok (VStr (inspect_blank (inspectOptions compact_fields)
                   (heap (snd (formatLogData compact_formatter (VRef 0) circular_world)))
                   (VRef 0))).
Proof.
  destruct formatLogData_falls_back_to_inspect as [H _].
  apply (H inspect_blank compact_fields 7%nat (VRef 0) circular_world).
  - apply (unserializable_member _ 0%nat [] "self" (VRef 0)).
    + split; [simpl; lia | split; reflexivity].
    + vm_compute. right. left. reflexivity.
    + reflexivity.
    + apply unserializable_cycle.
      * split; [simpl; lia | split; reflexivity].
      * left. reflexivity.
  - apply surjective_pairing.
Defined.

(** ** An error as a member *)

(** The conversion of a standard error is the object of its three
    fields, whatever the formatter. *)
Lemma errorToObject_standard n formatter (e : addr) name message stack w :
  standard_error (heap w) e name message stack ->
  errorToObject (S n) (VRef e) formatter w
  = (Ok (VRef (length (heap w))),
     push_obj w (error_base (VStr name) (VStr message) (VStr stack))).
Proof.
  intros (He & _ & Hn & Hm & Hs & Ht & Hkeys & c & Hc & Hfalsy).
  rewrite (errorToObject_run n e formatter w _ _ _ He Hn Hm Hs).
  set (wA := push_obj w (error_base (VStr name) (VStr message) (VStr stack))).
  assert (EA : heap_obj (heap wA) e = heap_obj (heap w) e)
    by (unfold wA, push_obj; simpl; now apply heap_obj_app_old).
  assert (HB : error_properties_step formatter (VRef e) (length (heap w)) wA = (Ok tt, wA)).
  { unfold error_properties_step.
    rewrite (bind_ok _ _ _ _ _ (has_property_ref _ _ _)), EA.
    unfold toJSON_is_no_function in Ht.
    destruct (prop_result "toJSON" (heap_obj (heap w) e)) as [f |] eqn:Ef; [| discriminate].
    assert (Hget : (if obj_has "toJSON" (heap_obj (heap w) e)
                    then get_prop (VRef e) "toJSON" else ret VUndefined) wA
                   = (Ok (if obj_has "toJSON" (heap_obj (heap w) e) then f else VUndefined), wA)).
    { destruct (obj_has "toJSON" (heap_obj (heap w) e)); [| reflexivity].
      apply get_prop_ref_some. rewrite EA. exact Ef. }
    erewrite bind_ok by exact Hget.
    assert (Hno : obj_has "toJSON" (heap_obj (heap w) e)
                  && String.eqb (typeof (if obj_has "toJSON" (heap_obj (heap w) e)
                                         then f else VUndefined)) "function" = false).
    { destruct (obj_has "toJSON" (heap_obj (heap w) e)); [| reflexivity].
      now apply negb_true_iff in Ht. }
    rewrite Hno. erewrite bind_ok by reflexivity. fold (heap_obj (heap wA) e).
    rewrite EA, Hkeys. reflexivity. }
  erewrite bind_ok by exact HB.
  assert (HC : error_cause_step (fun cause => errorToObject n cause formatter) formatter
                 (VRef e) (length (heap w)) wA = (Ok tt, wA)).
  { unfold error_cause_step.
    erewrite bind_ok by (apply get_prop_ref_some; rewrite EA; exact Hc).
    now rewrite Hfalsy. }
  erewrite bind_ok by exact HC. reflexivity.
Qed.

Lemma standard_error_later w w0 (e : addr) name message stack :
  hframe (length (heap w)) w w0 -> standard_error (heap w) e name message stack ->
  standard_error (heap w0) e name message stack.
Proof.
  intros F H. assert (He : (e < length (heap w))%nat) by apply H.
  unfold standard_error. rewrite (hframe_heap_obj _ _ _ e F He).
  split; [destruct F; lia | apply H].
Qed.

Section ErrorMember.

Variable inspect : InspectOptions -> list obj -> value -> string.
Variable fields : JsonLogFormatterFields.
Variable ffuel : nat.

Local Abbreviation self := (JsonLogFormatter inspect fields (S (S ffuel))).

Lemma jsonReplacer_standard_error key (e : addr) name message stack w :
  standard_error (heap w) e name message stack ->
  jsonReplacer self key (VRef e) w
  = (Ok (VRef (length (heap w))),
     push_obj w (error_base (VStr name) (VStr message) (VStr stack))).
Proof.
  intros H. unfold jsonReplacer.
  erewrite bind_ok by apply kind_of_eq. cbn [value_kind typeof].
  destruct H as (He & Hk & Hrest) eqn:EH. rewrite Hk.
  cbn [String.eqb Ascii.eqb Bool.eqb is_regexp_kind is_promise_kind is_error_kind].
  cbn [JsonLogFormatter formatError]. unfold JsonLogFormatter_formatError.
  apply errorToObject_standard. exact (conj He (conj Hk Hrest)).
Qed.

Lemma standard_error_text fuel gap stack indent key (e : addr) name message st w :
  standard_error (heap w) e name message st ->
  Forall (fun a : addr => (a < length (heap w))%nat) stack ->
  SerializeJSONProperty (S (S fuel)) (jsonReplacer self) gap stack indent key (VRef e) w
  = (Ok (Some (error_text gap indent name message st)),
     push_obj w (error_base (VStr name) (VStr message) (VStr st))).
Proof.
  intros H Hstack. rewrite SerializeJSONProperty_step.
  assert (Hto : apply_toJSON (VRef e) w = (Ok (VRef e), w)).
  { unfold apply_toJSON. destruct H as (He & _ & _ & _ & _ & Ht & _).
    unfold toJSON_is_no_function in Ht.
    destruct (prop_result "toJSON" (heap_obj (heap w) e)) as [f |] eqn:Ef; [| discriminate].
    erewrite bind_ok by (apply get_prop_ref_some; exact Ef).
    destruct f; try reflexivity. discriminate. }
  erewrite bind_ok by exact Hto.
  erewrite bind_ok by (apply jsonReplacer_standard_error; exact H).
  cbv beta iota.
  assert (Hfresh : existsb (Nat.eqb (length (heap w))) stack = false).
  { destruct (existsb (Nat.eqb (length (heap w))) stack) eqn:E; [| reflexivity].
    apply existsb_exists in E as (x & Hin & Hx). apply Nat.eqb_eq in Hx. subst x.
    pose proof (proj1 (List.Forall_forall _ _) Hstack _ Hin) as Hlt. simpl in Hlt. lia. }
  rewrite Hfresh.
  set (w1 := push_obj w (error_base (VStr name) (VStr message) (VStr st))).
  assert (T1 : heap_obj (heap w1) (length (heap w))
               = error_base (VStr name) (VStr message) (VStr st))
    by (unfold w1, push_obj; simpl; apply heap_obj_app_new).
  erewrite bind_ok by reflexivity. cbv zeta. rewrite T1.
  change (o_kind (error_base (VStr name) (VStr message) (VStr st))) with KObject.
  cbv iota.
  change (own_enumerable_keys (error_base (VStr name) (VStr message) (VStr st)))
    with ["name"; "message"; "stack"].
  assert (Hmember : forall k t,
             prop_result k (error_base (VStr name) (VStr message) (VStr st)) = Some (VStr t) ->
             member_step (S fuel) (jsonReplacer self) gap (length (heap w) :: stack)
               (indent +:+ gap) (VRef (length (heap w))) k w1
             = (Ok (Some (member_text gap k (Text.quote t))), w1)).
  { intros k t Hk. apply (member_step_string (S fuel)). rewrite T1. exact Hk. }
  cbn [collect].
  change (fun k => v <- get_prop (VRef (length (heap w))) k ;;
                   r <- SerializeJSONProperty (S fuel) (jsonReplacer self) gap
                          (length (heap w) :: stack) (indent +:+ gap) k v ;;
                   ret (option_map (member_text gap k) r))
    with (member_step (S fuel) (jsonReplacer self) gap (length (heap w) :: stack)
            (indent +:+ gap) (VRef (length (heap w)))).
  erewrite bind_ok.
  2: { erewrite bind_ok by (apply (Hmember "name" name); reflexivity).
       erewrite bind_ok.
       2: { erewrite bind_ok by (apply (Hmember "message" message); reflexivity).
            erewrite bind_ok.
            2: { erewrite bind_ok by (apply (Hmember "stack" st); reflexivity).
                 reflexivity. }
            reflexivity. }
       reflexivity. }
  reflexivity.
Qed.
End ErrorMember.

(** X7: the replacer converts an error by [errorToObject] before the walk
    goes on, so that an error made by [new Error(message)] is rendered as
    an object with its [name], [message] and [stack], as the text of
    [formatLogData] and as a member of an ordinary object. *)
Theorem error_is_rendered_by_its_fields :
  (forall inspect fields fuel (e : addr) name message stack w,
      standard_error (heap w) e name message stack ->
      formatLogData (JsonLogFormatter inspect fields (S (S (S fuel)))) (VRef e) w
      = (Ok (VStr (error_text (gap_of_space (jsonStringifySpace fields)) ""
                     name message stack)),
         push_obj w (error_base (VStr name) (VStr message) (VStr stack))))
  /\ (forall inspect fields ffuel fuel gap stack indent key (a e : addr) k
             name message st w r w',
         ordinary (heap w) a ->
         In k (own_enumerable_keys (heap_obj (heap w) a)) ->
         prop_result k (heap_obj (heap w) a) = Some (VRef e) ->
         standard_error (heap w) e name message st ->
         Forall (fun s : addr => (s < length (heap w))%nat) stack ->
         SerializeJSONProperty (S (S (S fuel)))
           (jsonReplacer (JsonLogFormatter inspect fields (S (S ffuel))))
           gap stack indent key (VRef a) w = (Ok r, w') ->
         exists partial,
           r = Some (assemble "{" "}" gap indent (indent +:+ gap) partial)
           /\ In (member_text gap k (error_text gap (indent +:+ gap) name message st))
                partial).
Proof.
  split.
  - intros inspect fields fuel e name message stack w H.
    cbn [JsonLogFormatter formatLogData]. unfold JsonLogFormatter_formatLogData.
    cbn [typeof String.eqb Ascii.eqb Bool.eqb negb]. unfold try_catch, JSON_stringify.
    erewrite bind_ok by (apply (standard_error_text inspect fields fuel); [exact H | constructor]).
    reflexivity.
  - intros inspect fields ffuel fuel gap stack indent key a e k name message st w r w'
      (Ha & Hk & Ht) Hin Hv He Hstack H.
    apply (member_rendered inspect fields (S (S ffuel)) (S (S fuel)) gap stack indent key a k
             (VRef e) _ w r w' Ha Hk Ht Hin Hv); [| exact H].
    intros w0 F. eexists.
    apply (standard_error_text inspect fields ffuel).
    + now apply (standard_error_later w).
    + constructor; [destruct F; lia |].
      eapply List.Forall_impl; [| exact Hstack]. intros s Hs. simpl in *. destruct F; lia.
Qed.

Lemma error_is_rendered_by_its_fields_witness :
  formatLogData compact_formatter (VRef 1) error_member_world
  = (Ok (VStr (error_text "" "" "Error" "test error" "Error: test error")),
     push_obj error_member_world
       (error_base (VStr "Error") (VStr "test error") (VStr "Error: test error"))).
Proof.
  destruct error_is_rendered_by_its_fields as [H _].
  apply (H inspect_blank compact_fields 5%nat 1%nat "Error" "test error" "Error: test error"
           error_member_world).
  split; [simpl; lia |]. repeat (split; [reflexivity |]).
  exists VUndefined. split; reflexivity.
Defined.

(** ** The walk of an object of scalars *)

Lemma serialize_scalar self n gap stack indent key v t w :
  scalar_text v = Some t ->
  SerializeJSONProperty (S n) (jsonReplacer self) gap stack indent key v w = (Ok (Some t), w).
Proof.
  destruct v as [| | [|] | | | | | |]; intros H; inversion H; subst; reflexivity.
Qed.

Lemma scalar_props_assoc k ps p :
  scalar_props ps -> assoc k ps = Some p -> exists v, p = data_prop v /\ is_scalar v = true.
Proof.
  induction 1 as [| [k' p'] ps Hp _ IH]; simpl; [discriminate |].
  destruct (String.eqb k k'); [| exact IH].
  intros E. inversion E; subst. exact Hp.
Qed.

Lemma scalar_props_update k v ps :
  is_scalar v = true -> scalar_props ps -> scalar_props (props_update k v ps).
Proof.
  intros Hv. induction 1 as [| [k' p'] ps Hp Hps IH]; simpl; [constructor |].
  destruct (String.eqb k k').
  - constructor; [| exact Hps]. destruct Hp as (v' & Hp & _). simpl in *. subst p'.
    exists v. now split.
  - constructor; assumption.
Qed.

Lemma scalar_props_insert_index n k v ps :
  is_scalar v = true -> scalar_props ps -> scalar_props (props_insert_index n k (data_prop v) ps).
Proof.
  intros Hv. assert (Hnew : exists v', snd (k, data_prop v) = data_prop v' /\ is_scalar v' = true)
    by (exists v; now split).
  induction 1 as [| [k' p'] ps Hp Hps IH]; simpl; [constructor; [exact Hnew | constructor] |].
  destruct (array_index k') as [m |].
  - destruct (m <? n); constructor; try assumption. now constructor.
  - constructor; [exact Hnew |]. now constructor.
Qed.

Lemma scalar_props_set k v ps :
  is_scalar v = true -> scalar_props ps -> scalar_props (props_set k v ps).
Proof.
  intros Hv Hps. unfold props_set. destruct (has_key k ps).
  - now apply scalar_props_update.
  - destruct (array_index k).
    + now apply scalar_props_insert_index.
    + apply Forall_app. split; [exact Hps |]. constructor; [| constructor].
      exists v. now split.
Qed.

Lemma scalar_object_set k v o :
  is_scalar v = true -> scalar_object o -> scalar_object (obj_set k v o).
Proof.
  intros Hv (Hk & Hp & Hps). split; [exact Hk |]. split; [exact Hp |].
  now apply scalar_props_set.
Qed.

Lemma scalar_object_assign kvs : forall o,
  Forall (fun kv : string * value => is_scalar (snd kv) = true) kvs ->
  scalar_object o -> scalar_object (assign_entries kvs o).
Proof.
  unfold assign_entries. induction kvs as [| [k v] kvs IH]; intros o Hkvs Ho; simpl; [exact Ho |].
  inversion Hkvs; subst. apply IH; [assumption |]. now apply scalar_object_set.
Qed.

Lemma scalar_object_empty : scalar_object empty_obj.
Proof. split; [reflexivity |]. split; [reflexivity | constructor]. Qed.

Lemma scalar_object_keys o :
  scalar_object o -> own_enumerable_keys o = map fst (o_own o).
Proof.
  intros (Hk & _ & Hps). unfold own_enumerable_keys, own_props. rewrite Hk.
  unfold scalar_props in Hps. revert Hps.
  induction (o_own o) as [| [k p] ps IH]; intros Hps; [reflexivity |].
  inversion Hps as [| ? ? (v & Hp & _) Hrest]; subst.
  simpl in Hp. subst p. simpl. f_equal. now apply IH.
Qed.

Lemma scalar_object_find k o :
  scalar_object o -> find_prop k o = assoc k (o_own o) \/
                     (assoc k (o_own o) = None /\ find_prop k o = assoc k object_prototype).
Proof.
  intros (Hk & Hp & _). unfold find_prop, own_props. rewrite Hk, Hp. cbn [assoc kind_proto].
  destruct (assoc k (o_own o)); [now left | right; now split].
Qed.

Lemma scalar_object_member k o :
  scalar_object o -> In k (own_enumerable_keys o) ->
  exists v t, prop_result k o = Some v /\ scalar_text v = Some t
              /\ scalar_member o k = t.
Proof.
  intros Ho Hin. rewrite (scalar_object_keys o Ho) in Hin.
  assert (Hsome : exists p, assoc k (o_own o) = Some p).
  { clear Ho. induction (o_own o) as [| [k' p'] ps IH]; [contradiction |].
    simpl. destruct (String.eqb_spec k k'); [eauto |].
    destruct Hin as [E | Hin]; [simpl in E; congruence | now apply IH]. }
  destruct Hsome as [p Hp].
  destruct (scalar_props_assoc k _ p (proj2 (proj2 Ho)) Hp) as (v & -> & Hv).
  unfold is_scalar in Hv. destruct (scalar_text v) as [t |] eqn:Et; [| discriminate].
  assert (Hr : prop_result k o = Some v).
  { unfold prop_result. destruct (scalar_object_find k o Ho) as [-> | [E _]]; [| congruence].
    now rewrite Hp. }
  exists v, t. split; [exact Hr |]. split; [exact Et |].
  unfold scalar_member. now rewrite Hr, Et.
Qed.

Lemma scalar_object_toJSON (a : addr) w :
  scalar_object (heap_obj (heap w) a) -> apply_toJSON (VRef a) w = (Ok (VRef a), w).
Proof.
  intros Ho. unfold apply_toJSON.
  assert (Hr : exists v, prop_result "toJSON" (heap_obj (heap w) a) = Some v
                         /\ is_callable v = false).
  { unfold prop_result.
    destruct (scalar_object_find "toJSON" _ Ho) as [E | [_ E]]; rewrite E.
    - destruct (assoc "toJSON" (o_own (heap_obj (heap w) a))) as [p |] eqn:Ep.
      + destruct (scalar_props_assoc _ _ p (proj2 (proj2 Ho)) Ep) as (v & -> & Hv).
        exists v. split; [reflexivity |]. now destruct v.
      + exists VUndefined. now split.
    - exists VUndefined. now split. }
  destruct Hr as (v & Hr & Hc).
  erewrite bind_ok by (apply get_prop_ref_some; exact Hr). now rewrite Hc.
Qed.

Lemma scalar_members self n gap stack indent (a : addr) w keys :
  scalar_object (heap_obj (heap w) a) ->
  (forall k, In k keys -> In k (own_enumerable_keys (heap_obj (heap w) a))) ->
  collect (member_step (S n) (jsonReplacer self) gap stack indent (VRef a)) keys w
  = (Ok (map (fun k => member_text gap k (scalar_member (heap_obj (heap w) a) k)) keys), w).
Proof.
  intros Ho. induction keys as [| k keys IH]; intros Hin; [reflexivity |].
  destruct (scalar_object_member k _ Ho (Hin k (or_introl eq_refl))) as (v & t & Hr & Ht & Hm).
  cbn [collect map].
  assert (Hstep : member_step (S n) (jsonReplacer self) gap stack indent (VRef a) k w
                  = (Ok (Some (member_text gap k t)), w)).
  { unfold member_step. erewrite bind_ok by (apply get_prop_ref_some; exact Hr).
    erewrite bind_ok by (apply serialize_scalar; exact Ht). reflexivity. }
  erewrite bind_ok by exact Hstep.
  erewrite bind_ok by (apply IH; intros k' Hk'; apply Hin; now right).
  rewrite Hm. reflexivity.
Qed.

(** The walk of an object of scalars that is not being walked already
    gives its text and changes nothing. *)
Lemma scalar_object_walk self n gap stack indent key (a : addr) w :
  scalar_object (heap_obj (heap w) a) ->
  existsb (Nat.eqb a) stack = false ->
  SerializeJSONProperty (S (S n)) (jsonReplacer self) gap stack indent key (VRef a) w
  = (Ok (Some (object_text gap indent (heap_obj (heap w) a))), w).
Proof.
  intros Ho Hs. rewrite SerializeJSONProperty_step.
  erewrite bind_ok by now apply scalar_object_toJSON.
  erewrite bind_ok by (apply jsonReplacer_plain; apply Ho).
  cbv beta iota. rewrite Hs.
  erewrite bind_ok by reflexivity. cbv zeta. rewrite (proj1 Ho). cbv iota.
  change (fun k => v <- get_prop (VRef a) k ;;
                   r <- SerializeJSONProperty (S n) (jsonReplacer self) gap (a :: stack)
                          (indent +:+ gap) k v ;;
                   ret (option_map (member_text gap k) r))
    with (member_step (S n) (jsonReplacer self) gap (a :: stack) (indent +:+ gap) (VRef a)).
  erewrite bind_ok by (apply scalar_members; [exact Ho | auto]).
  reflexivity.
Qed.

(** ** The record of a call whose data is no error *)

Lemma push_update_new w o o' :
  update_obj (push_obj w o) (length (heap w)) o' = push_obj w o'.
Proof.
  unfold update_obj, push_obj. cbn [heap console storage]. f_equal.
  induction (heap w) as [| x h IH]; simpl; [reflexivity | now rewrite IH].
Qed.

Lemma hframe_push b w o : (b <= length (heap w))%nat -> hframe b w (push_obj w o).
Proof.
  intros Hb. split; [unfold push_obj; simpl; rewrite length_app; lia |].
  intros a Ha. unfold push_obj. simpl. apply lookup_app_l. lia.
Qed.

Lemma hframe_update b w t o :
  (b <= t)%nat -> hframe b w (update_obj w t o).
Proof.
  intros Hb. split; [unfold update_obj; simpl; rewrite length_insert; lia |].
  intros a Ha. unfold update_obj. simpl. apply list_lookup_insert_ne. lia.
Qed.

Lemma is_plain_composite_hframe b w w' v :
  hframe b w w' -> (forall a, v = VRef a -> (a < b)%nat) ->
  is_plain_composite (heap w') v = is_plain_composite (heap w) v.
Proof.
  intros F Hv. unfold is_plain_composite. now rewrite (value_kind_hframe b w w' v F Hv).
Qed.

Lemma is_error_hframe b w w' v :
  hframe b w w' -> (forall a, v = VRef a -> (a < b)%nat) ->
  is_error (heap w') v = is_error (heap w) v.
Proof. intros F Hv. unfold is_error. now rewrite (value_kind_hframe b w w' v F Hv). Qed.

Lemma valid_value_below h v (a : addr) : valid_value h v -> v = VRef a -> (a < length h)%nat.
Proof. intros Hv ->. exact Hv. Qed.

Lemma length_push w o : length (heap (push_obj w o)) = S (length (heap w)).
Proof. unfold push_obj. simpl. rewrite length_app. simpl. lia. Qed.

Lemma length_update w t o : length (heap (update_obj w t o)) = length (heap w).
Proof. unfold update_obj. simpl. apply length_insert. Qed.

Lemma heap_obj_push_new w o : heap_obj (heap (push_obj w o)) (length (heap w)) = o.
Proof. apply heap_obj_app_new. Qed.

Lemma heap_obj_push_old w o a :
  (a < length (heap w))%nat -> heap_obj (heap (push_obj w o)) a = heap_obj (heap w) a.
Proof. apply heap_obj_app_old. Qed.

Lemma heap_obj_update_eq w t o :
  (t < length (heap w))%nat -> heap_obj (heap (update_obj w t o)) t = o.
Proof. apply heap_obj_insert_eq. Qed.

Lemma heap_obj_update_ne w t a o :
  t <> a -> heap_obj (heap (update_obj w t o)) a = heap_obj (heap w) a.
Proof. apply heap_obj_insert_ne. Qed.

Lemma quiet_push w o : quiet w (push_obj w o).
Proof. split; reflexivity. Qed.

Lemma quiet_update w t o : quiet w (update_obj w t o).
Proof. split; reflexivity. Qed.

Lemma quiet_trans w1 w2 w3 : quiet w1 w2 -> quiet w2 w3 -> quiet w1 w3.
Proof. intros [C1 S1] [C2 S2]. split; congruence. Qed.

(** The data object that [getLogData] fills from the scope and from
    call-site data that is no error, and attaches to the record at [t]. *)
Lemma data_object_filled fmt data sc (t : addr) w1 scope_kvs src_kvs :
  (t < length (heap w1))%nat ->
  (forall a, sc = VRef a -> (a < t)%nat) ->
  (forall a, data = VRef a -> (a < t)%nat) ->
  is_error (heap w1) data = false ->
  source_entries (heap w1) sc = Some scope_kvs ->
  data_entries (heap w1) data = Some src_kvs ->
  ~ In "__proto__" (keys_of src_kvs) ->
  let d := length (heap w1) in
  exists w5,
    (dataToAdd <- alloc empty_obj ;;
     object_spread dataToAdd sc ;;;
     dataIsError <- instanceof_Error data ;;
     (if dataIsError then
        converted <- formatError fmt "" data ;;
        object_assign dataToAdd converted
      else
        dataIsObject <- isObject data ;;
        source <- (if dataIsObject then ret data
                   else wrapper <- alloc (plain [("data", data)]) ;; ret (VRef wrapper)) ;;
        object_assign dataToAdd source) ;;;
     set_prop t "data" (VRef dataToAdd)) w1 = (Ok tt, w5)
    /\ hframe t w1 w5 /\ quiet w1 w5 /\ (d < length (heap w5))%nat
    /\ heap_obj (heap w5) t = obj_set "data" (VRef d) (heap_obj (heap w1) t)
    /\ heap_obj (heap w5) d = overlay_object scope_kvs src_kvs.
Proof.
  intros Ht Hsc Hdata Herr Hs Hsrc Hkeys d.
  assert (Htd : t <> d) by (unfold d; lia).
  assert (Hle : (t <= d)%nat) by (unfold d; lia).
  erewrite bind_ok by apply alloc_eq. fold d.
  set (w2 := push_obj w1 empty_obj).
  assert (F2 : hframe d w1 w2) by (apply hframe_push; apply le_n).
  assert (L2 : length (heap w2) = S d) by apply length_push.
  assert (D2 : heap_obj (heap w2) d = empty_obj) by apply heap_obj_push_new.
  assert (Hltd : forall v, (forall a, v = VRef a -> (a < t)%nat) ->
                           forall a, v = VRef a -> (a < d)%nat).
  { intros v Hv a E. specialize (Hv a E). unfold d. lia. }
  assert (Hned : forall v, (forall a, v = VRef a -> (a < t)%nat) -> v <> VRef d).
  { intros v Hv E. specialize (Hv d E). unfold d in Hv. lia. }
  assert (S2 : source_entries (heap w2) sc = Some scope_kvs).
  { rewrite <- Hs. apply (source_entries_hframe d); [exact F2 | now apply Hltd]. }
  set (w3 := update_obj w2 d (assign_entries scope_kvs empty_obj)).
  assert (E3 : object_spread d sc w2 = (Ok tt, w3)).
  { unfold w3. rewrite <- D2.
    apply object_spread_some; [now apply Hned | rewrite L2; apply Nat.lt_succ_diag_r | exact S2]. }
  assert (F3 : hframe d w1 w3)
    by (eapply hframe_trans; [exact F2 | apply hframe_update; apply le_n]).
  assert (L3 : length (heap w3) = S d) by (unfold w3; now rewrite length_update).
  assert (D3 : heap_obj (heap w3) d = assign_entries scope_kvs empty_obj)
    by (apply heap_obj_update_eq; rewrite L2; apply Nat.lt_succ_diag_r).
  assert (Herr3 : is_error (heap w3) data = false).
  { rewrite <- Herr. apply (is_error_hframe d); [exact F3 | now apply Hltd]. }
  assert (Hcomp3 : is_plain_composite (heap w3) data = is_plain_composite (heap w1) data)
    by (apply (is_plain_composite_hframe d); [exact F3 | now apply Hltd]).
  erewrite bind_ok by exact E3.
  erewrite bind_ok by apply instanceof_Error_eq. rewrite Herr3.
  (* the source, then the write to the record *)
  assert (Hfinish : forall w4,
             hframe d w1 w4 -> quiet w1 w4 -> (d < length (heap w4))%nat ->
             heap_obj (heap w4) d = overlay_object scope_kvs src_kvs ->
             let w5 := update_obj w4 t (obj_set "data" (VRef d) (heap_obj (heap w1) t)) in
             set_prop t "data" (VRef d) w4 = (Ok tt, w5)
             /\ hframe t w1 w5 /\ quiet w1 w5 /\ (d < length (heap w5))%nat
             /\ heap_obj (heap w5) t = obj_set "data" (VRef d) (heap_obj (heap w1) t)
             /\ heap_obj (heap w5) d = overlay_object scope_kvs src_kvs).
  { intros w4 F4 Q4 L4 D4 w5.
    assert (T4 : heap_obj (heap w4) t = heap_obj (heap w1) t)
      by (apply (hframe_heap_obj d); [exact F4 | unfold d; exact Ht]).
    split; [rewrite set_prop_eq, T4; reflexivity |].
    split; [eapply hframe_trans; [eapply hframe_weaken; [| exact F4]; exact Hle
                                 | apply hframe_update; apply le_n] |].
    split; [exact Q4 |].
    split; [unfold w5; rewrite length_update; exact L4 |].
    split; [apply heap_obj_update_eq; lia |].
    unfold w5. rewrite heap_obj_update_ne by exact Htd. exact D4. }
  rewrite bind_assoc. erewrite bind_ok by apply isObject_eq. rewrite Hcomp3.
  unfold data_entries in Hsrc.
  destruct (is_plain_composite (heap w1) data).
  - rewrite bind_assoc. erewrite bind_ok by reflexivity.
    assert (S3 : source_entries (heap w3) data = Some src_kvs).
    { rewrite <- Hsrc. apply (source_entries_hframe d); [exact F3 | now apply Hltd]. }
    erewrite bind_ok.
    2: { apply object_assign_some;
           [now apply Hned | rewrite L3; apply Nat.lt_succ_diag_r | | exact S3 | exact Hkeys].
         rewrite D3. now apply data_properties_assign. }
    rewrite D3. fold (overlay_object scope_kvs src_kvs).
    eexists. apply Hfinish.
    + eapply hframe_trans; [exact F3 | apply hframe_update; apply le_n].
    + split; reflexivity.
    + rewrite length_update, L3. apply Nat.lt_succ_diag_r.
    + apply heap_obj_update_eq. rewrite L3. apply Nat.lt_succ_diag_r.
  - inversion Hsrc; subst src_kvs; clear Hsrc.
    rewrite bind_assoc, bind_assoc. erewrite bind_ok by apply alloc_eq.
    erewrite bind_ok by reflexivity.
    set (w3' := push_obj w3 (plain [("data", data)])).
    assert (L3' : length (heap w3') = S (S d)) by (unfold w3'; now rewrite length_push, L3).
    assert (D3' : heap_obj (heap w3') d = assign_entries scope_kvs empty_obj).
    { unfold w3'. rewrite heap_obj_push_old by (rewrite L3; apply Nat.lt_succ_diag_r).
      exact D3. }
    assert (S3' : source_entries (heap w3') (VRef (length (heap w3))) = Some [("data", data)]).
    { unfold w3'. cbn [source_entries]. rewrite heap_obj_push_new. reflexivity. }
    erewrite bind_ok.
    2: { apply object_assign_some; [| rewrite L3'; lia | | exact S3' | exact Hkeys].
         - rewrite L3. intros E. inversion E. lia.
         - rewrite D3'. now apply data_properties_assign. }
    rewrite D3'. fold (overlay_object scope_kvs [("data", data)]).
    eexists. apply Hfinish.
    + eapply hframe_trans; [exact F3 |].
      eapply hframe_trans; [apply hframe_push; rewrite L3; lia | apply hframe_update; apply le_n].
    + split; reflexivity.
    + rewrite length_update, L3'. lia.
    + apply heap_obj_update_eq. rewrite L3'. lia.
Qed.

(** The record that [getLogData] assembles from the ambient context, a
    scope and call-site data that is no error. *)
Lemma getLogData_plain this level message data sc fmt w c scope_kvs src_kvs :
  context_value (getLogContext (config this)) (push_obj w (record_base level message)) c ->
  valid_value (heap w) sc -> valid_value (heap w) data ->
  is_error (heap w) data = false ->
  source_entries (heap w) sc = Some scope_kvs ->
  data_entries (heap w) data = Some src_kvs ->
  ~ In "__proto__" (keys_of src_kvs) ->
  let t := length (heap w) in
  exists w',
    getLogData this level message data sc fmt w = (Ok (VRef t), w')
    /\ hframe t w w' /\ quiet w w'
    /\ (t < length (heap w'))%nat
    /\ heap_obj (heap w') t = record_of level message c (truthy data || truthy sc) (S t)
    /\ (truthy data || truthy sc = true ->
        (S t < length (heap w'))%nat
        /\ heap_obj (heap w') (S t) = overlay_object scope_kvs src_kvs).
Proof.
  intros Hctx Hvs Hvd Herr Hsc Hsrc Hkeys t. unfold getLogData.
  fold (record_base level message).
  erewrite bind_ok by apply alloc_eq. fold t.
  set (w1 := push_obj w (record_base level message)) in *.
  assert (F1 : hframe t w w1) by (apply hframe_push; apply le_n).
  assert (L1 : length (heap w1) = S t) by apply length_push.
  assert (T1 : heap_obj (heap w1) t = record_base level message) by apply heap_obj_push_new.
  assert (Hacc : match getLogContext (config this) with
                 | Some accessor => accessor
                 | None => ret VUndefined
                 end w1 = (Ok c, w1)).
  { unfold context_value in Hctx. destruct (getLogContext (config this)); [exact Hctx |].
    now rewrite Hctx. }
  erewrite bind_ok by exact Hacc.
  assert (Hc : exists w1c,
             when_ (truthy c) (set_prop t "context" c) w1 = (Ok tt, w1c)
             /\ hframe t w w1c /\ quiet w w1c /\ length (heap w1c) = S t
             /\ heap_obj (heap w1c) t = record_with_context level message c).
  { unfold record_with_context. destruct (truthy c); cbn [when_].
    - eexists. split; [apply set_prop_eq |]. rewrite T1.
      split; [eapply hframe_trans; [exact F1 | apply hframe_update; apply le_n] |].
      split; [split; reflexivity |].
      split; [now rewrite length_update |].
      apply heap_obj_update_eq. rewrite L1. apply Nat.lt_succ_diag_r.
    - exists w1. split; [reflexivity |]. split; [exact F1 |].
      split; [apply quiet_push |]. split; [exact L1 | exact T1]. }
  destruct Hc as (w1c & Ec & F1c & Q1c & L1c & T1c).
  erewrite bind_ok by exact Ec.
  unfold record_of.
  destruct (truthy data || truthy sc) eqn:Hany.
  2: { exists w1c. erewrite bind_ok by reflexivity.
       split; [reflexivity |]. split; [exact F1c |]. split; [exact Q1c |].
       split; [rewrite L1c; apply Nat.lt_succ_diag_r |].
       split; [exact T1c | discriminate]. }
  cbn [when_].
  assert (Hbelow : forall v a, valid_value (heap w) v -> v = VRef a -> (a < t)%nat)
    by (intros v a Hv E; exact (valid_value_below _ _ _ Hv E)).
  destruct (data_object_filled fmt data sc t w1c scope_kvs src_kvs) as
    (w5 & E5 & F5 & Q5 & L5 & T5 & D5).
  - rewrite L1c. apply Nat.lt_succ_diag_r.
  - intros a. now apply Hbelow.
  - intros a. now apply Hbelow.
  - rewrite <- Herr. apply (is_error_hframe t); [exact F1c | intros a; now apply Hbelow].
  - rewrite <- Hsc. apply (source_entries_hframe t); [exact F1c | intros a; now apply Hbelow].
  - rewrite <- Hsrc. unfold data_entries.
    rewrite (is_plain_composite_hframe t w w1c data F1c) by (intros a; now apply Hbelow).
    destruct (is_plain_composite (heap w) data); [| reflexivity].
    apply (source_entries_hframe t); [exact F1c | intros a; now apply Hbelow].
  - exact Hkeys.
  - rewrite L1c in *. exists w5. erewrite bind_ok by exact E5.
    split; [reflexivity |].
    split; [eapply hframe_trans; eauto |].
    split; [eapply quiet_trans; [exact Q1c | exact Q5] |].
    split; [lia |]. split; [now rewrite T5, T1c |]. intros _.
    split; [exact L5 | exact D5].
Qed.

Lemma collect_cons_ok {A B : Type} (f : A -> M (option B)) x l w r w1 rs w2 :
  f x w = (Ok r, w1) -> collect f l w1 = (Ok rs, w2) ->
  collect f (x :: l) w = (Ok (match r with Some b => b :: rs | None => rs end), w2).
Proof.
  intros H1 H2. cbn [collect]. erewrite bind_ok by exact H1.
  erewrite bind_ok by exact H2. reflexivity.
Qed.

Section ScalarRecord.

Variable inspect : InspectOptions -> list obj -> value -> string.
Variable fields : JsonLogFormatterFields.
Variable fuel : nat.

Local Abbreviation gap := (gap_of_space (jsonStringifySpace fields)).
Local Abbreviation self := (JsonLogFormatter inspect fields (S (S (S fuel)))).

(** The text of a record whose context and data objects hold scalars. *)
Lemma scalar_record_text level message c (b : bool) (t : addr) w data_object :
  (t < length (heap w))%nat ->
  heap_obj (heap w) t = record_of level message c b (S t) ->
  (truthy c = true ->
   (exists m : addr, c = VRef m /\ m <> t) /\ scalar_object (context_object (heap w) c)) ->
  (b = true -> heap_obj (heap w) (S t) = data_object /\ scalar_object data_object) ->
  formatLogData (JsonLogFormatter inspect fields (S (S (S (S fuel))))) (VRef t) w
  = (Ok (VStr (record_line gap level message (record_parts gap (heap w) c b data_object))), w).
Proof.
  intros Ht HR Hctx Hdata.
  cbn [JsonLogFormatter formatLogData]. unfold JsonLogFormatter_formatLogData.
  cbn [typeof String.eqb Ascii.eqb Bool.eqb negb]. unfold try_catch, JSON_stringify.
  assert (Hwalk : SerializeJSONProperty (S (S (S fuel))) (jsonReplacer self) gap [] "" ""
                    (VRef t) w
                  = (Ok (Some (record_line gap level message
                                 (record_parts gap (heap w) c b data_object))), w)).
  { rewrite SerializeJSONProperty_step.
    erewrite bind_ok by (apply apply_toJSON_none; rewrite HR; apply record_no_toJSON).
    erewrite bind_ok by (apply jsonReplacer_plain; rewrite HR; apply record_kind).
    cbv beta iota. cbn [existsb].
    erewrite bind_ok by reflexivity. cbv zeta. rewrite HR, record_kind, record_keys.
    cbv iota.
    change (fun k => v <- get_prop (VRef t) k ;;
                     r <- SerializeJSONProperty (S (S fuel)) (jsonReplacer self) gap [t]
                            ("" +:+ gap) k v ;;
                     ret (option_map (member_text gap k) r))
      with (member_step (S (S fuel)) (jsonReplacer self) gap [t] ("" +:+ gap) (VRef t)).
    change ("" +:+ gap) with gap.
    assert (Hlevel : member_step (S (S fuel)) (jsonReplacer self) gap [t] gap (VRef t) "level" w
                     = (Ok (Some (member_text gap "level" (Text.decimal (level_value level)))), w))
      by (rewrite <- number_json_level; apply (member_step_number (S (S fuel)));
          rewrite HR; apply record_level).
    assert (Hmessage : member_step (S (S fuel)) (jsonReplacer self) gap [t] gap (VRef t)
                         "message" w
                       = (Ok (Some (member_text gap "message" (Text.quote message))), w))
      by (apply (member_step_string (S (S fuel))); rewrite HR; apply record_message).
    assert (Hc : truthy c = true ->
                 member_step (S (S fuel)) (jsonReplacer self) gap [t] gap (VRef t) "context" w
                 = (Ok (Some (member_text gap "context"
                                (object_text gap gap (context_object (heap w) c)))), w)).
    { intros Hc. destruct (Hctx Hc) as [(m & -> & Hm) Hs]. cbn [context_object] in *.
      unfold member_step.
      erewrite bind_ok by (apply get_prop_ref_some; rewrite HR; now apply record_context).
      erewrite bind_ok.
      2: { apply scalar_object_walk; [exact Hs |].
           cbn [existsb]. rewrite orb_false_r. now apply Nat.eqb_neq. }
      reflexivity. }
    assert (Hd : b = true ->
                 member_step (S (S fuel)) (jsonReplacer self) gap [t] gap (VRef t) "data" w
                 = (Ok (Some (member_text gap "data" (object_text gap gap data_object))), w)).
    { intros Hb. destruct (Hdata Hb) as [HD Hs]. subst b.
      unfold member_step.
      erewrite bind_ok by (apply get_prop_ref_some; rewrite HR; apply record_data).
      erewrite bind_ok.
      2: { apply scalar_object_walk; [rewrite HD; exact Hs |].
           cbn [existsb]. rewrite orb_false_r. apply Nat.eqb_neq. lia. }
      rewrite HD. reflexivity. }
    unfold record_parts.
    destruct (truthy c), b; cbn [app].
    - erewrite bind_ok.
      2: { eapply collect_cons_ok; [exact Hlevel |].
           eapply collect_cons_ok; [exact Hmessage |].
           eapply collect_cons_ok; [exact (Hc eq_refl) |].
           eapply collect_cons_ok; [exact (Hd eq_refl) | reflexivity]. }
      reflexivity.
    - erewrite bind_ok.
      2: { eapply collect_cons_ok; [exact Hlevel |].
           eapply collect_cons_ok; [exact Hmessage |].
           eapply collect_cons_ok; [exact (Hc eq_refl) | reflexivity]. }
      reflexivity.
    - erewrite bind_ok.
      2: { eapply collect_cons_ok; [exact Hlevel |].
           eapply collect_cons_ok; [exact Hmessage |].
           eapply collect_cons_ok; [exact (Hd eq_refl) | reflexivity]. }
      reflexivity.
    - erewrite bind_ok.
      2: { eapply collect_cons_ok; [exact Hlevel |].
           eapply collect_cons_ok; [exact Hmessage | reflexivity]. }
      reflexivity. }
  erewrite bind_ok by exact Hwalk. reflexivity.
Qed.
End ScalarRecord.

Lemma context_object_hframe b w w' c :
  hframe b w w' -> (forall a, c = VRef a -> (a < b)%nat) ->
  context_object (heap w') c = context_object (heap w) c.
Proof.
  intros F Hc. destruct c; try reflexivity. cbn [context_object].
  apply (hframe_heap_obj b); [exact F | now apply Hc].
Qed.

(** The call of [log] on a record of scalars: what it returns and what it
    writes. *)
Lemma log_writes_scalar_record
  inspect fields fuel sc th accessor tr (v : LogLevel) message data w c scope_kvs src_kvs :
  js_lt (level_value v) th = false ->
  context_value accessor (push_obj w (record_base v message)) c ->
  scalar_context (heap w) c ->
  valid_value (heap w) sc -> valid_value (heap w) data ->
  is_error (heap w) data = false ->
  source_entries (heap w) sc = Some scope_kvs ->
  data_entries (heap w) data = Some src_kvs ->
  ~ In "__proto__" (keys_of src_kvs) ->
  Forall (fun kv : string * value => is_scalar (snd kv) = true) (scope_kvs ++ src_kvs) ->
  let gap := gap_of_space (jsonStringifySpace fields) in
  exists w',
    log (json_logger inspect fields (S (S (S (S fuel)))) sc th accessor tr) v message data w
    = (Ok tt, w')
    /\ console w'
       = console w
           ++ [VStr (record_line gap v message
                       (record_parts gap (heap w) c (truthy data || truthy sc)
                          (overlay_object scope_kvs src_kvs)))]
    /\ hframe (length (heap w)) w w'
    /\ storage w' = storage w.
Proof.
  intros Hth Hctx Hsctx Hvs Hvd Herr Hsc Hsrc Hkeys Hscalar gap.
  unfold log, json_logger. cbn [config logLevel scope formatter]. rewrite Hth.
  destruct (getLogData_plain
              (mkLogger (mkLoggerConfig sc th
                           (JsonLogFormatter inspect fields (S (S (S (S fuel))))) tr accessor))
              v message data sc (JsonLogFormatter inspect fields (S (S (S (S fuel)))))
              w c scope_kvs src_kvs Hctx Hvs Hvd Herr Hsc Hsrc Hkeys)
    as (w1 & E1 & F1 & [C1 S1] & L1 & HR & Hyes).
  erewrite bind_ok by exact E1.
  assert (Hs : scalar_object (overlay_object scope_kvs src_kvs)).
  { apply Forall_app in Hscalar as [H1 H2]. unfold overlay_object.
    apply scalar_object_assign; [exact H2 |].
    apply scalar_object_assign; [exact H1 | apply scalar_object_empty]. }
  assert (Hco : context_object (heap w1) c = context_object (heap w) c).
  { destruct (truthy c) eqn:Hc.
    - destruct (Hsctx Hc) as [(m & -> & Hm) _].
      apply (context_object_hframe (length (heap w))); [exact F1 |].
      intros a E. inversion E. now subst.
    - destruct c; try reflexivity. discriminate. }
  erewrite bind_ok.
  2: { apply (scalar_record_text inspect fields fuel v message c (truthy data || truthy sc)
                (length (heap w)) w1 (overlay_object scope_kvs src_kvs) L1 HR).
       - intros Hc. destruct (Hsctx Hc) as [(m & E & Hm) Hso]. split.
         + exists m. split; [exact E | lia].
         + now rewrite Hco.
       - intros E. split; [apply (Hyes E) | exact Hs]. }
  unfold record_parts. rewrite Hco.
  eexists. split; [reflexivity |]. cbn [console heap storage].
  split; [now rewrite C1 |]. split; [| exact S1].
  destruct F1 as [Hl Hsame]. split; [exact Hl | exact Hsame].
Qed.

(** X8: a call that passes the threshold, with an ambient context, a scope
    and call-site data that hold scalars only (the data being an object of
    scalars without an own key [__proto__], or a scalar, which is wrapped
    under [data]), returns and writes one line to the console: the JSON
    object of [level], [message], [context] when the accessor gives a
    truthy context, and, unless the data and the scope are both falsy,
    [data] with the entries of the scope overlaid with those of the call
    site.  A number is written as [JSON.stringify] writes a double
    ([Number.json]).  No object that existed before is changed. *)
Theorem scalar_record_is_written
  inspect fields fuel sc th accessor tr (v : LogLevel) message data w c scope_kvs src_kvs :
  js_lt (level_value v) th = false ->
  context_value accessor (push_obj w (record_base v message)) c ->
  scalar_context (heap w) c ->
  valid_value (heap w) sc -> valid_value (heap w) data ->
  is_error (heap w) data = false ->
  source_entries (heap w) sc = Some scope_kvs ->
  data_entries (heap w) data = Some src_kvs ->
  ~ In "__proto__" (keys_of src_kvs) ->
  Forall (fun kv : string * value => is_scalar (snd kv) = true) (scope_kvs ++ src_kvs) ->
  let gap := gap_of_space (jsonStringifySpace fields) in
  exists w',
    log (json_logger inspect fields (S (S (S (S fuel)))) sc th accessor tr) v message data w
    = (Ok tt, w')
    /\ console w'
       = console w
           ++ [VStr (record_line gap v message
                       (record_parts gap (heap w) c (truthy data || truthy sc)
                          (overlay_object scope_kvs src_kvs)))]
    /\ hframe (length (heap w)) w w'
    /\ storage w' = storage w.
Proof.
  intros Hth Hctx Hsctx Hvs Hvd Herr Hsc Hsrc Hkeys Hscalar.
  exact (log_writes_scalar_record inspect fields fuel sc th accessor tr v message data w c
           scope_kvs src_kvs Hth Hctx Hsctx Hvs Hvd Herr Hsc Hsrc Hkeys Hscalar).
Qed.

Lemma scalar_record_is_written_witness :
  exists w',
    log (json_logger inspect_blank compact_fields 8 VUndefined (VNum (level_value debug))
           None ConsoleTransport) info "test message" (VRef 0) value_world
    = (Ok tt, w')
    /\ console w'
       = console value_world
           ++ [VStr (record_line "" info "test message"
                       (record_parts "" (heap value_world) VUndefined true
                          (overlay_object [] [("data", VStr "value")])))]
    /\ hframe (length (heap value_world)) value_world w'
    /\ storage w' = storage value_world.
Proof.
  apply (scalar_record_is_written inspect_blank compact_fields 4%nat VUndefined
           (VNum (level_value debug)) None ConsoleTransport info "test message" (VRef 0)
           value_world VUndefined [] [("data", VStr "value")]).
  - reflexivity.
  - reflexivity.
  - discriminate.
  - exact I.
  - simpl. lia.
  - reflexivity.
  - reflexivity.
  - reflexivity.
  - cbn. intuition discriminate.
  - repeat constructor.
Defined.

(** ** Logging inside [runWithContext] *)

(** The world in which [runWithContext] runs its body. *)
Lemma runWithContext_merged {T : Type} logContext (handlerFn : M T) w parent_kvs partial_kvs :
  valid_value (heap w) (current_context w) -> valid_value (heap w) logContext ->
  parent_entries (heap w) (current_context w) = Some parent_kvs ->
  source_entries (heap w) logContext = Some partial_kvs ->
  let m := length (heap w) in
  exists w_in : world,
    current_context w_in = VRef m
    /\ console w_in = console w
    /\ hframe m w w_in
    /\ (m < length (heap w_in))%nat
    /\ heap_obj (heap w_in) m = overlay_object parent_kvs partial_kvs
    /\ AsyncContext.runWithContext logContext handlerFn w
       = (let (r, w') := handlerFn w_in in
          (r, mkWorld (heap w') (console w') (Some (current_context w)))).
Proof.
  intros Hvp Hvl Hparent Hpartial m.
  set (w0 := mkWorld (heap w) (console w) (Some (current_context w))).
  assert (E0 : AsyncContext.getLogContextStorage w = (Ok tt, w0)).
  { unfold AsyncContext.getLogContextStorage, w0, current_context. destruct w as [h c [s |]]; reflexivity. }
  set (w1 := push_obj w0 empty_obj).
  assert (F01 : hframe m w w1).
  { split; [unfold w1, w0, push_obj; simpl; rewrite length_app; lia |].
    intros a Ha. unfold w1, w0, push_obj. simpl. now apply lookup_app_l. }
  assert (L1 : length (heap w1) = S m)
    by (unfold w1, w0, push_obj; simpl; rewrite length_app; simpl; lia).
  assert (O1 : heap_obj (heap w1) m = empty_obj)
    by (unfold w1, w0, push_obj; simpl; apply heap_obj_app_new).
  assert (Q1 : console w1 = console w /\ storage w1 = Some (current_context w)) by now split.
  assert (Ew1 : push_obj w0 empty_obj = w1) by reflexivity.
  assert (Lw0 : length (heap w0) = m) by reflexivity.
  clearbody w1 w0.
  (* the parent mapping, or a fresh empty one *)
  assert (Hp : exists parent w2,
             (match current_context w with
              | VUndefined | VNull => fresh <- alloc empty_obj ;; ret (VRef fresh)
              | _ => ret (current_context w)
              end) w1 = (Ok parent, w2)
             /\ parent <> VRef m /\ hframe (S m) w1 w2
             /\ console w2 = console w /\ storage w2 = Some (current_context w)
             /\ source_entries (heap w2) parent = Some parent_kvs).
  { assert (Hold : forall c, c = current_context w -> c <> VUndefined -> c <> VNull ->
                     c <> VRef m /\ source_entries (heap w1) c = Some parent_kvs).
    { intros c -> Hu Hn. split.
      - intros E. rewrite E in Hvp. simpl in Hvp. unfold m in Hvp. lia.
      - rewrite (source_entries_hframe m w w1 _ F01).
        + unfold parent_entries in Hparent.
          destruct (current_context w); try exact Hparent; congruence.
        + intros a E. rewrite E in Hvp. exact Hvp. }
    assert (Hnew : current_context w = VUndefined \/ current_context w = VNull ->
              exists w2, (fresh <- alloc empty_obj ;; ret (VRef fresh)) w1 = (Ok (VRef (S m)), w2)
                /\ VRef (S m) <> VRef m /\ hframe (S m) w1 w2
                /\ console w2 = console w /\ storage w2 = Some (current_context w)
                /\ source_entries (heap w2) (VRef (S m)) = Some parent_kvs).
    { intros Hnull. exists (push_obj w1 empty_obj). split; [| split; [| split; [| split; [| split]]]].
      - erewrite bind_ok by apply alloc_eq. now rewrite L1.
      - intros E. inversion E. lia.
      - split; [unfold push_obj; simpl; rewrite length_app; lia |].
        intros a Ha. unfold push_obj. simpl. apply lookup_app_l. lia.
      - apply Q1.
      - apply Q1.
      - cbn [source_entries]. unfold push_obj. cbn [heap]. rewrite <- L1, heap_obj_app_new.
        unfold parent_entries in Hparent.
        destruct Hnull as [E | E]; rewrite E in Hparent; inversion Hparent; reflexivity. }
    destruct (current_context w) eqn:Ec.
    1: destruct (Hnew (or_introl eq_refl)) as (w2 & Hrun & Hrest);
       exists (VRef (S m)), w2; split; [exact Hrun | exact Hrest].
    1: destruct (Hnew (or_intror eq_refl)) as (w2 & Hrun & Hrest);
       exists (VRef (S m)), w2; split; [exact Hrun | exact Hrest].
    all: destruct (Hold _ eq_refl ltac:(discriminate) ltac:(discriminate)) as [A B];
      eexists _, w1; split; [reflexivity |]; split; [exact A |];
      split; [apply hframe_refl |]; split; [apply Q1 |]; split; [apply Q1 | exact B]. }
  destruct Hp as (parent & w2 & E2 & Hne2 & F12 & C2 & S2 & Es2).
  assert (L2 : (m < length (heap w2))%nat) by (destruct F12; lia).
  assert (O2 : heap_obj (heap w2) m = empty_obj)
    by (rewrite (hframe_heap_obj (S m) w1 w2 m F12); [exact O1 | lia]).
  set (w3 := update_obj w2 m (assign_entries parent_kvs empty_obj)).
  assert (E3 : object_spread m parent w2 = (Ok tt, w3)).
  { unfold w3. rewrite <- O2. now apply object_spread_some. }
  assert (Q3 : console w3 = console w /\ storage w3 = Some (current_context w)) by now split.
  assert (F23 : hframe m w2 w3).
  { split; [unfold w3, update_obj; simpl; rewrite length_insert; lia |].
    intros a Ha. unfold w3, update_obj. simpl. apply list_lookup_insert_ne. lia. }
  assert (F03 : hframe m w w3).
  { eapply hframe_trans; [exact F01 |]. eapply hframe_trans; [| exact F23].
    eapply hframe_weaken; [| exact F12]. lia. }
  assert (L3 : (m < length (heap w3))%nat) by (destruct F23; lia).
  assert (O3 : heap_obj (heap w3) m = assign_entries parent_kvs empty_obj)
    by (unfold w3, update_obj; simpl; now apply heap_obj_insert_eq).
  clearbody w3.
  set (w4 := update_obj w3 m (assign_entries partial_kvs (assign_entries parent_kvs empty_obj))).
  assert (E4 : object_spread m logContext w3 = (Ok tt, w4)).
  { unfold w4. rewrite <- O3. apply object_spread_some; [| exact L3 |].
    - intros E. rewrite E in Hvl. simpl in Hvl. unfold m in Hvl. lia.
    - rewrite (source_entries_hframe m w w3 _ F03); [exact Hpartial |].
      intros a E. rewrite E in Hvl. exact Hvl. }
  exists (mkWorld (heap w4) (console w4) (Some (VRef m))).
  split; [reflexivity |]. split; [apply Q3 |]. split.
  { eapply hframe_trans; [exact F03 |].
    split; [unfold w4, update_obj; simpl; rewrite length_insert; lia |].
    intros a Ha. unfold w4, update_obj. simpl. apply list_lookup_insert_ne. unfold m. lia. }
  split.
  { cbn [heap]. unfold w4, update_obj. cbn [heap]. rewrite length_insert. exact L3. }
  split.
  { cbn [heap]. unfold w4 at 1, update_obj. cbn [heap].
    rewrite heap_obj_insert_eq by exact L3. reflexivity. }
  unfold AsyncContext.runWithContext.
  erewrite bind_ok by apply getLogContext_eq.
  erewrite bind_ok by exact E0.
  erewrite bind_ok by apply alloc_eq.
  rewrite Ew1, Lw0.
  erewrite bind_ok by exact E2.
  erewrite bind_ok by exact E3.
  erewrite bind_ok by exact E4.
  unfold AsyncContext.run. replace (storage w4) with (Some (current_context w)) by (symmetry; apply Q3).
  reflexivity.
Qed.

Lemma valid_value_hframe b w w' v : hframe b w w' -> valid_value (heap w) v -> valid_value (heap w') v.
Proof. intros [Hl _] H. destruct v; try exact H. simpl in *. lia. Qed.

(** X9: a call that passes the threshold, made inside
    [runWithContext(logContext, ...)] on a logger that reads the ambient
    context, writes one line whose [context] member holds the entries of
    the caller's context overlaid with those of [logContext], before the
    [data] member; afterwards the ambient context is the caller's again.
    Contexts, scope and data hold scalars, a number being written as
    [JSON.stringify] writes a double, and the call-site data has no own
    key [__proto__]. *)
Theorem log_inside_runWithContext_writes_the_context
  inspect fields fuel sc th tr (v : LogLevel) message data logContext w
  parent_kvs partial_kvs scope_kvs src_kvs :
  js_lt (level_value v) th = false ->
  valid_value (heap w) (current_context w) -> valid_value (heap w) logContext ->
  valid_value (heap w) sc -> valid_value (heap w) data ->
  is_error (heap w) data = false ->
  parent_entries (heap w) (current_context w) = Some parent_kvs ->
  source_entries (heap w) logContext = Some partial_kvs ->
  source_entries (heap w) sc = Some scope_kvs ->
  data_entries (heap w) data = Some src_kvs ->
  ~ In "__proto__" (keys_of src_kvs) ->
  Forall (fun kv : string * value => is_scalar (snd kv) = true) (parent_kvs ++ partial_kvs) ->
  Forall (fun kv : string * value => is_scalar (snd kv) = true) (scope_kvs ++ src_kvs) ->
  let gap := gap_of_space (jsonStringifySpace fields) in
  exists w',
    AsyncContext.runWithContext logContext
      (log (json_logger inspect fields (S (S (S (S fuel)))) sc th
              (Some AsyncContext.getLogContext) tr) v message data) w
    = (Ok tt, w')
    /\ console w'
       = console w
           ++ [VStr (record_line gap v message
                       ([member_text gap "context"
                           (object_text gap gap (overlay_object parent_kvs partial_kvs))]
                        ++ (if truthy data || truthy sc
                            then [member_text gap "data"
                                    (object_text gap gap (overlay_object scope_kvs src_kvs))]
                            else [])))]
    /\ current_context w' = current_context w
    /\ hframe (length (heap w)) w w'.
Proof.
  intros Hth Hvp Hvl Hvs Hvd Herr Hparent Hpartial Hsc Hsrc Hkeys Hcs Hds gap.
  destruct (runWithContext_merged logContext
              (log (json_logger inspect fields (S (S (S (S fuel)))) sc th
                      (Some AsyncContext.getLogContext) tr) v message data)
              w parent_kvs partial_kvs Hvp Hvl Hparent Hpartial)
    as (w_in & Hc & Hcon & F & L & Ho & Hrun).
  set (m := length (heap w)) in *.
  assert (Hbelow : forall x a, valid_value (heap w) x -> x = VRef a -> (a < m)%nat)
    by (intros x a Hx E; exact (valid_value_below _ _ _ Hx E)).
  assert (Hso : scalar_object (overlay_object parent_kvs partial_kvs)).
  { apply Forall_app in Hcs as [H1 H2]. unfold overlay_object.
    apply scalar_object_assign; [exact H2 |].
    apply scalar_object_assign; [exact H1 | apply scalar_object_empty]. }
  destruct (log_writes_scalar_record inspect fields fuel sc th
              (Some AsyncContext.getLogContext) tr v message data w_in (VRef m)
              scope_kvs src_kvs) as (w1 & E1 & C1 & F1 & S1).
  - exact Hth.
  - unfold context_value. rewrite getLogContext_eq. f_equal. f_equal.
    rewrite <- Hc. unfold current_context, push_obj. reflexivity.
  - intros _. split; [exists m; split; [reflexivity | exact L] |].
    cbn [context_object]. rewrite Ho. exact Hso.
  - eapply valid_value_hframe; eauto.
  - eapply valid_value_hframe; eauto.
  - rewrite <- Herr. apply (is_error_hframe m); [exact F | intros a; now apply Hbelow].
  - rewrite <- Hsc. apply (source_entries_hframe m); [exact F | intros a; now apply Hbelow].
  - rewrite <- Hsrc. unfold data_entries.
    rewrite (is_plain_composite_hframe m w w_in data F) by (intros a; now apply Hbelow).
    destruct (is_plain_composite (heap w) data); [| reflexivity].
    apply (source_entries_hframe m); [exact F | intros a; now apply Hbelow].
  - exact Hkeys.
  - exact Hds.
  - rewrite Hrun, E1. eexists. split; [reflexivity |]. cbn [console heap].
    split.
    + rewrite C1, Hcon. unfold record_parts. cbn [truthy context_object].
      rewrite Ho. reflexivity.
    + split; [reflexivity |].
      eapply hframe_trans; [exact F |].
      eapply hframe_weaken; [| split; [apply F1 | apply F1]]. lia.
Qed.

Lemma log_inside_runWithContext_writes_the_context_witness :
  exists w',
    AsyncContext.runWithContext (VRef 0)
      (log (json_logger inspect_blank compact_fields 8 VUndefined (VNum (level_value debug))
              (Some AsyncContext.getLogContext) ConsoleTransport) info "handled" (VRef 1))
      request_record_world
    = (Ok tt, w')
    /\ console w'
       = console request_record_world
           ++ [VStr (record_line "" info "handled"
                       ([member_text "" "context"
                           (object_text "" ""
                              (overlay_object [] [("requestId", VStr "X")]))]
                        ++ [member_text "" "data"
                              (object_text "" "" (overlay_object [] [("userId", VNum 7)]))]))]
    /\ current_context w' = current_context request_record_world
    /\ hframe (length (heap request_record_world)) request_record_world w'.
Proof.
  apply (log_inside_runWithContext_writes_the_context inspect_blank compact_fields 4%nat
           VUndefined (VNum (level_value debug)) ConsoleTransport info "handled" (VRef 1)
           (VRef 0) request_record_world [] [("requestId", VStr "X")] []
           [("userId", VNum 7)]).
  - reflexivity.
  - exact I.
  - simpl. lia.
  - exact I.
  - simpl. lia.
  - reflexivity.
  - reflexivity.
  - reflexivity.
  - reflexivity.
  - reflexivity.
  - cbn. intuition discriminate.
  - repeat constructor.
  - repeat constructor.
Defined.

(** ** Lines *)

Lemma split_on_cons c s : exists line lines, split_on c s = line :: lines.
Proof.
  induction s as [| d s (line & lines & IH)]; simpl; [eauto |].
  destruct (Ascii.eqb d c); [eauto |]. rewrite IH. eauto.
Qed.

Lemma concat_with_cons sep p q rest :
  Text.concat_with sep (p :: q :: rest) = p +:+ sep +:+ Text.concat_with sep (q :: rest).
Proof. reflexivity. Qed.

Lemma append_cons d s t : String d s +:+ t = String d (s +:+ t).
Proof. reflexivity. Qed.

Lemma append_empty t : "" +:+ t = t.
Proof. reflexivity. Qed.

Lemma join_split c s : Text.concat_with (Text.char c) (split_on c s) = s.
Proof.
  induction s as [| d s IH]; [reflexivity |]. simpl.
  destruct (Ascii.eqb_spec d c) as [-> | Hne].
  - destruct (split_on_cons c s) as (line & lines & E). rewrite E in *.
    rewrite concat_with_cons, IH. reflexivity.
  - destruct (split_on_cons c s) as (line & lines & E). rewrite E in *.
    destruct lines as [| l2 lines].
    + cbn [Text.concat_with] in *. now rewrite IH.
    + rewrite concat_with_cons in *. rewrite append_cons. now rewrite IH.
Qed.

Lemma split_on_no_separator c s :
  Forall (fun line => Text.has_char c line = false) (split_on c s).
Proof.
  induction s as [| d s IH]; simpl; [repeat constructor |].
  destruct (Ascii.eqb_spec d c) as [-> | Hne].
  - constructor; [reflexivity | exact IH].
  - destruct (split_on_cons c s) as (line & lines & E). rewrite E in *.
    inversion IH; subst. constructor; [| assumption].
    simpl. destruct (Ascii.eqb_spec c d); [congruence | assumption].
Qed.

Lemma split_on_line c line :
  Text.has_char c line = false -> split_on c line = [line].
Proof.
  induction line as [| d line IH]; [reflexivity |]. simpl. intros H.
  apply orb_false_iff in H as [Hd Hl].
  rewrite Ascii.eqb_sym, Hd, (IH Hl). reflexivity.
Qed.

Lemma split_on_app c line s :
  Text.has_char c line = false ->
  split_on c (line +:+ String c s) = line :: split_on c s.
Proof.
  induction line as [| d line IH]; simpl; intros H.
  - now rewrite Ascii.eqb_refl.
  - apply orb_false_iff in H as [Hd Hl].
    rewrite Ascii.eqb_sym, Hd, (IH Hl). reflexivity.
Qed.

Lemma split_join c lines :
  lines <> [] -> Forall (fun line => Text.has_char c line = false) lines ->
  split_on c (Text.concat_with (Text.char c) lines) = lines.
Proof.
  induction lines as [| line lines IH]; [congruence |]. intros _ H.
  inversion H as [| ? ? Hl Hrest]; subst.
  destruct lines as [| l2 lines]; [now apply split_on_line |].
  rewrite concat_with_cons. unfold Text.char at 1. rewrite append_cons, append_empty.
  rewrite split_on_app by exact Hl. f_equal. apply IH; [discriminate | exact Hrest].
Qed.

Lemma has_char_append c s t :
  Text.has_char c (s +:+ t) = Text.has_char c s || Text.has_char c t.
Proof.
  induction s as [| d s IH]; [reflexivity |]. simpl. now rewrite IH, orb_assoc.
Qed.

Lemma repeat_string_no_char c s n :
  Text.has_char c s = false -> Text.has_char c (Text.repeat_string s n) = false.
Proof.
  intros H. induction n as [| n IH]; [reflexivity |]. simpl.
  now rewrite has_char_append, H, IH.
Qed.

Lemma string_app_length s t : String.length (s +:+ t) = (String.length s + String.length t)%nat.
Proof. induction s as [| d s IH]; simpl; [reflexivity | now rewrite IH]. Qed.

Lemma pad_length times : String.length (Text.repeat_string TAB times) = (4 * times)%nat.
Proof.
  induction times as [| n IH]; [reflexivity |].
  cbn [Text.repeat_string]. rewrite string_app_length, IH. simpl. lia.
Qed.

Lemma pad_one_line times : Text.has_char Text.newline (Text.repeat_string TAB times) = false.
Proof. apply repeat_string_no_char. reflexivity. Qed.

Lemma indent_lines text times :
  split_lines (indent text times)
  = map (fun line => Text.repeat_string TAB times +:+ line) (split_lines text).
Proof.
  unfold indent, split_lines, join_lines. apply split_join.
  - destruct (split_on_cons Text.newline text) as (l & ls & ->). discriminate.
  - pose proof (split_on_no_separator Text.newline text) as H.
    induction H as [| l ls Hl _ IH]; constructor; [| exact IH].
    now rewrite has_char_append, pad_one_line, Hl.
Qed.

Lemma indent_length text times :
  String.length (indent text times)
  = (String.length text + 4 * times * length (split_lines text))%nat.
Proof.
  unfold indent, split_lines, join_lines.
  rewrite <- (join_split Text.newline text) at 2.
  destruct (split_on_cons Text.newline text) as (l & ls & ->).
  revert l. induction ls as [| l2 ls IH]; intros l.
  - simpl. rewrite string_app_length, pad_length. lia.
  - cbn [map]. rewrite !concat_with_cons, !string_app_length.
    cbn [map] in IH. rewrite IH, pad_length. cbn [length Text.char String.length]. lia.
Qed.

Lemma indent_is_not_empty text times : String.eqb (indent text (S times)) "" = false.
Proof.
  apply String.eqb_neq. intros E. apply (f_equal String.length) in E.
  rewrite indent_length in E. unfold split_lines in E.
  destruct (split_on_cons Text.newline text) as (l & ls & El). rewrite El in E.
  cbn [length String.length] in E. lia.
Qed.

Lemma indent_not_empty text : String.eqb (indent text 1) "" = false.
Proof. apply indent_is_not_empty. Qed.

Lemma indent_zero text : indent text 0 = text.
Proof.
  unfold indent. cbn [Text.repeat_string].
  rewrite (map_ext _ (fun line => line)) by reflexivity.
  rewrite map_id. apply join_split.
Qed.

(** X10: [indent] puts [4 * times] blanks before every line of the text
    and keeps the lines otherwise: splitting the result gives the lines of
    the text with the blanks before each, and joining the lines of a text
    gives the text back.  The empty text has one line, so that its
    indentation is the blanks alone.  With [times = 0] the text comes back
    as it is, the empty text included; with [times] above [0] the result
    is never empty. *)
Theorem indent_prefixes_every_line text times :
  split_lines (indent text times)
  = map (fun line => Text.repeat_string TAB times +:+ line) (split_lines text)
  /\ join_lines (split_lines text) = text
  /\ String.length (Text.repeat_string TAB times) = (4 * times)%nat
  /\ Text.has_char Text.newline (Text.repeat_string TAB times) = false
  /\ indent "" times = Text.repeat_string TAB times
  /\ String.length (indent text times)
     = (String.length text + 4 * times * length (split_lines text))%nat
  /\ indent text 0 = text
  /\ String.eqb (indent text (S times)) "" = false.
Proof.
  split; [apply indent_lines |]. split; [apply join_split |].
  split; [apply pad_length |]. split; [apply pad_one_line |].
  split; [| split; [apply indent_length |]; split; [apply indent_zero | apply indent_is_not_empty]].
  unfold indent. cbn [split_lines split_on map join_lines Text.concat_with].
  induction (Text.repeat_string TAB times) as [| c p IH]; [reflexivity |].
  rewrite append_cons. now rewrite IH.
Qed.


(** ** The pretty formatter reads the world only *)

Lemma unchanged_out_of_fuel {A : Type} : unchanged (@out_of_fuel A).
Proof. intros w. reflexivity. Qed.

Lemma unchanged_read_entries v keys : unchanged (read_entries v keys).
Proof.
  induction keys as [| k keys IH]; [apply unchanged_ret |]. cbn [read_entries].
  apply unchanged_bind; [apply unchanged_get_prop |]. intros x.
  apply unchanged_bind; [exact IH | intros; apply unchanged_ret].
Qed.

Lemma unchanged_Object_entries v : unchanged (Object_entries v).
Proof.
  destruct v; simpl; try apply unchanged_ret; try apply unchanged_throw.
  apply unchanged_bind; [apply unchanged_read_obj | intros; apply unchanged_read_entries].
Qed.

Lemma unchanged_map_m {A B : Type} (f : A -> M B) l :
  (forall x, unchanged (f x)) -> unchanged (map_m f l).
Proof.
  intros Hf. induction l as [| x l IH]; [apply unchanged_ret |]. cbn [map_m].
  apply unchanged_bind; [apply Hf |]. intros y.
  apply unchanged_bind; [exact IH | intros; apply unchanged_ret].
Qed.

Section PrettyFacts.

Variable timestamp : string.
Variable inspect_pretty : bool -> list obj -> value -> string.
Variable object_to_string : list obj -> addr -> string + exn.
Variable fields : PrettyLogFormatterFields.

Local Abbreviation colors := (useColors fields).
Local Abbreviation pretty := (PrettyLogFormatter timestamp inspect_pretty object_to_string fields).

Lemma unchanged_to_string v : unchanged (to_string object_to_string v).
Proof.
  destruct v as [| | | | | | | | a]; try apply unchanged_template_string.
  intros w. simpl. now destruct (object_to_string (heap w) a).
Qed.

Lemma unchanged_formatLevel v : unchanged (formatLevel object_to_string fields v).
Proof.
  unfold formatLevel.
  assert (H : unchanged
                (key <- to_string object_to_string v ;;
                 match level_of_key key with
                 | Some l =>
                     let (codes, label) := LOG_LEVEL_FORMATTING l in
                     ret (colorize colors (" " +:+ label +:+ " ") codes)
                 | None =>
                     if has_key key object_prototype || String.eqb key "__proto__" then
                       throw (TypeError "Spread syntax requires ...iterable[Symbol.iterator] to be a function")
                     else
                       throw (TypeError "Cannot destructure property 'codes' of 'LOG_LEVEL_FORMATTING[level]' as it is undefined.")
                 end)).
  { apply unchanged_bind; [apply unchanged_to_string |]. intros key.
    destruct (level_of_key key) as [l |].
    - destruct (LOG_LEVEL_FORMATTING l). apply unchanged_ret.
    - destruct (has_key key object_prototype || String.eqb key "__proto__");
        apply unchanged_throw. }
  destruct v; exact H.
Qed.

Lemma unchanged_formatInspect v : unchanged (formatInspect inspect_pretty fields v).
Proof. intros w. reflexivity. Qed.

Lemma unchanged_formatEntries prefix v :
  unchanged (formatEntries inspect_pretty fields prefix v).
Proof.
  unfold formatEntries. apply unchanged_bind; [apply unchanged_Object_entries |]. intros kvs.
  apply unchanged_bind; [| intros; apply unchanged_ret].
  apply unchanged_map_m. intros kv.
  apply unchanged_bind; [apply unchanged_formatInspect | intros; apply unchanged_ret].
Qed.

Lemma unchanged_formatData v : unchanged (formatData inspect_pretty fields v).
Proof.
  unfold formatData. apply unchanged_bind; [apply unchanged_Array_isArray |]. intros b.
  destruct (b || negb (truthy v) || negb (String.eqb (typeof v) "object")).
  - apply unchanged_bind; [apply unchanged_formatInspect | intros; apply unchanged_ret].
  - apply unchanged_formatEntries.
Qed.

Lemma unchanged_pretty_formatLogData v :
  unchanged (PrettyLogFormatter_formatLogData timestamp inspect_pretty object_to_string fields v).
Proof.
  unfold PrettyLogFormatter_formatLogData.
  apply unchanged_bind; [apply unchanged_get_prop |]. intros level.
  apply unchanged_bind; [apply unchanged_formatLevel |]. intros levelText.
  apply unchanged_bind; [apply unchanged_get_prop |]. intros message.
  apply unchanged_bind; [apply unchanged_to_string |]. intros messageText.
  apply unchanged_bind; [apply unchanged_get_prop |]. intros context.
  apply unchanged_bind.
  { destruct (truthy context); [| apply unchanged_ret].
    apply unchanged_bind; [apply unchanged_formatEntries | intros; apply unchanged_ret]. }
  intros contextPart.
  apply unchanged_bind; [apply unchanged_get_prop |]. intros data.
  apply unchanged_bind; [| intros; apply unchanged_ret].
  destruct (truthy data); [| apply unchanged_ret].
  apply unchanged_bind; [apply unchanged_formatData | intros; apply unchanged_ret].
Qed.

Lemma pretty_formatLogData_framed fuel b v : framed b (formatLogData (pretty fuel) v) any.
Proof.
  apply unchanged_framed. destruct fuel; [apply unchanged_out_of_fuel |].
  apply unchanged_pretty_formatLogData.
Qed.

Lemma pretty_framed fuel : formatter_framed (pretty fuel).
Proof.
  split; [intros; apply pretty_formatLogData_framed |].
  intros b k e. destruct fuel as [| n]; [apply framed_out_of_fuel |].
  cbn [PrettyLogFormatter formatError]. unfold JsonLogFormatter_formatError.
  eapply framed_weaken; [| apply framed_errorToObject; intros; apply pretty_formatLogData_framed].
  intros; exact I.
Qed.

(** *** The text of a record *)

Lemma read_entries_some (a : addr) keys kvs w :
  read_keys (heap_obj (heap w) a) keys = Some kvs ->
  read_entries (VRef a) keys w = (Ok kvs, w).
Proof.
  revert kvs. induction keys as [| k keys IH]; intros kvs H; simpl in H.
  - inversion H. reflexivity.
  - destruct (prop_result k (heap_obj (heap w) a)) as [x |] eqn:Ex; [| discriminate].
    destruct (read_keys (heap_obj (heap w) a) keys) as [xs |]; [| discriminate].
    inversion H; subst. cbn [read_entries].
    erewrite bind_ok by (apply get_prop_ref_some; exact Ex).
    erewrite bind_ok by (apply IH; reflexivity). reflexivity.
Qed.

Lemma Object_entries_some v kvs w :
  truthy v = true -> source_entries (heap w) v = Some kvs ->
  Object_entries v w = (Ok kvs, w).
Proof.
  destruct v as [| | b | n | s | n | d | name call | a]; try discriminate;
    intros _ H; simpl in H; try (inversion H; reflexivity).
  cbn [Object_entries]. erewrite bind_ok by reflexivity. now apply read_entries_some.
Qed.

Lemma map_m_lines prefix kvs w :
  map_m (fun kv : string * value =>
           s <- formatInspect inspect_pretty fields (snd kv) ;;
           ret (colorize colors prefix [ANSI.dim] +:+ fst kv +:+ ": " +:+ s)) kvs w
  = (Ok (entry_lines colors inspect_pretty prefix (heap w) kvs), w).
Proof.
  induction kvs as [| kv kvs IH]; [reflexivity |]. cbn [map_m].
  erewrite bind_ok by (erewrite bind_ok by reflexivity; reflexivity).
  erewrite bind_ok by exact IH. reflexivity.
Qed.

Lemma formatEntries_some prefix v kvs w :
  truthy v = true -> source_entries (heap w) v = Some kvs ->
  formatEntries inspect_pretty fields prefix v w
  = (Ok (entries_text colors inspect_pretty prefix (heap w) kvs), w).
Proof.
  intros Ht Hs. unfold formatEntries.
  erewrite bind_ok by (apply Object_entries_some; eassumption).
  erewrite bind_ok by apply map_m_lines. reflexivity.
Qed.

Lemma formatData_some data text w :
  truthy data = true ->
  data_text colors inspect_pretty (heap w) data = Some text ->
  formatData inspect_pretty fields data w = (Ok text, w).
Proof.
  intros Ht H. unfold formatData, data_text in *.
  unfold Array_isArray. erewrite bind_ok by (erewrite bind_ok by apply kind_of_eq; reflexivity).
  destruct (is_array_kind (value_kind (heap w) data) || negb (truthy data)
            || negb (String.eqb (typeof data) "object")).
  - inversion H; subst. reflexivity.
  - destruct (source_entries (heap w) data) as [kvs |] eqn:Es; [| discriminate].
    inversion H; subst. now apply formatEntries_some.
Qed.

Lemma formatLevel_severity (l : LogLevel) w :
  formatLevel object_to_string fields (VNum (level_value l)) w
  = (Ok (colorize colors (" " +:+ snd (LOG_LEVEL_FORMATTING l) +:+ " ")
           (fst (LOG_LEVEL_FORMATTING l))), w).
Proof. destruct l; reflexivity. Qed.

Lemma pretty_record a (l : LogLevel) message context data context_kvs data_part w :
  prop_result "level" (heap_obj (heap w) a) = Some (VNum (level_value l)) ->
  prop_result "message" (heap_obj (heap w) a) = Some (VStr message) ->
  prop_result "context" (heap_obj (heap w) a) = Some context ->
  prop_result "data" (heap_obj (heap w) a) = Some data ->
  (truthy context = true -> source_entries (heap w) context = Some context_kvs) ->
  (truthy data = true -> data_text colors inspect_pretty (heap w) data = Some data_part) ->
  forall fuel,
    formatLogData (pretty (S fuel)) (VRef a) w
    = (Ok (VStr (join_lines
                   ([first_line colors timestamp l message]
                      ++ (if truthy context
                          then [entries_text colors inspect_pretty "context." (heap w)
                                  context_kvs]
                          else [])
                      ++ (if truthy data then [data_part] else [])))), w).
Proof.
  intros Hl Hm Hc Hd Hck Hdp fuel.
  cbn [PrettyLogFormatter formatLogData]. unfold PrettyLogFormatter_formatLogData.
  erewrite bind_ok by (apply get_prop_ref_some; exact Hl).
  erewrite bind_ok by apply formatLevel_severity.
  erewrite bind_ok by (apply get_prop_ref_some; exact Hm).
  erewrite bind_ok by reflexivity.
  erewrite bind_ok by (apply get_prop_ref_some; exact Hc).
  assert (Hcontext :
            (if truthy context then
               contextStr <- formatContext inspect_pretty fields context ;;
               ret (part contextStr)
             else ret []) w
            = (Ok (if truthy context
                   then [entries_text colors inspect_pretty "context." (heap w) context_kvs]
                   else []), w)).
  { destruct (truthy context) eqn:Et; [| reflexivity].
    unfold formatContext.
    erewrite bind_ok by (apply formatEntries_some; [exact Et | now apply Hck]).
    unfold part, entries_text. now rewrite indent_not_empty. }
  erewrite bind_ok by exact Hcontext.
  erewrite bind_ok by (apply get_prop_ref_some; exact Hd).
  assert (Hdata :
            (if truthy data then
               dataStr <- formatData inspect_pretty fields data ;; ret (part dataStr)
             else ret []) w
            = (Ok (if truthy data then [data_part] else []), w)).
  { destruct (truthy data) eqn:Et; [| reflexivity].
    erewrite bind_ok by (apply formatData_some; [exact Et | now apply Hdp]).
    unfold part. specialize (Hdp eq_refl). unfold data_text in Hdp.
    destruct (is_array_kind (value_kind (heap w) data) || negb (truthy data)
              || negb (String.eqb (typeof data) "object")).
    - inversion Hdp; subst. now rewrite indent_not_empty.
    - destruct (source_entries (heap w) data); inversion Hdp; subst.
      unfold entries_text. now rewrite indent_not_empty. }
  erewrite bind_ok by exact Hdata.
  reflexivity.
Qed.

(** *** What is no record *)

Lemma pretty_formatLogData_no_level v w :
  match v with
  | VRef a => prop_result "level" (heap_obj (heap w) a) = Some VUndefined
  | _ => True
  end ->
  forall fuel, exists message,
    formatLogData (pretty (S fuel)) v w = (Throw (TypeError message), w).
Proof.
  intros H fuel. cbn [PrettyLogFormatter formatLogData].
  unfold PrettyLogFormatter_formatLogData.
  destruct v as [| | b | n | s | n | d | name call | a]; try (eexists; reflexivity).
  erewrite bind_ok by (apply get_prop_ref_some; exact H).
  eexists. reflexivity.
Qed.

Lemma pretty_formatLogData_not_ok v w :
  match v with
  | VRef a => prop_result "level" (heap_obj (heap w) a) = Some VUndefined
  | _ => True
  end ->
  forall fuel x w', formatLogData (pretty fuel) v w <> (Ok x, w').
Proof.
  intros H [| fuel] x w'; [discriminate |].
  destruct (pretty_formatLogData_no_level v w H fuel) as [message E]. rewrite E. discriminate.
Qed.
End PrettyFacts.

(** ** The conversion of an error under a formatter that only allocates *)

Section AnyFormatter.

Variable fmt : LogFormatter.
Hypothesis Hfmt : forall b v, framed b (formatLogData fmt v) any.

(** Every enumerable property that the loop of [errorToObject] copies
    has been rendered by the formatter. *)
Lemma copy_loop_renders (e t : addr) (E : obj) keys : (e < t)%nat -> forall w0 w1,
  copying e t E w0 ->
  for_each (copy_error_property fmt (VRef e) t) keys w0 = (Ok tt, w1) ->
  forall k, In k keys -> obj_has k (heap_obj (heap w0) t) = false ->
    exists vk wa wb text,
      prop_result k E = Some vk /\ formatLogData fmt vk wa = (Ok text, wb).
Proof.
  intros Hlt. induction keys as [| k0 keys IH]; intros w0 w1 Hc H k Hin Habs; [contradiction |].
  cbn [for_each] in H. apply bind_inv_ok in H as ([] & w0' & Hstep & H).
  destruct Hc as (Ht & He & Hk & Hp).
  unfold copy_error_property in Hstep.
  rewrite (bind_ok _ _ _ _ _ (has_property_ref _ _ _)) in Hstep.
  destruct (obj_has k0 (heap_obj (heap w0) t)) eqn:Epresent.
  - inversion Hstep; subst w0'; clear Hstep.
    destruct Hin as [-> | Hin]; [congruence |].
    exact (IH w0 w1 (conj Ht (conj He (conj Hk Hp))) H k Hin Habs).
  - apply bind_inv_ok in Hstep as (vk & wx & Hget & Hstep).
    apply get_prop_ref_inv in Hget as [-> Hget]. rewrite He in Hget.
    destruct (prop_result k0 E) as [vk' |] eqn:Evk;
      [inversion Hget; subst vk' | destruct Hget as [x Hx]; discriminate].
    apply bind_inv_ok in Hstep as (text & wa & Hformat & Hstep).
    destruct (String.eqb_spec k k0) as [-> | Hne]; [exists vk, w0, wa, text; now split |].
    destruct Hin as [-> | Hin]; [congruence |].
    rewrite set_prop_eq in Hstep. inversion Hstep; subst w0'; clear Hstep.
    destruct (Hfmt (length (heap w0)) vk w0 _ _ (le_n _) Hformat) as [[Fa _] _].
    assert (Ta : heap_obj (heap wa) t = heap_obj (heap w0) t)
      by (apply (hframe_heap_obj _ _ _ _ Fa); exact Ht).
    assert (Ea : heap_obj (heap wa) e = E)
      by (rewrite (hframe_heap_obj _ _ _ e Fa) by lia; exact He).
    assert (La : (t < length (heap wa))%nat) by (destruct Fa; lia).
    rewrite Ta in H.
    apply (IH _ w1) with (k := k) in H; [exact H | | exact Hin |].
    + split; [unfold update_obj; simpl; now rewrite length_insert |].
      split; [unfold update_obj; simpl; rewrite heap_obj_insert_ne by lia; exact Ea |].
      unfold update_obj. simpl. rewrite heap_obj_insert_eq by exact La. now split.
    + unfold update_obj. simpl. rewrite heap_obj_insert_eq by exact La.
      assert (Hk2 : o_kind (obj_set k0 text (heap_obj (heap w0) t)) = KObject) by exact Hk.
      assert (Hp2 : o_proto (obj_set k0 text (heap_obj (heap w0) t)) = []) by exact Hp.
      rewrite (obj_has_ordinary _ _ Hk2 Hp2), has_key_obj_set.
      rewrite (obj_has_ordinary _ _ Hk Hp) in Habs.
      destruct (String.eqb_spec k k0); [contradiction | exact Habs].
Qed.

(** A conversion that returns has rendered the enumerable properties
    beyond the three fields and the truthy cause that is no error. *)
Lemma errorToObject_renders n (e : addr) w v w' :
  (e < length (heap w))%nat ->
  errorToObject (S n) (VRef e) fmt w = (Ok v, w') ->
  (exposes_toJSON (heap_obj (heap w) e) = false ->
   forall k, In k (for_in_keys (heap_obj (heap w) e)) ->
     ~ In k base_keys -> ~ In k object_prototype_keys ->
     exists vk wa wb text,
       prop_result k (heap_obj (heap w) e) = Some vk
       /\ formatLogData fmt vk wa = (Ok text, wb))
  /\ (forall c, prop_result "cause" (heap_obj (heap w) e) = Some c ->
        truthy c = true -> (forall a, c <> VRef a) ->
        exists wa wb text, formatLogData fmt c wa = (Ok text, wb)).
Proof.
  intros He Hrun.
  destruct (errorToObject_base n e fmt w v w' He Hrun)
    as (vn & vm & vs & wA & wB & En & Em & Es & EwA & HB & HC & ->).
  set (E := heap_obj (heap w) e) in *. set (t := length (heap w)) in *.
  destruct (error_base_fields vn vm vs) as (Bk & Bp & _ & _ & _ & Bkeys).
  assert (TA : heap_obj (heap wA) t = error_base vn vm vs)
    by (subst wA; simpl; apply heap_obj_app_new).
  assert (EA : heap_obj (heap wA) e = E) by (subst wA; simpl; now apply heap_obj_app_old).
  assert (HcA : copying e t E wA).
  { split; [subst wA; simpl; rewrite length_app; simpl; unfold t; lia |].
    split; [exact EA |]. rewrite TA. now split. }
  split.
  - intros Hexp k Hin Hnb Hnp.
    pose proof (error_properties_loop fmt e t wA wB) as Hloop.
    rewrite EA in Hloop. specialize (Hloop Hexp HB).
    apply (copy_loop_renders e t E _ He wA wB HcA Hloop k Hin).
    rewrite TA, (obj_has_ordinary _ _ Bk Bp), Bkeys.
    fold base_keys.
    now rewrite (existsb_eqb_not_In _ _ Hnb), (existsb_eqb_not_In _ _ Hnp).
  - intros c Hc Htruthy Hnoref.
    assert (FB : framed t (error_properties_step fmt (VRef e) t) any).
    { unfold error_properties_step.
      eapply framed_bind; [apply unchanged_framed, unchanged_has_property |]. intros h _.
      eapply framed_bind.
      { destruct h; [apply unchanged_framed, unchanged_get_prop | apply framed_ret; exact I]. }
      intros f _. destruct (h && String.eqb (typeof f) "function").
      - eapply framed_bind; [apply unchanged_framed, unchanged_get_prop |]. intros m _.
        eapply framed_bind; [apply unchanged_framed, unchanged_call_function |]. intros j _.
        apply framed_object_assign. apply le_n.
      - eapply framed_bind; [apply unchanged_framed, unchanged_read_obj |]. intros o _.
        apply framed_for_each. intros k. unfold copy_error_property.
        eapply framed_bind; [apply unchanged_framed, unchanged_has_property |]. intros p _.
        destruct p; [apply framed_ret; exact I |].
        eapply framed_bind; [apply unchanged_framed, unchanged_get_prop |]. intros x _.
        eapply framed_bind; [apply Hfmt |]. intros s _.
        apply framed_set_prop. apply le_n. }
    destruct (FB wA _ _ (Nat.lt_le_incl _ _ (proj1 HcA)) HB) as [[FAB _] _].
    assert (EB : heap_obj (heap wB) e = E)
      by (rewrite (hframe_heap_obj _ _ _ e FAB He); exact EA).
    destruct (error_cause_step_inv _ _ _ _ _ _ HC) as (c' & Ec & Hcase).
    rewrite EB in Ec. assert (c' = c) by congruence. subst c'.
    rewrite Htruthy in Hcase.
    assert (Hne : is_error (heap wB) c = false)
      by (destruct c as [| | | | | | | | a]; try reflexivity; now contradiction (Hnoref a)).
    rewrite Hne in Hcase. destruct Hcase as (w2 & text & Hformat & _).
    now exists wB, w2, text.
Qed.
End AnyFormatter.

(** A call whose data is an error that the formatter cannot convert
    assembles no record. *)
Lemma getLogData_conversion_fails this level message (e : addr) sc fmt w v w' :
  accessor_reads (getLogContext (config this)) ->
  (e < length (heap w))%nat ->
  is_error (heap w) (VRef e) = true ->
  (forall w3 x w4, hframe (length (heap w)) w w3 ->
     formatError fmt "" (VRef e) w3 <> (Ok x, w4)) ->
  getLogData this level message (VRef e) sc fmt w <> (Ok v, w').
Proof.
  intros Hacc He Herr Hfail H. unfold getLogData in H.
  erewrite bind_ok in H by apply alloc_eq.
  set (b := length (heap w)) in *.
  set (w1 := push_obj w (plain [("level", VNum (level_value level)); ("message", VStr message)]))
    in *.
  assert (F1 : hframe b w w1).
  { split; [unfold w1, push_obj; simpl; rewrite length_app; lia |].
    intros a Ha. unfold w1, push_obj. simpl. now apply lookup_app_l. }
  assert (L1 : (b < length (heap w1))%nat)
    by (unfold w1, push_obj; simpl; rewrite length_app; simpl; unfold b; lia).
  clearbody w1.
  apply bind_inv_ok in H as (c & w1' & Hc & H).
  assert (w1' = w1).
  { destruct (getLogContext (config this)) as [m |]; [| now inversion Hc].
    destruct (Hacc w1) as [x Hx]. rewrite Hx in Hc. now inversion Hc. }
  subst w1'. clear Hc.
  apply bind_inv_ok in H as ([] & w2 & H2 & H).
  assert (F2 : hframe b w w2 /\ (b < length (heap w2))%nat).
  { destruct (truthy c); cbn [when_] in H2; [| inversion H2; subst; now split].
    rewrite set_prop_eq in H2. inversion H2; subst w2; clear H2. split.
    - eapply hframe_trans; [exact F1 |].
      split; [unfold update_obj; simpl; rewrite length_insert; lia |].
      intros a Ha. unfold update_obj. simpl. apply list_lookup_insert_ne. lia.
    - unfold update_obj. simpl. now rewrite length_insert. }
  destruct F2 as [F2 L2]. clear H2.
  apply bind_inv_ok in H as ([] & w5 & H5 & _).
  cbn [truthy orb when_] in H5.
  erewrite bind_ok in H5 by apply alloc_eq.
  set (d := length (heap w2)) in *.
  apply bind_inv_ok in H5 as ([] & w3 & H3 & H5).
  assert (F3 : hframe b w w3).
  { assert (Fd : framed b (object_spread d sc) any)
      by (apply framed_object_spread; unfold d; lia).
    destruct (Fd (push_obj w2 empty_obj) _ _
                ltac:(unfold push_obj; simpl; rewrite length_app; lia) H3) as [[F _] _].
    eapply hframe_trans; [exact F2 |]. eapply hframe_trans; [| exact F].
    split; [unfold push_obj; simpl; rewrite length_app; lia |].
    intros a Ha. unfold push_obj. simpl. apply lookup_app_l. lia. }
  erewrite bind_ok in H5 by apply instanceof_Error_eq.
  assert (Herr3 : is_error (heap w3) (VRef e) = true).
  { unfold is_error, value_kind in *. now rewrite (hframe_heap_obj _ _ _ e F3 He). }
  rewrite Herr3 in H5.
  apply bind_inv_ok in H5 as ([] & w6 & H6 & _).
  apply bind_inv_ok in H6 as (x & w4 & H4 & _).
  exact (Hfail w3 x w4 F3 H4).
Qed.

(** X11: the pretty formatter renders a record.  For an object whose
    [level] is the number of a severity and whose [message] is a string,
    [formatLogData] returns, leaving the world as it is, the first line
    (the time, the label of the severity between blanks, the message),
    then, for a truthy [context], its entries under [context.], and, for
    truthy [data], its inspection or its entries under [data.], each part
    indented by four blanks.  A part is never empty, so that the guards on
    the parts never skip one: an empty context gives a line of four
    blanks. *)
Theorem pretty_record_text :
  (forall timestamp inspect_pretty object_to_string fields (a : addr) (l : LogLevel)
          message context data context_kvs data_part w fuel,
      prop_result "level" (heap_obj (heap w) a) = Some (VNum (level_value l)) ->
      prop_result "message" (heap_obj (heap w) a) = Some (VStr message) ->
      prop_result "context" (heap_obj (heap w) a) = Some context ->
      prop_result "data" (heap_obj (heap w) a) = Some data ->
      (truthy context = true -> source_entries (heap w) context = Some context_kvs) ->
      (truthy data = true ->
       data_text (useColors fields) inspect_pretty (heap w) data = Some data_part) ->
      formatLogData (PrettyLogFormatter timestamp inspect_pretty object_to_string fields (S fuel))
        (VRef a) w
      = (Ok (VStr (join_lines
                     ([first_line (useColors fields) timestamp l message]
                        ++ (if truthy context
                            then [entries_text (useColors fields) inspect_pretty "context."
                                    (heap w) context_kvs]
                            else [])
                        ++ (if truthy data then [data_part] else [])))), w))
  /\ (forall colors inspect_pretty prefix h kvs,
         part (entries_text colors inspect_pretty prefix h kvs)
         = [entries_text colors inspect_pretty prefix h kvs])
  /\ formatLogData pretty_formatter (VRef 0) empty_context_world
     = (Ok (VStr ("2026-01-01T00:00:00.000Z" +:+ " " +:+ "  INFO  " +:+ " " +:+ "hello"
                    +:+ Text.char Text.newline +:+ "    ")), empty_context_world).
Proof.
  split; [| split].
  - intros. now apply pretty_record.
  - intros. unfold part, entries_text. now rewrite indent_not_empty.
  - vm_compute. reflexivity.
Qed.

Lemma pretty_record_text_witness :
  formatLogData pretty_formatter (VRef 0) empty_context_world
  = (Ok (VStr (join_lines
                 ([first_line false "2026-01-01T00:00:00.000Z" info "hello"]
                    ++ [entries_text false inspect_pretty_blank "context."
                          (heap empty_context_world) []]
                    ++ []))), empty_context_world).
Proof.
  destruct pretty_record_text as [H _].
  apply (H "2026-01-01T00:00:00.000Z" inspect_pretty_blank object_to_string_default
           plain_pretty_fields 0%nat info "hello" (VRef 1) VUndefined [] ""
           empty_context_world 7%nat).
  - reflexivity.
  - reflexivity.
  - reflexivity.
  - reflexivity.
  - reflexivity.
  - discriminate.
Defined.

(** X12: the pretty formatter takes what it is given for a record.  On a
    value that is no object, or on an object without [level], its
    [formatLogData] raises a [TypeError] and changes nothing: the table of
    the severities has no entry to destructure. *)
Theorem pretty_formatLogData_needs_a_record
  timestamp inspect_pretty object_to_string fields fuel v w :
  match v with
  | VRef a => prop_result "level" (heap_obj (heap w) a) = Some VUndefined
  | _ => True
  end ->
  exists message,
    formatLogData (PrettyLogFormatter timestamp inspect_pretty object_to_string fields (S fuel)) v w
    = (Throw (TypeError message), w).
Proof. intros H. now apply pretty_formatLogData_no_level. Qed.

Lemma pretty_formatLogData_needs_a_record_witness :
  exists message,
    formatLogData pretty_formatter (VStr "E_CUSTOM") custom_error_world
    = (Throw (TypeError message), custom_error_world).
Proof.
  apply (pretty_formatLogData_needs_a_record "2026-01-01T00:00:00.000Z" inspect_pretty_blank
           object_to_string_default plain_pretty_fields 7%nat (VStr "E_CUSTOM")
           custom_error_world).
  exact I.
Defined.

(** X13: [errorToObject] hands every enumerable property of the error
    beyond [name], [message] and [stack] whose key is no key of
    [Object.prototype] (its methods and [__proto__], which are [in] the
    mapping already), and a truthy cause that is no error, to
    [formatLogData] of the formatter it is given.  With the
    pretty formatter, whose [formatLogData] expects a record, the
    conversion of an error that has such a property or cause holding a
    value that is no object does not return; a log call with that error
    as data then does not return either, and writes nothing.  For
    [class CustomError extends Error { code = "E_CUSTOM" }] the call
    raises a [TypeError]. *)
Theorem pretty_formatter_cannot_convert_custom_errors :
  (forall timestamp inspect_pretty object_to_string fields fuel n (e : addr) k v w r w',
      (e < length (heap w))%nat ->
      exposes_toJSON (heap_obj (heap w) e) = false ->
      In k (for_in_keys (heap_obj (heap w) e)) ->
      ~ In k base_keys -> ~ In k object_prototype_keys ->
      prop_result k (heap_obj (heap w) e) = Some v ->
      (forall a, v <> VRef a) ->
      errorToObject n (VRef e)
        (PrettyLogFormatter timestamp inspect_pretty object_to_string fields fuel) w = (r, w') ->
      forall x, r <> Ok x)
  /\ (forall timestamp inspect_pretty object_to_string fields fuel n (e : addr) c w r w',
         (e < length (heap w))%nat ->
         prop_result "cause" (heap_obj (heap w) e) = Some c ->
         truthy c = true -> (forall a, c <> VRef a) ->
         errorToObject n (VRef e)
           (PrettyLogFormatter timestamp inspect_pretty object_to_string fields fuel) w = (r, w') ->
         forall x, r <> Ok x)
  /\ (forall timestamp inspect_pretty object_to_string fields fuel sc th accessor tr
             (level : LogLevel) message (e : addr) k v w r w',
         accessor_reads accessor ->
         (e < length (heap w))%nat ->
         is_error (heap w) (VRef e) = true ->
         exposes_toJSON (heap_obj (heap w) e) = false ->
         In k (for_in_keys (heap_obj (heap w) e)) ->
         ~ In k base_keys -> ~ In k object_prototype_keys ->
         prop_result k (heap_obj (heap w) e) = Some v ->
         (forall a, v <> VRef a) ->
         js_lt (level_value level) th = false ->
         log (pretty_logger
                (PrettyLogFormatter timestamp inspect_pretty object_to_string fields fuel)
                sc th accessor tr) level message (VRef e) w = (r, w') ->
         r <> Ok tt /\ console w' = console w)
  /\ (exists text,
         fst (log (pretty_logger pretty_formatter VUndefined (VNum (level_value debug)) None
                     ConsoleTransport) error "failed" (VRef 0) custom_error_world)
         = Throw (TypeError text)).
Proof.
  assert (Hprop : forall timestamp inspect_pretty object_to_string fields fuel n (e : addr) k v w r w',
             (e < length (heap w))%nat ->
             exposes_toJSON (heap_obj (heap w) e) = false ->
             In k (for_in_keys (heap_obj (heap w) e)) ->
             ~ In k base_keys -> ~ In k object_prototype_keys ->
             prop_result k (heap_obj (heap w) e) = Some v ->
             (forall a, v <> VRef a) ->
             errorToObject n (VRef e)
               (PrettyLogFormatter timestamp inspect_pretty object_to_string fields fuel) w = (r, w') ->
             forall x, r <> Ok x).
  { intros timestamp inspect_pretty object_to_string fields fuel n e k v w r w'
      He Hexp Hin Hnb Hnp Hv Hnoref H x ->.
    destruct n as [| n]; [discriminate |].
    destruct (errorToObject_renders _ (pretty_formatLogData_framed timestamp inspect_pretty
                                         object_to_string fields fuel) n e w x w' He H)
      as [Hk _].
    destruct (Hk Hexp k Hin Hnb Hnp) as (vk & wa & wb & text & Evk & Hformat).
    assert (vk = v) by congruence. subst vk.
    apply (pretty_formatLogData_not_ok timestamp inspect_pretty object_to_string fields v wa)
      in Hformat; [exact Hformat |].
    destruct v; try exact I. now contradiction (Hnoref a). }
  split; [exact Hprop |]. split.
  - intros timestamp inspect_pretty object_to_string fields fuel n e c w r w'
      He Hc Htruthy Hnoref H x ->.
    destruct n as [| n]; [discriminate |].
    destruct (errorToObject_renders _ (pretty_formatLogData_framed timestamp inspect_pretty
                                         object_to_string fields fuel) n e w x w' He H)
      as [_ Hcause].
    destruct (Hcause c Hc Htruthy Hnoref) as (wa & wb & text & Hformat).
    apply (pretty_formatLogData_not_ok timestamp inspect_pretty object_to_string fields c wa)
      in Hformat; [exact Hformat |].
    destruct c; try exact I. now contradiction (Hnoref a).
  - split; [| eexists; vm_compute; reflexivity].
    intros timestamp inspect_pretty object_to_string fields fuel sc th accessor tr level message
      e k v w r w' Hacc He Herr Hexp Hin Hnb Hnp Hv Hnoref Hth H.
    unfold log, pretty_logger in H. cbn [config logLevel scope formatter] in H.
    rewrite Hth in H.
    set (fmt := PrettyLogFormatter timestamp inspect_pretty object_to_string fields fuel) in *.
    set (this := mkLogger (mkLoggerConfig sc th fmt tr accessor)) in *.
    assert (FG : framed (length (heap w)) (getLogData this level message (VRef e) sc fmt) any)
      by (apply framed_getLogData; [apply pretty_framed | exact Hacc]).
    assert (Hno : forall x w1, getLogData this level message (VRef e) sc fmt w <> (Ok x, w1)).
    { intros x w1. apply getLogData_conversion_fails; [exact Hacc | exact He | exact Herr |].
      intros w3 y w4 F3 Hy. unfold fmt in Hy. destruct fuel as [| fuel]; [discriminate |].
      cbn [PrettyLogFormatter formatError] in Hy. unfold JsonLogFormatter_formatError in Hy.
      assert (E3 : heap_obj (heap w3) e = heap_obj (heap w) e)
        by exact (hframe_heap_obj _ _ _ e F3 He).
      refine (Hprop timestamp inspect_pretty object_to_string fields fuel fuel e k v w3 (Ok y) w4
                _ _ _ Hnb Hnp _ Hnoref Hy y eq_refl).
      - destruct F3; lia.
      - now rewrite E3.
      - now rewrite E3.
      - now rewrite E3. }
    apply bind_inv in H as [(x & w1 & H1 & _) | [(ex & H1 & ->) | (H1 & ->)]].
    + exfalso. exact (Hno x w1 H1).
    + destruct (FG w _ _ (le_n _) H1) as [[_ [C _]] _]. split; [discriminate | exact C].
    + destruct (FG w _ _ (le_n _) H1) as [[_ [C _]] _]. split; [discriminate | exact C].
Qed.

Lemma pretty_formatter_cannot_convert_custom_errors_witness :
  fst (log (pretty_logger pretty_formatter VUndefined (VNum (level_value debug)) None
              ConsoleTransport) error "failed" (VRef 0) custom_error_world) <> Ok tt
  /\ console (snd (log (pretty_logger pretty_formatter VUndefined (VNum (level_value debug))
                          None ConsoleTransport) error "failed" (VRef 0) custom_error_world))
     = console custom_error_world.
Proof.
  destruct pretty_formatter_cannot_convert_custom_errors as (_ & _ & H & _).
  apply (H "2026-01-01T00:00:00.000Z" inspect_pretty_blank object_to_string_default
           plain_pretty_fields 8%nat VUndefined (VNum (level_value debug)) None ConsoleTransport
           error "failed" 0%nat "code" (VStr "E_CUSTOM") custom_error_world).
  - exact I.
  - simpl. lia.
  - reflexivity.
  - reflexivity.
  - vm_compute. left. reflexivity.
  - vm_compute. intuition discriminate.
  - vm_compute. intuition discriminate.
  - reflexivity.
  - discriminate.
  - reflexivity.
  - apply surjective_pairing.
Defined.

(** ** C2: severity filtering *)




(** ** C5: scope first, call-site data second *)


Lemma record_without_data level message ctx d :
  has_key "data" (o_own (record_of level message ctx false d)) = false.
Proof. unfold record_of, record_with_context. now destruct (truthy ctx). Qed.



(** ** C8: the text of a record *)

(** The record of scalars that [getLogData] assembles, and its text. *)
Lemma scalar_record_formats
  inspect fields fuel this (v : LogLevel) message data sc w c scope_kvs src_kvs :
  context_value (getLogContext (config this)) (push_obj w (record_base v message)) c ->
  scalar_context (heap w) c ->
  valid_value (heap w) sc -> valid_value (heap w) data ->
  is_error (heap w) data = false ->
  source_entries (heap w) sc = Some scope_kvs ->
  data_entries (heap w) data = Some src_kvs ->
  ~ In "__proto__" (keys_of src_kvs) ->
  Forall (fun kv : string * value => is_scalar (snd kv) = true) (scope_kvs ++ src_kvs) ->
  let gap := gap_of_space (jsonStringifySpace fields) in
  exists w1,
    getLogData this v message data sc (JsonLogFormatter inspect fields (S (S (S (S fuel))))) w
    = (Ok (VRef (length (heap w))), w1)
    /\ formatLogData (JsonLogFormatter inspect fields (S (S (S (S fuel)))))
         (VRef (length (heap w))) w1
       = (Ok (VStr (record_line gap v message
                      (record_parts gap (heap w) c (truthy data || truthy sc)
                         (overlay_object scope_kvs src_kvs)))), w1).
Proof.
  intros Hctx Hsctx Hvs Hvd Herr Hsc Hsrc Hkeys Hscalar gap.
  destruct (getLogData_plain this v message data sc
              (JsonLogFormatter inspect fields (S (S (S (S fuel)))))
              w c scope_kvs src_kvs Hctx Hvs Hvd Herr Hsc Hsrc Hkeys)
    as (w1 & E1 & F1 & _ & L1 & HR & Hyes).
  exists w1. split; [exact E1 |].
  assert (Hs : scalar_object (overlay_object scope_kvs src_kvs)).
  { apply Forall_app in Hscalar as [H1 H2]. unfold overlay_object.
    apply scalar_object_assign; [exact H2 |].
    apply scalar_object_assign; [exact H1 | apply scalar_object_empty]. }
  assert (Hco : context_object (heap w1) c = context_object (heap w) c).
  { destruct (truthy c) eqn:Hc.
    - destruct (Hsctx Hc) as [(m & -> & Hm) _].
      apply (context_object_hframe (length (heap w))); [exact F1 |].
      intros a E. inversion E. now subst.
    - destruct c; try reflexivity. discriminate. }
  rewrite (scalar_record_text inspect fields fuel v message c (truthy data || truthy sc)
             (length (heap w)) w1 (overlay_object scope_kvs src_kvs) L1 HR).
  - unfold record_parts. now rewrite Hco.
  - intros Hc. destruct (Hsctx Hc) as [(m & E & Hm) Hso]. split.
    + exists m. split; [exact E | lia].
    + now rewrite Hco.
  - intros E. split; [apply (Hyes E) | exact Hs].
Qed.

(** C8 as stated fails: the keys are to appear in the order [level],
    [message], [data], [context].  [getLogData] sets [context] before
    [data], and [JSON.stringify] keeps the order of creation: with a
    context and call-site data the text has [context] first. *)
Lemma context_precedes_data :
  let (r, w') := Logger_info context_logger "hello" (VRef 1) context_running in
  r = Ok tt
  /\ console w' = [VStr context_first_text]
  /\ context_first_text <> data_first_text.
Proof. vm_compute. repeat split; discriminate. Qed.

(** C8 (amended): when the structural walk of an assembled record
    returns, [formatLogData] returns its text, a JSON object whose members
    are [level] (the number of the severity), [message], then [context],
    then [data].  [context] is there exactly when the accessor gave a
    truthy value, and [data] exactly when the call-site data is truthy or
    a scope is set, unless the walk leaves the value out (a symbol, a
    function, or an object whose [toJSON] returns one).  The indent is two
    blanks unless the formatter is compact; a compact text has no line
    break.  On a record of scalars the walk returns, and the text is the
    line of the record. *)
Theorem record_format :
  (forall inspect options fuel this level message data sc w v w1 text w2,
      let fields := JsonLogFormatter_constructor options in
      let gap := gap_of_space (jsonStringifySpace fields) in
      accessor_reads (getLogContext (config this)) ->
      valid_value (heap w) sc -> valid_value (heap w) data ->
      getLogData this level message data sc (JsonLogFormatter inspect fields (S fuel)) w
      = (Ok v, w1) ->
      JSON_stringify fuel v (jsonReplacer (JsonLogFormatter inspect fields fuel))
        (jsonStringifySpace fields) w1 = (Ok text, w2) ->
      formatLogData (JsonLogFormatter inspect fields (S fuel)) v w1 = (Ok text, w2)
      /\ gap = (if compact fields then "" else two_blanks)
      /\ (exists ctx context_part data_part,
            context_of (getLogContext (config this)) (push_obj w (record_base level message))
            = Ok ctx
            /\ text = VStr (assemble "{" "}" gap "" gap
                              ([member_text gap "level" (Text.decimal (level_value level));
                                member_text gap "message" (Text.quote message)]
                                 ++ context_part ++ data_part))
            /\ (context_part = [] \/ exists t, context_part = [member_text gap "context" t])
            /\ (data_part = [] \/ exists t, data_part = [member_text gap "data" t])
            /\ (context_part = [] <-> truthy ctx = false \/ left_out (heap w1) ctx = true)
            /\ (data_part = []
                <-> truthy data || truthy sc = false
                    \/ left_out (heap w1) (VRef (S (length (heap w)))) = true))
      /\ (compact fields = true -> forall s, text = VStr s -> single_line s))
  /\ (forall inspect options fuel this (level : LogLevel) message data sc w c
             scope_kvs src_kvs,
         let fields := JsonLogFormatter_constructor options in
         let gap := gap_of_space (jsonStringifySpace fields) in
         context_value (getLogContext (config this)) (push_obj w (record_base level message)) c ->
         scalar_context (heap w) c ->
         valid_value (heap w) sc -> valid_value (heap w) data ->
         is_error (heap w) data = false ->
         source_entries (heap w) sc = Some scope_kvs ->
         data_entries (heap w) data = Some src_kvs ->
         ~ In "__proto__" (keys_of src_kvs) ->
         Forall (fun kv : string * value => is_scalar (snd kv) = true) (scope_kvs ++ src_kvs) ->
         exists w1,
           getLogData this level message data sc
             (JsonLogFormatter inspect fields (S (S (S (S fuel))))) w
           = (Ok (VRef (length (heap w))), w1)
           /\ formatLogData (JsonLogFormatter inspect fields (S (S (S (S fuel)))))
                (VRef (length (heap w))) w1
              = (Ok (VStr (record_line gap level message
                             (record_parts gap (heap w) c (truthy data || truthy sc)
                                (overlay_object scope_kvs src_kvs)))), w1)).
Proof.
  split.
  - intros inspect options fuel this level message data sc w v w1 text w2 fields gap
      Hacc Hsc Hdata Hget Hjson.
    destruct (record_text inspect options fuel this level message data sc w v w1 text w2
                Hacc Hsc Hdata Hget Hjson) as (Hfmt & Hgap & Hshape).
    split; [exact Hfmt |]. split; [exact Hgap |]. split; [exact Hshape |].
    intros Hcompact s ->. subst fields gap.
    rewrite Hcompact in Hgap. unfold JSON_stringify in Hjson. rewrite Hgap in Hjson.
    apply bind_inv_ok in Hjson as (r0 & w3 & Hwalk & Hjson).
    destruct r0 as [s0 |]; inversion Hjson; subst.
    eapply serialize_single_line. exact Hwalk.
  - intros inspect options fuel this level message data sc w c scope_kvs src_kvs fields gap
      Hctx Hsctx Hvs Hvd Herr Hsc Hsrc Hkeys Hscalar.
    exact (scalar_record_formats inspect fields fuel this level message data sc w c
             scope_kvs src_kvs Hctx Hsctx Hvs Hvd Herr Hsc Hsrc Hkeys Hscalar).
Qed.

Lemma record_format_witness :
  let w1 := snd (getLogData context_logger info "hello" (VRef 1) VUndefined default_formatter
                   context_running) in
  formatLogData default_formatter (VRef 2) w1 = (Ok (VStr context_first_text), w1)
  /\ exists context_part data_part,
       VStr context_first_text
       = VStr (assemble "{" "}" two_blanks "" two_blanks
                 ([member_text two_blanks "level" (Text.decimal (level_value info));
                   member_text two_blanks "message" (Text.quote "hello")]
                    ++ context_part ++ data_part))
       /\ (exists t, context_part = [member_text two_blanks "context" t])
       /\ (exists t, data_part = [member_text two_blanks "data" t]).
Proof.
  intros w1. destruct record_format as [H _].
  destruct (H inspect_blank (mkJsonLogFormatterOptions None) 7%nat context_logger info "hello"
              (VRef 1) VUndefined context_running (VRef 2) w1 (VStr context_first_text) w1)
    as (Hfmt & _ & (ctx & context_part & data_part & Hctx & Htext & S3 & S4 & P3 & P4) & _).
  - intros w. eexists. apply getLogContext_eq.
  - exact I.
  - simpl. lia.
  - vm_compute. reflexivity.
  - vm_compute. reflexivity.
  - split; [exact Hfmt |]. exists context_part, data_part. split; [exact Htext |].
    vm_compute in Hctx. inversion Hctx; subst ctx.
    split.
    + destruct S3 as [E | E]; [| exact E].
      apply P3 in E. vm_compute in E. destruct E; discriminate.
    + destruct S4 as [E | E]; [| exact E].
      apply P4 in E. vm_compute in E. destruct E; discriminate.
Defined.

(** ** C9: [undefined] in JSON output *)

(** C9 as stated fails: every object with a key that holds [undefined]
    is to have that key rendered as the sentinel.  An error is converted
    by [errorToObject], which renders each enumerable property with
    [formatLogData]: [undefined] goes through the template literal and
    comes out as the text [undefined], without the sentinel. *)
Lemma undefined_property_of_an_error :
  let (r, w') := formatLogData compact_formatter (VRef 0) undefined_detail_world in
  In "detail" (own_enumerable_keys (heap_obj (heap undefined_detail_world) 0))
  /\ prop_result "detail" (heap_obj (heap undefined_detail_world) 0) = Some VUndefined
  /\ r = Ok (VStr undefined_detail_line)
  /\ undefined_detail_line
     = "{" +:+ q "name" +:+ ":" +:+ q "Error" +:+ "," +:+ q "message" +:+ ":" +:+ q "failed"
         +:+ "," +:+ q "stack" +:+ ":" +:+ q "Error: failed" +:+ ","
         +:+ member_text "" "detail" (Text.quote "undefined") +:+ "}"
  /\ Text.quote "undefined" <> Text.quote sentinel.
Proof. vm_compute. repeat split; try reflexivity; [now left | discriminate]. Qed.

(** The text of an object of scalars. *)
Lemma formatLogData_scalar_object inspect fields fuel (a : addr) w :
  scalar_object (heap_obj (heap w) a) ->
  formatLogData (JsonLogFormatter inspect fields (S (S (S fuel)))) (VRef a) w
  = (Ok (VStr (object_text (gap_of_space (jsonStringifySpace fields)) ""
                 (heap_obj (heap w) a))), w).
Proof.
  intros Ho. cbn [JsonLogFormatter formatLogData]. unfold JsonLogFormatter_formatLogData.
  cbn [typeof String.eqb Ascii.eqb Bool.eqb negb]. unfold try_catch, JSON_stringify.
  erewrite bind_ok by (apply scalar_object_walk; [exact Ho | reflexivity]).
  reflexivity.
Qed.

(** C9 (amended): the replacer turns [undefined] into the sentinel
    string, so the serializer renders a property holding [undefined] as a
    member with that string instead of leaving the key out, and
    differently from [null].  For an ordinary object without [toJSON]
    whose enumerable key [k] yields [undefined], the text of the object,
    when the walk returns, contains the member for [k] with the sentinel;
    for an object of scalars the walk returns and [formatLogData] gives
    that text.  [{defined: "value", notDefined: undefined}] is the
    example. *)
Theorem undefined_is_rendered_as_sentinel :
  (forall self key w, jsonReplacer self key VUndefined w = (Ok (VStr sentinel), w))
  /\ (forall self fuel gap stack indent key w,
         SerializeJSONProperty (S fuel) (jsonReplacer self) gap stack indent key VUndefined w
         = (Ok (Some (Text.quote sentinel)), w))
  /\ (forall self fuel gap stack indent key w,
         SerializeJSONProperty (S fuel) (jsonReplacer self) gap stack indent key VNull w
         = (Ok (Some "null"), w))
  /\ (forall inspect fields ffuel fuel gap stack indent key (a : addr) k w s w',
         (a < length (heap w))%nat ->
         o_kind (heap_obj (heap w) a) = KObject ->
         find_prop "toJSON" (heap_obj (heap w) a) = None ->
         In k (own_enumerable_keys (heap_obj (heap w) a)) ->
         prop_result k (heap_obj (heap w) a) = Some VUndefined ->
         SerializeJSONProperty (S (S fuel)) (jsonReplacer (JsonLogFormatter inspect fields ffuel))
           gap stack indent key (VRef a) w = (Ok (Some s), w') ->
         exists partial,
           s = assemble "{" "}" gap indent (indent +:+ gap) partial
           /\ In (member_text gap k (Text.quote sentinel)) partial)
  /\ (forall inspect fields fuel (a : addr) k w,
         scalar_object (heap_obj (heap w) a) ->
         In k (own_enumerable_keys (heap_obj (heap w) a)) ->
         prop_result k (heap_obj (heap w) a) = Some VUndefined ->
         let gap := gap_of_space (jsonStringifySpace fields) in
         exists members,
           formatLogData (JsonLogFormatter inspect fields (S (S (S fuel)))) (VRef a) w
           = (Ok (VStr (assemble "{" "}" gap "" gap members)), w)
           /\ In (member_text gap k (Text.quote sentinel)) members)
  /\ formatLogData compact_formatter (VRef 0) undefined_world
     = (Ok (VStr undefined_line), undefined_world).
Proof.
  split; [intros; apply jsonReplacer_undefined |].
  split; [intros; apply serialize_undefined |].
  split; [reflexivity |].
  split; [apply undefined_member |].
  split; [| vm_compute; reflexivity].
  intros inspect fields fuel a k w Ho Hin Hk gap.
  eexists. split; [apply (formatLogData_scalar_object inspect fields fuel a w Ho) |].
  apply in_map_iff. exists k. split; [| exact Hin].
  unfold scalar_member. now rewrite Hk.
Qed.

Lemma undefined_is_rendered_as_sentinel_witness :
  exists members,
    formatLogData compact_formatter (VRef 0) undefined_world
    = (Ok (VStr (assemble "{" "}" "" "" "" members)), undefined_world)
    /\ In (member_text "" "notDefined" (Text.quote sentinel)) members.
Proof.
  destruct undefined_is_rendered_as_sentinel as (_ & _ & _ & _ & H & _).
  apply (H inspect_blank compact_fields 5%nat 0%nat "notDefined" undefined_world).
  - split; [reflexivity |]. split; [reflexivity |].
    repeat constructor; eexists; split; reflexivity.
  - vm_compute. right. left. reflexivity.
  - reflexivity.
Defined.
